(** * SYCL explicit-SIMD lowering and kernel entry synthesis

    A shallow embedding of the parts of [LowerESIMD.cpp] (the pass that
    rewrites [__esimd_*] and [__spirv_*] calls into [llvm.genx.*] calls) and of
    [clang/lib/Sema/SemaSYCL.cpp] (the visitor over a kernel object's bases and
    fields, its handlers, and the propagation of kernel attributes), with the
    properties the specification states about them. *)

From Stdlib Require Import Ascii String ZArith Lia.
From stdpp Require Import base numbers strings list gmap.

Local Open Scope string_scope.
Local Open Scope list_scope.
Local Open Scope Z_scope.

(** ** Outcomes of the compiler code

    [report_fatal_error] ends the compilation with a message.  A failed
    [assert] and [llvm_unreachable] abort a build with assertions enabled,
    which is the build modelled here. *)

Inductive Result (A : Type) : Type :=
| Ok (a : A)
| FatalError (msg : string)
| Unreachable (msg : string).
Arguments Ok {A} a.
Arguments FatalError {A} msg.
Arguments Unreachable {A} msg.

Definition rbind {A B} (m : Result A) (k : A -> Result B) : Result B :=
  match m with
  | Ok a => k a
  | FatalError msg => FatalError msg
  | Unreachable msg => Unreachable msg
  end.

Definition isOk {A} (m : Result A) : bool :=
  match m with Ok _ => true | _ => false end.

(** Two's complement views of a [w]-bit pattern. *)
Definition zextBits (w : Z) (v : Z) : Z := v mod 2 ^ w.
Definition sextBits (w : Z) (v : Z) : Z :=
  let u := v mod 2 ^ w in
  if decide (u < 2 ^ (w - 1)) then u else u - 2 ^ w.

(** [StringRef::startswith], [consume_front], [drop_front], [substr]. *)
Fixpoint startswith (s pre : string) : bool :=
  match pre, s with
  | EmptyString, _ => true
  | String c pre', String d s' => if Ascii.eqb c d then startswith s' pre' else false
  | String _ _, EmptyString => false
  end.

Fixpoint drop_front (n : nat) (s : string) : string :=
  match n, s with
  | O, _ => s
  | S n', String _ s' => drop_front n' s'
  | S _, EmptyString => EmptyString
  end.

Definition consume_front (s pre : string) : option string :=
  if startswith s pre then Some (drop_front (String.length pre) s) else None.

Definition substr (start n : nat) (s : string) : string :=
  String.substring 0 n (drop_front start s).

Definition isdigit (c : ascii) : bool :=
  let n := nat_of_ascii c in (48 <=? n)%nat && (n <=? 57)%nat.

Fixpoint drop_while (p : ascii -> bool) (s : string) : string :=
  match s with
  | EmptyString => EmptyString
  | String c s' => if p c then drop_while p s' else s
  end.

(** ** The explicit-SIMD lowering pass *)

Module LowerESIMD.

(** *** LLVM IR, as far as the pass reads and writes it *)

Inductive LType : Type :=
| VoidTy
| IntegerTy (bits : Z)
| HalfTy
| FloatTy
| DoubleTy
| PointerTy
| FixedVectorTy (elt : LType) (n : Z)
| OpaqueTy (name : string).

#[global] Instance LType_eq_dec : EqDecision LType.
Proof. solve_decision. Defined.

Definition isVectorTy (t : LType) : bool :=
  match t with FixedVectorTy _ _ => true | _ => false end.
Definition isPointerTy (t : LType) : bool :=
  match t with PointerTy => true | _ => false end.
Definition isIntegerTy (t : LType) : bool :=
  match t with IntegerTy _ => true | _ => false end.
Definition isFloatingPointTy (t : LType) : bool :=
  match t with HalfTy | FloatTy | DoubleTy => true | _ => false end.
Definition getScalarType (t : LType) : LType :=
  match t with FixedVectorTy e _ => e | _ => t end.
Definition isIntOrIntVectorTy (t : LType) : bool := isIntegerTy (getScalarType t).

Definition getPrimitiveSizeInBits (t : LType) : Z :=
  match t with
  | IntegerTy b => b
  | HalfTy => 16
  | FloatTy => 32
  | DoubleTy => 64
  | FixedVectorTy (IntegerTy b) n => b * n
  | FixedVectorTy HalfTy n => 16 * n
  | FixedVectorTy FloatTy n => 32 * n
  | FixedVectorTy DoubleTy n => 64 * n
  | _ => 0
  end.

(** An instruction is identified by [uid], the stand-in for its address; an
    operand that is the result of an instruction refers to it by that
    identifier. *)
Inductive Value : Type :=
| VInst (uid : nat) (ty : LType)
| VArgument (n : nat) (ty : LType)
| VConstantInt (ty : LType) (v : Z)
| VUndef (ty : LType)
| VNull (ty : LType).

#[global] Instance Value_eq_dec : EqDecision Value.
Proof. solve_decision. Defined.

Definition typeOf (v : Value) : LType :=
  match v with
  | VInst _ t | VArgument _ t | VConstantInt t _ | VUndef t | VNull t => t
  end.

Inductive Opcode : Type :=
| Call (callee : option string)
| ICmpNE
| PtrToInt
| Trunc
| ZExt
| SExt
| BitCast
| FPToUI
| FPToSI
| OtherCast
| ExtractElement
| Mul
| Add
| Load
| Store
| OtherOp (mnemonic : string).

#[global] Instance Opcode_eq_dec : EqDecision Opcode.
Proof. solve_decision. Defined.

Record Instruction : Type := mkInst {
  uid : nat;
  name : string;
  opcode : Opcode;
  operands : list Value;
  type : LType;
}.

#[global] Instance Instruction_eq_dec : EqDecision Instruction.
Proof. solve_decision. Defined.

Definition asValue (i : Instruction) : Value := VInst (uid i) (type i).

(** A function: whether it carries [!sycl_explicit_simd], its instruction
    stream, the next unused instruction identifier, and operands 3 and 4 of
    the [genx.kernels] node that [getSLMSizeMDNode] finds for it, if any. *)
Record Function : Type := mkFunction {
  sycl_explicit_simd : bool;
  instructions : list Instruction;
  nextId : nat;
  genx_kernel_md : option (Z * Z);
}.

Definition setInstructions (F : Function) (l : list Instruction) (n : nat) :
    Function :=
  mkFunction (sycl_explicit_simd F) l n (genx_kernel_md F).

Definition getArgOperand (CI : Instruction) (n : Z) : Result Value :=
  if decide (0 <= n) then
    match operands CI !! Z.to_nat n with
    | Some v => Ok v
    | None => Unreachable "getArgOperand() out of range!"
    end
  else Unreachable "getArgOperand() out of range!".

Definition getNumArgOperands (CI : Instruction) : Z := Z.of_nat (length (operands CI)).

(** *** The demangled name of a call

    The Itanium demangler is a library the pass calls; what the pass reads of
    its result is the kind of the root node, the base name, and the template
    arguments of the function name. *)

Inductive TemplateArg : Type :=
| IntegerLiteral (Type_ : string) (Value_ : Z)
| EnumLiteral (IntegerValue : Z)
| OtherTemplateArg.

Inductive NameNode : Type :=
| NameType (Name : string)
| NameWithTemplateArgs (Name : string) (TemplateArgs : list TemplateArg).

Inductive Node : Type :=
| FunctionEncoding (Name : NameNode)
| OtherNode.

Definition getBaseName (n : NameNode) : string :=
  match n with NameType s | NameWithTemplateArgs s _ => s end.

(** *** Rewrite rules *)

Definition ESIMD_INTRIN_PREF0 : string := "_Z".
Definition ESIMD_INTRIN_PREF1 : string := "__esimd_".
Definition SPIRV_INTRIN_PREF : string := "__spirv_".
Definition SLM_BTI : Z := 254.

Inductive GenXArgRuleKind : Type :=
| SRC_CALL_ARG | SRC_CALL_ALL | SRC_TMPL_ARG | NUM_BYTES | UNDEF
| CONST_INT16 | CONST_INT32 | CONST_INT64.

#[global] Instance GenXArgRuleKind_eq_dec : EqDecision GenXArgRuleKind.
Proof. solve_decision. Defined.

(** [enum GenXArgConversion], stored in the 16-bit field [Conv]. *)
Definition NONE : Z := 0.
Definition TO_I1 : Z := 1.
Definition TO_SI : Z := 2.

Inductive GenXSuffixRuleKind : Type := NO_RULE | BIN_OP | NUM_KIND.

(** [union Info] of an argument rule.  Every rule of the table is built by
    initialising the first member, the pair of 16-bit fields [Arg]; the other
    members ([NRemArgs], [TmplArgNo], [ArgConst]) are 32-bit views of the same
    four bytes, least significant half first. *)
Record Info : Type := mkInfo {
  CallArgNo : Z;
  Conv : Z;
}.

Definition bits32 (I : Info) : Z :=
  zextBits 16 (CallArgNo I) + 2 ^ 16 * zextBits 16 (Conv I).
Definition NRemArgs (I : Info) : Z := sextBits 32 (bits32 I).
Definition TmplArgNo (I : Info) : Z := bits32 I.
Definition ArgConst (I : Info) : Z := bits32 I.

Record ArgRule : Type := mkArgRule {
  Kind : GenXArgRuleKind;
  I : Info;
}.

Record NameRule : Type := mkNameRule {
  SuffixKind : GenXSuffixRuleKind;
  SuffixArgNo : Z;
}.

Record ESIMDIntrinDesc : Type := mkDesc {
  GenXSpelling : string;
  ArgRules : list ArgRule;
  SuffixRule : NameRule;
}.

Definition getNumGenXArgs (D : ESIMDIntrinDesc) : Z :=
  let NRules := Z.of_nat (length (ArgRules D)) in
  if decide (NRules = 0) then 0
  else
    match last (ArgRules D) with
    | Some R =>
        if decide (Kind R = SRC_CALL_ALL) then NRemArgs (I R) + (NRules - 1)
        else NRules
    | None => 0
    end.

Definition isValid (D : ESIMDIntrinDesc) : bool :=
  negb (String.eqb (GenXSpelling D) EmptyString).

Module ESIMDIntrinDescTable.

Definition rule (K : GenXArgRuleKind) (N : Z) : ArgRule :=
  mkArgRule K (mkInfo N 0).
Definition l := rule SRC_CALL_ALL.
Definition t := rule SRC_TMPL_ARG.
Definition u := rule UNDEF.
Definition nbs := rule NUM_BYTES.
Definition a (N : Z) : ArgRule := mkArgRule SRC_CALL_ARG (mkInfo N NONE).
Definition ai1 (N : Z) : ArgRule := mkArgRule SRC_CALL_ARG (mkInfo N TO_I1).
Definition aSI (N : Z) : ArgRule := mkArgRule SRC_CALL_ARG (mkInfo N TO_SI).
Definition c16 := rule CONST_INT16.
Definition c32 := rule CONST_INT32.
Definition c64 := rule CONST_INT64.
Definition bo (N : Z) : NameRule := mkNameRule BIN_OP N.
Definition nk (N : Z) : NameRule := mkNameRule NUM_KIND N.
Definition no_rule : NameRule := mkNameRule NO_RULE 0.

Definition d (spelling : string) (rules : list ArgRule) : ESIMDIntrinDesc :=
  mkDesc spelling rules no_rule.
Definition ds (spelling : string) (rules : list ArgRule) (s : NameRule) :
  ESIMDIntrinDesc := mkDesc spelling rules s.

Definition entries : list (string * ESIMDIntrinDesc) :=
  [ ("rdregion", ds "rdregion" [a 0; t 3; t 4; t 5; a 1; t 6] (nk (-1)));
    ("wrregion",
     ds "wrregion" [a 0; a 1; t 3; t 4; t 5; a 2; t 6; ai1 3] (nk (-1)));
    ("vload", d "vload" [l 0]);
    ("vstore", d "vstore" [a 1; a 0]);
    ("flat_block_read_unaligned", d "svm.block.ld.unaligned" [l 0]);
    ("flat_block_write", d "svm.block.st" [l 1]);
    ("flat_read", d "svm.gather" [ai1 2; a 1; a 0; u (-1)]);
    ("flat_read4",
     d "svm.gather4.scaled" [ai1 1; t 2; c16 0; c64 0; a 0; u (-1)]);
    ("flat_write", d "svm.scatter" [ai1 3; a 2; a 0; a 1]);
    ("flat_write4",
     d "svm.scatter4.scaled" [ai1 2; t 2; c16 0; c64 0; a 0; a 1]);
    ("surf_read", d "gather.scaled2" [t 3; c16 0; aSI 1; a 2; a 3]);
    ("surf_write",
     d "scatter.scaled" [ai1 0; t 3; c16 0; aSI 2; a 3; a 4; a 5]);
    ("group_id_x", d "group.id.x" []);
    ("group_id_y", d "group.id.y" []);
    ("group_id_z", d "group.id.z" []);
    ("local_id", d "local.id" []);
    ("local_size", d "local.size" []);
    ("flat_atomic0", ds "svm.atomic" [ai1 1; a 0; u (-1)] (bo 0));
    ("flat_atomic1", ds "svm.atomic" [ai1 2; a 0; a 1; u (-1)] (bo 0));
    ("flat_atomic2", ds "svm.atomic" [ai1 3; a 0; a 1; a 2; u (-1)] (bo 0));
    ("reduced_fmax", d "fmax" [a 0; a 1]);
    ("reduced_umax", d "umax" [a 0; a 1]);
    ("reduced_smax", d "smax" [a 0; a 1]);
    ("reduced_fmin", d "fmin" [a 0; a 1]);
    ("reduced_umin", d "umin" [a 0; a 1]);
    ("reduced_smin", d "smin" [a 0; a 1]);
    ("dp4", d "dp4" [a 0; a 1]);
    ("media_block_load", d "media.ld" [a 0; aSI 1; a 2; a 3; a 4; a 5]);
    ("media_block_store",
     d "media.st" [a 0; aSI 1; a 2; a 3; a 4; a 5; a 6]);
    ("slm_fence", d "fence" [a 0]);
    ("barrier", d "barrier" []);
    ("block_read", d "oword.ld.unaligned" [c32 0; aSI 0; a 1]);
    ("block_write", d "oword.st" [aSI 0; a 1; a 2]);
    ("slm_block_read", d "oword.ld.unaligned" [c32 0; c32 SLM_BTI; a 0]);
    ("slm_block_write", d "oword.st" [c32 SLM_BTI; a 0; a 1]);
    ("slm_read",
     d "gather.scaled"
       [ai1 1; nbs (-1); c16 0; c32 SLM_BTI; c32 0; a 0; u (-1)]);
    ("slm_read4",
     d "gather4.scaled"
       [ai1 1; t 2; c16 0; c32 SLM_BTI; c32 0; a 0; u (-1)]);
    ("slm_write",
     d "scatter.scaled"
       [ai1 2; nbs 1; c16 0; c32 SLM_BTI; c32 0; a 0; a 1]);
    ("slm_write4",
     d "scatter4.scaled"
       [ai1 2; t 2; c16 0; c32 SLM_BTI; c32 0; a 0; a 1]);
    ("slm_atomic0",
     ds "dword.atomic" [ai1 1; c32 SLM_BTI; a 0; u (-1)] (bo 0));
    ("slm_atomic1",
     ds "dword.atomic" [ai1 2; c32 SLM_BTI; a 0; a 1; u (-1)] (bo 0));
    ("slm_atomic2",
     ds "dword.atomic" [ai1 3; c32 SLM_BTI; a 0; a 1; a 2; u (-1)] (bo 0));
    ("raw_sends_load",
     d "raw.sends2"
       [a 0; a 1; ai1 2; a 3; a 4; a 5; a 6; a 7; a 8; a 9; a 10; a 11]);
    ("raw_send_load",
     d "raw.send2" [a 0; a 1; ai1 2; a 3; a 4; a 5; a 6; a 7; a 8; a 9]);
    ("raw_sends_store",
     d "raw.sends2.noresult"
       [a 0; a 1; ai1 2; a 3; a 4; a 5; a 6; a 7; a 8; a 9]);
    ("raw_send_store",
     d "raw.send2.noresult" [a 0; a 1; ai1 2; a 3; a 4; a 5; a 6; a 7]);
    ("satf", d "sat" [a 0]);
    ("fptoui_sat", d "fptoui.sat" [a 0]);
    ("fptosi_sat", d "fptosi.sat" [a 0]);
    ("uutrunc_sat", d "uutrunc.sat" [a 0]);
    ("ustrunc_sat", d "ustrunc.sat" [a 0]);
    ("sutrunc_sat", d "sutrunc.sat" [a 0]);
    ("sstrunc_sat", d "sstrunc.sat" [a 0]);
    ("abs", ds "abs" [a 0] (nk (-1)));
    ("ssshl", d "ssshl" [a 0; a 1]);
    ("sushl", d "sushl" [a 0; a 1]);
    ("usshl", d "usshl" [a 0; a 1]);
    ("uushl", d "uushl" [a 0; a 1]);
    ("ssshl_sat", d "ssshl.sat" [a 0; a 1]);
    ("sushl_sat", d "sushl.sat" [a 0; a 1]);
    ("usshl_sat", d "usshl.sat" [a 0; a 1]);
    ("uushl_sat", d "uushl.sat" [a 0; a 1]);
    ("rol", d "rol" [a 0; a 1]);
    ("ror", d "ror" [a 0; a 1]);
    ("umulh", d "umulh" [a 0; a 1]);
    ("smulh", d "smulh" [a 0; a 1]);
    ("frc", d "frc" [a 0]);
    ("fmax", d "fmax" [a 0; a 1]);
    ("umax", d "umax" [a 0; a 1]);
    ("smax", d "smax" [a 0; a 1]);
    ("lzd", d "lzd" [a 0]);
    ("fmin", d "fmin" [a 0; a 1]);
    ("umin", d "umin" [a 0; a 1]);
    ("smin", d "smin" [a 0; a 1]);
    ("bfrev", d "bfrev" [a 0]);
    ("cbit", d "cbit" [a 0]);
    ("bfins", d "bfi" [a 0; a 1; a 2; a 3]);
    ("bfext", d "sbfe" [a 0; a 1; a 2]);
    ("fbl", d "fbl" [a 0]);
    ("sfbh", d "sfbh" [a 0]);
    ("ufbh", d "ufbh" [a 0]);
    ("inv", d "inv" [a 0]);
    ("log", d "log" [a 0]);
    ("exp", d "exp" [a 0]);
    ("sqrt", d "sqrt" [a 0]);
    ("sqrt_ieee", d "ieee.sqrt" [a 0]);
    ("rsqrt", d "rsqrt" [a 0]);
    ("sin", d "sin" [a 0]);
    ("cos", d "cos" [a 0]);
    ("pow", d "pow" [a 0; a 1]);
    ("div_ieee", d "ieee.div" [a 0; a 1]);
    ("dp4a", d "dp4a" [a 0; a 1; a 2]);
    ("any", d "any" [ai1 0]);
    ("all", d "all" [ai1 0]) ].

Definition Table : gmap string ESIMDIntrinDesc := list_to_map entries.

End ESIMDIntrinDescTable.

Definition getIntrinTable : gmap string ESIMDIntrinDesc :=
  ESIMDIntrinDescTable.Table.

Definition getIntrinDesc (SrcSpelling : string) : Result ESIMDIntrinDesc :=
  match getIntrinTable !! SrcSpelling with
  | None => FatalError ("unknown ESIMD intrinsic: " +:+ SrcSpelling)
  | Some D => Ok D
  end.

(** *** Template arguments of the demangled name *)

Definition parsePrimitiveTypeString (TyStr : string) : option LType :=
  if String.eqb TyStr "bool" then Some (IntegerTy 1)
  else if String.eqb TyStr "char" then Some (IntegerTy 8)
  else if String.eqb TyStr "unsigned char" then Some (IntegerTy 8)
  else if String.eqb TyStr "short" then Some (IntegerTy 16)
  else if String.eqb TyStr "unsigned short" then Some (IntegerTy 16)
  else if String.eqb TyStr "int" then Some (IntegerTy 32)
  else if String.eqb TyStr "unsigned int" then Some (IntegerTy 32)
  else if String.eqb TyStr "unsigned" then Some (IntegerTy 32)
  else if String.eqb TyStr "unsigned long long" then Some (IntegerTy 64)
  else if String.eqb TyStr "long long" then Some (IntegerTy 64)
  else if String.eqb TyStr "float" then Some FloatTy
  else if String.eqb TyStr "double" then Some DoubleTy
  else if String.eqb TyStr "void" then Some VoidTy
  else None.

(** [llvm::APInt]: a bit width and the bits as an unsigned number. *)
Record APInt : Type := mkAPInt {
  BitWidth : Z;
  Bits : Z;
}.

Definition getSExtValue (x : APInt) : Z := sextBits (BitWidth x) (Bits x).
Definition getZExtValue (x : APInt) : Z := zextBits (BitWidth x) (Bits x).

Definition makeAPInt (Ty : option LType) (Val : Z) : Result (APInt * LType) :=
  match Ty with
  | None => Unreachable "null type of a template argument"
  | Some T =>
      let w := getPrimitiveSizeInBits T in
      if decide (0 < w) then Ok (mkAPInt w (zextBits w Val), T)
      else Unreachable "bitwidth too small"
  end.

Definition parseTemplateArg (FE : NameNode) (N : Z) : Result (APInt * LType) :=
  match FE with
  | NameType _ => Unreachable "unexpected demangler node kind"
  | NameWithTemplateArgs _ Args =>
      if decide (0 <= N < Z.of_nat (length Args)) then
        match Args !! Z.to_nat N with
        | Some (IntegerLiteral TyStr Val) =>
            makeAPInt (if String.eqb TyStr EmptyString then Some (IntegerTy 32)
                       else parsePrimitiveTypeString TyStr) Val
        | Some (EnumLiteral Val) => makeAPInt (Some (IntegerTy 32)) Val
        | _ => Unreachable "bad esimd intrinsic template parameter"
        end
      else Unreachable "too few template arguments"
  end.

(** *** Name suffix of the target intrinsic *)

Record FunctionType : Type := mkFunctionType {
  getReturnType : LType;
  params : list LType;
}.

Definition getParamType (FT : FunctionType) (No : Z) : Result LType :=
  if decide (0 <= No) then
    match params FT !! Z.to_nat No with
    | Some T => Ok T
    | None => Unreachable "getParamType() out of range!"
    end
  else Unreachable "getParamType() out of range!".

(** The inner [switch (OpId.getSExtValue())] of the [BIN_OP] rule. *)
Definition binOpSuffix (OpId : Z) : Result string :=
  if decide (OpId = 0x0) then Ok ".add"
  else if decide (OpId = 0x1) then Ok ".sub"
  else if decide (OpId = 0x2) then Ok ".inc"
  else if decide (OpId = 0x3) then Ok ".dec"
  else if decide (OpId = 0x4) then Ok ".min"
  else if decide (OpId = 0x5) then Ok ".max"
  else if decide (OpId = 0x6) then Ok ".xchg"
  else if decide (OpId = 0x7) then Ok ".cmpxchg"
  else if decide (OpId = 0x8) then Ok ".and"
  else if decide (OpId = 0x9) then Ok ".or"
  else if decide (OpId = 0xa) then Ok ".xor"
  else if decide (OpId = 0xb) then Ok ".minsint"
  else if decide (OpId = 0xc) then Ok ".maxsint"
  else if decide (OpId = 0x10) then Ok ".fmax"
  else if decide (OpId = 0x11) then Ok ".fmin"
  else if decide (OpId = 0x12) then Ok ".fcmpwr"
  else if decide (OpId = 0xff) then Ok ".predec"
  else Unreachable "unknown atomic OP".

Definition getESIMDIntrinSuffix (FE : NameNode) (FT : FunctionType)
    (Rule : NameRule) : Result string :=
  match SuffixKind Rule with
  | BIN_OP =>
      rbind (parseTemplateArg FE (zextBits 32 (SuffixArgNo Rule)))
        (fun '(OpId, _) => binOpSuffix (getSExtValue OpId))
  | NUM_KIND =>
      let No := SuffixArgNo Rule in
      rbind (if decide (No = -1) then Ok (getReturnType FT)
             else getParamType FT No)
        (fun Ty =>
           let Ty := getScalarType Ty in
           if isFloatingPointTy Ty || isIntegerTy Ty then
             Ok (if isFloatingPointTy Ty then "f" else "i")
           else Unreachable "Ty->isFloatingPointTy() || Ty->isIntegerTy()")
  | NO_RULE => Ok EmptyString
  end.

(** *** Building instructions in front of a call

    The pass edits the function in place; here the function is threaded
    through, and an abort ends the computation. *)

Definition M (A : Type) : Type := Function -> Result (A * Function).

Definition retM {A} (a : A) : M A := fun F => Ok (a, F).
Definition bindM {A B} (m : M A) (k : A -> M B) : M B :=
  fun F => rbind (m F) (fun '(a, F') => k a F').
Definition liftM {A} (r : Result A) : M A :=
  fun F => rbind r (fun a => Ok (a, F)).
Definition assertM (b : bool) (msg : string) : M unit :=
  if b then retM tt else liftM (Unreachable msg).

Notation "'letM' x := m 'in' k" := (bindM m (fun x => k))
  (at level 10, x name, m at level 100, k at level 200).
Notation "m >>; k" := (bindM m (fun _ => k))
  (at level 100, k at level 200, right associativity).

Fixpoint insert_before (u : nat) (i : Instruction) (l : list Instruction) :
    list Instruction :=
  match l with
  | [] => [i]
  | j :: l' => if decide (uid j = u) then i :: j :: l' else j :: insert_before u i l'
  end.

(** [Op::Create(..., &CI)] and the [IRBuilder] positioned at [CI]: a new
    instruction in front of [CI]. *)
Definition createBefore (CI : Instruction) (nm : string) (op : Opcode)
    (ops : list Value) (ty : LType) : M Value :=
  fun F =>
    let i := mkInst (nextId F) nm op ops ty in
    Ok (asValue i,
        setInstructions F (insert_before (uid CI) i (instructions F))
          (S (nextId F))).

Definition replaceValue (old : nat) (new : Value) (v : Value) : Value :=
  match v with
  | VInst u _ => if decide (u = old) then new else v
  | _ => v
  end.

Definition replaceAllUsesWith (CI : Instruction) (new : Value) : M unit :=
  fun F =>
    Ok (tt,
        setInstructions F
          (map (fun i => mkInst (uid i) (name i) (opcode i)
                           (map (replaceValue (uid CI) new) (operands i))
                           (type i))
             (instructions F))
          (nextId F)).

Definition eraseFromParent (u : nat) : M unit :=
  fun F =>
    Ok (tt,
        setInstructions F (filter (fun i => uid i <> u) (instructions F))
          (nextId F)).

Definition setName (v : Value) (nm : string) : M unit :=
  fun F =>
    Ok (tt,
        setInstructions F
          (map (fun i => if decide (VInst (uid i) (type i) = v)
                         then mkInst (uid i) nm (opcode i) (operands i) (type i)
                         else i)
             (instructions F))
          (nextId F)).

Definition isConstant (v : Value) : bool :=
  match v with VConstantInt _ _ | VUndef _ | VNull _ => true | _ => false end.

Definition vectorOf (like : LType) (elt : LType) : LType :=
  match like with FixedVectorTy _ n => FixedVectorTy elt n | _ => elt end.

(** [IRBuilder::CreateICmp(ICMP_NE, Arg, Zero)]: folded when [Arg] is a
    constant, an instruction otherwise. *)
Definition CreateICmpNE (CI : Instruction) (Arg Zero : Value) : M Value :=
  let ResTy := vectorOf (typeOf Arg) (IntegerTy 1) in
  match Arg with
  | VConstantInt _ v => retM (VConstantInt ResTy (if decide (v = 0) then 0 else 1))
  | VNull _ => retM (VConstantInt ResTy 0)
  | VUndef _ => retM (VUndef ResTy)
  | _ => createBefore CI EmptyString ICmpNE [Arg; Zero] ResTy
  end.

(** [IRBuilder::CreateCast]: the operand itself when the type is already
    the wanted one, a folded constant for a constant, an instruction
    otherwise. *)
Definition CreateCast (CI : Instruction) (op : Opcode) (V : Value)
    (DestTy : LType) : M Value :=
  if decide (typeOf V = DestTy) then retM V
  else
    match V with
    | VConstantInt _ v =>
        retM (VConstantInt DestTy (zextBits (getPrimitiveSizeInBits DestTy) v))
    | VNull _ => retM (VNull DestTy)
    | VUndef _ => retM (VUndef DestTy)
    | _ => createBefore CI EmptyString op [V] DestTy
    end.

(** *** Arguments of the target call *)

Definition ruleArgType (CI : Instruction) (R : ArgRule) : Result LType :=
  if decide (sextBits 16 (CallArgNo (I R)) = -1) then Ok (type CI)
  else rbind (getArgOperand CI (zextBits 32 (sextBits 16 (CallArgNo (I R)))))
         (fun v => Ok (typeOf v)).

Definition createESIMDIntrinsicArg (CI : Instruction) (FE : NameNode)
    (Rule : ArgRule) (GenXArgs : list Value) (LastCppArgNo : Z) :
    M (list Value * Z) :=
  match Kind Rule with
  | SRC_CALL_ARG =>
      let No := zextBits 32 (sextBits 16 (CallArgNo (I Rule))) in
      letM Arg := liftM (getArgOperand CI No) in
      letM New :=
        (if decide (sextBits 16 (Conv (I Rule)) = NONE) then retM Arg
         else if decide (sextBits 16 (Conv (I Rule)) = TO_I1) then
           assertM (isIntOrIntVectorTy (typeOf Arg)) "NTy->isIntOrIntVectorTy()" >>;
           CreateICmpNE CI Arg (VConstantInt (typeOf Arg) 0)
         else if decide (sextBits 16 (Conv (I Rule)) = TO_SI) then
           assertM (isPointerTy (typeOf Arg)) "Arg->getType()->isPointerTy()" >>;
           CreateCast CI PtrToInt Arg (IntegerTy 32)
         else liftM (Unreachable "Unknown ESIMD arg conversion")) in
      retM (GenXArgs ++ [New], No)
  | SRC_CALL_ALL =>
      assertM (bool_decide (LastCppArgNo < getNumArgOperands CI))
        "LastCppArgNo < CI.getNumArgOperands()" >>;
      retM (GenXArgs ++ drop (Z.to_nat LastCppArgNo) (operands CI), LastCppArgNo)
  | SRC_TMPL_ARG =>
      letM p := liftM (parseTemplateArg FE (TmplArgNo (I Rule))) in
      let '(Val, Ty) := p in
      assertM (isIntegerTy Ty) "ConstantInt of a type that is no integer" >>;
      retM (GenXArgs ++
              [VConstantInt Ty (zextBits (getPrimitiveSizeInBits Ty)
                                  (getSExtValue Val))],
            LastCppArgNo)
  | NUM_BYTES =>
      letM Ty := liftM (ruleArgType CI Rule) in
      assertM (isVectorTy Ty) "Ty->isVectorTy()" >>;
      let NBits := getPrimitiveSizeInBits (getScalarType Ty) in
      assertM (bool_decide (NBits = 8 \/ NBits = 16 \/ NBits = 32))
        "NBits == 8 || NBits == 16 || NBits == 32" >>;
      let NWords := NBits `quot` 16 in
      retM (GenXArgs ++ [VConstantInt (IntegerTy 32) NWords], LastCppArgNo)
  | UNDEF =>
      letM Ty := liftM (ruleArgType CI Rule) in
      retM (GenXArgs ++ [VUndef Ty], LastCppArgNo)
  | CONST_INT16 =>
      retM (GenXArgs ++ [VConstantInt (IntegerTy 16) (zextBits 16 (ArgConst (I Rule)))],
            LastCppArgNo)
  | CONST_INT32 =>
      retM (GenXArgs ++ [VConstantInt (IntegerTy 32) (zextBits 32 (ArgConst (I Rule)))],
            LastCppArgNo)
  | CONST_INT64 =>
      retM (GenXArgs ++ [VConstantInt (IntegerTy 64) (zextBits 64 (ArgConst (I Rule)))],
            LastCppArgNo)
  end.

Fixpoint createESIMDIntrinsicArgsFrom (CI : Instruction) (FE : NameNode)
    (Rules : list ArgRule) (GenXArgs : list Value) (LastCppArgNo : Z) :
    M (list Value) :=
  match Rules with
  | [] => retM GenXArgs
  | Rule :: Rules' =>
      letM st := createESIMDIntrinsicArg CI FE Rule GenXArgs LastCppArgNo in
      createESIMDIntrinsicArgsFrom CI FE Rules' st.1 st.2
  end.

Definition createESIMDIntrinsicArgs (Desc : ESIMDIntrinDesc)
    (GenXArgs : list Value) (CI : Instruction) (FE : NameNode) :
    M (list Value) :=
  createESIMDIntrinsicArgsFrom CI FE (ArgRules Desc) GenXArgs 0.

(** *** Translation of one call *)

(** [CastInst::getCastOpcode(NewI, false, OITy, false)] between first-class
    types, both taken as unsigned. *)
Definition getCastOpcode (SrcTy DestTy : LType) : Opcode :=
  let S := getScalarType SrcTy in
  let D := getScalarType DestTy in
  if isIntegerTy D then
    if isIntegerTy S then
      if decide (getPrimitiveSizeInBits D < getPrimitiveSizeInBits S) then Trunc
      else if decide (getPrimitiveSizeInBits D > getPrimitiveSizeInBits S) then ZExt
      else BitCast
    else if isFloatingPointTy S then FPToUI
    else if isPointerTy S then PtrToInt
    else BitCast
  else OtherCast.

Definition addCastInstIfNeeded (OldI : Instruction) (NewI : Value)
    (NewName : string) : M Value :=
  if decide (type OldI = typeOf NewI) then retM NewI
  else createBefore OldI (NewName +:+ ".cast.ty")
         (getCastOpcode (typeOf NewI) (type OldI)) [NewI] (type OldI).

Definition getFunctionType (CI : Instruction) : FunctionType :=
  mkFunctionType (type CI) (map typeOf (operands CI)).

Definition getCalledFunction (CI : Instruction) : option string :=
  match opcode CI with Call callee => callee | _ => None end.

Section Collaborators.

(** The Itanium demangler ([None]: the name does not parse, or forward
    template references are left), and what the GenX intrinsic library tells
    about the intrinsic of a given full name. *)
Variable Parser_parse : string -> option Node.
Variable isOverloadedRet : string -> bool.
Variable isOverloadedArg : string -> nat -> bool.
Variable getDeclarationReturnType : string -> list LType -> LType.

Definition getGenXIntrinsicPrefix : string := "llvm.genx.".

Definition demangleIntrinsic (MnglName : string) : Result NameNode :=
  match Parser_parse MnglName with
  | None => FatalError ("failed to demangle ESIMD intrinsic: " +:+ MnglName)
  | Some (FunctionEncoding FE) => Ok FE
  | Some OtherNode => FatalError ("bad ESIMD intrinsic: " +:+ MnglName)
  end.

Fixpoint overloadedArgTypes (ID : string) (i : nat) (Args : list Value) :
    list LType :=
  match Args with
  | [] => []
  | A :: Args' =>
      (if isOverloadedArg ID i then [typeOf A] else [])
        ++ overloadedArgTypes ID (S i) Args'
  end.

Definition translateESIMDIntrinsicCall (CI : Instruction) : M unit :=
  match getCalledFunction CI with
  | None => liftM (Unreachable "function to translate is invalid")
  | Some MnglName =>
      letM FE := liftM (demangleIntrinsic MnglName) in
      let BaseNameV := getBaseName FE in
      let PrefLen := String.length ESIMD_INTRIN_PREF1 in
      let BaseName := drop_front PrefLen BaseNameV in
      letM Desc := liftM (getIntrinDesc BaseName) in
      if negb (isValid Desc) then retM tt
      else
        let FTy := getFunctionType CI in
        letM Suffix := liftM (getESIMDIntrinSuffix FE FTy (SuffixRule Desc)) in
        let ID := getGenXIntrinsicPrefix +:+ GenXSpelling Desc +:+ Suffix in
        letM GenXArgs := createESIMDIntrinsicArgs Desc [] CI FE in
        let GenXOverloadedTypes :=
          (if isOverloadedRet ID then [type CI] else [])
            ++ overloadedArgTypes ID 0 GenXArgs in
        let RetTy := getDeclarationReturnType ID GenXOverloadedTypes in
        let NewName :=
          if decide (RetTy = VoidTy) then EmptyString else name CI +:+ ".esimd" in
        letM NewCI := createBefore CI NewName (Call (Some ID)) GenXArgs RetTy in
        letM NewCI' := addCastInstIfNeeded CI NewCI NewName in
        replaceAllUsesWith CI NewCI' >>;
        eraseFromParent (uid CI)
  end.

(** *** Calls rewritten outside the table *)

Definition translatePackMask (CI : Instruction) : M unit :=
  match getCalledFunction CI with
  | None => liftM (Unreachable "function to translate is invalid")
  | Some MnglName =>
      letM FE := liftM (demangleIntrinsic MnglName) in
      letM p := liftM (parseTemplateArg FE 0) in
      let N := zextBits 32 (getZExtValue p.1) in
      letM Arg0 := liftM (getArgOperand CI 0) in
      letM Trunc_ := CreateCast CI Trunc Arg0 (FixedVectorTy (IntegerTy 1) N) in
      letM BitCast_ := CreateCast CI BitCast Trunc_ (IntegerTy N) in
      letM Result_ :=
        (if decide (N <> 32) then CreateCast CI ZExt BitCast_ (IntegerTy 32)
         else retM BitCast_) in
      setName Result_ (name CI) >>;
      assertM (match Result_ with VInst _ _ => true | _ => false end)
        "cast<Instruction>(Result)" >>;
      replaceAllUsesWith CI Result_
  end.

Definition translateUnPackMask (CI : Instruction) : M unit :=
  match getCalledFunction CI with
  | None => liftM (Unreachable "function to translate is invalid")
  | Some MnglName =>
      letM FE := liftM (demangleIntrinsic MnglName) in
      letM p := liftM (parseTemplateArg FE 0) in
      let N := zextBits 32 (getZExtValue p.1) in
      assertM (bool_decide (getNumArgOperands CI = 1))
        "CI.getNumArgOperands() == 1" >>;
      letM Arg0 := liftM (getArgOperand CI 0) in
      let Width := getPrimitiveSizeInBits (typeOf Arg0) in
      letM Arg0' :=
        (if decide (Width > N) then
           letM T := CreateCast CI Trunc Arg0 (IntegerTy N) in
           assertM (match T with VInst _ _ => true | _ => false end)
             "cast<Instruction>(Arg0)" >>;
           retM T
         else retM Arg0) in
      assertM (bool_decide (getPrimitiveSizeInBits (typeOf Arg0') = N))
        "Arg0->getType()->getPrimitiveSizeInBits() == N" >>;
      letM Arg0'' := CreateCast CI BitCast Arg0' (FixedVectorTy (IntegerTy 1) N) in
      letM TransCI := CreateCast CI ZExt Arg0'' (FixedVectorTy (IntegerTy 16) N) in
      setName TransCI (name CI) >>;
      assertM (match TransCI with VInst _ _ => true | _ => false end)
        "cast<Instruction>(TransCI)" >>;
      replaceAllUsesWith CI TransCI
  end.

Definition translateVLoad (CI : Instruction) (GVTS : list LType) : M bool :=
  if bool_decide (type CI ∈ GVTS) then retM false
  else
    letM Ptr := liftM (getArgOperand CI 0) in
    letM LI := createBefore CI (name CI) Load [Ptr] (type CI) in
    replaceAllUsesWith CI LI >>;
    retM true.

Definition translateVStore (CI : Instruction) (GVTS : list LType) : M bool :=
  letM Op1 := liftM (getArgOperand CI 1) in
  if bool_decide (typeOf Op1 ∈ GVTS) then retM false
  else
    letM Op0 := liftM (getArgOperand CI 0) in
    letM SI := createBefore CI EmptyString Store [Op1; Op0] VoidTy in
    retM true.

Definition translateGetValue (CI : Instruction) : M unit :=
  letM opnd := liftM (getArgOperand CI 0) in
  assertM (isPointerTy (typeOf opnd)) "opnd->getType()->isPointerTy()" >>;
  letM SV := CreateCast CI PtrToInt opnd (IntegerTy 32) in
  assertM (match SV with VInst _ _ => true | _ => false end)
    "cast<CastInst>(SV)" >>;
  replaceAllUsesWith CI SV.

Definition translateSLMInit (CI : Instruction) : M unit :=
  letM ArgV := liftM (getArgOperand CI 0) in
  match ArgV with
  | VConstantInt _ NewVal =>
      assertM (bool_decide (NewVal <> 0)) "zero slm bytes being requested" >>;
      fun F =>
        match genx_kernel_md F with
        | Some (Op3, Op4) =>
            let OldVal := Op4 in
            if decide (OldVal < NewVal) then
              Ok (tt, mkFunction (sycl_explicit_simd F) (instructions F)
                        (nextId F) (Some (NewVal, Op4)))
            else Ok (tt, F)
        | None => Unreachable "slm_init shall be called by a kernel"
        end
  | _ => liftM (Unreachable "integral constant expected for slm size")
  end.

(** *** Work-item queries of the [__spirv_] name space *)

Definition getIndexForSuffix (Suff : string) : Z :=
  if String.eqb Suff "x" then 0
  else if String.eqb Suff "y" then 1
  else if String.eqb Suff "z" then 2
  else -1.

Definition generateVectorGenXForSpirv (CI : Instruction) (Suff : string)
    (IntrinName : string) (ValueName : string) : M Value :=
  let IntrName := getGenXIntrinsicPrefix +:+ IntrinName in
  let I32Ty := IntegerTy 32 in
  let RetTy := getDeclarationReturnType IntrName [FixedVectorTy I32Ty 3] in
  letM IntrI := createBefore CI (name CI +:+ ".esimd") (Call (Some IntrName)) [] RetTy in
  let ExtractIndex := getIndexForSuffix Suff in
  assertM (bool_decide (ExtractIndex <> -1)) "Extract index is invalid." >>;
  let ExtractName := ValueName +:+ Suff in
  letM ExtrI := createBefore CI ExtractName ExtractElement
                  [IntrI; VConstantInt I32Ty ExtractIndex] (getScalarType RetTy) in
  addCastInstIfNeeded CI ExtrI ExtractName.

Definition generateGenXForSpirv (CI : Instruction) (Suff : string)
    (IntrinName : string) : M Value :=
  let IntrName := getGenXIntrinsicPrefix +:+ IntrinName +:+ Suff in
  let RetTy := getDeclarationReturnType IntrName [] in
  letM IntrI := createBefore CI (IntrinName +:+ Suff) (Call (Some IntrName)) [] RetTy in
  addCastInstIfNeeded CI IntrI (IntrinName +:+ Suff).

(** The lambda [translateSpirvIntr]: the name and the list of instructions
    to erase are captured by reference. *)
Definition translateSpirvIntr (CI : Instruction) (SpvIName : string)
    (TranslateFunc : Instruction -> string -> M Value)
    (st : string * list nat) : M (string * list nat) :=
  let '(SpirvIntrName, ESIMDToErases) := st in
  match consume_front SpirvIntrName SpvIName with
  | Some Rest =>
      letM TranslatedV := TranslateFunc CI (substr 1 1 Rest) in
      replaceAllUsesWith CI TranslatedV >>;
      retM (Rest, ESIMDToErases ++ [uid CI])
  | None => retM st
  end.

Definition translateGlobalInvocationId (CI : Instruction) (Suff : string) :
    M Value :=
  letM LocalIdI := generateVectorGenXForSpirv CI Suff "local.id.v3i32" "local_id." in
  letM WGSizeI := generateVectorGenXForSpirv CI Suff "local.size.v3i32" "wgsize." in
  letM GroupIdI := generateGenXForSpirv CI Suff "group.id." in
  letM MulI := createBefore CI "mul" Mul [WGSizeI; GroupIdI] (typeOf WGSizeI) in
  createBefore CI "add" Add [LocalIdI; MulI] (typeOf LocalIdI).

Definition translateGlobalSize (CI : Instruction) (Suff : string) : M Value :=
  letM WGSizeI := generateVectorGenXForSpirv CI Suff "local.size.v3i32" "wgsize." in
  letM NumWGI := generateVectorGenXForSpirv CI Suff "group.count.v3i32" "group_count." in
  createBefore CI "mul" Mul [WGSizeI; NumWGI] (typeOf WGSizeI).

Definition translateSpirvIntrinsic (CI : Instruction) (SpirvIntrName : string)
    (ESIMDToErases : list nat) : M (list nat) :=
  letM st := translateSpirvIntr CI "WorkgroupSize"
    (fun CI Suff => generateVectorGenXForSpirv CI Suff "local.size.v3i32" "wgsize.")
    (SpirvIntrName, ESIMDToErases) in
  letM st := translateSpirvIntr CI "LocalInvocationId"
    (fun CI Suff => generateVectorGenXForSpirv CI Suff "local.id.v3i32" "local_id.")
    st in
  letM st := translateSpirvIntr CI "WorkgroupId"
    (fun CI Suff => generateGenXForSpirv CI Suff "group.id.") st in
  letM st := translateSpirvIntr CI "GlobalInvocationId"
    translateGlobalInvocationId st in
  letM st := translateSpirvIntr CI "GlobalSize" translateGlobalSize st in
  letM st := translateSpirvIntr CI "GlobalOffset"
    (fun CI Suff => retM (VNull (type CI))) st in
  letM st := translateSpirvIntr CI "NumWorkgroups"
    (fun CI Suff => generateVectorGenXForSpirv CI Suff "group.count.v3i32" "group_count.")
    st in
  retM st.2.

(** *** The pass *)

Inductive PreservedAnalyses : Type := all | none.

Definition getInst (u : nat) (F : Function) : option Instruction :=
  List.find (fun i => bool_decide (uid i = u)) (instructions F).

Record Worklists : Type := mkWorklists {
  ESIMDIntrCalls : list nat;
  ESIMDToErases : list nat;
}.

Definition lowerCast (CastOp : Instruction) (W : Worklists) : M Worklists :=
  let DstTy := type CastOp in
  let Bits := getPrimitiveSizeInBits (getScalarType DstTy) in
  if bool_decide (opcode CastOp = FPToUI /\ Bits <= 32)
     || bool_decide (opcode CastOp = FPToSI /\ Bits < 32) then
    letM Src := liftM (getArgOperand CastOp 0) in
    match DstTy with
    | FixedVectorTy _ n =>
        letM Src' := CreateCast CastOp FPToSI Src (FixedVectorTy (IntegerTy 32) n) in
        letM NewDst := CreateCast CastOp Trunc Src' DstTy in
        replaceAllUsesWith CastOp NewDst >>;
        retM (mkWorklists (ESIMDIntrCalls W) (ESIMDToErases W ++ [uid CastOp]))
    | _ => liftM (Unreachable "cast<FixedVectorType>(DstTy)")
    end
  else retM W.

Definition toErase (CI : Instruction) (W : Worklists) : Worklists :=
  mkWorklists (ESIMDIntrCalls W) (ESIMDToErases W ++ [uid CI]).

Definition classifyCall (GVTS : list LType) (CI : Instruction)
    (Callee : string) (W : Worklists) : M Worklists :=
  match consume_front Callee ESIMD_INTRIN_PREF0 with
  | None => retM W
  | Some Name =>
      let Name := drop_while isdigit Name in
      if startswith Name "N2cl4sycl5INTEL3gpu8slm_init" then
        translateSLMInit CI >>; retM (toErase CI W)
      else if startswith Name "__esimd_pack_mask" then
        translatePackMask CI >>; retM (toErase CI W)
      else if startswith Name "__esimd_unpack_mask" then
        translateUnPackMask CI >>; retM (toErase CI W)
      else
        letM vl := (if startswith Name "__esimd_vload" then translateVLoad CI GVTS
                    else retM false) in
        if (vl : bool) then retM (toErase CI W)
        else
          letM vs := (if startswith Name "__esimd_vstore" then translateVStore CI GVTS
                      else retM false) in
          if (vs : bool) then retM (toErase CI W)
          else if startswith Name "__esimd_get_value" then
            translateGetValue CI >>; retM (toErase CI W)
          else
            match consume_front Name SPIRV_INTRIN_PREF with
            | Some Name' =>
                letM E := translateSpirvIntrinsic CI Name' (ESIMDToErases W) in
                retM (mkWorklists (ESIMDIntrCalls W) E)
            | None =>
                if String.eqb Name EmptyString || negb (startswith Name ESIMD_INTRIN_PREF1)
                then retM W
                else retM (mkWorklists (ESIMDIntrCalls W ++ [uid CI])
                             (ESIMDToErases W))
            end
  end.

(** One round of the loop over [instructions(F)], on the instruction that
    has identifier [u] in the function as it is by then. *)
Definition visitInstruction (GVTS : list LType) (u : nat) (W : Worklists) :
    M Worklists :=
  fun F =>
    match getInst u F with
    | None => Ok (W, F)
    | Some I =>
        (letM W := lowerCast I W in
         fun F' =>
           match getInst u F' with
           | None => Ok (W, F')
           | Some I' =>
               match getCalledFunction I' with
               | Some Callee => classifyCall GVTS I' Callee W F'
               | None => Ok (W, F')
               end
           end) F
    end.

Fixpoint forEachM {A B} (f : A -> B -> M B) (l : list A) (b : B) : M B :=
  match l with
  | [] => retM b
  | x :: l' => letM b' := f x b in forEachM f l' b'
  end.

Definition translateRecorded (u : nat) (_ : unit) : M unit :=
  fun F =>
    match getInst u F with
    | Some CI => translateESIMDIntrinsicCall CI F
    | None => Unreachable "stale call instruction"
    end.

Definition run (F : Function) (GVTS : list LType) :
    Result (PreservedAnalyses * Function) :=
  if negb (sycl_explicit_simd F) then Ok (all, F)
  else
    (letM W := forEachM (visitInstruction GVTS) (map uid (instructions F))
                 (mkWorklists [] []) in
     forEachM translateRecorded (ESIMDIntrCalls W) tt >>;
     forEachM (fun u _ => eraseFromParent u) (ESIMDToErases W) tt >>;
     retM (if decide (0 < length (ESIMDIntrCalls W))%nat then none else all)) F.

End Collaborators.

(** *** What the emitted integer instructions compute

    Values at run time are integers (as unsigned numbers of the width of
    their type) and vectors of integers; [intr] gives the result of a call
    to a target intrinsic without arguments. *)

Inductive RtVal : Type :=
| RInt (v : Z)
| RVec (l : list Z).

Definition evalValue (env : gmap nat RtVal) (v : Value) : option RtVal :=
  match v with
  | VInst u _ => env !! u
  | VConstantInt _ c => Some (RInt c)
  | VNull _ => Some (RInt 0)
  | _ => None
  end.

Definition evalInt (env : gmap nat RtVal) (v : Value) : option Z :=
  match evalValue env v with
  | Some (RInt x) => Some x
  | _ => None
  end.

Definition evalInst (intr : string -> option RtVal) (env : gmap nat RtVal)
    (i : Instruction) : option RtVal :=
  let w := getPrimitiveSizeInBits (type i) in
  match opcode i, operands i with
  | Call (Some f), [] => intr f
  | ExtractElement, [v; VConstantInt _ idx] =>
      match evalValue env v with
      | Some (RVec l) =>
          match l !! Z.to_nat idx with
          | Some x => Some (RInt x)
          | None => None
          end
      | _ => None
      end
  | ZExt, [v] | BitCast, [v] =>
      match evalInt env v with Some x => Some (RInt x) | None => None end
  | Trunc, [v] =>
      match evalInt env v with Some x => Some (RInt (x mod 2 ^ w)) | None => None end
  | Mul, [a; b] =>
      match evalInt env a, evalInt env b with
      | Some x, Some y => Some (RInt ((x * y) mod 2 ^ w))
      | _, _ => None
      end
  | Add, [a; b] =>
      match evalInt env a, evalInt env b with
      | Some x, Some y => Some (RInt ((x + y) mod 2 ^ w))
      | _, _ => None
      end
  | _, _ => None
  end.

Definition execInst (intr : string -> option RtVal) (env : gmap nat RtVal)
    (i : Instruction) : gmap nat RtVal :=
  match evalInst intr env i with
  | Some v => <[uid i := v]> env
  | None => env
  end.

Definition exec (intr : string -> option RtVal) (l : list Instruction)
    (env : gmap nat RtVal) : gmap nat RtVal :=
  fold_left (execInst intr) l env.

(** The work-item coordinates the target intrinsics return, as unsigned
    32-bit numbers. *)
Record WorkItem : Type := mkWorkItem {
  local_id : list Z;
  local_size : list Z;
  group_id : list Z;
  group_count : list Z;
}.

Definition genxIntrinsics (W : WorkItem) (f : string) : option RtVal :=
  if String.eqb f "llvm.genx.local.id.v3i32" then Some (RVec (local_id W))
  else if String.eqb f "llvm.genx.local.size.v3i32" then Some (RVec (local_size W))
  else if String.eqb f "llvm.genx.group.count.v3i32" then Some (RVec (group_count W))
  else if String.eqb f "llvm.genx.group.id.x" then RInt <$> group_id W !! 0%nat
  else if String.eqb f "llvm.genx.group.id.y" then RInt <$> group_id W !! 1%nat
  else if String.eqb f "llvm.genx.group.id.z" then RInt <$> group_id W !! 2%nat
  else None.

(** The instructions in front of the one with identifier [u]. *)
Fixpoint before (u : nat) (l : list Instruction) : list Instruction :=
  match l with
  | [] => []
  | i :: l' => if decide (uid i = u) then [] else i :: before u l'
  end.

(** The instruction with identifier [u] and the instructions behind it. *)
Fixpoint notBefore (u : nat) (l : list Instruction) : list Instruction :=
  match l with
  | [] => []
  | i :: l' => if decide (uid i = u) then l else notBefore u l'
  end.

(** The instructions with [V] in the place of every use of the instruction
    with identifier [u]: what [replaceAllUsesWith] leaves. *)
Definition usesReplaced (u : nat) (V : Value) (l : list Instruction) :
    list Instruction :=
  map (fun i => mkInst (uid i) (name i) (opcode i)
                  (map (replaceValue u V) (operands i)) (type i)) l.

(** The functions that the calls among the instructions call, in order. *)
Definition calledFunctions (l : list Instruction) : list string :=
  omap (fun i => match opcode i with Call (Some f) => Some f | _ => None end) l.

End LowerESIMD.


(** ** Kernel entry synthesis *)

Module SemaSYCL.

(** *** The shape of a kernel object *)

Inductive LangAS : Type :=
| Default | opencl_global | opencl_local | opencl_constant | opencl_private
| opencl_generic | opencl_global_device | opencl_global_host.

#[global] Instance LangAS_eq_dec : EqDecision LangAS.
Proof. solve_decision. Defined.

Record FieldDeclOf (T : Type) : Type := mkFieldDecl {
  getParent : string;
  getName : string;
  getType : T;
  getFieldOffset : Z;    (* in bits, as [ASTContext::getFieldOffset] *)
}.
Arguments mkFieldDecl {T}.
Arguments getParent {T}.
Arguments getName {T}.
Arguments getType {T}.
Arguments getFieldOffset {T}.

Record CXXBaseSpecifierOf (T : Type) : Type := mkBase {
  getBaseType : T;
  getBaseClassOffset : Z;  (* in bytes, from the layout of the derived class *)
}.
Arguments mkBase {T}.
Arguments getBaseType {T}.
Arguments getBaseClassOffset {T}.

Record CXXMethodDeclOf (T : Type) : Type := mkMethod {
  getNameAsString : string;
  parameters : list T;
}.
Arguments mkMethod {T}.
Arguments getNameAsString {T}.
Arguments parameters {T}.

Record CXXRecordDeclOf (T : Type) : Type := mkRecordDecl {
  getRecordName : string;
  bases : list (CXXBaseSpecifierOf T);
  fields : list (FieldDeclOf T);
  methods : list (CXXMethodDeclOf T);
  getSize : Z;             (* in bytes *)
  hasTrivialCopyConstructor : bool;
  hasTrivialDestructor : bool;
  isStandardLayout : bool;
}.
Arguments mkRecordDecl {T}.
Arguments getRecordName {T}.
Arguments bases {T}.
Arguments fields {T}.
Arguments methods {T}.
Arguments getSize {T}.
Arguments hasTrivialCopyConstructor {T}.
Arguments hasTrivialDestructor {T}.
Arguments isStandardLayout {T}.

Inductive DiagID : Type :=
| err_bad_kernel_param_type
| err_sycl_non_constant_array_type
| err_sycl_non_std_layout_type
| err_sycl_non_trivially_copy_ctor_dtor_type
| err_vla_unsupported
| err_bad_union_kernel_param_members
| err_sycl_compiletime_property_duplication
| err_sycl_invalid_accessor_property
| err_conflicting_sycl_kernel_attributes
| note_conflicting_attribute
| err_sycl_function_attribute_mismatch
| note_attribute
| warn_sycl_kernel_too_big_args.

#[global] Instance DiagID_eq_dec : EqDecision DiagID.
Proof. solve_decision. Defined.

#[local] Set Warnings "-register-all".

(** The types of bases and fields, by the category the visitor sorts them
    into.  A class type carries its declaration; an accessor also carries
    what the handlers read of its template arguments: the dimensions, the
    access target, the [buffer_location] values of its property list and the
    diagnostics that checking its template arguments reports. *)
Inductive QualType : Type :=
| AccessorType (RD : CXXRecordDeclOf QualType) (Dims : Z) (AccessTarget : Z)
    (BufferLocations : list Z) (TemplateArgDiags : list DiagID)
| SamplerType (RD : CXXRecordDeclOf QualType)
| HalfType (RD : CXXRecordDeclOf QualType)
| SpecConstantType (RD : CXXRecordDeclOf QualType) (SpecConstName : string)
| StreamType (RD : CXXRecordDeclOf QualType)
| StructType (RD : CXXRecordDeclOf QualType)
| UnionType (RD : CXXRecordDeclOf QualType)
| ReferenceType (Pointee : QualType)
| PointerType (Pointee : QualType) (AS : LangAS)
| ConstantArrayType (ET : QualType) (Size : Z)
| VariableArrayType (ET : QualType)
| IncompleteArrayType (ET : QualType)
| ScalarType (Name : string) (SizeInChars : Z)
| OtherType (Name : string) (SizeInChars : Z).

Abbreviation CXXRecordDecl := (CXXRecordDeclOf QualType).
Abbreviation FieldDecl := (FieldDeclOf QualType).
Abbreviation CXXBaseSpecifier := (CXXBaseSpecifierOf QualType).
Abbreviation CXXMethodDecl := (CXXMethodDeclOf QualType).

Definition getAsCXXRecordDecl (Ty : QualType) : option CXXRecordDecl :=
  match Ty with
  | AccessorType RD _ _ _ _ | SamplerType RD | HalfType RD
  | SpecConstantType RD _ | StreamType RD | StructType RD | UnionType RD =>
      Some RD
  | _ => None
  end.

Definition isStructureOrClassType (Ty : QualType) : bool :=
  match Ty with
  | AccessorType _ _ _ _ _ | SamplerType _ | HalfType _
  | SpecConstantType _ _ | StreamType _ | StructType _ => true
  | _ => false
  end.

Definition isArrayType (Ty : QualType) : bool :=
  match Ty with
  | ConstantArrayType _ _ | VariableArrayType _ | IncompleteArrayType _ => true
  | _ => false
  end.

Definition isPointerType (Ty : QualType) : bool :=
  match Ty with PointerType _ _ => true | _ => false end.

Definition isSyclAccessorType (Ty : QualType) : bool :=
  match Ty with AccessorType _ _ _ _ _ => true | _ => false end.

Definition isSyclStreamType (Ty : QualType) : bool :=
  match Ty with StreamType _ => true | _ => false end.

(** Size of a pointer in bytes on the device target. *)
Definition PointerSizeInChars : Z := 8.

Fixpoint getTypeSizeInChars (Ty : QualType) : Z :=
  match Ty with
  | AccessorType RD _ _ _ _ | SamplerType RD | HalfType RD
  | SpecConstantType RD _ | StreamType RD | StructType RD | UnionType RD =>
      getSize RD
  | ReferenceType P => getTypeSizeInChars P
  | PointerType _ _ => PointerSizeInChars
  | ConstantArrayType ET n => n * getTypeSizeInChars ET
  | VariableArrayType _ | IncompleteArrayType _ => 0
  | ScalarType _ sz | OtherType _ sz => sz
  end.

(** [ASTContext::hasSameType]: classes are the same when they are the same
    declaration, compound types when they are built alike. *)
Fixpoint hasSameType (A B : QualType) : bool :=
  match A, B with
  | AccessorType R _ _ _ _, AccessorType R' _ _ _ _
  | SamplerType R, SamplerType R'
  | HalfType R, HalfType R'
  | SpecConstantType R _, SpecConstantType R' _
  | StreamType R, StreamType R'
  | StructType R, StructType R'
  | UnionType R, UnionType R' => String.eqb (getRecordName R) (getRecordName R')
  | ReferenceType P, ReferenceType P' => hasSameType P P'
  | PointerType P AS, PointerType P' AS' =>
      hasSameType P P' && bool_decide (AS = AS')
  | ConstantArrayType E n, ConstantArrayType E' n' =>
      hasSameType E E' && bool_decide (n = n')
  | VariableArrayType E, VariableArrayType E'
  | IncompleteArrayType E, IncompleteArrayType E' => hasSameType E E'
  | ScalarType N _, ScalarType N' _
  | OtherType N _, OtherType N' _ => String.eqb N N'
  | _, _ => false
  end.

Definition getMethodByName (CRD : CXXRecordDecl) (MethodName : string) :
    option CXXMethodDecl :=
  List.find (fun M => String.eqb (getNameAsString M) MethodName) (methods CRD).

Definition InitMethodName : string := "__init".
Definition InitESIMDMethodName : string := "__init_esimd".
Definition FinalizeMethodName : string := "__finalize".
Definition MaxKernelArgsSize : Z := 2048.

(** The key under which a declaration is found in the table of
    [SYCLRequiresDecompositionAttr] marks. *)
Definition recordKey (RD : CXXRecordDecl) : string := getRecordName RD.
Definition fieldKey (FD : FieldDecl) : string :=
  getParent FD +:+ "::" +:+ getName FD.

(** What the handlers share of [Sema]: the diagnostics reported so far (with
    the name of the declaration they point at), the declarations marked as
    requiring decomposition, and one language option. *)
Record Sema : Type := mkSema {
  Diags : list (DiagID * string);
  RequiresDecomposition : gset string;
  SYCLStdLayoutKernelParams : bool;
}.

Definition Diag (S : Sema) (Loc : string) (ID : DiagID) : Sema :=
  mkSema (Diags S ++ [(ID, Loc)]) (RequiresDecomposition S)
    (SYCLStdLayoutKernelParams S).

Definition addAttr (S : Sema) (key : string) : Sema :=
  mkSema (Diags S) ({[key]} ∪ RequiresDecomposition S)
    (SYCLStdLayoutKernelParams S).

Definition hasAttr (S : Sema) (key : string) : bool :=
  bool_decide (key ∈ RequiresDecomposition S).

(** *** The visitor over bases and fields *)

Inductive ParentTy : Type :=
| ParentField (FD : FieldDecl)
| ParentBase (BS : CXXBaseSpecifier).

(** The callbacks of [SyclKernelFieldHandlerBase], with their arguments. *)
Inductive Event : Type :=
| handleSyclAccessorTypeBase (Owner : CXXRecordDecl) (BS : CXXBaseSpecifier) (Ty : QualType)
| handleSyclAccessorType (FD : FieldDecl) (Ty : QualType)
| handleSyclSamplerType (FD : FieldDecl) (Ty : QualType)
| handleSyclSpecConstantType (FD : FieldDecl) (Ty : QualType)
| handleSyclStreamTypeBase (Owner : CXXRecordDecl) (BS : CXXBaseSpecifier) (Ty : QualType)
| handleSyclStreamType (FD : FieldDecl) (Ty : QualType)
| handleSyclHalfType (FD : FieldDecl) (Ty : QualType)
| handleStructType (FD : FieldDecl) (Ty : QualType)
| handleUnionType (FD : FieldDecl) (Ty : QualType)
| handleReferenceType (FD : FieldDecl) (Ty : QualType)
| handlePointerType (FD : FieldDecl) (Ty : QualType)
| handleArrayType (FD : FieldDecl) (Ty : QualType)
| handleScalarType (FD : FieldDecl) (Ty : QualType)
| handleOtherType (FD : FieldDecl) (Ty : QualType)
| handleNonDecompStruct (Owner : CXXRecordDecl) (Parent : ParentTy) (Ty : QualType)
| handleSimpleArrayType (FD : FieldDecl) (Ty : QualType)
| enterStruct (Owner : CXXRecordDecl) (Parent : ParentTy) (Ty : QualType)
| leaveStruct (Owner : CXXRecordDecl) (Parent : ParentTy) (Ty : QualType)
| enterStream (Owner : CXXRecordDecl) (FD : FieldDecl) (Ty : QualType)
| leaveStream (Owner : CXXRecordDecl) (FD : FieldDecl) (Ty : QualType)
| enterUnion (Owner : CXXRecordDecl) (FD : FieldDecl)
| leaveUnion (Owner : CXXRecordDecl) (FD : FieldDecl)
| enterArray (FD : FieldDecl) (ArrayTy : QualType) (ElementTy : QualType)
| leaveArray (FD : FieldDecl) (ArrayTy : QualType) (ElementTy : QualType)
| nextElement (ElementTy : QualType) (Index : Z).

Section KernelObjVisitor.

Variable S : Type.
(** [hasAttr<SYCLRequiresDecompositionAttr>()] of the declaration with a
    given key, in the state the walk has reached. *)
Variable requiresDecomposition : S -> string -> bool.

(** A handler: its three opt-in constants and its callbacks. *)
Record Handler : Type := mkHandler {
  VisitUnionBody : bool;
  VisitNthArrayElement : bool;
  VisitInsideSimpleContainers : bool;
  handle : Event -> S -> Result (bool * S);
}.

Definition GlobalEmptyHandler : Handler :=
  mkHandler false true true (fun _ s => Ok (true, s)).

Definition HandlerFilter (Keep : Handler -> bool) (Handlers : list Handler) :
    list Handler :=
  map (fun H => if Keep H then H else GlobalEmptyHandler) Handlers.

Definition AnyTrue (B : Handler -> bool) (Handlers : list Handler) : bool :=
  existsb B Handlers.
Definition AllTrue (B : Handler -> bool) (Handlers : list Handler) : bool :=
  forallb B Handlers.

(** [(void)std::initializer_list<int>{(Handlers.f(...), 0)...}]: every
    handler is called, in order; the results are dropped. *)
Fixpoint forEach (Handlers : list Handler) (ev : Event) (s : S) : Result S :=
  match Handlers with
  | [] => Ok s
  | H :: Hs => rbind (handle H ev s) (fun r => forEach Hs ev r.2)
  end.

(** [KF_FOR_EACH]: a handler is called only while the earlier ones have all
    returned true. *)
Fixpoint KF_FOR_EACH (Handlers : list Handler) (ev : Event) (s : S) :
    Result (bool * S) :=
  match Handlers with
  | [] => Ok (true, s)
  | H :: Hs =>
      rbind (handle H ev s)
        (fun r => if r.1 then KF_FOR_EACH Hs ev r.2 else Ok (false, r.2))
  end.

Definition foldM {A : Type} (f : A -> S -> Result S) : list A -> S -> Result S :=
  fix go (l : list A) (s : S) : Result S :=
    match l with
    | [] => Ok s
    | x :: l' => rbind (f x s) (go l')
    end.

(** [for (Index = From; ...; ++Index)] over [n] indices. *)
Definition forIndices (f : Z -> S -> Result S) : nat -> Z -> S -> Result S :=
  fix go (n : nat) (Index : Z) (s : S) : Result S :=
    match n with
    | O => Ok s
    | Datatypes.S n' => rbind (f Index s) (go n' (Index + 1))
    end.

Definition ignoreResult (r : Result (bool * S)) : Result S :=
  rbind r (fun p => Ok p.2).

Definition visitStreamRecord (Handlers : list Handler) (Owner : CXXRecordDecl)
    (Parent : FieldDecl) (Wrapper : CXXRecordDecl) (RecordTy : QualType)
    (s : S) : Result S :=
  rbind (forEach Handlers (enterStream Owner Parent RecordTy) s) (fun s =>
  rbind (foldM (fun Field s =>
                  if isSyclAccessorType (getType Field)
                  then ignoreResult
                         (KF_FOR_EACH Handlers
                            (handleSyclAccessorType Field (getType Field)) s)
                  else Ok s)
           (fields Wrapper) s) (fun s =>
  forEach Handlers (leaveStream Owner Parent RecordTy) s)).

(** [visitField] with [visitRecord], [VisitUnion], [visitArray] and the
    helpers they call; [visitBase] is one round of the loop over the bases in
    [VisitRecordHelper]. *)
Fixpoint visitField (Handlers : list Handler) (Owner : CXXRecordDecl)
    (Field : FieldDecl) (FieldTy : QualType) (s : S) {struct FieldTy} :
    Result S :=
  let visitComplexRecord Handlers (Parent : ParentTy) (Wrapper : CXXRecordDecl) s :=
    rbind (forEach Handlers (enterStruct Owner Parent FieldTy) s) (fun s =>
    rbind (foldM (fun Base s => visitBase Handlers Wrapper Base (getBaseType Base) s)
             (bases Wrapper) s) (fun s =>
    rbind (foldM (fun F s => visitField Handlers Wrapper F (getType F) s)
             (fields Wrapper) s) (fun s =>
    forEach Handlers (leaveStruct Owner Parent FieldTy) s))) in
  let visitComplexArray Handlers (ET : option (QualType * Z)) s :=
    rbind (KF_FOR_EACH Handlers (handleArrayType Field FieldTy) s) (fun r =>
    if negb r.1 then Ok r.2
    else
      match ET with
      | None => Unreachable "Should only be called on constant-size array."
      | Some (ET, ElemCount) =>
          if negb (bool_decide (ElemCount > 0))
          then Unreachable "SYCL prohibits 0 sized arrays"
          else
            rbind (forEach Handlers (enterArray Field FieldTy ET) r.2) (fun s =>
            rbind (rbind (forEach Handlers (nextElement ET 0) s) (fun s =>
                   visitField Handlers Owner Field ET s)) (fun s =>
            rbind (forIndices
                     (fun Index s =>
                        if AnyTrue VisitNthArrayElement Handlers then
                          let Hs := HandlerFilter VisitNthArrayElement Handlers in
                          rbind (forEach Hs (nextElement ET Index) s) (fun s =>
                          visitField Hs Owner Field ET s)
                        else Ok s)
                     (Z.to_nat (ElemCount - 1)) 1 s) (fun s =>
            forEach Handlers (leaveArray Field FieldTy ET) s)))
      end) in
  let visitArray (ET : option (QualType * Z)) s :=
    if requiresDecomposition s (fieldKey Field) then
      visitComplexArray Handlers ET s
    else
      rbind (if negb (AllTrue VisitInsideSimpleContainers Handlers) then
               forEach (HandlerFilter (fun H => negb (VisitInsideSimpleContainers H)) Handlers)
                 (handleSimpleArrayType Field FieldTy) s
             else Ok s) (fun s =>
      if AnyTrue VisitInsideSimpleContainers Handlers then
        visitComplexArray (HandlerFilter VisitInsideSimpleContainers Handlers) ET s
      else Ok s) in
  match FieldTy with
  | AccessorType _ _ _ _ _ =>
      ignoreResult (KF_FOR_EACH Handlers (handleSyclAccessorType Field FieldTy) s)
  | SamplerType _ =>
      ignoreResult (KF_FOR_EACH Handlers (handleSyclSamplerType Field FieldTy) s)
  | HalfType _ =>
      ignoreResult (KF_FOR_EACH Handlers (handleSyclHalfType Field FieldTy) s)
  | SpecConstantType _ _ =>
      ignoreResult (KF_FOR_EACH Handlers (handleSyclSpecConstantType Field FieldTy) s)
  | StreamType RD =>
      rbind (KF_FOR_EACH Handlers (handleSyclStreamType Field FieldTy) s) (fun r =>
      visitStreamRecord Handlers Owner Field RD FieldTy r.2)
  | StructType RD =>
      rbind (KF_FOR_EACH Handlers (handleStructType Field FieldTy) s) (fun r =>
      if r.1 then
        let s := r.2 in
        if requiresDecomposition s (recordKey RD) then
          visitComplexRecord Handlers (ParentField Field) RD s
        else
          rbind (if negb (AllTrue VisitInsideSimpleContainers Handlers) then
                   forEach (HandlerFilter (fun H => negb (VisitInsideSimpleContainers H)) Handlers)
                     (handleNonDecompStruct Owner (ParentField Field) FieldTy) s
                 else Ok s) (fun s =>
          if AnyTrue VisitInsideSimpleContainers Handlers then
            visitComplexRecord (HandlerFilter VisitInsideSimpleContainers Handlers)
              (ParentField Field) RD s
          else Ok s)
      else Ok r.2)
  | UnionType RD =>
      rbind (KF_FOR_EACH Handlers (handleUnionType Field FieldTy) s) (fun r =>
      if r.1 then
        if AnyTrue VisitUnionBody Handlers then
          let Hs := HandlerFilter VisitUnionBody Handlers in
          rbind (forEach Hs (enterUnion Owner Field) r.2) (fun s =>
          rbind (foldM (fun F s => visitField Hs RD F (getType F) s) (fields RD) s) (fun s =>
          forEach Hs (leaveUnion Owner Field) s))
        else Ok r.2
      else Ok r.2)
  | ReferenceType _ =>
      ignoreResult (KF_FOR_EACH Handlers (handleReferenceType Field FieldTy) s)
  | PointerType _ _ =>
      ignoreResult (KF_FOR_EACH Handlers (handlePointerType Field FieldTy) s)
  | ConstantArrayType ET n => visitArray (Some (ET, n)) s
  | VariableArrayType ET => visitArray None s
  | IncompleteArrayType ET => visitArray None s
  | ScalarType _ _ =>
      ignoreResult (KF_FOR_EACH Handlers (handleScalarType Field FieldTy) s)
  | OtherType _ _ =>
      ignoreResult (KF_FOR_EACH Handlers (handleOtherType Field FieldTy) s)
  end

with visitBase (Handlers : list Handler) (Owner : CXXRecordDecl)
    (Base : CXXBaseSpecifier) (BaseTy : QualType) (s : S) {struct BaseTy} :
    Result S :=
  let visitComplexRecord Handlers (Wrapper : CXXRecordDecl) s :=
    rbind (forEach Handlers (enterStruct Owner (ParentBase Base) BaseTy) s) (fun s =>
    rbind (foldM (fun B s => visitBase Handlers Wrapper B (getBaseType B) s)
             (bases Wrapper) s) (fun s =>
    rbind (foldM (fun F s => visitField Handlers Wrapper F (getType F) s)
             (fields Wrapper) s) (fun s =>
    forEach Handlers (leaveStruct Owner (ParentBase Base) BaseTy) s))) in
  let visitRecord (RD : CXXRecordDecl) s :=
    if requiresDecomposition s (recordKey RD) then
      visitComplexRecord Handlers RD s
    else
      rbind (if negb (AllTrue VisitInsideSimpleContainers Handlers) then
               forEach (HandlerFilter (fun H => negb (VisitInsideSimpleContainers H)) Handlers)
                 (handleNonDecompStruct Owner (ParentBase Base) BaseTy) s
             else Ok s) (fun s =>
      if AnyTrue VisitInsideSimpleContainers Handlers then
        visitComplexRecord (HandlerFilter VisitInsideSimpleContainers Handlers) RD s
      else Ok s) in
  match BaseTy with
  | AccessorType _ _ _ _ _ =>
      forEach Handlers (handleSyclAccessorTypeBase Owner Base BaseTy) s
  | StreamType _ =>
      forEach Handlers (handleSyclStreamTypeBase Owner Base BaseTy) s
  | SamplerType RD | HalfType RD | SpecConstantType RD _ | StructType RD
  | UnionType RD => visitRecord RD s
  | _ => Unreachable "should not be null."
  end.

(** The member functions that the recursion above has in line, under their
    names, for the visit of one class, union, array or element. *)
Definition visitComplexRecord (Handlers : list Handler) (Owner : CXXRecordDecl)
    (Parent : ParentTy) (Wrapper : CXXRecordDecl) (RecordTy : QualType)
    (s : S) : Result S :=
  rbind (forEach Handlers (enterStruct Owner Parent RecordTy) s) (fun s =>
  rbind (foldM (fun Base s => visitBase Handlers Wrapper Base (getBaseType Base) s)
           (bases Wrapper) s) (fun s =>
  rbind (foldM (fun F s => visitField Handlers Wrapper F (getType F) s)
           (fields Wrapper) s) (fun s =>
  forEach Handlers (leaveStruct Owner Parent RecordTy) s))).

Definition visitSimpleRecord (Handlers : list Handler) (Owner : CXXRecordDecl)
    (Parent : ParentTy) (RecordTy : QualType) (s : S) : Result S :=
  forEach Handlers (handleNonDecompStruct Owner Parent RecordTy) s.

Definition visitRecord (Handlers : list Handler) (Owner : CXXRecordDecl)
    (Parent : ParentTy) (Wrapper : CXXRecordDecl) (RecordTy : QualType)
    (s : S) : Result S :=
  if requiresDecomposition s (recordKey Wrapper) then
    visitComplexRecord Handlers Owner Parent Wrapper RecordTy s
  else
    rbind (if negb (AllTrue VisitInsideSimpleContainers Handlers) then
             visitSimpleRecord
               (HandlerFilter (fun H => negb (VisitInsideSimpleContainers H)) Handlers)
               Owner Parent RecordTy s
           else Ok s) (fun s =>
    if AnyTrue VisitInsideSimpleContainers Handlers then
      visitComplexRecord (HandlerFilter VisitInsideSimpleContainers Handlers)
        Owner Parent Wrapper RecordTy s
    else Ok s).

Definition VisitUnion (Handlers : list Handler) (Owner : CXXRecordDecl)
    (Parent : FieldDecl) (Wrapper : CXXRecordDecl) (s : S) : Result S :=
  if AnyTrue VisitUnionBody Handlers then
    let Hs := HandlerFilter VisitUnionBody Handlers in
    rbind (forEach Hs (enterUnion Owner Parent) s) (fun s =>
    rbind (foldM (fun F s => visitField Hs Wrapper F (getType F) s)
             (fields Wrapper) s) (fun s =>
    forEach Hs (leaveUnion Owner Parent) s))
  else Ok s.

Definition visitArrayElementImpl (Handlers : list Handler) (Owner : CXXRecordDecl)
    (ArrayField : FieldDecl) (ElementTy : QualType) (Index : Z) (s : S) :
    Result S :=
  rbind (forEach Handlers (nextElement ElementTy Index) s) (fun s =>
  visitField Handlers Owner ArrayField ElementTy s).

Definition visitNthArrayElement (Handlers : list Handler) (Owner : CXXRecordDecl)
    (ArrayField : FieldDecl) (ElementTy : QualType) (Index : Z) (s : S) :
    Result S :=
  if AnyTrue VisitNthArrayElement Handlers then
    visitArrayElementImpl (HandlerFilter VisitNthArrayElement Handlers)
      Owner ArrayField ElementTy Index s
  else Ok s.

(** [CAT] is what [getAsConstantArrayType] finds: the element type and the
    number of elements. *)
Definition visitComplexArray (Handlers : list Handler) (Owner : CXXRecordDecl)
    (Field : FieldDecl) (ArrayTy : QualType) (CAT : option (QualType * Z))
    (s : S) : Result S :=
  rbind (KF_FOR_EACH Handlers (handleArrayType Field ArrayTy) s) (fun r =>
  if negb r.1 then Ok r.2
  else
    match CAT with
    | None => Unreachable "Should only be called on constant-size array."
    | Some (ET, ElemCount) =>
        if negb (bool_decide (ElemCount > 0))
        then Unreachable "SYCL prohibits 0 sized arrays"
        else
          rbind (forEach Handlers (enterArray Field ArrayTy ET) r.2) (fun s =>
          rbind (visitArrayElementImpl Handlers Owner Field ET 0 s) (fun s =>
          rbind (forIndices (visitNthArrayElement Handlers Owner Field ET)
                   (Z.to_nat (ElemCount - 1)) 1 s) (fun s =>
          forEach Handlers (leaveArray Field ArrayTy ET) s)))
    end).

Definition visitSimpleArray (Handlers : list Handler) (Field : FieldDecl)
    (ArrayTy : QualType) (s : S) : Result S :=
  forEach Handlers (handleSimpleArrayType Field ArrayTy) s.

Definition visitArray (Handlers : list Handler) (Owner : CXXRecordDecl)
    (Field : FieldDecl) (ArrayTy : QualType) (CAT : option (QualType * Z))
    (s : S) : Result S :=
  if requiresDecomposition s (fieldKey Field) then
    visitComplexArray Handlers Owner Field ArrayTy CAT s
  else
    rbind (if negb (AllTrue VisitInsideSimpleContainers Handlers) then
             visitSimpleArray
               (HandlerFilter (fun H => negb (VisitInsideSimpleContainers H)) Handlers)
               Field ArrayTy s
           else Ok s) (fun s =>
    if AnyTrue VisitInsideSimpleContainers Handlers then
      visitComplexArray (HandlerFilter VisitInsideSimpleContainers Handlers)
        Owner Field ArrayTy CAT s
    else Ok s).

Definition VisitRecordBases (KernelFunctor : CXXRecordDecl)
    (Handlers : list Handler) (s : S) : Result S :=
  foldM (fun Base s => visitBase Handlers KernelFunctor Base (getBaseType Base) s)
    (bases KernelFunctor) s.

Definition VisitRecordFields (Owner : CXXRecordDecl) (Handlers : list Handler)
    (s : S) : Result S :=
  foldM (fun Field s => visitField Handlers Owner Field (getType Field) s)
    (fields Owner) s.

End KernelObjVisitor.

(** *** The handlers of the legality walk *)

Record CheckState : Type := mkCheckState {
  chk_Sema : Sema;
  FieldChecker_IsInvalid : bool;
  UnionCount : Z;
  UnionChecker_IsInvalid : bool;
  CollectionStack : list bool;    (* the back of the vector is the head *)
}.

Definition isStandardLayoutType (Ty : QualType) : bool :=
  match Ty with
  | ScalarType _ _ | PointerType _ _ => true
  | _ =>
      match getAsCXXRecordDecl Ty with
      | Some RD => isStandardLayout RD
      | None => false
      end
  end.

Fixpoint checkNotCopyableToKernel (S : Sema) (FD : FieldDecl)
    (FieldTy : QualType) : bool * Sema :=
  match FieldTy with
  | ConstantArrayType ET _ => checkNotCopyableToKernel S FD ET
  | VariableArrayType _ | IncompleteArrayType _ =>
      (true, Diag S (fieldKey FD) err_sycl_non_constant_array_type)
  | _ =>
      if SYCLStdLayoutKernelParams S && negb (isStandardLayoutType FieldTy)
      then (true, Diag S (fieldKey FD) err_sycl_non_std_layout_type)
      else if negb (isStructureOrClassType FieldTy) then (false, S)
      else
        match getAsCXXRecordDecl FieldTy with
        | Some RD =>
            if negb (hasTrivialCopyConstructor RD)
            then (true, Diag S (fieldKey FD) err_sycl_non_trivially_copy_ctor_dtor_type)
            else if negb (hasTrivialDestructor RD)
            then (true, Diag S (fieldKey FD) err_sycl_non_trivially_copy_ctor_dtor_type)
            else (false, S)
        | None => (false, S)
        end
  end.

(** The loop of [SyclKernelFieldChecker::handlePointerType]: some pointee
    down the chain of pointers is a variable-length array. *)
Fixpoint pointsToVLA (FieldTy : QualType) : bool :=
  match FieldTy with
  | PointerType P _ =>
      match P with
      | VariableArrayType _ => true
      | _ => pointsToVLA P
      end
  | _ => false
  end.

Definition checkAccessorType (S : Sema) (Ty : QualType) (Loc : string) : Sema :=
  match Ty with
  | AccessorType _ _ _ _ ds => fold_left (fun S d => Diag S Loc d) ds S
  | _ => S
  end.

Module SyclKernelFieldChecker.

Definition setInvalid (s : CheckState) (b : bool) (S : Sema) : CheckState :=
  mkCheckState S b (UnionCount s) (UnionChecker_IsInvalid s) (CollectionStack s).

Definition isValid (s : CheckState) : bool := negb (FieldChecker_IsInvalid s).

Definition handle (ev : Event) (s : CheckState) : Result (bool * CheckState) :=
  match ev with
  | handleReferenceType FD FieldTy | handleOtherType FD FieldTy =>
      let s := setInvalid s true
                 (Diag (chk_Sema s) (fieldKey FD) err_bad_kernel_param_type) in
      Ok (isValid s, s)
  | handleStructType FD FieldTy | handleArrayType FD FieldTy =>
      let r := checkNotCopyableToKernel (chk_Sema s) FD FieldTy in
      let s := setInvalid s (FieldChecker_IsInvalid s || r.1) r.2 in
      Ok (isValid s, s)
  | handleSyclAccessorTypeBase _ BS FieldTy =>
      let s := setInvalid s (FieldChecker_IsInvalid s)
                 (checkAccessorType (chk_Sema s) FieldTy "base") in
      Ok (isValid s, s)
  | handleSyclAccessorType FD FieldTy =>
      let s := setInvalid s (FieldChecker_IsInvalid s)
                 (checkAccessorType (chk_Sema s) FieldTy (fieldKey FD)) in
      Ok (isValid s, s)
  | handlePointerType FD FieldTy =>
      let s := if pointsToVLA FieldTy
               then setInvalid s true
                      (Diag (chk_Sema s) (fieldKey FD) err_vla_unsupported)
               else s in
      Ok (isValid s, s)
  | _ => Ok (true, s)
  end.

Definition handler : Handler CheckState := mkHandler _ false false true handle.

End SyclKernelFieldChecker.

Module SyclKernelUnionChecker.

Definition isValid (s : CheckState) : bool := negb (UnionChecker_IsInvalid s).

Definition checkType (Loc : string) (Ty : QualType) (s : CheckState) :
    bool * CheckState :=
  let s :=
    if decide (UnionCount s <> 0) then
      mkCheckState (Diag (chk_Sema s) Loc err_bad_union_kernel_param_members)
        (FieldChecker_IsInvalid s) (UnionCount s) true (CollectionStack s)
    else s in
  (isValid s, s).

Definition setUnionCount (s : CheckState) (n : Z) : CheckState :=
  mkCheckState (chk_Sema s) (FieldChecker_IsInvalid s) n
    (UnionChecker_IsInvalid s) (CollectionStack s).

Definition handle (ev : Event) (s : CheckState) : Result (bool * CheckState) :=
  match ev with
  | enterUnion RD FD => Ok (true, setUnionCount s (UnionCount s + 1))
  | leaveUnion RD FD => Ok (true, setUnionCount s (UnionCount s - 1))
  | handleSyclAccessorType FD FieldTy
  | handleSyclSamplerType FD FieldTy
  | handleSyclStreamType FD FieldTy => Ok (checkType (fieldKey FD) FieldTy s)
  | handleSyclAccessorTypeBase _ BS FieldTy
  | handleSyclStreamTypeBase _ BS FieldTy => Ok (checkType "base" FieldTy s)
  | _ => Ok (true, s)
  end.

Definition handler : Handler CheckState := mkHandler _ true false true handle.

End SyclKernelUnionChecker.

Module SyclKernelDecompMarker.

Definition setStack (s : CheckState) (st : list bool) (S : Sema) : CheckState :=
  mkCheckState S (FieldChecker_IsInvalid s) (UnionCount s)
    (UnionChecker_IsInvalid s) st.

(** [CollectionStack.back() = true] *)
Definition markBack (s : CheckState) : Result (bool * CheckState) :=
  match CollectionStack s with
  | [] => Unreachable "back() of an empty vector"
  | _ :: st => Ok (true, setStack s (true :: st) (chk_Sema s))
  end.

Definition push (s : CheckState) : Result (bool * CheckState) :=
  Ok (true, setStack s (false :: CollectionStack s) (chk_Sema s)).

(** [leaveStruct] and [leaveArray]: pop, and pass a mark on to the
    declaration and to the enclosing collection. *)
Definition popAndMark (key : string) (s : CheckState) :
    Result (bool * CheckState) :=
  match CollectionStack s with
  | [] => Unreachable "pop_back_val() of an empty vector"
  | true :: st =>
      let S := if hasAttr (chk_Sema s) key then chk_Sema s
               else addAttr (chk_Sema s) key in
      markBack (setStack s st S)
  | false :: st => Ok (true, setStack s st (chk_Sema s))
  end.

Definition handle (ev : Event) (s : CheckState) : Result (bool * CheckState) :=
  match ev with
  | handleSyclAccessorTypeBase _ _ _ | handleSyclAccessorType _ _
  | handleSyclSamplerType _ _ | handleSyclSpecConstantType _ _
  | handleSyclStreamTypeBase _ _ _ | handleSyclStreamType _ _
  | handleSyclHalfType _ _ | handlePointerType _ _ => markBack s
  | enterStream _ _ _ | enterStruct _ _ _ | enterArray _ _ _ => push s
  | leaveStream _ _ _ =>
      match CollectionStack s with
      | [] => Unreachable "pop_back() of an empty vector"
      | _ :: st => Ok (true, setStack s st (chk_Sema s))
      end
  | leaveStruct _ _ Ty =>
      match getAsCXXRecordDecl Ty with
      | Some RD => popAndMark (recordKey RD) s
      | None =>
          match CollectionStack s with
          | [] => Unreachable "pop_back_val() of an empty vector"
          | true :: _ => Unreachable "should not be null."
          | false :: st => Ok (true, setStack s st (chk_Sema s))
          end
      end
  | leaveArray FD _ _ => popAndMark (fieldKey FD) s
  | _ => Ok (true, s)
  end.

Definition handler : Handler CheckState := mkHandler _ false false true handle.

(** The constructor pushes a dummy entry. *)
Definition initialStack : list bool := [true].

End SyclKernelDecompMarker.

(** The walk of [CheckSYCLKernelCall] over a kernel object with the three
    checkers, and whether the two legality checkers are still valid after
    it (the kernel function is set invalid when one is not). *)
Definition checkHandlers : list (Handler CheckState) :=
  [SyclKernelFieldChecker.handler; SyclKernelUnionChecker.handler;
   SyclKernelDecompMarker.handler].

Definition checkRequiresDecomposition (s : CheckState) (key : string) : bool :=
  hasAttr (chk_Sema s) key.

Definition initialCheckState (S : Sema) : CheckState :=
  mkCheckState S false 0 false SyclKernelDecompMarker.initialStack.

Definition CheckSYCLKernelCall (KernelObj : CXXRecordDecl) (S : Sema) :
    Result CheckState :=
  rbind (VisitRecordBases _ checkRequiresDecomposition KernelObj checkHandlers
           (initialCheckState S)) (fun s =>
  VisitRecordFields _ checkRequiresDecomposition KernelObj checkHandlers s).

Definition passedCheckers (s : CheckState) : bool :=
  SyclKernelFieldChecker.isValid s && SyclKernelUnionChecker.isValid s.

(** *** The handlers that build the kernel *)

Inductive ParmAttr : Type :=
| SYCLIntelBufferLocationAttr (LocationID : Z)
| SYCLSimdAccessorPtrAttr.

Record ParmVarDecl : Type := mkParmVarDecl {
  getOriginalType : QualType;
  getParmName : string;
  getAttrs : list ParmAttr;
}.

Inductive InitializationKind : Type := CreateCopy | CreateDefault | CreateDirect.

Inductive InitializedEntity : Type :=
| InitializeVariable
| InitializeMember (Member : string) (Implicit : bool)
| InitializeBase (Base : string)
| InitializeElement (Index : Z) (Parent : InitializedEntity).

Inductive CastKind : Type :=
| CK_LValueToRValue | CK_AddressSpaceConversion | CK_DerivedToBase.

(** The expressions the body creator builds.  A parameter is referred to by
    its position in the parameter list, an initializer list by its place in
    the store of initializer lists; [PerformInit] stands for the expression
    [InitializationSequence::Perform] returns. *)
Inductive Expr : Type :=
| DeclRefExpr (Param : nat)
| KernelObjCloneRef
| MemberExpr (Base : Expr) (Member : string)
| ImplicitCastExpr (Kind : CastKind) (Ty : QualType) (Sub : Expr)
| ArraySubscriptExpr (Base : Expr) (Index : Z)
| InitListExpr (Id : nat)
| PerformInit (Entity : InitializedEntity) (Kind : InitializationKind)
    (Args : list Expr)
| CXXMemberCallExpr (Method : Expr) (Args : list Expr).

Inductive Stmt : Type :=
| DeclStmt_KernelObjClone
| ExprStmt (E : Expr)
| TransformedBody.

Inductive kernel_param_kind_t : Type :=
| kind_accessor | kind_std_layout | kind_sampler | kind_pointer.

#[global] Instance kernel_param_kind_t_eq_dec : EqDecision kernel_param_kind_t.
Proof. solve_decision. Defined.

Record KernelParamDesc : Type := mkKernelParamDesc {
  PD_Kind : kernel_param_kind_t;
  PD_Info : Z;      (* int *)
  PD_Offset : Z;    (* unsigned *)
}.

(** The three builders count the records they are inside in [StructDepth]
    ([int] in the parameter and header builders, [uint64_t] in the body
    builder).  A walk enters before it leaves and nests far below the width
    of either type, so the counters are kept as integers without wrap-around;
    the code only tests them against zero. *)
Record DeclCreatorState : Type := mkDeclCreator {
  Params : list ParmVarDecl;
  LastParamIndex : nat;
  DC_StructDepth : Z;
}.

Record BodyCreatorState : Type := mkBodyCreator {
  BodyStmts : list Stmt;
  CollectionInitExprs : list nat;           (* back of the vector first *)
  InitLists : list (list Expr);             (* the initializer lists made *)
  FinalizeStmts : list Stmt;
  ArrayInfos : list (InitializedEntity * Z);  (* back of the vector first *)
  MemberExprBases : list Expr;              (* back of the vector first *)
  BC_StructDepth : Z;
}.

Record IntHeaderState : Type := mkIntHeader {
  KernelParams : list KernelParamDesc;
  SpecConsts : list string;
  CurOffset : Z;
  ArrayBaseOffsets : list Z;                (* back of the vector first *)
  IH_StructDepth : Z;
}.

Record ConstructState : Type := mkConstructState {
  cs_Sema : Sema;
  IsSIMDKernel : bool;
  decl : DeclCreatorState;
  body : BodyCreatorState;
  hdr : IntHeaderState;
}.

Definition withSema (s : ConstructState) (S : Sema) : ConstructState :=
  mkConstructState S (IsSIMDKernel s) (decl s) (body s) (hdr s).
Definition withDecl (s : ConstructState) (d : DeclCreatorState) : ConstructState :=
  mkConstructState (cs_Sema s) (IsSIMDKernel s) d (body s) (hdr s).
Definition withBody (s : ConstructState) (b : BodyCreatorState) : ConstructState :=
  mkConstructState (cs_Sema s) (IsSIMDKernel s) (decl s) b (hdr s).
Definition withHdr (s : ConstructState) (h : IntHeaderState) : ConstructState :=
  mkConstructState (cs_Sema s) (IsSIMDKernel s) (decl s) (body s) h.

Definition isArrayElement (FD : FieldDecl) (Ty : QualType) : bool :=
  negb (hasSameType (getType FD) Ty).

Module SyclKernelDeclCreator.

Definition makeParamDesc (Src : FieldDecl) (Ty : QualType) : ParmVarDecl :=
  mkParmVarDecl Ty ("_arg_" +:+ getName Src) [].
Definition makeParamDescBase (Ty : QualType) : ParmVarDecl :=
  mkParmVarDecl Ty "_arg__base" [].

Definition addParam (newParamDesc : ParmVarDecl) (d : DeclCreatorState) :
    DeclCreatorState :=
  mkDeclCreator (Params d ++ [newParamDesc]) (length (Params d))
    (DC_StructDepth d).

Definition setDepth (d : DeclCreatorState) (n : Z) : DeclCreatorState :=
  mkDeclCreator (Params d) (LastParamIndex d) n.

Definition hasBufferLocation (P : ParmVarDecl) : bool :=
  existsb (fun a => match a with SYCLIntelBufferLocationAttr _ => true | _ => false end)
    (getAttrs P).

Definition addParmAttr (a : ParmAttr) (P : ParmVarDecl) : ParmVarDecl :=
  mkParmVarDecl (getOriginalType P) (getParmName P) (getAttrs P ++ [a]).

(** [Params.back()] with one more attribute. *)
Definition updateBack (f : ParmVarDecl -> ParmVarDecl) (d : DeclCreatorState) :
    DeclCreatorState :=
  match reverse (Params d) with
  | [] => d
  | P :: rest => mkDeclCreator (reverse (f P :: rest)) (LastParamIndex d)
                   (DC_StructDepth d)
  end.

Definition handleBufferLocationProperty (Loc : string) (LocationID : Z)
    (s : ConstructState) : ConstructState :=
  match last (Params (decl s)) with
  | Some P =>
      if hasBufferLocation P
      then withSema s (Diag (cs_Sema s) Loc err_sycl_compiletime_property_duplication)
      else withDecl s (updateBack (addParmAttr (SYCLIntelBufferLocationAttr LocationID))
                         (decl s))
  | None => s
  end.

Definition handleAccessorPropertyList (Ty : QualType) (Loc : string)
    (s : ConstructState) : ConstructState :=
  match Ty with
  | AccessorType _ _ _ locs _ =>
      fold_left (fun s l => handleBufferLocationProperty Loc l s) locs s
  | _ => s
  end.

Definition initMethod (Ty : QualType) (MethodName : string) :
    Result CXXMethodDecl :=
  match getAsCXXRecordDecl Ty with
  | None => Unreachable "The accessor/sampler must be a RecordDecl"
  | Some RD =>
      match getMethodByName RD MethodName with
      | None => Unreachable "The accessor/sampler must have the __init method"
      | Some M => Ok M
      end
  end.

Definition handleSpecialType (FD : FieldDecl) (FieldTy : QualType)
    (isAccessorType : bool) (s : ConstructState) : Result (bool * ConstructState) :=
  let MethodName :=
    if IsSIMDKernel s && isAccessorType then InitESIMDMethodName
    else InitMethodName in
  rbind (initMethod FieldTy MethodName) (fun InitMethod =>
  let ParamIndex := length (Params (decl s)) in
  let s :=
    fold_left
      (fun s ParamTy =>
         let s := withDecl s (addParam (makeParamDesc FD ParamTy) (decl s)) in
         if isPointerType ParamTy && isAccessorType then
           let s := handleAccessorPropertyList FieldTy (fieldKey FD) s in
           if IsSIMDKernel s
           then withDecl s (updateBack (addParmAttr SYCLSimdAccessorPtrAttr) (decl s))
           else s
         else s)
      (parameters InitMethod) s in
  Ok (true, withDecl s (mkDeclCreator (Params (decl s)) ParamIndex
                          (DC_StructDepth (decl s))))).

Definition handleSyclAccessorTypeBaseImpl (FieldTy : QualType) (s : ConstructState) :
    Result (bool * ConstructState) :=
  let MethodName :=
    if IsSIMDKernel s then InitESIMDMethodName else InitMethodName in
  rbind (initMethod FieldTy MethodName) (fun InitMethod =>
  let ParamIndex := length (Params (decl s)) in
  let s :=
    fold_left
      (fun s ParamTy =>
         let s := withDecl s (addParam (makeParamDescBase ParamTy) (decl s)) in
         if isPointerType ParamTy
         then handleAccessorPropertyList FieldTy "base" s
         else s)
      (parameters InitMethod) s in
  Ok (true, withDecl s (mkDeclCreator (Params (decl s)) ParamIndex
                          (DC_StructDepth (decl s))))).

(** [buildImplicitRecord("__wrapper_class")] with the one public field. *)
Definition wrapField (Field : FieldDecl) (FieldTy : QualType) : CXXRecordDecl :=
  mkRecordDecl "__wrapper_class" []
    [mkFieldDecl "__wrapper_class" EmptyString FieldTy 0] []
    (getTypeSizeInChars FieldTy) true true true.

(** The parameter type of a pointer field: the pointee moved to the
    global address space unless it is in [global_device] or
    [global_host]. *)
Definition globalPointer (FieldTy : QualType) : QualType :=
  match FieldTy with
  | PointerType PointeeTy AS =>
      PointerType PointeeTy
        (if bool_decide (AS <> opencl_global_device) &&
            bool_decide (AS <> opencl_global_host)
         then opencl_global else AS)
  | _ => FieldTy
  end.

Definition handlePointerTypeImpl (FD : FieldDecl) (FieldTy : QualType)
    (s : ConstructState) : Result (bool * ConstructState) :=
  let ModTy := globalPointer FieldTy in
  let ModTy :=
    if decide (DC_StructDepth (decl s) <> 0)
    then StructType (wrapField FD ModTy) else ModTy in
  Ok (true, withDecl s (addParam (makeParamDesc FD ModTy) (decl s))).

Definition addFieldParam (FD : FieldDecl) (Ty : QualType) (s : ConstructState) :
    Result (bool * ConstructState) :=
  Ok (true, withDecl s (addParam (makeParamDesc FD Ty) (decl s))).

Definition handle (ev : Event) (s : ConstructState) :
    Result (bool * ConstructState) :=
  match ev with
  | enterStream _ _ _ | enterStruct _ _ _ =>
      Ok (true, withDecl s (setDepth (decl s) (DC_StructDepth (decl s) + 1)))
  | leaveStream _ _ _ | leaveStruct _ _ _ =>
      Ok (true, withDecl s (setDepth (decl s) (DC_StructDepth (decl s) - 1)))
  | handleSyclAccessorTypeBase _ BS FieldTy => handleSyclAccessorTypeBaseImpl FieldTy s
  | handleSyclAccessorType FD FieldTy => handleSpecialType FD FieldTy true s
  | handleSyclSamplerType FD FieldTy => handleSpecialType FD FieldTy false s
  | handlePointerType FD FieldTy => handlePointerTypeImpl FD FieldTy s
  | handleSimpleArrayType FD FieldTy =>
      addFieldParam FD (StructType (wrapField FD FieldTy)) s
  | handleScalarType FD FieldTy | handleUnionType FD FieldTy
  | handleSyclHalfType FD FieldTy | handleSyclStreamType FD FieldTy
  | handleNonDecompStruct _ (ParentField FD) FieldTy => addFieldParam FD FieldTy s
  | handleNonDecompStruct _ (ParentBase BS) Ty =>
      Ok (true, withDecl s (addParam (makeParamDescBase Ty) (decl s)))
  | _ => Ok (true, s)
  end.

Definition handler : Handler ConstructState := mkHandler _ false true false handle.

Definition getParamVarDeclsForCurrentField (s : ConstructState) :
    list ParmVarDecl :=
  drop (LastParamIndex (decl s)) (Params (decl s)).

End SyclKernelDeclCreator.

Module SyclKernelBodyCreator.

Definition St (A : Type) : Type := ConstructState -> Result (A * ConstructState).

Definition ret {A} (a : A) : St A := fun s => Ok (a, s).
Definition bind {A B} (m : St A) (k : A -> St B) : St B :=
  fun s => rbind (m s) (fun r => k r.1 r.2).
Definition fail {A} (msg : string) : St A := fun _ => Unreachable msg.
Definition getBody : St BodyCreatorState := fun s => Ok (body s, s).
Definition putBody (b : BodyCreatorState) : St unit :=
  fun s => Ok (tt, withBody s b).

Notation "'letM' x := m 'in' k" := (bind m (fun x => k))
  (at level 10, x name, m at level 100, k at level 200).
Notation "m >>; k" := (bind m (fun _ => k))
  (at level 100, k at level 200, right associativity).

Definition setBodyStmts (b : BodyCreatorState) l :=
  mkBodyCreator l (CollectionInitExprs b) (InitLists b) (FinalizeStmts b)
    (ArrayInfos b) (MemberExprBases b) (BC_StructDepth b).
Definition setCollectionInitExprs (b : BodyCreatorState) l :=
  mkBodyCreator (BodyStmts b) l (InitLists b) (FinalizeStmts b)
    (ArrayInfos b) (MemberExprBases b) (BC_StructDepth b).
Definition setInitLists (b : BodyCreatorState) l :=
  mkBodyCreator (BodyStmts b) (CollectionInitExprs b) l (FinalizeStmts b)
    (ArrayInfos b) (MemberExprBases b) (BC_StructDepth b).
Definition setFinalizeStmts (b : BodyCreatorState) l :=
  mkBodyCreator (BodyStmts b) (CollectionInitExprs b) (InitLists b) l
    (ArrayInfos b) (MemberExprBases b) (BC_StructDepth b).
Definition setArrayInfos (b : BodyCreatorState) l :=
  mkBodyCreator (BodyStmts b) (CollectionInitExprs b) (InitLists b)
    (FinalizeStmts b) l (MemberExprBases b) (BC_StructDepth b).
Definition setMemberExprBases (b : BodyCreatorState) l :=
  mkBodyCreator (BodyStmts b) (CollectionInitExprs b) (InitLists b)
    (FinalizeStmts b) (ArrayInfos b) l (BC_StructDepth b).
Definition setStructDepth (b : BodyCreatorState) n :=
  mkBodyCreator (BodyStmts b) (CollectionInitExprs b) (InitLists b)
    (FinalizeStmts b) (ArrayInfos b) (MemberExprBases b) n.

Definition addStructDepth (n : Z) : St unit :=
  letM b := getBody in putBody (setStructDepth b (BC_StructDepth b + n)).

(** [DeclCreator.getParamVarDeclsForCurrentField()[I]]: the parameter and
    its position in the parameter list. *)
Definition currentParam (I : nat) : St (nat * ParmVarDecl) :=
  fun s =>
    match SyclKernelDeclCreator.getParamVarDeclsForCurrentField s !! I with
    | Some P => Ok ((LastParamIndex (decl s) + I)%nat, P, s)
    | None => Unreachable "Invalid index!"
    end.

Definition createParamReferenceExpr : St Expr :=
  letM p := currentParam 0 in ret (DeclRefExpr p.1).

Definition firstField (Ty : QualType) : Result FieldDecl :=
  match getAsCXXRecordDecl Ty with
  | Some RD =>
      match fields RD with
      | F :: _ => Ok F
      | [] => Unreachable "field_begin() of a record without fields"
      end
  | None => Unreachable "getAsCXXRecordDecl() of a type that is no record"
  end.

Definition pointeeAddressSpace (Ty : QualType) : LangAS :=
  match Ty with PointerType _ AS => AS | _ => Default end.

Definition createPointerParamReferenceExpr (PointerTy : QualType)
    (Wrapped : bool) : St Expr :=
  letM p := currentParam 0 in
  let ParamType := getOriginalType p.2 in
  let DRE := DeclRefExpr p.1 in
  letM u := (if Wrapped then
             fun s => rbind (firstField ParamType) (fun Pointer =>
               Ok ((MemberExpr DRE (getName Pointer), getType Pointer), s))
           else ret (DRE, ParamType)) in
  let DRE := ImplicitCastExpr CK_LValueToRValue u.2 u.1 in
  ret (if decide (pointeeAddressSpace PointerTy <> pointeeAddressSpace u.2)
       then ImplicitCastExpr CK_AddressSpaceConversion PointerTy DRE
       else DRE).

Definition createSimpleArrayParamReferenceExpr : St Expr :=
  letM p := currentParam 0 in
  fun s => rbind (firstField (getOriginalType p.2)) (fun ArrayField =>
    Ok (MemberExpr (DeclRefExpr p.1) (getName ArrayField), s)).

Definition getFieldEntity (FD : FieldDecl) (Ty : QualType) : St InitializedEntity :=
  letM b := getBody in
  if isArrayElement FD Ty then
    match ArrayInfos b with
    | (Entity, Index) :: _ => ret (InitializeElement Index Entity)
    | [] => fail "back() of an empty vector"
    end
  else ret (InitializeMember (fieldKey FD) false).

Fixpoint appendAt {A} (n : nat) (x : A) (l : list (list A)) : list (list A) :=
  match l, n with
  | [], _ => []
  | y :: l', O => (y ++ [x]) :: l'
  | y :: l', Datatypes.S n' => y :: appendAt n' x l'
  end.

(** [ParentILE->updateInit(Ctx, ParentILE->getNumInits(), Init)] on the
    list at the back of [CollectionInitExprs]. *)
Definition updateParentInit (Init : Expr) : St unit :=
  letM b := getBody in
  match CollectionInitExprs b with
  | ParentILE :: _ => putBody (setInitLists b (appendAt ParentILE Init (InitLists b)))
  | [] => fail "back() of an empty vector"
  end.

Definition addFieldInitWith (ParamRef : list Expr) (InitKind : InitializationKind)
    (Entity : InitializedEntity) : St unit :=
  updateParentInit (PerformInit Entity InitKind ParamRef).

Definition addFieldInit (FD : FieldDecl) (Ty : QualType) (ParamRef : list Expr)
    (InitKind : InitializationKind) : St unit :=
  letM Entity := getFieldEntity FD Ty in
  addFieldInitWith ParamRef InitKind Entity.

Definition addBaseInit (InitKind : InitializationKind) : St unit :=
  updateParentInit (PerformInit (InitializeBase "base") InitKind []).

Definition addSimpleBaseInit : St unit :=
  letM ParamRef := createParamReferenceExpr in
  updateParentInit (PerformInit (InitializeBase "base") CreateCopy [ParamRef]).

Definition addSimpleFieldInit (FD : FieldDecl) (Ty : QualType) : St unit :=
  letM ParamRef := createParamReferenceExpr in
  addFieldInit FD Ty [ParamRef] CreateCopy.

Definition backMemberExprBase : St Expr :=
  letM b := getBody in
  match MemberExprBases b with
  | E :: _ => ret E
  | [] => fail "back() of an empty vector"
  end.

Definition pushMemberExprBase (E : Expr) : St unit :=
  letM b := getBody in putBody (setMemberExprBases b (E :: MemberExprBases b)).

Definition popMemberExprBase : St unit :=
  letM b := getBody in
  match MemberExprBases b with
  | _ :: l => putBody (setMemberExprBases b l)
  | [] => fail "pop_back() of an empty vector"
  end.

Definition addFieldMemberExpr (FD : FieldDecl) (Ty : QualType) : St unit :=
  if negb (isArrayElement FD Ty) then
    letM Base := backMemberExprBase in
    pushMemberExprBase (MemberExpr Base (getName FD))
  else ret tt.

Definition removeFieldMemberExpr (FD : FieldDecl) (Ty : QualType) : St unit :=
  if negb (isArrayElement FD Ty) then popMemberExprBase else ret tt.

Fixpoint paramDREs (NumParams : nat) (I : nat) : St (list Expr) :=
  match NumParams with
  | O => ret []
  | Datatypes.S n =>
      letM p := currentParam I in
      letM rest := paramDREs n (Datatypes.S I) in
      ret (DeclRefExpr p.1 :: rest)
  end.

Definition createSpecialMethodCall (RD : option CXXRecordDecl)
    (MethodName : string) (toFinalize : bool) : St unit :=
  match RD with
  | None => fail "getMethodByName of a null record"
  | Some RD =>
      match getMethodByName RD MethodName with
      | None => ret tt
      | Some Method =>
          letM ParamDREs := paramDREs (length (parameters Method)) 0 in
          letM Base := backMemberExprBase in
          let Call := ExprStmt (CXXMemberCallExpr (MemberExpr Base MethodName) ParamDREs) in
          letM b := getBody in
          putBody (if toFinalize
                   then setFinalizeStmts b (FinalizeStmts b ++ [Call])
                   else setBodyStmts b (BodyStmts b ++ [Call]))
      end
  end.

Definition createInitListExpr : St nat :=
  letM b := getBody in
  putBody (setInitLists b (InitLists b ++ [[]])) >>;
  ret (length (InitLists b)).

Definition pushCollectionInitExpr (ILE : nat) : St unit :=
  letM b := getBody in
  putBody (setCollectionInitExprs b (ILE :: CollectionInitExprs b)).

Definition popCollectionInitExpr : St unit :=
  letM b := getBody in
  match CollectionInitExprs b with
  | _ :: l => putBody (setCollectionInitExprs b l)
  | [] => fail "pop_back() of an empty vector"
  end.

Definition addCollectionInitListExpr : St unit :=
  letM ILE := createInitListExpr in
  updateParentInit (InitListExpr ILE) >>;
  pushCollectionInitExpr ILE.

Definition getInitMethodName (s : ConstructState) : string :=
  if IsSIMDKernel s then InitESIMDMethodName else InitMethodName.

Definition initCall (RD : option CXXRecordDecl) : St unit :=
  fun s => createSpecialMethodCall RD (getInitMethodName s) false s.

Definition handleSpecialType (FD : FieldDecl) (Ty : QualType) : St unit :=
  addFieldInit FD Ty [] CreateDefault >>;
  addFieldMemberExpr FD Ty >>;
  initCall (getAsCXXRecordDecl Ty) >>;
  removeFieldMemberExpr FD Ty.

Definition handleSpecialTypeBase (Ty : QualType) : St unit :=
  addBaseInit CreateDefault >>;
  initCall (getAsCXXRecordDecl Ty).

Definition nextElementImpl (Index : Z) : St unit :=
  letM b := getBody in
  match ArrayInfos b with
  | [] => fail "back() of an empty vector"
  | (E, _) :: l =>
      putBody (setArrayInfos b ((E, Index) :: l)) >>;
      (if decide (Index <> 0) then popMemberExprBase else ret tt) >>;
      letM Base := backMemberExprBase in
      pushMemberExprBase (ArraySubscriptExpr Base Index)
  end.

Definition popArrayInfo : St unit :=
  letM b := getBody in
  match ArrayInfos b with
  | _ :: l => putBody (setArrayInfos b l)
  | [] => fail "pop_back() of an empty vector"
  end.

Definition run (m : St unit) (s : ConstructState) : Result (bool * ConstructState) :=
  rbind (m s) (fun r => Ok (true, r.2)).

Definition handle (ev : Event) : ConstructState -> Result (bool * ConstructState) :=
  match ev with
  | handleSyclAccessorType FD Ty | handleSyclSamplerType FD Ty
  | handleSyclSpecConstantType FD Ty => run (handleSpecialType FD Ty)
  | handleSyclAccessorTypeBase _ BS Ty => run (handleSpecialTypeBase Ty)
  | handleSyclStreamType FD Ty | handleSyclHalfType FD Ty
  | handleScalarType FD Ty | handleUnionType FD Ty
  | handleNonDecompStruct _ (ParentField FD) Ty => run (addSimpleFieldInit FD Ty)
  | handleNonDecompStruct _ (ParentBase BS) Ty => run addSimpleBaseInit
  | handlePointerType FD FieldTy =>
      run (letM b := getBody in
           letM PointerRef := createPointerParamReferenceExpr FieldTy
                              (bool_decide (BC_StructDepth b <> 0)) in
           addFieldInit FD FieldTy [PointerRef] CreateCopy)
  | handleSimpleArrayType FD FieldTy =>
      run (letM ArrayRef := createSimpleArrayParamReferenceExpr in
           addFieldInitWith [ArrayRef] CreateDirect
             (InitializeMember (fieldKey FD) true))
  | enterStream RD FD Ty =>
      run (addStructDepth 1 >>;
           letM ILE := createInitListExpr in
           pushCollectionInitExpr ILE >>;
           addFieldMemberExpr FD Ty)
  | leaveStream RD FD Ty =>
      run (addStructDepth (-1) >>;
           initCall (getAsCXXRecordDecl Ty) >>;
           createSpecialMethodCall (getAsCXXRecordDecl Ty) FinalizeMethodName true >>;
           removeFieldMemberExpr FD Ty >>;
           popCollectionInitExpr)
  | enterStruct RD (ParentField FD) Ty =>
      run (addStructDepth 1 >>;
           addCollectionInitListExpr >>;
           addFieldMemberExpr FD Ty)
  | leaveStruct RD (ParentField FD) Ty =>
      run (addStructDepth (-1) >>;
           popCollectionInitExpr >>;
           removeFieldMemberExpr FD Ty)
  | enterStruct RD (ParentBase BS) Ty =>
      run (addStructDepth 1 >>;
           letM Base := backMemberExprBase in
           pushMemberExprBase (ImplicitCastExpr CK_DerivedToBase (getBaseType BS) Base) >>;
           addCollectionInitListExpr)
  | leaveStruct RD (ParentBase BS) Ty =>
      run (addStructDepth (-1) >>;
           popMemberExprBase >>;
           popCollectionInitExpr)
  | enterArray FD ArrayType ElementType =>
      run (addCollectionInitListExpr >>;
           letM Entity := getFieldEntity FD ArrayType in
           letM b := getBody in
           putBody (setArrayInfos b ((Entity, 0) :: ArrayInfos b)) >>;
           addFieldMemberExpr FD ArrayType)
  | nextElement _ Index => run (nextElementImpl Index)
  | leaveArray FD ArrayType ElementType =>
      run (popCollectionInitExpr >>;
           popArrayInfo >>;
           popMemberExprBase >>;
           removeFieldMemberExpr FD ArrayType)
  | _ => fun s => Ok (true, s)
  end.

Definition handler : Handler ConstructState := mkHandler _ false true false handle.

(** The constructor: the initializer list of the kernel object, the
    declaration of the clone and the reference to it. *)
Definition initial : BodyCreatorState :=
  mkBodyCreator [DeclStmt_KernelObjClone] [0%nat] [[]] [] [] [KernelObjCloneRef] 0.

(** [createKernelBody]: the initializer of the clone and the statements of
    the body. *)
Definition createKernelBody (s : ConstructState) : Result (nat * list Stmt) :=
  match CollectionInitExprs (body s) with
  | [ILE] =>
      Ok (ILE, BodyStmts (body s) ++ [TransformedBody] ++ FinalizeStmts (body s))
  | _ => Unreachable "Should have been popped down to just the first one"
  end.

End SyclKernelBodyCreator.

Module SyclKernelIntHeaderCreator.

Definition offsetOf (FD : FieldDecl) (ArgTy : QualType) : Z :=
  if isArrayElement FD ArgTy then 0 else getFieldOffset FD `div` 8.

Definition offsetOfBase (BS : CXXBaseSpecifier) : Z := getBaseClassOffset BS.

Definition addParamDesc (Kind : kernel_param_kind_t) (Info : Z) (Offset : Z)
    (h : IntHeaderState) : IntHeaderState :=
  mkIntHeader
    (KernelParams h ++
       [mkKernelParamDesc Kind (sextBits 32 Info) (zextBits 32 Offset)])
    (SpecConsts h) (CurOffset h) (ArrayBaseOffsets h) (IH_StructDepth h).

Definition addParamAdj (ArgTy : QualType) (Kind : kernel_param_kind_t)
    (OffsetAdj : Z) (h : IntHeaderState) : IntHeaderState :=
  let Size := getTypeSizeInChars ArgTy in
  addParamDesc Kind (zextBits 32 Size) (zextBits 32 (CurOffset h + OffsetAdj)) h.

Definition addParam (FD : FieldDecl) (ArgTy : QualType)
    (Kind : kernel_param_kind_t) (h : IntHeaderState) : IntHeaderState :=
  addParamAdj ArgTy Kind (offsetOf FD ArgTy) h.

Definition setOffset (h : IntHeaderState) (off : Z) (bases : list Z) (d : Z) :
    IntHeaderState :=
  mkIntHeader (KernelParams h) (SpecConsts h) off bases d.

Definition accessorInfo (Ty : QualType) : Result Z :=
  match Ty with
  | AccessorType _ Dims Target _ _ =>
      Ok (Z.lor (sextBits 32 Target) (Z.shiftl (sextBits 32 Dims) 11))
  | _ => Unreachable "Incorrect template args for Accessor Type"
  end.

Definition ok (s : ConstructState) (h : IntHeaderState) :
    Result (bool * ConstructState) := Ok (true, withHdr s h).

Definition handle (ev : Event) (s : ConstructState) :
    Result (bool * ConstructState) :=
  let h := hdr s in
  match ev with
  | handleSyclAccessorTypeBase RD BC FieldTy =>
      rbind (accessorInfo FieldTy) (fun Info =>
      ok s (addParamDesc kind_accessor Info (CurOffset h + offsetOfBase BC) h))
  | handleSyclAccessorType FD FieldTy =>
      rbind (accessorInfo FieldTy) (fun Info =>
      ok s (addParamDesc kind_accessor Info (CurOffset h + offsetOf FD FieldTy) h))
  | handleSyclSamplerType FD FieldTy =>
      match getAsCXXRecordDecl FieldTy with
      | None => Unreachable "Sampler type must be a C++ record type"
      | Some SamplerTy =>
          match getMethodByName SamplerTy InitMethodName with
          | None => Unreachable "sampler must have __init method"
          | Some InitMethod =>
              match parameters InitMethod with
              | [] => Unreachable "sampler __init method must have sampler parameter"
              | SamplerArg :: _ =>
                  ok s (addParamAdj SamplerArg kind_sampler (offsetOf FD FieldTy) h)
              end
          end
      end
  | handleSyclSpecConstantType FD FieldTy =>
      match FieldTy with
      | SpecConstantType _ SpecConstName =>
          ok s (mkIntHeader (KernelParams h) (SpecConsts h ++ [SpecConstName])
                  (CurOffset h) (ArrayBaseOffsets h) (IH_StructDepth h))
      | _ => Unreachable "Incorrect template args for spec constant type"
      end
  | handlePointerType FD FieldTy =>
      ok s (addParam FD FieldTy
              (if decide (IH_StructDepth h <> 0) then kind_std_layout
               else kind_pointer) h)
  | handleScalarType FD FieldTy | handleSimpleArrayType FD FieldTy
  | handleNonDecompStruct _ (ParentField FD) FieldTy
  | handleUnionType FD FieldTy | handleSyclStreamType FD FieldTy
  | handleSyclHalfType FD FieldTy =>
      ok s (addParam FD FieldTy kind_std_layout h)
  | handleNonDecompStruct Base (ParentBase BS) Ty =>
      ok s (addParamAdj Ty kind_std_layout (offsetOfBase BS) h)
  | enterStream _ FD Ty | enterStruct _ (ParentField FD) Ty =>
      ok s (setOffset h (CurOffset h + offsetOf FD Ty) (ArrayBaseOffsets h)
              (IH_StructDepth h + 1))
  | leaveStream _ FD Ty | leaveStruct _ (ParentField FD) Ty =>
      ok s (setOffset h (CurOffset h - offsetOf FD Ty) (ArrayBaseOffsets h)
              (IH_StructDepth h - 1))
  | enterStruct RD (ParentBase BS) _ =>
      ok s (setOffset h (CurOffset h + offsetOfBase BS) (ArrayBaseOffsets h)
              (IH_StructDepth h))
  | leaveStruct RD (ParentBase BS) _ =>
      ok s (setOffset h (CurOffset h - offsetOfBase BS) (ArrayBaseOffsets h)
              (IH_StructDepth h))
  | enterArray FD ArrayTy _ =>
      ok s (setOffset h (CurOffset h)
              ((CurOffset h + offsetOf FD ArrayTy) :: ArrayBaseOffsets h)
              (IH_StructDepth h))
  | nextElement ET Index =>
      match ArrayBaseOffsets h with
      | [] => Unreachable "back() of an empty vector"
      | Base :: _ =>
          let Size := getTypeSizeInChars ET in
          ok s (setOffset h (Base + Size * Index) (ArrayBaseOffsets h)
                  (IH_StructDepth h))
      end
  | leaveArray FD ArrayTy _ =>
      match ArrayBaseOffsets h with
      | [] => Unreachable "pop_back_val() of an empty vector"
      | Base :: l =>
          ok s (setOffset h (Base - offsetOf FD ArrayTy) l (IH_StructDepth h))
      end
  | _ => Ok (true, s)
  end.

Definition handler : Handler ConstructState := mkHandler _ false true false handle.

Definition initial : IntHeaderState := mkIntHeader [] [] 0 [] 0.

End SyclKernelIntHeaderCreator.

(** The walk of [ConstructOpenCLKernel] over a kernel object. *)
Definition constructHandlers : list (Handler ConstructState) :=
  [SyclKernelDeclCreator.handler; SyclKernelBodyCreator.handler;
   SyclKernelIntHeaderCreator.handler].

Definition constructRequiresDecomposition (s : ConstructState) (key : string) : bool :=
  hasAttr (cs_Sema s) key.

Definition initialConstructState (S : Sema) (IsSIMDKernel : bool) : ConstructState :=
  mkConstructState S IsSIMDKernel (mkDeclCreator [] 0 0)
    SyclKernelBodyCreator.initial SyclKernelIntHeaderCreator.initial.

Definition ConstructOpenCLKernel (KernelObj : CXXRecordDecl) (S : Sema)
    (IsSIMDKernel : bool) : Result ConstructState :=
  rbind (VisitRecordBases _ constructRequiresDecomposition KernelObj
           constructHandlers (initialConstructState S IsSIMDKernel)) (fun s =>
  VisitRecordFields _ constructRequiresDecomposition KernelObj constructHandlers s).

(** The callbacks at which the visitor enters, and leaves, a class, a
    stream or an array. *)
Definition entersCollection (ev : Event) : bool :=
  match ev with
  | enterStruct _ _ _ | enterStream _ _ _ | enterArray _ _ _ => true
  | _ => false
  end.

Definition leavesCollection (ev : Event) : bool :=
  match ev with
  | leaveStruct _ _ _ | leaveStream _ _ _ | leaveArray _ _ _ => true
  | _ => false
  end.

(** The types of fields the builders pass as one parameter with one
    descriptor, without a walk inside. *)
Definition isLeafType (Ty : QualType) : bool :=
  match Ty with
  | ScalarType _ _ | PointerType _ _ | HalfType _ | UnionType _ => true
  | _ => false
  end.

(** *** What a visit keeps of the state of the builders *)

(** The builders can take the next callback: the stacks the body creator
    reads the back of hold an entry, and the declaration creator and the
    body creator are at the same depth. *)
Definition wellStacked (s : ConstructState) : Prop :=
  CollectionInitExprs (body s) <> [] /\ MemberExprBases (body s) <> [] /\
  DC_StructDepth (decl s) = BC_StructDepth (body s).

(** The stacks, depths and the current offset are as they were, and
    parameters and their descriptors were only added. *)
Record sameFrame (s s' : ConstructState) : Prop := mkSameFrame {
  sf_params : Params (decl s) `prefix_of` Params (decl s');
  sf_kernel_params : KernelParams (hdr s) `prefix_of` KernelParams (hdr s');
  sf_decomposition :
    RequiresDecomposition (cs_Sema s') = RequiresDecomposition (cs_Sema s);
  sf_simd : IsSIMDKernel s' = IsSIMDKernel s;
  sf_collections : CollectionInitExprs (body s') = CollectionInitExprs (body s);
  sf_bases : MemberExprBases (body s') = MemberExprBases (body s);
  sf_arrays : ArrayInfos (body s') = ArrayInfos (body s);
  sf_body_depth : BC_StructDepth (body s') = BC_StructDepth (body s);
  sf_decl_depth : DC_StructDepth (decl s') = DC_StructDepth (decl s);
  sf_offset : CurOffset (hdr s') = CurOffset (hdr s);
  sf_array_offsets : ArrayBaseOffsets (hdr s') = ArrayBaseOffsets (hdr s);
  sf_hdr_depth : IH_StructDepth (hdr s') = IH_StructDepth (hdr s);
}.

(** A state of the walk of a kernel object with the marks of [S], for a
    kernel that is or is not an ESIMD kernel. *)
Definition inWalk (S : Sema) (IsSIMD : bool) (s : ConstructState) : Prop :=
  wellStacked s /\
  RequiresDecomposition (cs_Sema s) = RequiresDecomposition S /\
  IsSIMDKernel s = IsSIMD.

(** What the declaration creator leaves alone when it adds parameters. *)
Record paramsOnly (s s' : ConstructState) : Prop := mkParamsOnly {
  po_body : body s' = body s;
  po_hdr : hdr s' = hdr s;
  po_simd : IsSIMDKernel s' = IsSIMDKernel s;
  po_decomposition :
    RequiresDecomposition (cs_Sema s') = RequiresDecomposition (cs_Sema s);
  po_depth : DC_StructDepth (decl s') = DC_StructDepth (decl s);
}.

(** The state between two elements of the array field [FD], entered in the
    state [s]: one more initializer list, one more array with its entity,
    the subscript expression of an element on top of the bases, and the
    offset of the array on top of the array offsets. *)
Record insideArray (FD : FieldDecl) (ArrayTy : QualType)
    (s s1 : ConstructState) : Prop := mkInsideArray {
  ia_decomposition :
    RequiresDecomposition (cs_Sema s1) = RequiresDecomposition (cs_Sema s);
  ia_simd : IsSIMDKernel s1 = IsSIMDKernel s;
  ia_collections :
    exists ILE, CollectionInitExprs (body s1) = ILE :: CollectionInitExprs (body s);
  ia_bases :
    exists X, MemberExprBases (body s1) =
      if isArrayElement FD ArrayTy then X :: MemberExprBases (body s)
      else match MemberExprBases (body s) with
           | B :: _ => X :: MemberExpr B (getName FD) :: MemberExprBases (body s)
           | [] => []
           end;
  ia_arrays :
    exists E Index, ArrayInfos (body s1) = (E, Index) :: ArrayInfos (body s);
  ia_body_depth : BC_StructDepth (body s1) = BC_StructDepth (body s);
  ia_decl_depth : DC_StructDepth (decl s1) = DC_StructDepth (decl s);
  ia_array_offsets :
    ArrayBaseOffsets (hdr s1) =
      (CurOffset (hdr s) + SyclKernelIntHeaderCreator.offsetOf FD ArrayTy)
        :: ArrayBaseOffsets (hdr s);
  ia_hdr_depth : IH_StructDepth (hdr s1) = IH_StructDepth (hdr s);
  ia_params : Params (decl s) `prefix_of` Params (decl s1);
  ia_kernel_params : KernelParams (hdr s) `prefix_of` KernelParams (hdr s1);
}.

(** *** Shapes the kernel builders walk without an abort

    Arrays that are decomposed have a constant, positive number of
    elements; accessors and samplers have the initializer method the
    builders look up; the initializer a handler calls takes no more
    parameters than the declaration creator made for the field. *)

Section LegalShape.

Variable S : Sema.
Variable IsSIMD : bool.

Definition initName : string :=
  if IsSIMD then InitESIMDMethodName else InitMethodName.

Definition numParams (RD : CXXRecordDecl) (MethodName : string) : option nat :=
  match getMethodByName RD MethodName with
  | Some M => Some (length (parameters M))
  | None => None
  end.

Definition legalAccessor (Ty : QualType) : bool :=
  match Ty with
  | AccessorType RD _ _ _ _ => bool_decide (is_Some (getMethodByName RD initName))
  | _ => true
  end.

Definition legalStream (RD : CXXRecordDecl) : bool :=
  bool_decide (numParams RD initName ∈ [None; Some 0%nat])
  && bool_decide (numParams RD FinalizeMethodName ∈ [None; Some 0%nat])
  && forallb (fun F => legalAccessor (getType F)) (fields RD).

Fixpoint legalField (FD : FieldDecl) (Ty : QualType) {struct Ty} : bool :=
  match Ty with
  | AccessorType _ _ _ _ _ => legalAccessor Ty
  | SamplerType RD =>
      match numParams RD InitMethodName with
      | Some n =>
          bool_decide (1 <= n)%nat &&
          match numParams RD initName with
          | Some m => bool_decide (m <= n)%nat
          | None => true
          end
      | None => false
      end
  | SpecConstantType RD _ => bool_decide (numParams RD initName = None)
  | StreamType RD => legalStream RD
  | StructType RD =>
      if hasAttr S (recordKey RD) then
        forallb (fun B => legalBase (getBaseType B)) (bases RD)
        && forallb (fun F => legalField F (getType F)) (fields RD)
      else true
  | ConstantArrayType ET n =>
      if hasAttr S (fieldKey FD) then bool_decide (n > 0) && legalField FD ET
      else true
  | VariableArrayType _ | IncompleteArrayType _ => negb (hasAttr S (fieldKey FD))
  | _ => true
  end

with legalBase (Ty : QualType) {struct Ty} : bool :=
  match Ty with
  | AccessorType _ _ _ _ _ => legalAccessor Ty
  | StreamType _ => true
  | SamplerType RD | HalfType RD | SpecConstantType RD _ | StructType RD
  | UnionType RD =>
      if hasAttr S (recordKey RD) then
        forallb (fun B => legalBase (getBaseType B)) (bases RD)
        && forallb (fun F => legalField F (getType F)) (fields RD)
      else true
  | _ => false
  end.

Definition legalKernelObject (KernelObj : CXXRecordDecl) : bool :=
  forallb (fun B => legalBase (getBaseType B)) (bases KernelObj)
  && forallb (fun F => legalField F (getType F)) (fields KernelObj).

End LegalShape.

(** Inside a union only the union checker is left of the three checkers; it
    walks every array it meets, which must then be of constant, positive
    size, and every base must be a class. *)
Fixpoint walkableInUnion (Ty : QualType) : bool :=
  match Ty with
  | StructType RD =>
      forallb (fun B => walkableBaseInUnion (getBaseType B)) (bases RD)
      && forallb (fun F => walkableInUnion (getType F)) (fields RD)
  | UnionType RD => forallb (fun F => walkableInUnion (getType F)) (fields RD)
  | ConstantArrayType ET n => bool_decide (n > 0) && walkableInUnion ET
  | VariableArrayType _ | IncompleteArrayType _ => false
  | _ => true
  end

with walkableBaseInUnion (Ty : QualType) : bool :=
  match Ty with
  | AccessorType _ _ _ _ _ | StreamType _ => true
  | SamplerType RD | HalfType RD | SpecConstantType RD _ | StructType RD
  | UnionType RD =>
      forallb (fun B => walkableBaseInUnion (getBaseType B)) (bases RD)
      && forallb (fun F => walkableInUnion (getType F)) (fields RD)
  | _ => false
  end.

(** What the walk inside a union keeps of the state of the union checker:
    the count of unions entered, a rejection once made, and the
    diagnostics reported. *)
Record unionChecked (s s' : CheckState) : Prop := mkUnionChecked {
  uc_count : UnionCount s' = UnionCount s;
  uc_invalid : UnionChecker_IsInvalid s = true -> UnionChecker_IsInvalid s' = true;
  uc_diags : Diags (chk_Sema s) `prefix_of` Diags (chk_Sema s');
}.

Definition isResourceType (Ty : QualType) : bool :=
  match Ty with
  | AccessorType _ _ _ _ _ | SamplerType _ | StreamType _ => true
  | _ => false
  end.

(** *** Propagation of kernel attributes in [MarkDevice] *)

Record WorkGroupSize : Type := mkWorkGroupSize {
  getXDim : Z;
  getYDim : Z;
  getZDim : Z;
}.

#[global] Instance WorkGroupSize_eq_dec : EqDecision WorkGroupSize.
Proof. solve_decision. Defined.

Inductive AttrKind : Type :=
| IntelReqdSubGroupSize (Value : Z)
| ReqdWorkGroupSize (Dims : WorkGroupSize)
| SYCLIntelMaxWorkGroupSize (Dims : WorkGroupSize)
| SYCLIntelKernelArgsRestrict
| SYCLIntelNumSimdWorkItems
| SYCLIntelSchedulerTargetFmaxMhz
| SYCLIntelMaxGlobalWorkDim
| SYCLIntelNoGlobalWorkOffset
| SYCLIntelUseStallEnableClusters
| SYCLIntelLoopFuse
| SYCLSimd
| OtherAttrKind (Name : string).

#[global] Instance AttrKind_eq_dec : EqDecision AttrKind.
Proof. solve_decision. Defined.

(** An attribute of a declaration.  An attribute that a redeclaration took
    over from an earlier declaration is inherited. *)
Record Attr : Type := mkAttr {
  getKind : AttrKind;
  getLocation : string;
  isInherited : bool;
}.

#[global] Instance Attr_eq_dec : EqDecision Attr.
Proof. solve_decision. Defined.

Record FunctionDecl : Type := mkFunctionDecl {
  getFunctionLocation : string;
  attrs : list Attr;
  isInvalidDecl : bool;
}.

Record MarkState : Type := mkMarkState {
  SYCLKernel : FunctionDecl;
  KernelBody : option FunctionDecl;
  MarkDiags : list (DiagID * string);
}.

(** [getAttr<T>()]: the first attribute of the kind. *)
Fixpoint getReqdWorkGroupSizeAttr (l : list Attr) : option (Attr * WorkGroupSize) :=
  match l with
  | [] => None
  | A :: l' =>
      match getKind A with
      | ReqdWorkGroupSize D => Some (A, D)
      | _ => getReqdWorkGroupSizeAttr l'
      end
  end.

Fixpoint getSYCLIntelMaxWorkGroupSizeAttr (l : list Attr) :
    option (Attr * WorkGroupSize) :=
  match l with
  | [] => None
  | A :: l' =>
      match getKind A with
      | SYCLIntelMaxWorkGroupSize D => Some (A, D)
      | _ => getSYCLIntelMaxWorkGroupSizeAttr l'
      end
  end.

Fixpoint getIntelReqdSubGroupSizeAttr (l : list Attr) : option (Attr * Z) :=
  match l with
  | [] => None
  | A :: l' =>
      match getKind A with
      | IntelReqdSubGroupSize V => Some (A, V)
      | _ => getIntelReqdSubGroupSizeAttr l'
      end
  end.

Fixpoint getSYCLSimdAttr (l : list Attr) : option Attr :=
  match l with
  | [] => None
  | A :: l' =>
      match getKind A with
      | SYCLSimd => Some A
      | _ => getSYCLSimdAttr l'
      end
  end.

(** [Decl::addAttr]: an attribute that is not inherited goes to the end of
    the attributes of the declaration; an inherited one goes in front of
    the first attribute that is not inherited, so that the inherited
    attributes stay before the others. *)
Fixpoint insertInherited (A : Attr) (l : list Attr) : list Attr :=
  match l with
  | [] => [A]
  | B :: l' => if isInherited B then B :: insertInherited A l' else A :: B :: l'
  end.

Definition Decl_addAttr (l : list Attr) (A : Attr) : list Attr :=
  if isInherited A then insertInherited A l else l ++ [A].

Definition addFunctionAttr (F : FunctionDecl) (A : Attr) : FunctionDecl :=
  mkFunctionDecl (getFunctionLocation F) (Decl_addAttr (attrs F) A) (isInvalidDecl F).

Definition setInvalidDecl (F : FunctionDecl) : FunctionDecl :=
  mkFunctionDecl (getFunctionLocation F) (attrs F) true.

Definition kernelAddAttr (st : MarkState) (A : Attr) : MarkState :=
  mkMarkState (addFunctionAttr (SYCLKernel st) A) (KernelBody st) (MarkDiags st).

(** The three diagnostics of a conflict on the kernel, and the kernel set
    invalid. *)
Definition kernelConflict (st : MarkState) (Existing A : Attr) : MarkState :=
  mkMarkState (setInvalidDecl (SYCLKernel st)) (KernelBody st)
    (MarkDiags st ++
       [(err_conflicting_sycl_kernel_attributes, getFunctionLocation (SYCLKernel st));
        (note_conflicting_attribute, getLocation Existing);
        (note_conflicting_attribute, getLocation A)]).

Definition reportConflictingAttrs (st : MarkState) (F : FunctionDecl)
    (A1 A2 : Attr) : MarkState :=
  mkMarkState (SYCLKernel st) (Some (setInvalidDecl F))
    (MarkDiags st ++
       [(err_conflicting_sycl_kernel_attributes, getFunctionLocation F);
        (note_conflicting_attribute, getLocation A1);
        (note_conflicting_attribute, getLocation A2)]).

(** One round of the loop [for (auto *A : Attrs)]. *)
Definition propagateAttr (st : MarkState) (A : Attr) : Result MarkState :=
  match getKind A with
  | IntelReqdSubGroupSize V =>
      let KBSimdAttr :=
        match KernelBody st with
        | Some KB => getSYCLSimdAttr (attrs KB)
        | None => None
        end in
      match getIntelReqdSubGroupSizeAttr (attrs (SYCLKernel st)) with
      | Some (Existing, EV) =>
          if decide (EV <> V) then Ok (kernelConflict st Existing A) else Ok st
      | None =>
          match KBSimdAttr, KernelBody st with
          | Some KBA, Some KB =>
              if decide (V <> 1) then Ok (reportConflictingAttrs st KB KBA A)
              else Ok (kernelAddAttr st A)
          | _, _ => Ok (kernelAddAttr st A)
          end
      end
  | ReqdWorkGroupSize D =>
      match getReqdWorkGroupSizeAttr (attrs (SYCLKernel st)) with
      | Some (Existing, E) =>
          if bool_decide (getXDim E <> getXDim D) || bool_decide (getYDim E <> getYDim D)
             || bool_decide (getZDim E <> getZDim D)
          then Ok (kernelConflict st Existing A) else Ok st
      | None =>
          match getSYCLIntelMaxWorkGroupSizeAttr (attrs (SYCLKernel st)) with
          | Some (Existing, E) =>
              if bool_decide (getXDim E < getXDim D) || bool_decide (getYDim E < getYDim D)
                 || bool_decide (getZDim E < getZDim D)
              then Ok (kernelConflict st Existing A)
              else Ok (kernelAddAttr st A)
          | None => Ok (kernelAddAttr st A)
          end
      end
  | SYCLIntelMaxWorkGroupSize D =>
      match getReqdWorkGroupSizeAttr (attrs (SYCLKernel st)) with
      | Some (Existing, E) =>
          if bool_decide (getXDim E > getXDim D) || bool_decide (getYDim E > getYDim D)
             || bool_decide (getZDim E > getZDim D)
          then Ok (kernelConflict st Existing A)
          else Ok (kernelAddAttr st A)
      | None => Ok (kernelAddAttr st A)
      end
  | SYCLIntelKernelArgsRestrict | SYCLIntelNumSimdWorkItems
  | SYCLIntelSchedulerTargetFmaxMhz | SYCLIntelMaxGlobalWorkDim
  | SYCLIntelNoGlobalWorkOffset | SYCLIntelUseStallEnableClusters
  | SYCLIntelLoopFuse => Ok (kernelAddAttr st A)
  | SYCLSimd =>
      match KernelBody st with
      | Some KB =>
          match getSYCLSimdAttr (attrs KB) with
          | None =>
              Ok (mkMarkState (SYCLKernel st) (Some (setInvalidDecl KB))
                    (MarkDiags st ++
                       [(err_sycl_function_attribute_mismatch, getFunctionLocation KB);
                        (note_attribute, getLocation A)]))
          | Some _ => Ok (kernelAddAttr st A)
          end
      | None => Ok (kernelAddAttr st A)
      end
  | OtherAttrKind _ =>
      Unreachable "Unexpected attribute was collected by CollectPossibleKernelAttributes"
  end.

Fixpoint propagateAttrs (Attrs : list Attr) (st : MarkState) : Result MarkState :=
  match Attrs with
  | [] => Ok st
  | A :: Attrs' => rbind (propagateAttr st A) (propagateAttrs Attrs')
  end.




(** *** Induction over the types of a kernel object

    The induction hypothesis of a class type covers the types of its bases
    and of its fields. *)
Section QualType_nested_ind.

Variable P : QualType -> Prop.

Definition PRecord (RD : CXXRecordDecl) : Prop :=
  Forall (fun B => P (getBaseType B)) (bases RD) /\
  Forall (fun F => P (getType F)) (fields RD).

Hypothesis HAccessor : forall RD d t l ds, PRecord RD -> P (AccessorType RD d t l ds).
Hypothesis HSampler : forall RD, PRecord RD -> P (SamplerType RD).
Hypothesis HHalf : forall RD, PRecord RD -> P (HalfType RD).
Hypothesis HSpecConstant : forall RD n, PRecord RD -> P (SpecConstantType RD n).
Hypothesis HStream : forall RD, PRecord RD -> P (StreamType RD).
Hypothesis HStruct : forall RD, PRecord RD -> P (StructType RD).
Hypothesis HUnion : forall RD, PRecord RD -> P (UnionType RD).
Hypothesis HReference : forall T, P T -> P (ReferenceType T).
Hypothesis HPointer : forall T AS, P T -> P (PointerType T AS).
Hypothesis HConstantArray : forall T n, P T -> P (ConstantArrayType T n).
Hypothesis HVariableArray : forall T, P T -> P (VariableArrayType T).
Hypothesis HIncompleteArray : forall T, P T -> P (IncompleteArrayType T).
Hypothesis HScalar : forall n sz, P (ScalarType n sz).
Hypothesis HOther : forall n sz, P (OtherType n sz).

Fixpoint QualType_nested_ind (T : QualType) : P T :=
  let record (RD : CXXRecordDecl) : PRecord RD :=
    conj
      ((fix go (l : list CXXBaseSpecifier) : Forall (fun B => P (getBaseType B)) l :=
          match l with
          | [] => List.Forall_nil _
          | B :: l' => List.Forall_cons _ _ _ (QualType_nested_ind (getBaseType B)) (go l')
          end) (bases RD))
      ((fix go (l : list FieldDecl) : Forall (fun F => P (getType F)) l :=
          match l with
          | [] => List.Forall_nil _
          | F :: l' => List.Forall_cons _ _ _ (QualType_nested_ind (getType F)) (go l')
          end) (fields RD)) in
  match T with
  | AccessorType RD d t l ds => HAccessor RD d t l ds (record RD)
  | SamplerType RD => HSampler RD (record RD)
  | HalfType RD => HHalf RD (record RD)
  | SpecConstantType RD n => HSpecConstant RD n (record RD)
  | StreamType RD => HStream RD (record RD)
  | StructType RD => HStruct RD (record RD)
  | UnionType RD => HUnion RD (record RD)
  | ReferenceType T' => HReference T' (QualType_nested_ind T')
  | PointerType T' AS => HPointer T' AS (QualType_nested_ind T')
  | ConstantArrayType T' n => HConstantArray T' n (QualType_nested_ind T')
  | VariableArrayType T' => HVariableArray T' (QualType_nested_ind T')
  | IncompleteArrayType T' => HIncompleteArray T' (QualType_nested_ind T')
  | ScalarType n sz => HScalar n sz
  | OtherType n sz => HOther n sz
  end.

End QualType_nested_ind.

End SemaSYCL.

(** * Sample inputs *)

Module Samples.

Import LowerESIMD.

(** What the demangler returns for the callee names of the samples. *)
Definition demangle (MnglName : string) : option Node :=
  if String.eqb MnglName "_Z11__esimd_foov"
  then Some (FunctionEncoding (NameType "__esimd_foo"))
  else if String.eqb MnglName "_Z13__esimd_vloadIiLi8EEvPv"
  then Some (FunctionEncoding
               (NameWithTemplateArgs "__esimd_vload"
                  [OtherTemplateArg; IntegerLiteral EmptyString 8]))
  else None.

Definition notOverloaded (ID : string) : bool := false.
Definition noArgOverloaded (ID : string) (i : nat) : bool := false.

(** The return type of a target declaration: the overloaded type when there
    is one, [i32] otherwise. *)
Definition declaredReturnType (ID : string) (Tys : list LType) : LType :=
  match Tys with
  | T :: _ => T
  | [] => IntegerTy 32
  end.

Definition v8i32 : LType := FixedVectorTy (IntegerTy 32) 8.

(** [%r = call @__esimd_foo()] followed by a use, in an ESIMD function. *)
Definition callFoo : Instruction :=
  mkInst 0 "r" (Call (Some "_Z11__esimd_foov")) [] (IntegerTy 32).
Definition fnFoo : Function :=
  mkFunction true [callFoo; mkInst 1 EmptyString (OtherOp "ret") [VInst 0 (IntegerTy 32)] VoidTy]
    2 None.

(** [%v = call <8 x i32> @__esimd_vload(%p)], with one operand. *)
Definition callVLoad : Instruction :=
  mkInst 0 "v" (Call (Some "_Z13__esimd_vloadIiLi8EEvPv")) [VArgument 0 PointerTy] v8i32.
Definition fnVLoad : Function := mkFunction true [callVLoad] 1 None.

(** A function without [!sycl_explicit_simd] that calls an intrinsic. *)
Definition fnPlain : Function :=
  mkFunction false [callFoo] 1 None.

Definition workItem : WorkItem :=
  mkWorkItem [3; 4; 5] [16; 8; 2] [7; 9; 11] [100; 200; 300].

(** [%g = call i64 @__spirv_GlobalInvocationId_x()] and a use. *)
Definition callGlobalId (Suff : string) : Instruction :=
  mkInst 0 "g" (Call (Some ("_Z28__spirv_GlobalInvocationId_" +:+ Suff +:+ "v"))) []
    (IntegerTy 64).
Definition fnGlobalId (Suff : string) : Function :=
  mkFunction true
    [callGlobalId Suff; mkInst 1 EmptyString (OtherOp "ret") [VInst 0 (IntegerTy 64)] VoidTy]
    2 None.

End Samples.

(** * Sample kernel objects and attributes *)

Module KernelSamples.

Import SemaSYCL.

Definition intTy : QualType := ScalarType "int" 4.
Definition intPtrTy : QualType := PointerType intTy Default.

Definition accessorDecl : CXXRecordDecl :=
  mkRecordDecl "accessor" [] []
    [mkMethod "__init"
       [PointerType intTy opencl_global; ScalarType "range" 8;
        ScalarType "range" 8; ScalarType "id" 8];
     mkMethod "__init_esimd" [PointerType intTy opencl_global]]
    32 true true true.

Definition accessorTy : QualType := AccessorType accessorDecl 1 2014 [] [].

Definition streamDecl : CXXRecordDecl :=
  mkRecordDecl "stream" [] [mkFieldDecl "stream" "Acc" accessorTy 0]
    [mkMethod "__init" []; mkMethod "__finalize" []] 40 true true true.

(** [struct Inner { int *p; int x; };] *)
Definition Inner : CXXRecordDecl :=
  mkRecordDecl "Inner" []
    [mkFieldDecl "Inner" "p" intPtrTy 0; mkFieldDecl "Inner" "x" intTy 64]
    [] 16 true true true.

(** A kernel object with an accessor, a class with a pointer inside, an
    array of pointers, a stream and an integer. *)
Definition kernelObject : CXXRecordDecl :=
  mkRecordDecl "K" []
    [mkFieldDecl "K" "a" accessorTy 0;
     mkFieldDecl "K" "in" (StructType Inner) 256;
     mkFieldDecl "K" "ptrs" (ConstantArrayType intPtrTy 3) 384;
     mkFieldDecl "K" "os" (StreamType streamDecl) 576;
     mkFieldDecl "K" "n" intTy 896]
    [] 120 true true true.

Definition noMarks : Sema := mkSema [] ∅ false.

(** The marks the legality walk leaves for [kernelObject]. *)
Definition checkedSema : Sema :=
  match CheckSYCLKernelCall kernelObject noMarks with
  | Ok cs => chk_Sema cs
  | _ => noMarks
  end.

(** [union U { accessor acc; int i; };] as the only field of a kernel
    object. *)
Definition unionWithAccessor : CXXRecordDecl :=
  mkRecordDecl "U" []
    [mkFieldDecl "U" "acc" accessorTy 0; mkFieldDecl "U" "i" intTy 0]
    [] 32 true true true.

Definition kernelWithUnion : CXXRecordDecl :=
  mkRecordDecl "K" [] [mkFieldDecl "K" "u" (UnionType unionWithAccessor) 0]
    [] 32 true true true.

(** Three [int] fields at the byte offsets 0, 8 and 16 and an array of four
    [int] at the byte offset 20. *)
Definition arrayField : FieldDecl :=
  mkFieldDecl "K" "arr" (ConstantArrayType intTy 4) 160.

Definition kernelWithArray : CXXRecordDecl :=
  mkRecordDecl "K" []
    [mkFieldDecl "K" "a" intTy 0; mkFieldDecl "K" "b" intTy 64;
     mkFieldDecl "K" "c" intTy 128; arrayField]
    [] 36 true true true.




(** [struct First { int a; int b; };] and [struct Base { int x; int *p; };]
    as the bases of a kernel object, at the byte offsets 0 and 8. *)
Definition FirstDecl : CXXRecordDecl :=
  mkRecordDecl "First" []
    [mkFieldDecl "First" "a" intTy 0; mkFieldDecl "First" "b" intTy 32]
    [] 8 true true true.

Definition BaseDecl : CXXRecordDecl :=
  mkRecordDecl "Base" []
    [mkFieldDecl "Base" "x" intTy 0; mkFieldDecl "Base" "p" intPtrTy 64]
    [] 16 true true true.

Definition baseSpecifier : CXXBaseSpecifier := mkBase (StructType BaseDecl) 8.

Definition kernelWithBases : CXXRecordDecl :=
  mkRecordDecl "K" [mkBase (StructType FirstDecl) 0; baseSpecifier] []
    [] 24 true true true.

(** A pointer at the top level and a pointer inside a class. *)
Definition pointerField : FieldDecl := mkFieldDecl "K" "q" intPtrTy 0.
Definition innerField : FieldDecl := mkFieldDecl "K" "in" (StructType Inner) 64.
Definition innerPointerField : FieldDecl := mkFieldDecl "Inner" "p" intPtrTy 0.

Definition kernelWithPointers : CXXRecordDecl :=
  mkRecordDecl "K" [] [pointerField; innerField] [] 24 true true true.

Definition innerMarked : Sema := mkSema [] {["Inner"]} false.

(** A kernel without attributes, and the two work-group size attributes,
    written at a function and inherited from an earlier declaration. *)
Definition kernelDecl : FunctionDecl := mkFunctionDecl "kernel" [] false.
Definition markState : MarkState := mkMarkState kernelDecl None [].
Definition reqdAttr (x y z : Z) : Attr :=
  mkAttr (ReqdWorkGroupSize (mkWorkGroupSize x y z)) "reqd_work_group_size" false.
Definition maxAttr (x y z : Z) : Attr :=
  mkAttr (SYCLIntelMaxWorkGroupSize (mkWorkGroupSize x y z)) "max_work_group_size" false.
Definition inheritedAttr (A : Attr) : Attr :=
  mkAttr (getKind A) (getLocation A) true.

End KernelSamples.

(** * The size check of the kernel arguments and the marks of the legality walk *)

Module SemaSYCL_Checks.

Import SemaSYCL.

(** *** [SyclKernelArgsSizeChecker] *)

(** The handler reads the decomposition marks of [Sema] and adds up the
    sizes in [SizeOfParams], an [unsigned]. *)
Record ArgsSizeState : Type := mkArgsSize {
  as_Sema : Sema;
  SizeOfParams : Z;
}.

Module SyclKernelArgsSizeChecker.

Definition addParam (ArgTy : QualType) (s : ArgsSizeState) : ArgsSizeState :=
  mkArgsSize (as_Sema s) (zextBits 32 (SizeOfParams s + getTypeSizeInChars ArgTy)).

Definition handleSpecialType (IsSIMD : bool) (FieldTy : QualType)
    (s : ArgsSizeState) : Result (bool * ArgsSizeState) :=
  let MethodName := if IsSIMD then InitESIMDMethodName else InitMethodName in
  rbind (SyclKernelDeclCreator.initMethod FieldTy MethodName) (fun InitMethod =>
  Ok (true, fold_left (fun s ParamTy => addParam ParamTy s) (parameters InitMethod) s)).

Definition handle (IsSIMD : bool) (ev : Event) (s : ArgsSizeState) :
    Result (bool * ArgsSizeState) :=
  match ev with
  | handleSyclAccessorType _ FieldTy | handleSyclAccessorTypeBase _ _ FieldTy
  | handleSyclSamplerType _ FieldTy => handleSpecialType IsSIMD FieldTy s
  | handlePointerType _ FieldTy | handleScalarType _ FieldTy
  | handleSimpleArrayType _ FieldTy | handleNonDecompStruct _ _ FieldTy
  | handleUnionType _ FieldTy | handleSyclHalfType _ FieldTy
  | handleSyclStreamType _ FieldTy | handleSyclStreamTypeBase _ _ FieldTy =>
      Ok (true, addParam FieldTy s)
  | _ => Ok (true, s)
  end.

Definition handler (IsSIMD : bool) : Handler ArgsSizeState :=
  mkHandler _ false true false (handle IsSIMD).

(** The destructor reports a kernel whose arguments are too big. *)
Definition destroy (KernelLoc : string) (s : ArgsSizeState) : Sema :=
  if decide (SizeOfParams s > MaxKernelArgsSize)
  then Diag (as_Sema s) KernelLoc warn_sycl_kernel_too_big_args
  else as_Sema s.

End SyclKernelArgsSizeChecker.

Definition argsRequiresDecomposition (s : ArgsSizeState) (key : string) : bool :=
  hasAttr (as_Sema s) key.

(** The walk of the size checker over a kernel object. *)
Definition argsSizeWalk (KernelObj : CXXRecordDecl) (S : Sema) (IsSIMDKernel : bool) :
    Result ArgsSizeState :=
  let Hs := [SyclKernelArgsSizeChecker.handler IsSIMDKernel] in
  rbind (VisitRecordBases _ argsRequiresDecomposition KernelObj Hs (mkArgsSize S 0))
    (fun a => VisitRecordFields _ argsRequiresDecomposition KernelObj Hs a).

(** The end of [CheckSYCLKernelCall]: the walk of the size checker, made
    only when the two legality checkers are valid, and the report of the
    size checker when it goes out of scope. *)
Definition checkArgsSize (KernelObj : CXXRecordDecl) (KernelLoc : string)
    (IsSIMDKernel : bool) (s : CheckState) : Result Sema :=
  rbind (if passedCheckers s
         then argsSizeWalk KernelObj (chk_Sema s) IsSIMDKernel
         else Ok (mkArgsSize (chk_Sema s) 0)) (fun a =>
  Ok (SyclKernelArgsSizeChecker.destroy KernelLoc a)).

(** *** What the legality walk adds *)

(** The errors with which the field checker rejects a kernel object. *)
Definition fieldErrors : list DiagID :=
  [err_bad_kernel_param_type; err_sycl_non_constant_array_type;
   err_sycl_non_std_layout_type; err_sycl_non_trivially_copy_ctor_dtor_type;
   err_vla_unsupported].

(** Between two states of the legality walk: diagnostics were only added,
    marks were only added, a checker that was invalid is still invalid, and
    a checker that became invalid reported one of its errors. *)
Record onlyAdds (s s' : CheckState) : Prop := mkOnlyAdds {
  oa_diags : exists ds,
    Diags (chk_Sema s') = Diags (chk_Sema s) ++ ds /\
    (FieldChecker_IsInvalid s' = true ->
     FieldChecker_IsInvalid s = true \/ exists d, d ∈ ds /\ d.1 ∈ fieldErrors) /\
    (UnionChecker_IsInvalid s' = true ->
     UnionChecker_IsInvalid s = true \/
     exists Loc, (err_bad_union_kernel_param_members, Loc) ∈ ds);
  oa_marks : RequiresDecomposition (chk_Sema s) ⊆ RequiresDecomposition (chk_Sema s');
  oa_option :
    SYCLStdLayoutKernelParams (chk_Sema s') = SYCLStdLayoutKernelParams (chk_Sema s);
  oa_field : FieldChecker_IsInvalid s = true -> FieldChecker_IsInvalid s' = true;
  oa_union : UnionChecker_IsInvalid s = true -> UnionChecker_IsInvalid s' = true;
}.

(** *** The declarations the marker marks *)

(** A field, or a base, of this type makes the collection it is in require
    decomposition: it is of a special type or a pointer, or a class or an
    array of constant size that holds such a field or base.  The marker
    does not look inside a union. *)
Fixpoint needsDecomposition (Ty : QualType) : bool :=
  match Ty with
  | AccessorType _ _ _ _ _ | SamplerType _ | HalfType _ | SpecConstantType _ _
  | StreamType _ | PointerType _ _ => true
  | StructType RD =>
      existsb (fun B => baseNeedsDecomposition (getBaseType B)) (bases RD)
      || existsb (fun F => needsDecomposition (getType F)) (fields RD)
  | ConstantArrayType ET _ => needsDecomposition ET
  | _ => false
  end

with baseNeedsDecomposition (Ty : QualType) : bool :=
  match Ty with
  | AccessorType _ _ _ _ _ | StreamType _ => true
  | SamplerType RD | HalfType RD | SpecConstantType RD _ | StructType RD
  | UnionType RD =>
      existsb (fun B => baseNeedsDecomposition (getBaseType B)) (bases RD)
      || existsb (fun F => needsDecomposition (getType F)) (fields RD)
  | _ => false
  end.

(** The keys of the declarations that require decomposition among a field
    of a type, or a base of a type, and what it holds: the classes and the
    array fields that hold a field or base that needs it. *)
Fixpoint fieldMarks (FD : FieldDecl) (Ty : QualType) : gset string :=
  match Ty with
  | StructType RD =>
      (if needsDecomposition Ty then {[recordKey RD]} else ∅)
      ∪ (⋃ map (fun B => baseMarks (getBaseType B)) (bases RD))
      ∪ (⋃ map (fun F => fieldMarks F (getType F)) (fields RD))
  | ConstantArrayType ET _ =>
      (if needsDecomposition ET then {[fieldKey FD]} else ∅) ∪ fieldMarks FD ET
  | _ => ∅
  end

with baseMarks (Ty : QualType) : gset string :=
  match Ty with
  | SamplerType RD | HalfType RD | SpecConstantType RD _ | StructType RD
  | UnionType RD =>
      (if baseNeedsDecomposition Ty then {[recordKey RD]} else ∅)
      ∪ (⋃ map (fun B => baseMarks (getBaseType B)) (bases RD))
      ∪ (⋃ map (fun F => fieldMarks F (getType F)) (fields RD))
  | _ => ∅
  end.

Definition kernelObjectMarks (KernelObj : CXXRecordDecl) : gset string :=
  (⋃ map (fun B => baseMarks (getBaseType B)) (bases KernelObj))
  ∪ (⋃ map (fun F => fieldMarks F (getType F)) (fields KernelObj)).

(** A base, or a field, that the size checker measures as a whole: a
    scalar, a pointer, a union, a half, or a class or an array without the
    mark. *)
Definition measuredWhole (S : Sema) (FD : FieldDecl) : bool :=
  match getType FD with
  | ScalarType _ _ | PointerType _ _ | UnionType _ | HalfType _ => true
  | StructType RD => negb (hasAttr S (recordKey RD))
  | ConstantArrayType _ _ | VariableArrayType _ | IncompleteArrayType _ =>
      negb (hasAttr S (fieldKey FD))
  | _ => false
  end.

Definition baseMeasuredWhole (S : Sema) (B : CXXBaseSpecifier) : bool :=
  match getBaseType B with
  | SamplerType RD | HalfType RD | SpecConstantType RD _ | StructType RD
  | UnionType RD => negb (hasAttr S (recordKey RD))
  | StreamType _ => true
  | _ => false
  end.

End SemaSYCL_Checks.

(** * More sample kernel objects *)

Module CheckSamples.

Import SemaSYCL.

(** [struct K { int &r; int n; };] *)
Definition referenceField : FieldDecl :=
  mkFieldDecl "K" "r" (ReferenceType KernelSamples.intTy) 0.

Definition kernelWithReference : CXXRecordDecl :=
  mkRecordDecl "K" []
    [referenceField; mkFieldDecl "K" "n" KernelSamples.intTy 64]
    [] 16 true true true.

(** [struct Big { int data[1024]; };] as the only field of a kernel object. *)
Definition Big : CXXRecordDecl :=
  mkRecordDecl "Big" []
    [mkFieldDecl "Big" "data" (ConstantArrayType KernelSamples.intTy 1024) 0]
    [] 4096 true true true.

Definition kernelWithBig : CXXRecordDecl :=
  mkRecordDecl "K" []
    [mkFieldDecl "K" "big" (StructType Big) 0;
     mkFieldDecl "K" "n" KernelSamples.intTy 32768]
    [] 4100 true true true.

(** The state in which the legality walk leaves a kernel object. *)
Definition checked (KernelObj : CXXRecordDecl) (S : Sema) : CheckState :=
  match CheckSYCLKernelCall KernelObj S with
  | Ok cs => cs
  | _ => initialCheckState S
  end.

End CheckSamples.

(** * Recognising the SYCL library types by their qualified name *)

Module SemaSYCL_Util.

Import SemaSYCL.

(** The kinds of declaration the functions of [Util] tell apart, and the
    others. *)
Inductive DeclKind : Type :=
| TranslationUnit
| Namespace
| CXXRecord
| ClassTemplateSpecialization
| LinkageSpec
| FunctionKind
| EnumKind.

#[global] Instance DeclKind_eq_dec : EqDecision DeclKind.
Proof. solve_decision. Defined.

(** A declaration context with the chain of its parents, which ends at the
    translation unit. *)
Inductive DeclContext : Type :=
| TranslationUnitDecl
| NamedContext (Kind : DeclKind) (Name : string) (Parent : DeclContext).

Definition getDeclKind (Ctx : DeclContext) : DeclKind :=
  match Ctx with
  | TranslationUnitDecl => TranslationUnit
  | NamedContext K _ _ => K
  end.

Definition getContextName (Ctx : DeclContext) : string :=
  match Ctx with
  | TranslationUnitDecl => EmptyString
  | NamedContext _ N _ => N
  end.

Definition getParent (Ctx : DeclContext) : option DeclContext :=
  match Ctx with
  | TranslationUnitDecl => None
  | NamedContext _ _ P => Some P
  end.

Definition isTranslationUnit (Ctx : DeclContext) : bool :=
  bool_decide (getDeclKind Ctx = TranslationUnit).

Definition DeclContextDesc : Type := DeclKind * string.

(** The loop of [Util::matchContext] over the scopes, innermost first. *)
Fixpoint matchContextFrom (Ctx : DeclContext) (Reversed : list DeclContextDesc) :
    Result bool :=
  match Reversed with
  | [] => Ok (isTranslationUnit Ctx)
  | Scope :: Rest =>
      let DK := getDeclKind Ctx in
      if decide (DK <> Scope.1) then Ok false
      else
        match DK with
        | ClassTemplateSpecialization | CXXRecord | Namespace =>
            if negb (String.eqb (getContextName Ctx) Scope.2) then Ok false
            else
              match getParent Ctx with
              | Some Parent => matchContextFrom Parent Rest
              | None => Unreachable "getParent() of the translation unit"
              end
        | _ => Unreachable "matchContext: decl kind not supported"
        end
  end.

Definition matchContext (Ctx : DeclContext) (Scopes : list DeclContextDesc) :
    Result bool :=
  matchContextFrom Ctx (reverse Scopes).

(** [Ty->getAsCXXRecordDecl()] as a declaration context, when the type is a
    class. *)
Definition matchQualifiedTypeName (RecTy : option DeclContext)
    (Scopes : list DeclContextDesc) : Result bool :=
  match RecTy with
  | None => Ok false
  | Some Ctx => matchContext Ctx Scopes
  end.

Definition isSyclType (RecTy : option DeclContext) (Name : string) (Tmpl : bool) :
    Result bool :=
  let ClassDeclKind := if Tmpl then ClassTemplateSpecialization else CXXRecord in
  matchQualifiedTypeName RecTy
    [(Namespace, "cl"); (Namespace, "sycl"); (ClassDeclKind, Name)].

Definition isSyclAccessorType (RecTy : option DeclContext) : Result bool :=
  isSyclType RecTy "accessor" true.
Definition isSyclSamplerType (RecTy : option DeclContext) : Result bool :=
  isSyclType RecTy "sampler" false.
Definition isSyclStreamType (RecTy : option DeclContext) : Result bool :=
  isSyclType RecTy "stream" false.

Definition isSyclHalfType (RecTy : option DeclContext) : Result bool :=
  matchQualifiedTypeName RecTy
    [(Namespace, "cl"); (Namespace, "sycl"); (Namespace, "detail");
     (Namespace, "half_impl"); (CXXRecord, "half")].

Definition isSyclSpecConstantType (RecTy : option DeclContext) : Result bool :=
  matchQualifiedTypeName RecTy
    [(Namespace, "cl"); (Namespace, "sycl"); (Namespace, "ONEAPI");
     (Namespace, "experimental"); (ClassTemplateSpecialization, "spec_constant")].

Definition isSyclBufferLocationType (RecTy : option DeclContext) : Result bool :=
  matchQualifiedTypeName RecTy
    [(Namespace, "cl"); (Namespace, "sycl"); (Namespace, "INTEL");
     (Namespace, "property"); (CXXRecord, "buffer_location");
     (ClassTemplateSpecialization, "instance")].

Definition isAccessorPropertyListType (RecTy : option DeclContext) : Result bool :=
  matchQualifiedTypeName RecTy
    [(Namespace, "cl"); (Namespace, "sycl"); (Namespace, "ONEAPI");
     (ClassTemplateSpecialization, "accessor_property_list")].

(** The qualified name of a context: the kinds and names of the contexts
    around it and its own, outermost first. *)
Fixpoint qualifiedName (Ctx : DeclContext) : list DeclContextDesc :=
  match Ctx with
  | TranslationUnitDecl => []
  | NamedContext K N P => qualifiedName P ++ [(K, N)]
  end.

(** Only the translation unit has the kind of a translation unit. *)
Fixpoint wellFormed (Ctx : DeclContext) : bool :=
  match Ctx with
  | TranslationUnitDecl => true
  | NamedContext K _ P => negb (bool_decide (K = TranslationUnit)) && wellFormed P
  end.

Definition isSupportedKind (K : DeclKind) : bool :=
  match K with
  | ClassTemplateSpecialization | CXXRecord | Namespace => true
  | _ => false
  end.

(** [cl::sycl::accessor<...>] and a class of the same name elsewhere. *)
Definition clSycl : DeclContext :=
  NamedContext Namespace "sycl" (NamedContext Namespace "cl" TranslationUnitDecl).
Definition syclAccessor : DeclContext :=
  NamedContext ClassTemplateSpecialization "accessor" clSycl.
Definition userAccessor : DeclContext :=
  NamedContext ClassTemplateSpecialization "accessor"
    (NamedContext Namespace "user" clSycl).

End SemaSYCL_Util.

(** * The tables of the integration header *)

Module SYCLIntegrationHeader.

Import SemaSYCL.

(** A kernel as [startKernel], [addParamDesc] and [setCallsThisItem] have
    described it. *)
Record KernelDesc : Type := mkKernelDesc {
  Name : string;
  StableName : string;
  KD_Params : list KernelParamDesc;
  IsESIMDKernel : bool;
  CallsThisItem : bool;
}.

(** What the specialization of [KernelInfo] emitted for a kernel returns:
    [getParamDesc(i)] is [kernel_signatures[i+Start]]. *)
Record KernelInfo : Type := mkKernelInfo {
  getName : string;
  getNumParams : Z;
  getParamDescStart : Z;   (* unsigned *)
  isESIMD : bool;
  callsThisItem : bool;
}.

(** The loop over the kernels that emits the specializations, with its
    counter [CurStart]. *)
Fixpoint emitKernelInfos (KernelDescs : list KernelDesc) (CurStart : Z) :
    list KernelInfo :=
  match KernelDescs with
  | [] => []
  | K :: Ks =>
      let N := Z.of_nat (length (KD_Params K)) in
      mkKernelInfo (Name K) N CurStart (IsESIMDKernel K) (CallsThisItem K)
        :: emitKernelInfos Ks (zextBits 32 (CurStart + N))
  end.

(** The three tables of the header, as [emit] writes them. *)
Record Header : Type := mkHeader {
  kernel_names : list string;
  kernel_signatures : list KernelParamDesc;
  kernel_infos : list KernelInfo;
}.

Definition emit (KernelDescs : list KernelDesc) : Header :=
  mkHeader (map Name KernelDescs)
    (concat (map KD_Params KernelDescs))
    (emitKernelInfos KernelDescs 0).

(** [getParamDesc(i)] of an emitted specialization. *)
Definition getParamDesc (H : Header) (I : KernelInfo) (i : Z) : option KernelParamDesc :=
  kernel_signatures H !! Z.to_nat (i + getParamDescStart I).

(** Two kernels, of two parameters and of one. *)
Definition sampleKernels : list KernelDesc :=
  [mkKernelDesc "first" "_ZTS5first"
     [mkKernelParamDesc kind_std_layout 4 0; mkKernelParamDesc kind_pointer 8 8]
     false false;
   mkKernelDesc "second" "_ZTS6second" [mkKernelParamDesc kind_accessor 4062 0]
     false true].

End SYCLIntegrationHeader.

(** * The size that is checked and the parameters that are made *)

Module SemaSYCL_Sizes.

Import SemaSYCL.
Import SemaSYCL_Checks.

(** The sizes of the types of a list of kernel parameters, added up. *)
Definition paramsSize (Ps : list ParmVarDecl) : Z :=
  foldr Z.add 0 (map (fun P => getTypeSizeInChars (getOriginalType P)) Ps).

(** A state of the kernel builders and a state of the size checker at the
    same point of their walks: the same marks, the same kind of kernel, and
    the size counted is the size of the parameters made. *)
Record sameSize (simd : bool) (s : ConstructState) (a : ArgsSizeState) : Prop :=
  mkSameSize {
  ss_marks : RequiresDecomposition (cs_Sema s) = RequiresDecomposition (as_Sema a);
  ss_simd : IsSIMDKernel s = simd;
  ss_size : SizeOfParams a = zextBits 32 (paramsSize (Params (decl s)));
}.

(** What the body creator and the header creator leave alone. *)
Record keepsDecl (s s' : ConstructState) : Prop := mkKeepsDecl {
  kd_decl : decl s' = decl s;
  kd_sema : cs_Sema s' = cs_Sema s;
  kd_simd : IsSIMDKernel s' = IsSIMDKernel s;
}.

Definition stKeepsDecl {A : Type} (m : SyclKernelBodyCreator.St A) : Prop :=
  forall s a s', m s = Ok (a, s') -> keepsDecl s s'.

(** The shapes for which the declaration creator and the size checker
    agree, by the marks of [S]: the declaration creator makes no parameter
    for a base that is a stream, which the size checker counts, and in an
    ESIMD kernel the size checker reads the parameters of a sampler off
    [__init_esimd], the declaration creator off [__init]. *)
Section Comparable.

Variable S : Sema.
Variable IsSIMD : bool.

Fixpoint comparableField (FD : FieldDecl) (Ty : QualType) {struct Ty} : bool :=
  match Ty with
  | SamplerType _ => negb IsSIMD
  | StructType RD =>
      if hasAttr S (recordKey RD) then
        forallb (fun B => comparableBase (getBaseType B)) (bases RD)
        && forallb (fun F => comparableField F (getType F)) (fields RD)
      else true
  | ConstantArrayType ET _ =>
      if hasAttr S (fieldKey FD) then comparableField FD ET else true
  | _ => true
  end

with comparableBase (Ty : QualType) {struct Ty} : bool :=
  match Ty with
  | StreamType _ => false
  | SamplerType RD | HalfType RD | SpecConstantType RD _ | StructType RD
  | UnionType RD =>
      if hasAttr S (recordKey RD) then
        forallb (fun B => comparableBase (getBaseType B)) (bases RD)
        && forallb (fun F => comparableField F (getType F)) (fields RD)
      else true
  | _ => true
  end.

Definition comparableKernelObject (KernelObj : CXXRecordDecl) : bool :=
  forallb (fun B => comparableBase (getBaseType B)) (bases KernelObj)
  && forallb (fun F => comparableField F (getType F)) (fields KernelObj).

End Comparable.

End SemaSYCL_Sizes.

(** * The builders and the size checker on the sample kernel object *)

Module SizeSamples.

Import SemaSYCL.
Import SemaSYCL_Checks.

(** The state in which the builders, and the size checker, leave a kernel
    object. *)
Definition built (KernelObj : CXXRecordDecl) (S : Sema) (IsSIMD : bool) :
    ConstructState :=
  match ConstructOpenCLKernel KernelObj S IsSIMD with
  | Ok cs => cs
  | _ => initialConstructState S IsSIMD
  end.

Definition measured (KernelObj : CXXRecordDecl) (S : Sema) (IsSIMD : bool) :
    ArgsSizeState :=
  match argsSizeWalk KernelObj S IsSIMD with
  | Ok a => a
  | _ => mkArgsSize S 0
  end.

End SizeSamples.

(** * Properties of the lowering pass *)

Module LowerESIMD_Properties.

Import LowerESIMD.

(** ** Name suffix of a binary operation *)

Example binOpSuffix_enum_255 :
  getESIMDIntrinSuffix (NameWithTemplateArgs "__esimd_flat_atomic0" [EnumLiteral 255])
    (mkFunctionType VoidTy []) (ESIMDIntrinDescTable.bo 0) = Ok ".predec".
Proof. reflexivity. Qed.

Example binOpSuffix_unknown_13 :
  getESIMDIntrinSuffix (NameWithTemplateArgs "__esimd_flat_atomic0" [EnumLiteral 13])
    (mkFunctionType VoidTy []) (ESIMDIntrinDescTable.bo 0)
  = Unreachable "unknown atomic OP".
Proof. reflexivity. Qed.

(** C5: the binary-operation suffix rule parses the template argument the
    rule names and maps its value: 0x0 to ".add", 0x1 to ".sub", 0x2 to
    ".inc", 0x3 to ".dec", 0x4 to ".min", 0x5 to ".max", 0x6 to ".xchg",
    0x7 to ".cmpxchg", 0x8 to ".and", 0x9 to ".or", 0xa to ".xor", 0xb to
    ".minsint", 0xc to ".maxsint", 0x10 to ".fmax", 0x11 to ".fmin", 0x12 to
    ".fcmpwr", 0xff to ".predec"; on every other value the compilation
    aborts with "unknown atomic OP". *)
Theorem binary_op_suffix_table (FE : NameNode) (FT : FunctionType) (N : Z) :
  getESIMDIntrinSuffix FE FT (ESIMDIntrinDescTable.bo N) =
    rbind (parseTemplateArg FE (zextBits 32 N))
      (fun p =>
         match getSExtValue p.1 with
         | 0x0 => Ok ".add"
         | 0x1 => Ok ".sub"
         | 0x2 => Ok ".inc"
         | 0x3 => Ok ".dec"
         | 0x4 => Ok ".min"
         | 0x5 => Ok ".max"
         | 0x6 => Ok ".xchg"
         | 0x7 => Ok ".cmpxchg"
         | 0x8 => Ok ".and"
         | 0x9 => Ok ".or"
         | 0xa => Ok ".xor"
         | 0xb => Ok ".minsint"
         | 0xc => Ok ".maxsint"
         | 0x10 => Ok ".fmax"
         | 0x11 => Ok ".fmin"
         | 0x12 => Ok ".fcmpwr"
         | 0xff => Ok ".predec"
         | _ => Unreachable "unknown atomic OP"
         end).
Proof.
  unfold getESIMDIntrinSuffix; cbn [SuffixKind SuffixArgNo ESIMDIntrinDescTable.bo].
  destruct (parseTemplateArg FE (zextBits 32 N)) as [[OpId Ty]| |]; cbn [rbind fst]; try reflexivity.
  generalize (getSExtValue OpId); intros v.
  unfold binOpSuffix.
  repeat (case_decide; [subst v; reflexivity|]).
  destruct v as [|p|p]; try reflexivity; try congruence.
  do 8 (destruct p as [p|p|]; try reflexivity; try congruence).
Qed.

(** ** A call of an intrinsic without a rewrite rule *)

(** C1, as the claim states it, fails: a call of [__esimd_foo], which has no
    rule, is not skipped; translating it, and so the pass, ends in a fatal
    error. *)
Lemma unknown_intrinsic_not_skipped :
  getIntrinTable !! "foo" = None
  /\ startswith "__esimd_foov" ESIMD_INTRIN_PREF1 = true
  /\ translateESIMDIntrinsicCall Samples.demangle Samples.notOverloaded
       Samples.noArgOverloaded Samples.declaredReturnType Samples.callFoo Samples.fnFoo
     <> Ok (tt, Samples.fnFoo)
  /\ run Samples.demangle Samples.notOverloaded Samples.noArgOverloaded
       Samples.declaredReturnType Samples.fnFoo []
     = FatalError "unknown ESIMD intrinsic: foo".
Proof. repeat split; try reflexivity. vm_compute. discriminate. Qed.

(** C1, amended: for a call that is handed to the translation through the
    table of rules, [translateESIMDIntrinsicCall], which the pass applies to
    the calls it recorded for it, and whose callee demangles to a function
    encoding: if its base name, after the [__esimd_] prefix, has no rule in
    the table, the translation ends the compilation with the fatal error
    "unknown ESIMD intrinsic: <name>"; the call is not skipped.  The calls
    that the loop of the pass rewrites itself are not handed to it. *)
Theorem unknown_intrinsic_is_fatal
    (Parser_parse : string -> option Node)
    (isOverloadedRet : string -> bool) (isOverloadedArg : string -> nat -> bool)
    (getDeclarationReturnType : string -> list LType -> LType)
    (CI : Instruction) (F : Function) (MnglName : string) (FE : NameNode) :
  getCalledFunction CI = Some MnglName ->
  Parser_parse MnglName = Some (FunctionEncoding FE) ->
  getIntrinTable !! drop_front (String.length ESIMD_INTRIN_PREF1) (getBaseName FE) = None ->
  translateESIMDIntrinsicCall Parser_parse isOverloadedRet isOverloadedArg
    getDeclarationReturnType CI F
  = FatalError ("unknown ESIMD intrinsic: "
                +:+ drop_front (String.length ESIMD_INTRIN_PREF1) (getBaseName FE)).
Proof.
  intros HC HP HT.
  unfold translateESIMDIntrinsicCall. rewrite HC.
  unfold bindM, liftM, demangleIntrinsic. rewrite HP. cbn [rbind].
  unfold getIntrinDesc. rewrite HT. reflexivity.
Qed.

Lemma unknown_intrinsic_is_fatal_witness :
  translateESIMDIntrinsicCall Samples.demangle Samples.notOverloaded
    Samples.noArgOverloaded Samples.declaredReturnType Samples.callFoo Samples.fnFoo
  = FatalError "unknown ESIMD intrinsic: foo".
Proof.
  apply (unknown_intrinsic_is_fatal Samples.demangle Samples.notOverloaded
           Samples.noArgOverloaded Samples.declaredReturnType Samples.callFoo
           Samples.fnFoo "_Z11__esimd_foov" (NameType "__esimd_foo"));
    reflexivity.
Defined.

(** ** Number of arguments of the target call *)

(** C2 at the rule of [vload]: for a call with one operand one argument is
    made, and [getNumGenXArgs] counts none. *)
Lemma vload_argument_count :
  exists D,
    getIntrinTable !! "vload" = Some D
    /\ createESIMDIntrinsicArgs D [] Samples.callVLoad
         (NameWithTemplateArgs "__esimd_vload" [OtherTemplateArg; IntegerLiteral EmptyString 8])
         Samples.fnVLoad
       = Ok ([VArgument 0 PointerTy], Samples.fnVLoad)
    /\ getNumGenXArgs D = 0.
Proof. eexists. repeat split; reflexivity. Qed.

(** ** Functions outside explicit SIMD *)

(** C10: on a function without [!sycl_explicit_simd] the pass returns at
    once: all analyses are preserved and the function is as it was. *)
Theorem run_preserves_unmarked_function
    (Parser_parse : string -> option Node)
    (isOverloadedRet : string -> bool) (isOverloadedArg : string -> nat -> bool)
    (getDeclarationReturnType : string -> list LType -> LType)
    (F : Function) (GVTS : list LType) :
  sycl_explicit_simd F = false ->
  run Parser_parse isOverloadedRet isOverloadedArg getDeclarationReturnType F GVTS
  = Ok (all, F).
Proof. intros H. unfold run. rewrite H. reflexivity. Qed.

Lemma run_preserves_unmarked_function_witness :
  run Samples.demangle Samples.notOverloaded Samples.noArgOverloaded
    Samples.declaredReturnType Samples.fnPlain []
  = Ok (all, Samples.fnPlain).
Proof.
  apply (run_preserves_unmarked_function Samples.demangle Samples.notOverloaded
           Samples.noArgOverloaded Samples.declaredReturnType Samples.fnPlain []).
  reflexivity.
Defined.

(** ** Global identifier and global size *)

Lemma bindM_intro {A B} (m : M A) (k : A -> M B) F a F1 r :
  m F = Ok (a, F1) -> k a F1 = Ok r -> bindM m k F = Ok r.
Proof. intros H1 H2. unfold bindM. rewrite H1. exact H2. Qed.

Lemma createBefore_eq CI nm op ops ty s l n md :
  createBefore CI nm op ops ty (mkFunction s l n md)
  = Ok (VInst n ty,
        mkFunction s (insert_before (uid CI) (mkInst n nm op ops ty) l) (S n) md).
Proof. reflexivity. Qed.

Lemma addCast_same_eq CI V nm F :
  type CI = typeOf V -> addCastInstIfNeeded CI V nm F = Ok (V, F).
Proof.
  intros H. unfold addCastInstIfNeeded. rewrite decide_True by done. reflexivity.
Qed.

Lemma addCast_other_eq CI V nm s l n md :
  type CI <> typeOf V ->
  addCastInstIfNeeded CI V nm (mkFunction s l n md)
  = Ok (VInst n (type CI),
        mkFunction s
          (insert_before (uid CI)
             (mkInst n (nm +:+ ".cast.ty") (getCastOpcode (typeOf V) (type CI))
                [V] (type CI))
             l) (S n) md).
Proof.
  intros H. unfold addCastInstIfNeeded. rewrite decide_False by done. reflexivity.
Qed.

Lemma castOpcode_trunc w : w < 32 -> getCastOpcode (IntegerTy 32) (IntegerTy w) = Trunc.
Proof. intros H. unfold getCastOpcode; cbn. rewrite decide_True by lia. reflexivity. Qed.

Lemma castOpcode_zext w : w > 32 -> getCastOpcode (IntegerTy 32) (IntegerTy w) = ZExt.
Proof.
  intros H. unfold getCastOpcode; cbn.
  rewrite decide_False by lia. rewrite decide_True by lia. reflexivity.
Qed.

Lemma before_insert_before u i l :
  uid i <> u -> before u (insert_before u i l) = before u l ++ [i].
Proof.
  intros Hi. induction l as [|j l IH]; cbn.
  - rewrite decide_False by done. reflexivity.
  - destruct (decide (uid j = u)) as [E|E]; cbn.
    + rewrite decide_False by done. rewrite decide_True by done. reflexivity.
    + rewrite decide_False by done. rewrite IH. reflexivity.
Qed.

Lemma before_map u (f : Instruction -> Instruction) l :
  (forall i, uid (f i) = uid i) -> before u (map f l) = map f (before u l).
Proof.
  intros Hf. induction l as [|j l IH]; cbn; [reflexivity|].
  rewrite Hf. destruct (decide (uid j = u)); cbn; [reflexivity|].
  rewrite IH. reflexivity.
Qed.

Lemma exec_app intr l1 l2 env :
  exec intr (l1 ++ l2) env = exec intr l2 (exec intr l1 env).
Proof. unfold exec. apply fold_left_app. Qed.

Lemma exec_cons intr i l env :
  exec intr (i :: l) env = exec intr l (execInst intr env i).
Proof. reflexivity. Qed.

Lemma execInst_call intr env n nm f ty v :
  intr f = Some v ->
  execInst intr env (mkInst n nm (Call (Some f)) [] ty) = <[n:=v]> env.
Proof. intros H. unfold execInst, evalInst; cbn. rewrite H. reflexivity. Qed.

Lemma execInst_extract intr (env : gmap nat RtVal) n nm a t t' idx ty l x :
  env !! a = Some (RVec l) -> l !! Z.to_nat idx = Some x ->
  execInst intr env (mkInst n nm ExtractElement [VInst a t; VConstantInt t' idx] ty)
  = <[n:=RInt x]> env.
Proof. intros H1 H2. unfold execInst, evalInst; cbn. rewrite H1, H2. reflexivity. Qed.

Lemma execInst_zext intr (env : gmap nat RtVal) n nm a t ty x :
  env !! a = Some (RInt x) ->
  execInst intr env (mkInst n nm ZExt [VInst a t] ty) = <[n:=RInt x]> env.
Proof. intros H1. unfold execInst, evalInst, evalInt; cbn. rewrite H1. reflexivity. Qed.

Lemma execInst_trunc intr (env : gmap nat RtVal) n nm a t w x :
  env !! a = Some (RInt x) ->
  execInst intr env (mkInst n nm Trunc [VInst a t] (IntegerTy w))
  = <[n:=RInt (x mod 2 ^ w)]> env.
Proof. intros H1. unfold execInst, evalInst, evalInt; cbn. rewrite H1. reflexivity. Qed.

Lemma execInst_mul intr (env : gmap nat RtVal) n nm a b t t' w x y :
  env !! a = Some (RInt x) -> env !! b = Some (RInt y) ->
  execInst intr env (mkInst n nm Mul [VInst a t; VInst b t'] (IntegerTy w))
  = <[n:=RInt ((x * y) mod 2 ^ w)]> env.
Proof.
  intros H1 H2. unfold execInst, evalInst, evalInt; cbn. rewrite H1, H2. reflexivity.
Qed.

Lemma execInst_add intr (env : gmap nat RtVal) n nm a b t t' w x y :
  env !! a = Some (RInt x) -> env !! b = Some (RInt y) ->
  execInst intr env (mkInst n nm Add [VInst a t; VInst b t'] (IntegerTy w))
  = <[n:=RInt ((x + y) mod 2 ^ w)]> env.
Proof.
  intros H1 H2. unfold execInst, evalInst, evalInt; cbn. rewrite H1, H2. reflexivity.
Qed.

Lemma no_use_after_rauw u V (l : list Instruction) :
  (forall t, V <> VInst u t) ->
  Forall (fun i => forall t, VInst u t ∉ operands i)
    (map (fun i => mkInst (uid i) (name i) (opcode i)
                     (map (replaceValue u V) (operands i)) (type i)) l).
Proof.
  intros HV. apply Forall_map, Forall_forall. intros i _ t; cbn.
  intros Hin. apply list_elem_of_fmap in Hin as (x & Hx & _).
  destruct x; cbn in Hx; try discriminate.
  case_decide; [exact (HV _ (eq_sym Hx))|]. congruence.
Qed.

(** Symbolic execution of the emitting code. *)
Ltac run_m rw :=
  cbv beta; cbn [typeOf fst snd type uid];
  lazymatch goal with
  | |- bindM _ _ _ = Ok _ => eapply bindM_intro; [run_m rw | run_m rw]
  | |- createBefore _ _ _ _ _ _ = Ok _ => apply createBefore_eq
  | |- retM _ _ = Ok _ => reflexivity
  | |- assertM _ _ _ = Ok _ => reflexivity
  | |- replaceAllUsesWith _ _ _ = Ok _ => reflexivity
  | |- addCastInstIfNeeded _ _ _ _ = Ok _ =>
      first [ apply addCast_same_eq; cbn [typeOf type]; congruence
            | apply addCast_other_eq; cbn [typeOf type]; congruence ]
  | |- translateSpirvIntr _ _ _ _ _ = Ok _ =>
      unfold translateSpirvIntr;
      lazymatch goal with
      | |- context [consume_front ?a ?b] =>
          let r := eval vm_compute in (consume_front a b) in
          change (consume_front a b) with r
      end;
      cbv iota beta; unfold substr;
      try lazymatch goal with
      | |- context [String.substring ?a ?b ?c] =>
          let r := eval vm_compute in (String.substring a b c) in
          change (String.substring a b c) with r
      end;
      run_m rw
  | |- generateVectorGenXForSpirv _ _ _ _ _ _ = Ok _ =>
      unfold generateVectorGenXForSpirv; rw;
      cbn [getScalarType getIndexForSuffix String.eqb Ascii.eqb Bool.eqb];
      run_m rw
  | |- generateGenXForSpirv _ _ _ _ _ = Ok _ =>
      unfold generateGenXForSpirv; rw; run_m rw
  | |- translateGlobalInvocationId _ _ _ _ = Ok _ =>
      unfold translateGlobalInvocationId; run_m rw
  | |- translateGlobalSize _ _ _ _ = Ok _ =>
      unfold translateGlobalSize; run_m rw
  end.

Ltac lookup_env :=
  repeat first [ rewrite lookup_insert_eq | rewrite lookup_insert_ne by lia ];
  reflexivity.

Ltac exec_step :=
  rewrite exec_cons;
  first
    [ erewrite execInst_call by (first [reflexivity | eassumption])
    | erewrite execInst_extract by (first [lookup_env | eassumption])
    | erewrite execInst_zext by lookup_env
    | erewrite execInst_trunc by lookup_env
    | erewrite execInst_mul by lookup_env
    | erewrite execInst_add by lookup_env ].

(** The value computed by the instructions emitted in front of the call. *)
Ltac eval_emitted :=
  cbn [instructions setInstructions];
  lazymatch goal with
  | |- evalInt _ ?V0 = _ =>
      lazymatch goal with
      | |- context [replaceValue _ ?X] => unify V0 X
      end
  end;
  rewrite before_map by reflexivity;
  rewrite !before_insert_before by (cbn [uid]; lia);
  rewrite <- !app_assoc; cbn [app];
  rewrite map_app, exec_app;
  cbn [map uid name opcode operands type typeOf replaceValue];
  rewrite ?decide_False by lia;
  rewrite ?castOpcode_trunc, ?castOpcode_zext by lia;
  repeat exec_step;
  unfold exec, evalInt, evalValue; cbn [fold_left];
  repeat first [ rewrite lookup_insert_eq | rewrite lookup_insert_ne by lia ].

Lemma group_id_intrinsic W d nm gid :
  (nm, d) ∈ [("llvm.genx.group.id.x", 0%nat); ("llvm.genx.group.id.y", 1%nat);
             ("llvm.genx.group.id.z", 2%nat)] ->
  group_id W !! d = Some gid ->
  genxIntrinsics W nm = Some (RInt gid).
Proof.
  intros Hin Hg.
  repeat (apply elem_of_cons in Hin as [[= -> ->]|Hin];
          [unfold genxIntrinsics; cbn; rewrite Hg; reflexivity|]).
  inversion Hin.
Qed.

Lemma mod_add_mul_l (a b c m : Z) :
  (a + (b * c) mod m) mod m = (a + b * c) mod m.
Proof. apply Zplus_mod_idemp_r. Qed.

Lemma mod_add_mul_trunc (a b c m : Z) :
  (a mod m + ((b mod m) * (c mod m)) mod m) mod m = (a + b * c) mod m.
Proof. rewrite <- Zmult_mod. rewrite <- Zplus_mod. reflexivity. Qed.

Lemma mod_mul_trunc (b c m : Z) :
  ((b mod m) * (c mod m)) mod m = (b * c) mod m.
Proof. rewrite <- Zmult_mod. reflexivity. Qed.

(** The instructions built one after the other in front of the instruction
    [u] stand between those in front of [u] and [u] itself. *)
Lemma insert_before_split u i l :
  insert_before u i l = before u l ++ i :: notBefore u l.
Proof.
  induction l as [|j l IH]; cbn; [reflexivity|].
  destruct (decide (uid j = u)); cbn; [reflexivity|]. by rewrite IH.
Qed.

Lemma before_app_notBefore u p l :
  Forall (fun i => uid i <> u) p ->
  before u (p ++ notBefore u l) = p /\ notBefore u (p ++ notBefore u l) = notBefore u l.
Proof.
  intros Hp. induction Hp as [|i p Hi Hp IH]; cbn.
  - induction l as [|j l IHl]; cbn; [done|].
    destruct (decide (uid j = u)) as [Ej|Ej]; cbn; [|exact IHl].
    rewrite !decide_True by done. done.
  - rewrite !decide_False by done. destruct IH as [-> ->]. done.
Qed.

Lemma before_uid u l : Forall (fun i => uid i <> u) (before u l).
Proof.
  induction l as [|j l IH]; cbn; [constructor|].
  destruct (decide (uid j = u)); [constructor|]. by constructor.
Qed.

Lemma insert_emitted u (em l : list Instruction) :
  Forall (fun i => uid i <> u) em ->
  fold_left (fun l i => insert_before u i l) em l
  = before u l ++ em ++ notBefore u l.
Proof.
  intros Hem. revert l.
  induction em as [|i em IH] using rev_ind; intros l; cbn.
  - induction l as [|j l IHl]; cbn; [reflexivity|].
    destruct (decide (uid j = u)); cbn; [reflexivity|]. by rewrite <- IHl.
  - apply Forall_app in Hem as [Hem Hi]. rewrite fold_left_app. cbn.
    rewrite IH by done. rewrite insert_before_split.
    rewrite (app_assoc (before u l) em).
    destruct (before_app_notBefore u (before u l ++ em) l) as [-> ->].
    { apply Forall_app. split; [apply before_uid | done]. }
    by rewrite <- !app_assoc.
Qed.

(** The instructions built in front of the call, read off the instruction
    stream that the symbolic execution leaves. *)
Ltac emitted_of t acc :=
  lazymatch t with
  | insert_before _ ?i ?l => emitted_of l constr:(i :: acc)
  | _ => acc
  end.

Ltac emitted_split :=
  cbn [instructions setInstructions]; unfold usesReplaced;
  rewrite <- insert_emitted by (cbn [app]; repeat constructor; cbn [uid]; lia);
  reflexivity.

(** The value of an operand once the instructions in front of the call
    have run. *)
Ltac eval_operand :=
  cbn [instructions setInstructions];
  rewrite before_map by reflexivity;
  rewrite !before_insert_before by (cbn [uid]; lia);
  rewrite <- ?app_assoc; cbn [app];
  rewrite map_app, exec_app;
  cbn [map uid name opcode operands type typeOf replaceValue];
  rewrite ?decide_False by lia;
  rewrite ?castOpcode_trunc, ?castOpcode_zext by lia;
  repeat exec_step;
  unfold exec, evalInt, evalValue; cbn [fold_left];
  repeat first [ rewrite lookup_insert_eq | rewrite lookup_insert_ne by lia ];
  rewrite ?decide_True by lia; rewrite ?decide_False by lia.

(** C7: a call of the global-id query of dimension x, y or z is replaced by
    [local_id + workgroup_size * group_id], and a call of the global-size
    query by [workgroup_size * num_workgroups].  The instructions of the
    function afterwards are those it had, with new instructions in front of
    the call and with the value of the last of them, the [add] (for the
    global size the [mul]), in the place of every use of the call.  The new
    instructions call the target intrinsics of the local id, the local size
    and the group id (for the global size: of the local size and the group
    count); the operands of the [mul] and the [add] hold these coordinates
    in the width [w] of the result of the call, and the last instruction
    computes the sum of the local id and the product (for the global size:
    the product) in that width.  The call is queued for erasure and no
    instruction uses it afterwards. *)
Theorem global_id_and_size_lowering
    (getDeclarationReturnType : string -> list LType -> LType)
    (CI : Instruction) (F : Function) (E : list nat) (Suff : string) (d : nat)
    (w : Z) (W : WorkItem) (lid wg gid cnt : Z) :
  (forall nm, getDeclarationReturnType nm [FixedVectorTy (IntegerTy 32) 3]
              = FixedVectorTy (IntegerTy 32) 3) ->
  (forall nm, getDeclarationReturnType nm [] = IntegerTy 32) ->
  type CI = IntegerTy w ->
  (uid CI < nextId F)%nat ->
  (Suff, d) ∈ [("x", 0%nat); ("y", 1%nat); ("z", 2%nat)] ->
  local_id W !! d = Some lid ->
  local_size W !! d = Some wg ->
  group_id W !! d = Some gid ->
  group_count W !! d = Some cnt ->
  (exists (pre : list Instruction) (km k : nat) (LocalIdI WGSizeI GroupIdI : Value)
          (F' : Function),
     translateSpirvIntrinsic getDeclarationReturnType CI
       ("GlobalInvocationId_" +:+ Suff +:+ "v") E F = Ok (E ++ [uid CI], F')
     /\ instructions F'
        = usesReplaced (uid CI) (VInst k (IntegerTy w))
            (before (uid CI) (instructions F)
             ++ (pre ++ [mkInst km "mul" Mul [WGSizeI; GroupIdI] (IntegerTy w);
                         mkInst k "add" Add [LocalIdI; VInst km (IntegerTy w)]
                           (IntegerTy w)])
             ++ notBefore (uid CI) (instructions F))
     /\ calledFunctions pre
        = ["llvm.genx.local.id.v3i32"; "llvm.genx.local.size.v3i32";
           "llvm.genx.group.id." +:+ Suff]
     /\ (forall env,
           evalInt (exec (genxIntrinsics W) (before (uid CI) (instructions F')) env)
             LocalIdI
           = Some (if decide (w < 32) then lid mod 2 ^ w else lid)
           /\ evalInt (exec (genxIntrinsics W) (before (uid CI) (instructions F')) env)
                WGSizeI
              = Some (if decide (w < 32) then wg mod 2 ^ w else wg)
           /\ evalInt (exec (genxIntrinsics W) (before (uid CI) (instructions F')) env)
                GroupIdI
              = Some (if decide (w < 32) then gid mod 2 ^ w else gid)
           /\ evalInt (exec (genxIntrinsics W) (before (uid CI) (instructions F')) env)
                (VInst k (IntegerTy w))
              = Some ((lid + wg * gid) mod 2 ^ w))
     /\ Forall (fun i => forall t, VInst (uid CI) t ∉ operands i) (instructions F'))
  /\ (exists (pre : list Instruction) (k : nat) (WGSizeI NumWGI : Value) (F' : Function),
        translateSpirvIntrinsic getDeclarationReturnType CI
          ("GlobalSize_" +:+ Suff +:+ "v") E F = Ok (E ++ [uid CI], F')
        /\ instructions F'
           = usesReplaced (uid CI) (VInst k (IntegerTy w))
               (before (uid CI) (instructions F)
                ++ (pre ++ [mkInst k "mul" Mul [WGSizeI; NumWGI] (IntegerTy w)])
                ++ notBefore (uid CI) (instructions F))
        /\ calledFunctions pre
           = ["llvm.genx.local.size.v3i32"; "llvm.genx.group.count.v3i32"]
        /\ (forall env,
              evalInt (exec (genxIntrinsics W) (before (uid CI) (instructions F')) env)
                WGSizeI
              = Some (if decide (w < 32) then wg mod 2 ^ w else wg)
              /\ evalInt (exec (genxIntrinsics W) (before (uid CI) (instructions F')) env)
                   NumWGI
                 = Some (if decide (w < 32) then cnt mod 2 ^ w else cnt)
              /\ evalInt (exec (genxIntrinsics W) (before (uid CI) (instructions F')) env)
                   (VInst k (IntegerTy w))
                 = Some ((wg * cnt) mod 2 ^ w))
        /\ Forall (fun i => forall t, VInst (uid CI) t ∉ operands i) (instructions F')).
Proof.
  intros Hv Hs Hty Hu Hin Hl Hw Hg Hc. destruct F as [simd l n md].
  destruct CI as [u nm op ops ty]. cbn [nextId type uid instructions] in *. subst ty.
  assert (HG : genxIntrinsics W ("llvm.genx.group.id." +:+ Suff) = Some (RInt gid)).
  { apply (group_id_intrinsic W d); [|exact Hg].
    repeat (apply elem_of_cons in Hin as [[= -> ->]|Hin]; [set_solver|]).
    inversion Hin. }
  assert (HS : Suff = "x" /\ d = 0%nat \/ Suff = "y" /\ d = 1%nat \/ Suff = "z" /\ d = 2%nat).
  { repeat (apply elem_of_cons in Hin as [[= -> ->]|Hin]; [tauto|]). inversion Hin. }
  clear Hin.
  destruct HS as [[-> ->]|[[-> ->]|[-> ->]]];
    (split;
     (destruct (decide (w = 32)) as [->|Hne]; [|destruct (decide (w < 32))];
      [..];
      match goal with
      | |- exists _ _ _ _ _ _ _, translateSpirvIntrinsic ?g ?c ?s ?e ?f = _ /\ _ =>
          eassert (HT : translateSpirvIntrinsic g c s e f = Ok (e ++ [u], _))
            by (unfold translateSpirvIntrinsic; run_m ltac:(rewrite ?Hv, ?Hs));
          lazymatch type of HT with
          | context [insert_before _ (mkInst ?k "add" Add [?A; _] _)
                       (insert_before _ (mkInst ?km "mul" Mul [?B; ?C] _) ?rest)] =>
              let pre := emitted_of rest (@nil Instruction) in
              exists pre, km, k, A, B, C
          end
      | |- exists _ _ _ _ _, translateSpirvIntrinsic ?g ?c ?s ?e ?f = _ /\ _ =>
          eassert (HT : translateSpirvIntrinsic g c s e f = Ok (e ++ [u], _))
            by (unfold translateSpirvIntrinsic; run_m ltac:(rewrite ?Hv, ?Hs));
          lazymatch type of HT with
          | context [insert_before _ (mkInst ?k "mul" Mul [?B; ?C] _) ?rest] =>
              let pre := emitted_of rest (@nil Instruction) in
              exists pre, k, B, C
          end
      end;
      eexists; (split; [exact HT|]); clear HT;
      (split; [emitted_split|]);
      (split; [rewrite ?castOpcode_trunc, ?castOpcode_zext by lia; reflexivity|]);
      (split;
       [ intros env; repeat split; eval_operand;
         first [ reflexivity
               | f_equal;
                 first [ apply mod_add_mul_l | apply mod_add_mul_trunc
                       | apply mod_mul_trunc ] ]
       | cbn [instructions]; apply no_use_after_rauw; intros t; injection 1; lia ]))).
Qed.

Lemma global_id_and_size_lowering_witness :
  (exists (pre : list Instruction) (km k : nat) (LocalIdI WGSizeI GroupIdI : Value)
          (F' : Function),
     translateSpirvIntrinsic Samples.declaredReturnType (Samples.callGlobalId "x")
       "GlobalInvocationId_xv" [] (Samples.fnGlobalId "x") = Ok ([0%nat], F')
     /\ instructions F'
        = usesReplaced 0 (VInst k (IntegerTy 64))
            ([] ++ (pre ++ [mkInst km "mul" Mul [WGSizeI; GroupIdI] (IntegerTy 64);
                            mkInst k "add" Add [LocalIdI; VInst km (IntegerTy 64)]
                              (IntegerTy 64)])
             ++ instructions (Samples.fnGlobalId "x"))
     /\ calledFunctions pre
        = ["llvm.genx.local.id.v3i32"; "llvm.genx.local.size.v3i32";
           "llvm.genx.group.id.x"]
     /\ (forall env,
           evalInt (exec (genxIntrinsics Samples.workItem)
                      (before 0 (instructions F')) env) LocalIdI = Some 3
           /\ evalInt (exec (genxIntrinsics Samples.workItem)
                         (before 0 (instructions F')) env) WGSizeI = Some 16
           /\ evalInt (exec (genxIntrinsics Samples.workItem)
                         (before 0 (instructions F')) env) GroupIdI = Some 7
           /\ evalInt (exec (genxIntrinsics Samples.workItem)
                         (before 0 (instructions F')) env) (VInst k (IntegerTy 64))
              = Some ((3 + 16 * 7) mod 2 ^ 64))
     /\ Forall (fun i => forall t, VInst 0 t ∉ operands i) (instructions F'))
  /\ (exists (pre : list Instruction) (k : nat) (WGSizeI NumWGI : Value) (F' : Function),
        translateSpirvIntrinsic Samples.declaredReturnType (Samples.callGlobalId "x")
          "GlobalSize_xv" [] (Samples.fnGlobalId "x") = Ok ([0%nat], F')
        /\ instructions F'
           = usesReplaced 0 (VInst k (IntegerTy 64))
               ([] ++ (pre ++ [mkInst k "mul" Mul [WGSizeI; NumWGI] (IntegerTy 64)])
                ++ instructions (Samples.fnGlobalId "x"))
        /\ calledFunctions pre
           = ["llvm.genx.local.size.v3i32"; "llvm.genx.group.count.v3i32"]
        /\ (forall env,
              evalInt (exec (genxIntrinsics Samples.workItem)
                         (before 0 (instructions F')) env) WGSizeI = Some 16
              /\ evalInt (exec (genxIntrinsics Samples.workItem)
                            (before 0 (instructions F')) env) NumWGI = Some 100
              /\ evalInt (exec (genxIntrinsics Samples.workItem)
                            (before 0 (instructions F')) env) (VInst k (IntegerTy 64))
                 = Some ((16 * 100) mod 2 ^ 64))
        /\ Forall (fun i => forall t, VInst 0 t ∉ operands i) (instructions F')).
Proof.
  apply (global_id_and_size_lowering Samples.declaredReturnType
           (Samples.callGlobalId "x") (Samples.fnGlobalId "x") [] "x" 0%nat 64
           Samples.workItem 3 16 7 100).
  - intros nm. reflexivity.
  - intros nm. reflexivity.
  - reflexivity.
  - simpl. lia.
  - apply list_elem_of_here.
  - reflexivity.
  - reflexivity.
  - reflexivity.
  - reflexivity.
Defined.

End LowerESIMD_Properties.

(** * Properties of the kernel construction *)

Module SemaSYCL_Properties.

Import SemaSYCL.

(** ** The visit of a field or base, one step at a time *)

Section VisitEquations.

Context {S : Type} (rd : S -> string -> bool).

Lemma rbind_assoc {A B C : Type} (m : Result A) (f : A -> Result B)
    (g : B -> Result C) :
  rbind (rbind m f) g = rbind m (fun x => rbind (f x) g).
Proof. by destruct m. Qed.

Lemma visitField_record (Hs : list (Handler S)) O FD RD s :
  visitField S rd Hs O FD (StructType RD) s =
  rbind (KF_FOR_EACH S Hs (handleStructType FD (StructType RD)) s) (fun r =>
  if r.1 then visitRecord S rd Hs O (ParentField FD) RD (StructType RD) r.2
  else Ok r.2).
Proof. reflexivity. Qed.

Lemma visitField_union (Hs : list (Handler S)) O FD RD s :
  visitField S rd Hs O FD (UnionType RD) s =
  rbind (KF_FOR_EACH S Hs (handleUnionType FD (UnionType RD)) s) (fun r =>
  if r.1 then VisitUnion S rd Hs O FD RD r.2 else Ok r.2).
Proof. reflexivity. Qed.

Lemma visitField_constant_array (Hs : list (Handler S)) O FD ET n s :
  visitField S rd Hs O FD (ConstantArrayType ET n) s =
  visitArray S rd Hs O FD (ConstantArrayType ET n) (Some (ET, n)) s.
Proof. reflexivity. Qed.

Lemma visitField_variable_array (Hs : list (Handler S)) O FD ET s :
  visitField S rd Hs O FD (VariableArrayType ET) s =
  visitArray S rd Hs O FD (VariableArrayType ET) None s.
Proof. reflexivity. Qed.

Lemma visitField_incomplete_array (Hs : list (Handler S)) O FD ET s :
  visitField S rd Hs O FD (IncompleteArrayType ET) s =
  visitArray S rd Hs O FD (IncompleteArrayType ET) None s.
Proof. reflexivity. Qed.

Lemma visitBase_record (Hs : list (Handler S)) O B T RD s :
  T ∈ [SamplerType RD; HalfType RD; StructType RD; UnionType RD] ->
  visitBase S rd Hs O B T s = visitRecord S rd Hs O (ParentBase B) RD T s.
Proof.
  intros H. repeat (apply elem_of_cons in H as [->|H]; [reflexivity|]).
  by apply elem_of_nil in H.
Qed.

Lemma visitBase_spec_constant (Hs : list (Handler S)) O B RD n s :
  visitBase S rd Hs O B (SpecConstantType RD n) s =
  visitRecord S rd Hs O (ParentBase B) RD (SpecConstantType RD n) s.
Proof. reflexivity. Qed.

End VisitEquations.

(** ** The walk of the kernel builders *)

Local Abbreviation cH := constructHandlers.
Local Abbreviation crd := constructRequiresDecomposition.

Lemma hasSameType_refl (T : QualType) : hasSameType T T = true.
Proof.
  induction T; simpl; rewrite ?String.eqb_refl, ?IHT, ?bool_decide_eq_true_2; auto.
Qed.

Lemma isArrayElement_own_type (FD : FieldDecl) : isArrayElement FD (getType FD) = false.
Proof. unfold isArrayElement. by rewrite hasSameType_refl. Qed.

Lemma rbind_Ok_r {A : Type} (m : Result A) : rbind m Ok = m.
Proof. by destruct m. Qed.

(** When every handler accepts, the short-circuit form calls the same
    handlers as the plain form. *)
Lemma KF_FOR_EACH_forEach {S : Type} (Hs : list (Handler S)) ev s s' :
  KF_FOR_EACH S Hs ev s = Ok (true, s') -> forEach S Hs ev s = Ok s'.
Proof.
  revert s. induction Hs as [|H Hs IH]; intros s; simpl.
  - congruence.
  - destruct (handle S H ev s) as [[b r]| |]; simpl; try discriminate.
    destruct b; [apply IH | discriminate].
Qed.

Lemma sameFrame_refl (s : ConstructState) : sameFrame s s.
Proof. by constructor. Qed.

Lemma sameFrame_trans (s1 s2 s3 : ConstructState) :
  sameFrame s1 s2 -> sameFrame s2 s3 -> sameFrame s1 s3.
Proof.
  intros [] []. constructor; try congruence; by etrans.
Qed.

Lemma wellStacked_sameFrame (s s' : ConstructState) :
  wellStacked s -> sameFrame s s' -> wellStacked s'.
Proof.
  intros (HC & HM & HD) []. repeat split; congruence.
Qed.

Ltac body_unfold :=
  unfold SyclKernelBodyCreator.run, SyclKernelBodyCreator.handleSpecialType,
    SyclKernelBodyCreator.handleSpecialTypeBase, SyclKernelBodyCreator.initCall,
    SyclKernelBodyCreator.addSimpleFieldInit, SyclKernelBodyCreator.addSimpleBaseInit,
    SyclKernelBodyCreator.addFieldInit, SyclKernelBodyCreator.addFieldInitWith,
    SyclKernelBodyCreator.addBaseInit, SyclKernelBodyCreator.addCollectionInitListExpr,
    SyclKernelBodyCreator.createInitListExpr,
    SyclKernelBodyCreator.pushCollectionInitExpr,
    SyclKernelBodyCreator.popCollectionInitExpr,
    SyclKernelBodyCreator.addFieldMemberExpr,
    SyclKernelBodyCreator.removeFieldMemberExpr,
    SyclKernelBodyCreator.pushMemberExprBase, SyclKernelBodyCreator.popMemberExprBase,
    SyclKernelBodyCreator.backMemberExprBase, SyclKernelBodyCreator.updateParentInit,
    SyclKernelBodyCreator.getFieldEntity,
    SyclKernelBodyCreator.createParamReferenceExpr,
    SyclKernelBodyCreator.createPointerParamReferenceExpr,
    SyclKernelBodyCreator.createSimpleArrayParamReferenceExpr,
    SyclKernelBodyCreator.nextElementImpl, SyclKernelBodyCreator.popArrayInfo,
    SyclKernelBodyCreator.addStructDepth, SyclKernelBodyCreator.currentParam,
    SyclKernelBodyCreator.bind, SyclKernelBodyCreator.ret,
    SyclKernelBodyCreator.fail, SyclKernelBodyCreator.getBody,
    SyclKernelBodyCreator.putBody,
    SyclKernelDeclCreator.getParamVarDeclsForCurrentField.

(** The state taken apart, with an entry on each of the two stacks. *)
Ltac open_state s W :=
  let HC := fresh "HC" in
  let HM := fresh "HM" in
  let HD := fresh "HD" in
  destruct W as (HC & HM & HD);
  destruct s as [Sm sd [P L D] [B [|c C] I F A [|m M] D'] [KP SC CO AB IHD]];
  cbn in HC, HM, HD; try done; subst D'; clear HC HM.

Ltac step_event :=
  cbn -[isArrayElement drop]; body_unfold; cbn -[isArrayElement drop];
  rewrite ?drop_app_length; cbn -[isArrayElement drop].

Ltac close_event :=
  eexists; split; [reflexivity|];
  repeat match goal with |- _ /\ _ => split end;
  [constructor; cbn; try reflexivity; try (by eexists) | cbn; try reflexivity ..].

(** A field passed as it is: one parameter of its type, one initializer,
    one descriptor at the offset of the field. *)
Lemma event_leaf (FD : FieldDecl) (Ty : QualType) (s : ConstructState) :
  wellStacked s ->
  (isArrayElement FD Ty = true -> ArrayInfos (body s) <> []) ->
  exists s',
    KF_FOR_EACH _ cH (handleScalarType FD Ty) s = Ok (true, s') /\
    sameFrame s s' /\
    Params (decl s') = Params (decl s) ++ [SyclKernelDeclCreator.makeParamDesc FD Ty] /\
    KernelParams (hdr s') =
      KernelParams (hdr s) ++
        [mkKernelParamDesc kind_std_layout
           (sextBits 32 (zextBits 32 (getTypeSizeInChars Ty)))
           (zextBits 32 (zextBits 32
              (CurOffset (hdr s) + SyclKernelIntHeaderCreator.offsetOf FD Ty)))].
Proof.
  intros W HA. open_state s W. cbn in HA. step_event.
  destruct (isArrayElement FD Ty).
  - destruct A as [|[E i] A]; [by destruct HA|]. cbn. close_event.
  - cbn. close_event.
Qed.


Lemma event_union (FD : FieldDecl) (Ty : QualType) (s : ConstructState) :
  wellStacked s ->
  (isArrayElement FD Ty = true -> ArrayInfos (body s) <> []) ->
  exists s',
    KF_FOR_EACH _ cH (handleUnionType FD Ty) s = Ok (true, s') /\ sameFrame s s'.
Proof.
  intros W HA. destruct (event_leaf FD Ty s W HA) as (s' & E & Fr & _).
  by exists s'.
Qed.

Lemma event_half (FD : FieldDecl) (Ty : QualType) (s : ConstructState) :
  wellStacked s ->
  (isArrayElement FD Ty = true -> ArrayInfos (body s) <> []) ->
  exists s',
    KF_FOR_EACH _ cH (handleSyclHalfType FD Ty) s = Ok (true, s') /\ sameFrame s s'.
Proof.
  intros W HA. destruct (event_leaf FD Ty s W HA) as (s' & E & Fr & _).
  by exists s'.
Qed.

Lemma event_stream (FD : FieldDecl) (Ty : QualType) (s : ConstructState) :
  wellStacked s ->
  (isArrayElement FD Ty = true -> ArrayInfos (body s) <> []) ->
  exists s',
    KF_FOR_EACH _ cH (handleSyclStreamType FD Ty) s = Ok (true, s') /\ sameFrame s s'.
Proof.
  intros W HA. destruct (event_leaf FD Ty s W HA) as (s' & E & Fr & _).
  by exists s'.
Qed.

Lemma event_simple_record (O : CXXRecordDecl) (FD : FieldDecl) (Ty : QualType)
    (s : ConstructState) :
  wellStacked s ->
  (isArrayElement FD Ty = true -> ArrayInfos (body s) <> []) ->
  exists s',
    forEach _ cH (handleNonDecompStruct O (ParentField FD) Ty) s = Ok s' /\
    sameFrame s s'.
Proof.
  intros W HA. destruct (event_leaf FD Ty s W HA) as (s' & E & Fr & _).
  exists s'. split; [|done]. by apply KF_FOR_EACH_forEach.
Qed.

Lemma event_simple_base (O : CXXRecordDecl) (BS : CXXBaseSpecifier) (Ty : QualType)
    (s : ConstructState) :
  wellStacked s ->
  exists s',
    forEach _ cH (handleNonDecompStruct O (ParentBase BS) Ty) s = Ok s' /\
    sameFrame s s' /\
    KernelParams (hdr s') =
      KernelParams (hdr s) ++
        [mkKernelParamDesc kind_std_layout
           (sextBits 32 (zextBits 32 (getTypeSizeInChars Ty)))
           (zextBits 32 (zextBits 32 (CurOffset (hdr s) + getBaseClassOffset BS)))].
Proof.
  intros W. open_state s W. step_event. close_event.
Qed.

(** A pointer field: the parameter is the pointer into the global address
    space, inside a wrapper class when the field is inside a class. *)
Lemma event_pointer (FD : FieldDecl) (Ty : QualType) (s : ConstructState) :
  wellStacked s ->
  (isArrayElement FD Ty = true -> ArrayInfos (body s) <> []) ->
  exists s',
    KF_FOR_EACH _ cH (handlePointerType FD Ty) s = Ok (true, s') /\
    sameFrame s s' /\
    Params (decl s') =
      Params (decl s) ++
        [SyclKernelDeclCreator.makeParamDesc FD
           (if decide (DC_StructDepth (decl s) <> 0)
            then StructType (SyclKernelDeclCreator.wrapField FD
                               (SyclKernelDeclCreator.globalPointer Ty))
            else SyclKernelDeclCreator.globalPointer Ty)] /\
    KernelParams (hdr s') =
      KernelParams (hdr s) ++
        [mkKernelParamDesc
           (if decide (IH_StructDepth (hdr s) <> 0) then kind_std_layout
            else kind_pointer)
           (sextBits 32 (zextBits 32 (getTypeSizeInChars Ty)))
           (zextBits 32 (zextBits 32
              (CurOffset (hdr s) + SyclKernelIntHeaderCreator.offsetOf FD Ty)))].
Proof.
  intros W HA. open_state s W. cbn in HA. step_event.
  destruct (decide (D <> 0)) as [HD|HD].
  - rewrite bool_decide_eq_true_2 by done. step_event.
    destruct (isArrayElement FD Ty).
    + destruct A as [|[E i] A]; [by destruct HA|]. cbn. close_event.
    + cbn. close_event.
  - rewrite bool_decide_eq_false_2 by done. step_event.
    destruct (isArrayElement FD Ty).
    + destruct A as [|[E i] A]; [by destruct HA|]. cbn. close_event.
    + cbn. close_event.
Qed.

(** An array passed as it is, inside a wrapper class. *)
Lemma event_simple_array (FD : FieldDecl) (Ty : QualType) (s : ConstructState) :
  wellStacked s ->
  exists s',
    forEach _ cH (handleSimpleArrayType FD Ty) s = Ok s' /\
    sameFrame s s' /\
    KernelParams (hdr s') =
      KernelParams (hdr s) ++
        [mkKernelParamDesc kind_std_layout
           (sextBits 32 (zextBits 32 (getTypeSizeInChars Ty)))
           (zextBits 32 (zextBits 32
              (CurOffset (hdr s) + SyclKernelIntHeaderCreator.offsetOf FD Ty)))].
Proof.
  intros W. open_state s W. step_event. close_event.
Qed.

(** Callbacks none of the three builders overrides. *)
Lemma event_record (FD : FieldDecl) (Ty : QualType) (s : ConstructState) :
  KF_FOR_EACH _ cH (handleStructType FD Ty) s = Ok (true, s).
Proof. by destruct s as [? ? [] [] []]. Qed.

Lemma event_array (FD : FieldDecl) (Ty : QualType) (s : ConstructState) :
  KF_FOR_EACH _ cH (handleArrayType FD Ty) s = Ok (true, s).
Proof. by destruct s as [? ? [] [] []]. Qed.

Lemma event_reference (FD : FieldDecl) (Ty : QualType) (s : ConstructState) :
  KF_FOR_EACH _ cH (handleReferenceType FD Ty) s = Ok (true, s).
Proof. by destruct s as [? ? [] [] []]. Qed.

Lemma event_other (FD : FieldDecl) (Ty : QualType) (s : ConstructState) :
  KF_FOR_EACH _ cH (handleOtherType FD Ty) s = Ok (true, s).
Proof. by destruct s as [? ? [] [] []]. Qed.

Lemma event_stream_base (O : CXXRecordDecl) (BS : CXXBaseSpecifier) (Ty : QualType)
    (s : ConstructState) :
  forEach _ cH (handleSyclStreamTypeBase O BS Ty) s = Ok s.
Proof. by destruct s as [? ? [] [] []]. Qed.


(** *** The parameters of an accessor or sampler *)

Lemma paramsOnly_refl (s : ConstructState) : paramsOnly s s.
Proof. by constructor. Qed.

Lemma paramsOnly_trans (s1 s2 s3 : ConstructState) :
  paramsOnly s1 s2 -> paramsOnly s2 s3 -> paramsOnly s1 s3.
Proof. intros [] []. constructor; congruence. Qed.

Lemma updateBack_snoc (f : ParmVarDecl -> ParmVarDecl) Pre p L D :
  SyclKernelDeclCreator.updateBack f (mkDeclCreator (Pre ++ [p]) L D) =
  mkDeclCreator (Pre ++ [f p]) L D.
Proof.
  unfold SyclKernelDeclCreator.updateBack.
  cbn [Params LastParamIndex DC_StructDepth].
  rewrite reverse_snoc. by rewrite reverse_cons, reverse_involutive.
Qed.

Lemma bufferLocation_spec Loc l (s : ConstructState) Pre p :
  Params (decl s) = Pre ++ [p] ->
  paramsOnly s (SyclKernelDeclCreator.handleBufferLocationProperty Loc l s) /\
  LastParamIndex (decl (SyclKernelDeclCreator.handleBufferLocationProperty Loc l s))
    = LastParamIndex (decl s) /\
  exists p',
    Params (decl (SyclKernelDeclCreator.handleBufferLocationProperty Loc l s))
    = Pre ++ [p'].
Proof.
  intros E. unfold SyclKernelDeclCreator.handleBufferLocationProperty.
  rewrite E, last_snoc.
  destruct (SyclKernelDeclCreator.hasBufferLocation p).
  - repeat split; cbn; eauto.
  - destruct s as [Sm simd [P L D] b h]. cbn in E. subst P. cbn [decl].
    rewrite updateBack_snoc. repeat split; cbn; eauto.
Qed.

Lemma propertyList_spec Ty Loc (s : ConstructState) Pre p :
  Params (decl s) = Pre ++ [p] ->
  paramsOnly s (SyclKernelDeclCreator.handleAccessorPropertyList Ty Loc s) /\
  LastParamIndex (decl (SyclKernelDeclCreator.handleAccessorPropertyList Ty Loc s))
    = LastParamIndex (decl s) /\
  exists p',
    Params (decl (SyclKernelDeclCreator.handleAccessorPropertyList Ty Loc s))
    = Pre ++ [p'].
Proof.
  unfold SyclKernelDeclCreator.handleAccessorPropertyList.
  destruct Ty; try (intros E; split; [apply paramsOnly_refl | eauto]).
  revert s p. induction BufferLocations as [|l ls IH]; intros s p E; cbn.
  - split; [apply paramsOnly_refl | eauto].
  - destruct (bufferLocation_spec Loc l s Pre p E) as (Po & HL & p' & E').
    destruct (IH _ _ E') as (Po' & HL' & p'' & E'').
    split; [by eapply paramsOnly_trans|]. split; [congruence | eauto].
Qed.

Lemma fold_params_spec (step : ConstructState -> QualType -> ConstructState) :
  (forall s ty,
     paramsOnly s (step s ty) /\
     exists p, Params (decl (step s ty)) = Params (decl s) ++ [p]) ->
  forall tys s,
    paramsOnly s (fold_left step tys s) /\
    exists ps,
      Params (decl (fold_left step tys s)) = Params (decl s) ++ ps /\
      length ps = length tys.
Proof.
  intros Hstep tys. induction tys as [|ty tys IH]; intros s; cbn.
  - split; [apply paramsOnly_refl|]. exists []. by rewrite app_nil_r.
  - destruct (Hstep s ty) as (Po & p & E).
    destruct (IH (step s ty)) as (Po' & ps & E' & Hl).
    split; [by eapply paramsOnly_trans|].
    exists (p :: ps). rewrite E', E, <- app_assoc. cbn. by rewrite Hl.
Qed.

Lemma paramsOnly_addParam p (s : ConstructState) :
  paramsOnly s (withDecl s (SyclKernelDeclCreator.addParam p (decl s))).
Proof. by constructor. Qed.

Lemma paramsOnly_updateBack f (s : ConstructState) :
  paramsOnly s (withDecl s (SyclKernelDeclCreator.updateBack f (decl s))).
Proof.
  constructor; try reflexivity. cbn.
  unfold SyclKernelDeclCreator.updateBack. by destruct (reverse _).
Qed.

(** The declaration creator on an accessor or sampler field: one parameter
    for each parameter of the initializer. *)
Lemma decl_special (FD : FieldDecl) (Ty : QualType) (isAcc : bool)
    (M : CXXMethodDecl) (s : ConstructState) :
  SyclKernelDeclCreator.initMethod Ty
    (if IsSIMDKernel s && isAcc then InitESIMDMethodName else InitMethodName) = Ok M ->
  exists s',
    SyclKernelDeclCreator.handleSpecialType FD Ty isAcc s = Ok (true, s') /\
    paramsOnly s s' /\
    LastParamIndex (decl s') = length (Params (decl s)) /\
    exists ps, Params (decl s') = Params (decl s) ++ ps /\
               length ps = length (parameters M).
Proof.
  intros HM. unfold SyclKernelDeclCreator.handleSpecialType. rewrite HM.
  cbn [rbind]. eexists; split; [reflexivity|].
  match goal with
  | |- context [fold_left ?f ?l ?s0] =>
      destruct (fold_params_spec f) with (tys := l) (s := s0)
        as (Po & ps & E & Hl)
  end.
  - intros s0 ty. cbn zeta.
    destruct (isPointerType ty && isAcc); [|split; [apply paramsOnly_addParam | by eexists]].
    destruct (propertyList_spec Ty (fieldKey FD)
                (withDecl s0 (SyclKernelDeclCreator.addParam
                                (SyclKernelDeclCreator.makeParamDesc FD ty) (decl s0)))
                (Params (decl s0)) (SyclKernelDeclCreator.makeParamDesc FD ty) eq_refl)
      as (Po & HL & p' & E).
    set (s1 := SyclKernelDeclCreator.handleAccessorPropertyList _ _ _) in *.
    destruct (IsSIMDKernel s1).
    + split.
      * eapply paramsOnly_trans; [apply paramsOnly_addParam|].
        eapply paramsOnly_trans; [exact Po | apply paramsOnly_updateBack].
      * destruct s1 as [Sm simd [P L D] b h]. cbn in E. subst P. cbn [decl withDecl].
        rewrite updateBack_snoc. cbn. eauto.
    + split; [|eauto].
      eapply paramsOnly_trans; [apply paramsOnly_addParam | exact Po].
  - split; [|split; [reflexivity|eauto]].
    destruct Po. by constructor.
Qed.


Lemma decl_special_base (Ty : QualType) (M : CXXMethodDecl) (s : ConstructState) :
  SyclKernelDeclCreator.initMethod Ty
    (if IsSIMDKernel s then InitESIMDMethodName else InitMethodName) = Ok M ->
  exists s',
    SyclKernelDeclCreator.handleSyclAccessorTypeBaseImpl Ty s = Ok (true, s') /\
    paramsOnly s s' /\
    LastParamIndex (decl s') = length (Params (decl s)) /\
    exists ps, Params (decl s') = Params (decl s) ++ ps /\
               length ps = length (parameters M).
Proof.
  intros HM. unfold SyclKernelDeclCreator.handleSyclAccessorTypeBaseImpl. rewrite HM.
  cbn [rbind]. eexists; split; [reflexivity|].
  match goal with
  | |- context [fold_left ?f ?l ?s0] =>
      destruct (fold_params_spec f) with (tys := l) (s := s0)
        as (Po & ps & E & Hl)
  end.
  - intros s0 ty. cbn zeta.
    destruct (isPointerType ty); [|split; [apply paramsOnly_addParam | by eexists]].
    destruct (propertyList_spec Ty "base"
                (withDecl s0 (SyclKernelDeclCreator.addParam
                                (SyclKernelDeclCreator.makeParamDescBase ty) (decl s0)))
                (Params (decl s0)) (SyclKernelDeclCreator.makeParamDescBase ty) eq_refl)
      as (Po & HL & p' & E).
    split; [|eauto].
    eapply paramsOnly_trans; [apply paramsOnly_addParam | exact Po].
  - split; [|split; [reflexivity|eauto]].
    destruct Po. by constructor.
Qed.

(** *** The body creator on an accessor or sampler *)

Lemma paramDREs_ok (n I : nat) (s : ConstructState) :
  (I + n <= length (drop (LastParamIndex (decl s)) (Params (decl s))))%nat ->
  exists l, SyclKernelBodyCreator.paramDREs n I s = Ok (l, s).
Proof.
  revert I. induction n as [|n IH]; intros I H; cbn [SyclKernelBodyCreator.paramDREs].
  - by eexists.
  - unfold SyclKernelBodyCreator.bind at 1.
    unfold SyclKernelBodyCreator.currentParam,
      SyclKernelDeclCreator.getParamVarDeclsForCurrentField.
    destruct (lookup_lt_is_Some_2 (drop (LastParamIndex (decl s)) (Params (decl s))) I)
      as [p Hp]; [lia|].
    rewrite Hp. cbn [rbind fst snd].
    unfold SyclKernelBodyCreator.bind at 1.
    destruct (IH (Datatypes.S I)) as [l El]; [lia|].
    rewrite El. cbn. by eexists.
Qed.

(** A call of [__init] or [__finalize] only adds a statement. *)
Lemma specialMethodCall_ok (RD : CXXRecordDecl) (MethodName : string)
    (toFinalize : bool) (s : ConstructState) :
  MemberExprBases (body s) <> [] ->
  (forall M, getMethodByName RD MethodName = Some M ->
     (length (parameters M)
      <= length (drop (LastParamIndex (decl s)) (Params (decl s))))%nat) ->
  exists stmts fstmts,
    SyclKernelBodyCreator.createSpecialMethodCall (Some RD) MethodName toFinalize s
    = Ok (tt, withBody s
                (mkBodyCreator stmts (CollectionInitExprs (body s))
                   (InitLists (body s)) fstmts (ArrayInfos (body s))
                   (MemberExprBases (body s)) (BC_StructDepth (body s)))).
Proof.
  intros HM Hn. unfold SyclKernelBodyCreator.createSpecialMethodCall.
  destruct (getMethodByName RD MethodName) as [M|].
  - destruct (paramDREs_ok (length (parameters M)) 0 s) as [l El];
      [by apply Hn|].
    unfold SyclKernelBodyCreator.bind at 1. rewrite El. cbn [rbind fst snd].
    destruct s as [Sm simd d [B C I F A [|m Ms] D] h]; [done|].
    body_unfold. cbn. destruct toFinalize; cbn; by do 2 eexists.
  - destruct s as [Sm simd d [B C I F A Ms D] h].
    unfold SyclKernelBodyCreator.ret. cbn. by do 2 eexists.
Qed.

Lemma bind_eq {A B : Type} (m : SyclKernelBodyCreator.St A)
    (k : A -> SyclKernelBodyCreator.St B) s a s1 :
  m s = Ok (a, s1) -> SyclKernelBodyCreator.bind m k s = k a s1.
Proof. unfold SyclKernelBodyCreator.bind. by intros ->. Qed.

Ltac body_step H :=
  erewrite bind_eq;
  [| body_unfold; cbn -[isArrayElement]; rewrite ?H; cbn; reflexivity].

Lemma body_special (FD : FieldDecl) (Ty : QualType) (RD : CXXRecordDecl)
    (s : ConstructState) :
  getAsCXXRecordDecl Ty = Some RD ->
  wellStacked s ->
  (isArrayElement FD Ty = true -> ArrayInfos (body s) <> []) ->
  (forall M, getMethodByName RD (SyclKernelBodyCreator.getInitMethodName s) = Some M ->
     (length (parameters M)
      <= length (drop (LastParamIndex (decl s)) (Params (decl s))))%nat) ->
  exists s',
    SyclKernelBodyCreator.run (SyclKernelBodyCreator.handleSpecialType FD Ty) s
    = Ok (true, s') /\
    sameFrame s s' /\ decl s' = decl s /\ hdr s' = hdr s.
Proof.
  intros HRD W HA Hn. open_state s W. cbn in HA, Hn.
  unfold SyclKernelBodyCreator.run, SyclKernelBodyCreator.handleSpecialType.
  destruct (isArrayElement FD Ty) eqn:Harr.
  - destruct A as [|[E i] A]; [by destruct HA|].
    body_step Harr. body_step Harr.
    unfold SyclKernelBodyCreator.initCall. rewrite HRD.
    unfold SyclKernelBodyCreator.bind at 1. cbn beta.
    match goal with
    | |- context [SyclKernelBodyCreator.createSpecialMethodCall _ ?n ?f ?s0] =>
        destruct (specialMethodCall_ok RD n f s0) as (stmts & fstmts & Ec);
          [done | exact Hn |]
    end.
    rewrite Ec. cbn [rbind fst snd].
    body_unfold. cbn -[isArrayElement]. rewrite Harr. cbn. close_event.
  - body_step Harr. body_step Harr.
    unfold SyclKernelBodyCreator.initCall. rewrite HRD.
    unfold SyclKernelBodyCreator.bind at 1. cbn beta.
    match goal with
    | |- context [SyclKernelBodyCreator.createSpecialMethodCall _ ?n ?f ?s0] =>
        destruct (specialMethodCall_ok RD n f s0) as (stmts & fstmts & Ec);
          [done | exact Hn |]
    end.
    rewrite Ec. cbn [rbind fst snd].
    body_unfold. cbn -[isArrayElement]. rewrite Harr. cbn. close_event.
Qed.


Lemma body_special_base (Ty : QualType) (RD : CXXRecordDecl) (s : ConstructState) :
  getAsCXXRecordDecl Ty = Some RD ->
  wellStacked s ->
  (forall M, getMethodByName RD (SyclKernelBodyCreator.getInitMethodName s) = Some M ->
     (length (parameters M)
      <= length (drop (LastParamIndex (decl s)) (Params (decl s))))%nat) ->
  exists s',
    SyclKernelBodyCreator.run (SyclKernelBodyCreator.handleSpecialTypeBase Ty) s
    = Ok (true, s') /\
    sameFrame s s' /\ decl s' = decl s /\ hdr s' = hdr s.
Proof.
  intros HRD W Hn. open_state s W. cbn in Hn.
  unfold SyclKernelBodyCreator.run, SyclKernelBodyCreator.handleSpecialTypeBase.
  erewrite bind_eq; [|body_unfold; cbn; reflexivity].
  unfold SyclKernelBodyCreator.initCall. rewrite HRD.
  match goal with
  | |- context [SyclKernelBodyCreator.createSpecialMethodCall _ ?n ?f ?s0] =>
      destruct (specialMethodCall_ok RD n f s0) as (stmts & fstmts & Ec);
        [done | exact Hn |]
  end.
  rewrite Ec. cbn. close_event.
Qed.

Lemma sameFrame_paramsOnly (s s' : ConstructState) :
  paramsOnly s s' -> Params (decl s) `prefix_of` Params (decl s') ->
  sameFrame s s'.
Proof.
  intros [Hb Hh Hs Hr Hd] Hp. constructor; rewrite ?Hb, ?Hh; done.
Qed.

Lemma sameFrame_addParamDesc Kind Info Offset (s : ConstructState) :
  sameFrame s (withHdr s (SyclKernelIntHeaderCreator.addParamDesc Kind Info Offset (hdr s))).
Proof. constructor; cbn; try reflexivity. by eexists. Qed.

(** The three builders in a row. *)
Lemma KF_three (ev : Event) (s s1 s2 s3 : ConstructState) :
  SyclKernelDeclCreator.handle ev s = Ok (true, s1) ->
  SyclKernelBodyCreator.handle ev s1 = Ok (true, s2) ->
  SyclKernelIntHeaderCreator.handle ev s2 = Ok (true, s3) ->
  KF_FOR_EACH _ cH ev s = Ok (true, s3).
Proof.
  intros E1 E2 E3. unfold constructHandlers.
  cbn [KF_FOR_EACH handle SyclKernelDeclCreator.handler SyclKernelBodyCreator.handler
         SyclKernelIntHeaderCreator.handler].
  rewrite E1. cbn [rbind fst snd]. rewrite E2. cbn [rbind fst snd].
  rewrite E3. reflexivity.
Qed.

Lemma current_params_length (s s' : ConstructState) ps :
  LastParamIndex (decl s') = length (Params (decl s)) ->
  Params (decl s') = Params (decl s) ++ ps ->
  length (drop (LastParamIndex (decl s')) (Params (decl s'))) = length ps.
Proof. intros -> ->. by rewrite drop_app_length. Qed.

Lemma wellStacked_paramsOnly (s s' : ConstructState) :
  wellStacked s -> paramsOnly s s' -> wellStacked s'.
Proof. intros (HC & HM & HD) []. repeat split; congruence. Qed.

Lemma initMethod_found (Ty : QualType) (RD : CXXRecordDecl) (Name : string)
    (M : CXXMethodDecl) :
  getAsCXXRecordDecl Ty = Some RD -> getMethodByName RD Name = Some M ->
  SyclKernelDeclCreator.initMethod Ty Name = Ok M.
Proof. unfold SyclKernelDeclCreator.initMethod. by intros -> ->. Qed.

(** An accessor field: the parameters of its initializer, the default
    initializer of the field, the call of the initializer, one descriptor. *)
Lemma event_accessor (FD : FieldDecl) RD d t l ds (s : ConstructState) :
  let Ty := AccessorType RD d t l ds in
  wellStacked s ->
  (isArrayElement FD Ty = true -> ArrayInfos (body s) <> []) ->
  legalAccessor (IsSIMDKernel s) Ty = true ->
  exists s',
    KF_FOR_EACH _ cH (handleSyclAccessorType FD Ty) s = Ok (true, s') /\
    sameFrame s s'.
Proof.
  intros Ty W HA HL. cbn in HL. apply bool_decide_eq_true_1 in HL as [M HM].
  destruct (decl_special FD Ty true M s) as (s1 & E1 & Po & HLast & ps & HP & Hlen).
  { apply (initMethod_found Ty RD); [done|].
    unfold initName in HM. by rewrite andb_true_r. }
  destruct (body_special FD Ty RD s1) as (s2 & E2 & Fr2 & Hd & Hh); [done|..].
  { by eapply wellStacked_paramsOnly. }
  { destruct Po as [-> _ _ _ _]. exact HA. }
  { intros M'. unfold SyclKernelBodyCreator.getInitMethodName.
    destruct Po as [_ _ -> _ _]. unfold initName in HM. rewrite HM.
    intros [= <-]. rewrite (current_params_length s s1 ps) by done. lia. }
  eexists. split.
  - eapply KF_three; [exact E1 | exact E2 | reflexivity].
  - eapply sameFrame_trans; [|eapply sameFrame_trans; [exact Fr2|]].
    + apply sameFrame_paramsOnly; [done|]. rewrite HP. by eexists.
    + apply sameFrame_addParamDesc.
Qed.

Lemma event_sampler (FD : FieldDecl) RD (s : ConstructState) :
  let Ty := SamplerType RD in
  wellStacked s ->
  (isArrayElement FD Ty = true -> ArrayInfos (body s) <> []) ->
  (exists M A As,
     getMethodByName RD InitMethodName = Some M /\ parameters M = A :: As /\
     forall M', getMethodByName RD (initName (IsSIMDKernel s)) = Some M' ->
                (length (parameters M') <= length (parameters M))%nat) ->
  exists s',
    KF_FOR_EACH _ cH (handleSyclSamplerType FD Ty) s = Ok (true, s') /\
    sameFrame s s'.
Proof.
  intros Ty W HA (M & A & As & HM & HPs & Hle).
  destruct (decl_special FD Ty false M s) as (s1 & E1 & Po & HLast & ps & HP & Hlen).
  { apply (initMethod_found Ty RD); [done|]. by rewrite andb_false_r. }
  destruct (body_special FD Ty RD s1) as (s2 & E2 & Fr2 & Hd & Hh); [done|..].
  { by eapply wellStacked_paramsOnly. }
  { destruct Po as [-> _ _ _ _]. exact HA. }
  { intros M'. unfold SyclKernelBodyCreator.getInitMethodName.
    destruct Po as [_ _ -> _ _]. intros HM'. apply Hle in HM'.
    rewrite (current_params_length s s1 ps) by done. lia. }
  eexists. split.
  - eapply KF_three; [exact E1 | exact E2 |].
    cbn. rewrite HM, HPs. reflexivity.
  - eapply sameFrame_trans; [|eapply sameFrame_trans; [exact Fr2|]].
    + apply sameFrame_paramsOnly; [done|]. rewrite HP. by eexists.
    + apply sameFrame_addParamDesc.
Qed.

Lemma event_spec_constant (FD : FieldDecl) RD n (s : ConstructState) :
  let Ty := SpecConstantType RD n in
  wellStacked s ->
  (isArrayElement FD Ty = true -> ArrayInfos (body s) <> []) ->
  getMethodByName RD (initName (IsSIMDKernel s)) = None ->
  exists s',
    KF_FOR_EACH _ cH (handleSyclSpecConstantType FD Ty) s = Ok (true, s') /\
    sameFrame s s'.
Proof.
  intros Ty W HA HN.
  destruct (body_special FD Ty RD s) as (s2 & E2 & Fr2 & Hd & Hh); [done..| |].
  { intros M'. unfold SyclKernelBodyCreator.getInitMethodName.
    unfold initName in HN. by rewrite HN. }
  eexists. split.
  - eapply KF_three; [reflexivity | exact E2 | reflexivity].
  - eapply sameFrame_trans; [exact Fr2|].
    destruct s2 as [? ? ? ? []]. by constructor.
Qed.

Lemma event_accessor_base (O : CXXRecordDecl) (BS : CXXBaseSpecifier)
    RD d t l ds (s : ConstructState) :
  let Ty := AccessorType RD d t l ds in
  wellStacked s ->
  legalAccessor (IsSIMDKernel s) Ty = true ->
  exists s',
    forEach _ cH (handleSyclAccessorTypeBase O BS Ty) s = Ok s' /\ sameFrame s s'.
Proof.
  intros Ty W HL. cbn in HL. apply bool_decide_eq_true_1 in HL as [M HM].
  destruct (decl_special_base Ty M s) as (s1 & E1 & Po & HLast & ps & HP & Hlen).
  { by apply (initMethod_found Ty RD). }
  destruct (body_special_base Ty RD s1) as (s2 & E2 & Fr2 & Hd & Hh); [done|..].
  { by eapply wellStacked_paramsOnly. }
  { intros M'. unfold SyclKernelBodyCreator.getInitMethodName.
    destruct Po as [_ _ -> _ _]. unfold initName in HM. rewrite HM.
    intros [= <-]. rewrite (current_params_length s s1 ps) by done. lia. }
  eexists. split.
  - apply KF_FOR_EACH_forEach.
    eapply KF_three; [exact E1 | exact E2 | reflexivity].
  - eapply sameFrame_trans; [|eapply sameFrame_trans; [exact Fr2|]].
    + apply sameFrame_paramsOnly; [done|]. rewrite HP. by eexists.
    + apply sameFrame_addParamDesc.
Qed.


(** *** Entering and leaving a class, a stream and an array *)

Lemma inWalk_sameFrame S simd (s s' : ConstructState) :
  inWalk S simd s -> sameFrame s s' -> inWalk S simd s'.
Proof.
  intros (W & HR & HS) Fr. split; [by eapply wellStacked_sameFrame|].
  destruct Fr. split; congruence.
Qed.

(** The state taken apart, for a state related to one taken apart before. *)
Ltac open_next s2 :=
  destruct s2 as [Sm2 simd2 [P2 L2 D2] [B2 C2 I2 F2 A2 M2 D2'] [KP2 SC2 CO2 AB2 IHD2]].

Lemma bracket_record S simd (Q : list ParmVarDecl -> list KernelParamDesc -> Prop)
    (O : CXXRecordDecl) (Parent : ParentTy) (Ty : QualType)
    (k : ConstructState -> Result ConstructState) (s : ConstructState) :
  inWalk S simd s ->
  match Parent with
  | ParentField FD => isArrayElement FD Ty = true -> ArrayInfos (body s) <> []
  | ParentBase _ => True
  end ->
  (forall s1,
     inWalk S simd s1 ->
     DC_StructDepth (decl s1) = DC_StructDepth (decl s) + 1 ->
     CurOffset (hdr s1) =
       CurOffset (hdr s) +
       match Parent with
       | ParentField FD => SyclKernelIntHeaderCreator.offsetOf FD Ty
       | ParentBase BS => getBaseClassOffset BS
       end ->
     Params (decl s1) = Params (decl s) ->
     KernelParams (hdr s1) = KernelParams (hdr s) ->
     exists s2,
       k s1 = forEach _ cH (leaveStruct O Parent Ty) s2 /\ sameFrame s1 s2 /\
       Q (Params (decl s2)) (KernelParams (hdr s2))) ->
  exists s3,
    rbind (forEach _ cH (enterStruct O Parent Ty) s) k = Ok s3 /\
    sameFrame s s3 /\ Q (Params (decl s3)) (KernelParams (hdr s3)).
Proof.
  intros (W & HR & HS) HA Hk. open_state s W. cbn in HA, HR, HS.
  destruct Parent as [FD|BS].
  - destruct (isArrayElement FD Ty) eqn:Harr.
    + destruct A as [|[E i] A]; [by destruct HA|].
      step_event. rewrite Harr. cbn.
      match goal with |- context [k ?s1] => destruct (Hk s1) as (s2 & Ek & Fr & HQ) end;
        [done|cbn; try done; unfold SyclKernelIntHeaderCreator.offsetOf; by rewrite ?Harr..|].
      rewrite Ek. open_next s2. destruct Fr as [[ps Hps] [kps Hkps] ? ? ? ? ? ? ? ? ? ?].
      cbn -[isArrayElement] in *. subst. step_event. rewrite Harr. cbn.
      eexists; split; [reflexivity|]. split; [|done].
      constructor; cbn -[SyclKernelIntHeaderCreator.offsetOf isArrayElement];
        try done; try (by eexists); lia.
    + step_event. rewrite Harr. cbn.
      match goal with |- context [k ?s1] => destruct (Hk s1) as (s2 & Ek & Fr & HQ) end;
        [done|cbn; try done; unfold SyclKernelIntHeaderCreator.offsetOf; by rewrite ?Harr..|].
      rewrite Ek. open_next s2. destruct Fr as [[ps Hps] [kps Hkps] ? ? ? ? ? ? ? ? ? ?].
      cbn -[isArrayElement] in *. subst. step_event. rewrite Harr. cbn.
      eexists; split; [reflexivity|]. split; [|done].
      constructor; cbn -[SyclKernelIntHeaderCreator.offsetOf isArrayElement];
        try done; try (by eexists); lia.
  - step_event.
    match goal with |- context [k ?s1] => destruct (Hk s1) as (s2 & Ek & Fr & HQ) end;
      [done|cbn; done..|].
    rewrite Ek. open_next s2. destruct Fr as [[ps Hps] [kps Hkps] ? ? ? ? ? ? ? ? ? ?].
    cbn in *. subst. step_event.
    eexists; split; [reflexivity|]. split; [|done].
    constructor; cbn; try done; try (by eexists);
      unfold SyclKernelIntHeaderCreator.offsetOfBase; lia.
Qed.


Lemma bracket_stream S simd (O : CXXRecordDecl) (FD : FieldDecl) (Ty : QualType)
    (RD : CXXRecordDecl) (k : ConstructState -> Result ConstructState)
    (s : ConstructState) :
  getAsCXXRecordDecl Ty = Some RD ->
  inWalk S simd s ->
  (isArrayElement FD Ty = true -> ArrayInfos (body s) <> []) ->
  (forall Name M, Name ∈ [initName simd; FinalizeMethodName] ->
     getMethodByName RD Name = Some M -> parameters M = []) ->
  (forall s1,
     inWalk S simd s1 ->
     exists s2, k s1 = forEach _ cH (leaveStream O FD Ty) s2 /\ sameFrame s1 s2) ->
  exists s3,
    rbind (forEach _ cH (enterStream O FD Ty) s) k = Ok s3 /\ sameFrame s s3.
Proof.
  intros HRD (W & HR & HS) HA HM Hk. open_state s W. cbn in HA, HR, HS.
  assert (Hn : forall Name (s0 : ConstructState),
             Name ∈ [initName simd; FinalizeMethodName] ->
             forall M0, getMethodByName RD Name = Some M0 ->
               (length (parameters M0)
                <= length (drop (LastParamIndex (decl s0)) (Params (decl s0))))%nat).
  { intros Name s0 HIn M0 HM0. rewrite (HM Name M0 HIn HM0). cbn. lia. }
  destruct (isArrayElement FD Ty) eqn:Harr.
  - destruct A as [|[E i] A]; [by destruct HA|].
    step_event. rewrite Harr. cbn.
    match goal with |- context [k ?s1] => destruct (Hk s1) as (s2 & Ek & Fr) end;
      [done|].
    rewrite Ek. open_next s2. destruct Fr as [[ps Hps] [kps Hkps] ? ? ? ? ? ? ? ? ? ?].
    cbn -[isArrayElement] in *. subst.
    cbn -[isArrayElement SyclKernelBodyCreator.run].
    unfold SyclKernelBodyCreator.run.
    body_step Harr.
    unfold SyclKernelBodyCreator.initCall. rewrite HRD.
    unfold SyclKernelBodyCreator.bind at 1. cbn beta.
    match goal with
    | |- context [SyclKernelBodyCreator.createSpecialMethodCall _ ?n ?f ?s0] =>
        destruct (specialMethodCall_ok RD n f s0) as (stmts & fstmts & Ec);
          [done | apply Hn; apply list_elem_of_here |]
    end.
    rewrite Ec. cbn [rbind fst snd].
    unfold SyclKernelBodyCreator.bind at 1.
    match goal with
    | |- context [SyclKernelBodyCreator.createSpecialMethodCall _ ?n ?f ?s0] =>
        destruct (specialMethodCall_ok RD n f s0) as (stmts' & fstmts' & Ec');
          [done | apply Hn; apply list_elem_of_further, list_elem_of_here |]
    end.
    rewrite Ec'. cbn [rbind fst snd].
    body_unfold. cbn -[isArrayElement]. rewrite Harr. cbn.
    eexists; split; [reflexivity|].
    constructor; cbn -[SyclKernelIntHeaderCreator.offsetOf isArrayElement];
      try done; try (by eexists); lia.
  - step_event. rewrite Harr. cbn.
    match goal with |- context [k ?s1] => destruct (Hk s1) as (s2 & Ek & Fr) end;
      [done|].
    rewrite Ek. open_next s2. destruct Fr as [[ps Hps] [kps Hkps] ? ? ? ? ? ? ? ? ? ?].
    cbn -[isArrayElement] in *. subst.
    cbn -[isArrayElement SyclKernelBodyCreator.run].
    unfold SyclKernelBodyCreator.run.
    body_step Harr.
    unfold SyclKernelBodyCreator.initCall. rewrite HRD.
    unfold SyclKernelBodyCreator.bind at 1. cbn beta.
    match goal with
    | |- context [SyclKernelBodyCreator.createSpecialMethodCall _ ?n ?f ?s0] =>
        destruct (specialMethodCall_ok RD n f s0) as (stmts & fstmts & Ec);
          [done | apply Hn; apply list_elem_of_here |]
    end.
    rewrite Ec. cbn [rbind fst snd].
    unfold SyclKernelBodyCreator.bind at 1.
    match goal with
    | |- context [SyclKernelBodyCreator.createSpecialMethodCall _ ?n ?f ?s0] =>
        destruct (specialMethodCall_ok RD n f s0) as (stmts' & fstmts' & Ec');
          [done | apply Hn; apply list_elem_of_further, list_elem_of_here |]
    end.
    rewrite Ec'. cbn [rbind fst snd].
    body_unfold. cbn -[isArrayElement]. rewrite Harr. cbn.
    eexists; split; [reflexivity|].
    constructor; cbn -[SyclKernelIntHeaderCreator.offsetOf isArrayElement];
      try done; try (by eexists); lia.
Qed.


Lemma insideArray_sameFrame (FD : FieldDecl) (ATy : QualType)
    (s s1 s2 : ConstructState) :
  insideArray FD ATy s s1 -> sameFrame s1 s2 -> insideArray FD ATy s s2.
Proof.
  intros [? ? [ILE ?] [X ?] [E [Index ?]] ? ? ? ? ? ?] [].
  constructor; try congruence; try (by etrans).
  - exists ILE. congruence.
  - exists X. congruence.
  - exists E, Index. congruence.
Qed.

Ltac open_inside s1 H :=
  open_next s1;
  destruct H as [? ? [ILE ?] [X ?] [E1 [Index1 ?]] ? ? ? ? [ps ?] [kps ?]];
  cbn -[isArrayElement SyclKernelIntHeaderCreator.offsetOf] in *; subst.

Lemma array_first S simd (FD : FieldDecl) (ATy ET : QualType) (s : ConstructState) :
  inWalk S simd s ->
  (isArrayElement FD ATy = true -> ArrayInfos (body s) <> []) ->
  exists s0 s1,
    forEach _ cH (enterArray FD ATy ET) s = Ok s0 /\
    forEach _ cH (nextElement ET 0) s0 = Ok s1 /\
    insideArray FD ATy s s1 /\ inWalk S simd s1 /\
    CurOffset (hdr s1) =
      CurOffset (hdr s) + SyclKernelIntHeaderCreator.offsetOf FD ATy
      + getTypeSizeInChars ET * 0 /\
    Params (decl s1) = Params (decl s) /\
    KernelParams (hdr s1) = KernelParams (hdr s).
Proof.
  intros (W & HR & HS) HA. open_state s W. cbn in HA, HR, HS.
  destruct (isArrayElement FD ATy) eqn:Harr.
  - destruct A as [|[E i] A]; [by destruct HA|].
    eexists. eexists. split.
    { step_event. rewrite Harr. cbn. reflexivity. }
    split. { step_event. reflexivity. }
    repeat split; cbn -[isArrayElement SyclKernelIntHeaderCreator.offsetOf];
      rewrite ?Harr; try done; try (by eauto); try (by eexists).
  - eexists. eexists. split.
    { step_event. rewrite Harr. cbn. reflexivity. }
    split. { step_event. reflexivity. }
    repeat split; cbn -[isArrayElement SyclKernelIntHeaderCreator.offsetOf];
      rewrite ?Harr; try done; try (by eauto); try (by eexists).
Qed.

Lemma array_next S simd (FD : FieldDecl) (ATy ET : QualType) (Index : Z)
    (s s1 : ConstructState) :
  wellStacked s -> insideArray FD ATy s s1 -> inWalk S simd s1 -> Index <> 0 ->
  exists s2,
    forEach _ cH (nextElement ET Index) s1 = Ok s2 /\
    insideArray FD ATy s s2 /\ inWalk S simd s2 /\
    CurOffset (hdr s2) =
      CurOffset (hdr s) + SyclKernelIntHeaderCreator.offsetOf FD ATy
      + getTypeSizeInChars ET * Index /\
    Params (decl s2) = Params (decl s1) /\
    KernelParams (hdr s2) = KernelParams (hdr s1).
Proof.
  intros W HI (W1 & HR & HS) HIdx. open_state s W.
  destruct W1 as (_ & _ & HD1). open_inside s1 HI.
  destruct (decide (Index <> 0)) as [_|]; [|done].
  destruct (isArrayElement FD ATy) eqn:Harr.
  - step_event. destruct (decide (Index <> 0)) as [_|]; [|done]. cbn.
    eexists; split; [reflexivity|].
    repeat split; cbn -[isArrayElement SyclKernelIntHeaderCreator.offsetOf];
      rewrite ?Harr; try done; try (by eauto); try (by eexists).
  - step_event. destruct (decide (Index <> 0)) as [_|]; [|done]. cbn.
    eexists; split; [reflexivity|].
    repeat split; cbn -[isArrayElement SyclKernelIntHeaderCreator.offsetOf];
      rewrite ?Harr; try done; try (by eauto); try (by eexists).
Qed.

Lemma array_leave (FD : FieldDecl) (ATy ET : QualType) (s s1 : ConstructState) :
  wellStacked s -> insideArray FD ATy s s1 ->
  exists s3,
    forEach _ cH (leaveArray FD ATy ET) s1 = Ok s3 /\ sameFrame s s3 /\
    Params (decl s3) = Params (decl s1) /\
    KernelParams (hdr s3) = KernelParams (hdr s1).
Proof.
  intros W HI. open_state s W. open_inside s1 HI.
  destruct (isArrayElement FD ATy) eqn:Harr.
  - step_event. rewrite Harr. cbn.
    eexists; split; [reflexivity|].
    split; [|done].
    constructor; cbn -[SyclKernelIntHeaderCreator.offsetOf isArrayElement];
      try done; try (by eexists); lia.
  - step_event. rewrite Harr. cbn.
    eexists; split; [reflexivity|].
    split; [|done].
    constructor; cbn -[SyclKernelIntHeaderCreator.offsetOf isArrayElement];
      try done; try (by eexists); lia.
Qed.


(** *** The visit of a field or base keeps the frame *)

Lemma visitRecord_builders O Parent W Ty (s : ConstructState) :
  visitRecord _ crd cH O Parent W Ty s =
  if crd s (recordKey W) then visitComplexRecord _ crd cH O Parent W Ty s
  else visitSimpleRecord _ cH O Parent Ty s.
Proof.
  unfold visitRecord. destruct (crd s (recordKey W)); [done|].
  rewrite <- (rbind_Ok_r (visitSimpleRecord _ cH O Parent Ty s)). reflexivity.
Qed.

Lemma visitArray_builders O FD Ty CAT (s : ConstructState) :
  visitArray _ crd cH O FD Ty CAT s =
  if crd s (fieldKey FD) then visitComplexArray _ crd cH O FD Ty CAT s
  else visitSimpleArray _ cH FD Ty s.
Proof.
  unfold visitArray. destruct (crd s (fieldKey FD)); [done|].
  rewrite <- (rbind_Ok_r (visitSimpleArray _ cH FD Ty s)). reflexivity.
Qed.

Lemma crd_inWalk S simd (s : ConstructState) key :
  inWalk S simd s -> crd s key = hasAttr S key.
Proof.
  intros (_ & HR & _). unfold constructRequiresDecomposition, hasAttr. by rewrite HR.
Qed.

Lemma foldM_frame S simd {A : Type}
    (f : A -> ConstructState -> Result ConstructState) (l : list A) :
  Forall (fun x => forall s, inWalk S simd s ->
                     exists s', f x s = Ok s' /\ sameFrame s s') l ->
  forall s, inWalk S simd s ->
    exists s', foldM _ f l s = Ok s' /\ sameFrame s s'.
Proof.
  induction 1 as [|x l Hx Hl IH]; intros s W; cbn.
  - exists s. split; [done | apply sameFrame_refl].
  - destruct (Hx s W) as (s1 & E1 & Fr1). rewrite E1. cbn.
    destruct (IH s1) as (s2 & E2 & Fr2); [by eapply inWalk_sameFrame|].
    exists s2. split; [done | by eapply sameFrame_trans].
Qed.

Lemma complexRecord_frame S simd O Parent W Ty (s : ConstructState) :
  inWalk S simd s ->
  match Parent with
  | ParentField FD => isArrayElement FD Ty = true -> ArrayInfos (body s) <> []
  | ParentBase _ => True
  end ->
  Forall (fun B => forall s, inWalk S simd s ->
            exists s', visitBase _ crd cH W B (getBaseType B) s = Ok s' /\
                       sameFrame s s') (bases W) ->
  Forall (fun F => forall s, inWalk S simd s ->
            exists s', visitField _ crd cH W F (getType F) s = Ok s' /\
                       sameFrame s s') (fields W) ->
  exists s', visitComplexRecord _ crd cH O Parent W Ty s = Ok s' /\ sameFrame s s'.
Proof.
  intros HW HA HB HF. unfold visitComplexRecord.
  destruct (bracket_record S simd (fun _ _ => True) O Parent Ty
              (fun s =>
                 rbind (foldM _ (fun Base s => visitBase _ crd cH W Base (getBaseType Base) s)
                          (bases W) s) (fun s =>
                 rbind (foldM _ (fun F s => visitField _ crd cH W F (getType F) s)
                          (fields W) s) (fun s =>
                 forEach _ cH (leaveStruct O Parent Ty) s))) s HW HA)
    as (s3 & E & Fr & _); [|by exists s3].
  intros s1 W1 _ _ _ _.
  destruct (foldM_frame S simd _ _ HB s1 W1) as (sa & Ea & Fra).
  destruct (foldM_frame S simd _ _ HF sa) as (sb & Eb & Frb);
    [by eapply inWalk_sameFrame|].
  exists sb. rewrite Ea. cbn. rewrite Eb. cbn.
  split; [done|]. split; [by eapply sameFrame_trans | done].
Qed.

Lemma record_frame S simd O Parent W Ty (s : ConstructState) :
  inWalk S simd s ->
  match Parent with
  | ParentField FD => isArrayElement FD Ty = true -> ArrayInfos (body s) <> []
  | ParentBase _ => True
  end ->
  (hasAttr S (recordKey W) = true ->
   Forall (fun B => forall s, inWalk S simd s ->
             exists s', visitBase _ crd cH W B (getBaseType B) s = Ok s' /\
                        sameFrame s s') (bases W) /\
   Forall (fun F => forall s, inWalk S simd s ->
             exists s', visitField _ crd cH W F (getType F) s = Ok s' /\
                        sameFrame s s') (fields W)) ->
  exists s', visitRecord _ crd cH O Parent W Ty s = Ok s' /\ sameFrame s s'.
Proof.
  intros HW HA HBF. rewrite visitRecord_builders, (crd_inWalk S simd) by done.
  destruct (hasAttr S (recordKey W)).
  - destruct HBF as [HB HF]; [done|]. by apply (complexRecord_frame S simd).
  - unfold visitSimpleRecord. destruct Parent as [FD|BS].
    + apply event_simple_record; [by destruct HW | done].
    + destruct (event_simple_base O BS Ty s) as (s' & E & Fr & _); [by destruct HW|].
      by exists s'.
Qed.

(** What the induction gives for the bases and fields of a class that is
    taken apart. *)
Lemma record_parts S simd (W : CXXRecordDecl) :
  PRecord
    (fun T =>
       (forall O FD s, inWalk S simd s -> legalField S simd FD T = true ->
          (isArrayElement FD T = true -> ArrayInfos (body s) <> []) ->
          exists s', visitField _ crd cH O FD T s = Ok s' /\ sameFrame s s') /\
       (forall O B s, inWalk S simd s -> legalBase S simd T = true ->
          exists s', visitBase _ crd cH O B T s = Ok s' /\ sameFrame s s')) W ->
  forallb (fun B => legalBase S simd (getBaseType B)) (bases W)
  && forallb (fun F => legalField S simd F (getType F)) (fields W) = true ->
  Forall (fun B => forall s, inWalk S simd s ->
            exists s', visitBase _ crd cH W B (getBaseType B) s = Ok s' /\
                       sameFrame s s') (bases W) /\
  Forall (fun F => forall s, inWalk S simd s ->
            exists s', visitField _ crd cH W F (getType F) s = Ok s' /\
                       sameFrame s s') (fields W).
Proof.
  intros [IHB IHF] HL. apply andb_prop in HL as [HLB HLF].
  rewrite forallb_forall in HLB. rewrite forallb_forall in HLF.
  rewrite Forall_forall in IHB. rewrite Forall_forall in IHF.
  split; apply Forall_forall.
  - intros B HB s HW. apply (IHB B HB); [done|]. apply HLB. by apply list_elem_of_In.
  - intros F HF s HW. apply (IHF F HF); [done| |].
    + apply HLF. by apply list_elem_of_In.
    + by rewrite isArrayElement_own_type.
Qed.


Lemma numParams_none_or_zero (RD : CXXRecordDecl) (Name : string) (M : CXXMethodDecl) :
  bool_decide (numParams RD Name ∈ [None; Some 0%nat]) = true ->
  getMethodByName RD Name = Some M -> parameters M = [].
Proof.
  intros H HM. apply bool_decide_eq_true_1 in H. unfold numParams in H.
  rewrite HM in H. apply elem_of_cons in H as [H|H]; [done|].
  apply elem_of_cons in H as [H|H]; [|by apply elem_of_nil in H].
  injection H as H. by apply length_zero_iff_nil.
Qed.

Lemma stream_frame S simd O FD RD (s : ConstructState) :
  inWalk S simd s ->
  (isArrayElement FD (StreamType RD) = true -> ArrayInfos (body s) <> []) ->
  legalStream simd RD = true ->
  exists s',
    visitStreamRecord _ cH O FD RD (StreamType RD) s = Ok s' /\ sameFrame s s'.
Proof.
  intros HW HA HL. unfold legalStream in HL.
  apply andb_prop in HL as [HL HAcc]. apply andb_prop in HL as [HInit HFin].
  unfold visitStreamRecord.
  apply (bracket_stream S simd O FD (StreamType RD) RD); try done.
  - intros Name M HIn. apply elem_of_cons in HIn as [->|HIn].
    + by apply numParams_none_or_zero.
    + apply elem_of_cons in HIn as [->|HIn]; [|by apply elem_of_nil in HIn].
      by apply numParams_none_or_zero.
  - intros s1 W1.
    destruct (foldM_frame S simd
                (fun Field s =>
                   if isSyclAccessorType (getType Field)
                   then ignoreResult _
                          (KF_FOR_EACH _ cH
                             (handleSyclAccessorType Field (getType Field)) s)
                   else Ok s) (fields RD)) with (s := s1) as (s2 & E2 & Fr2);
      [|done|].
    + apply Forall_forall. intros F HF s0 W0.
      rewrite forallb_forall in HAcc. specialize (HAcc F).
      destruct (getType F) eqn:HT; cbn [isSyclAccessorType];
        try (exists s0; split; [done | apply sameFrame_refl]).
      destruct (event_accessor F RD0 Dims AccessTarget BufferLocations
                  TemplateArgDiags s0) as (s' & E & Fr).
      * by destruct W0.
      * rewrite <- HT. by rewrite isArrayElement_own_type.
      * destruct W0 as (_ & _ & HS0). rewrite HS0. apply HAcc. by apply list_elem_of_In.
      * exists s'. rewrite E. by split.
    + exists s2. rewrite E2. by split.
Qed.

Lemma forIndices_S {S : Type} (f : Z -> S -> Result S) (n : nat) (Index : Z) (s : S) :
  forIndices S f (Datatypes.S n) Index s =
  rbind (f Index s) (forIndices S f n (Index + 1)).
Proof. reflexivity. Qed.

(** The elements of an array after the first. *)
Lemma forIndices_frame S simd O FD ATy ET (s : ConstructState) :
  wellStacked s ->
  (forall s1, inWalk S simd s1 -> ArrayInfos (body s1) <> [] ->
     exists s2, visitField _ crd cH O FD ET s1 = Ok s2 /\ sameFrame s1 s2) ->
  forall n Index s1,
    1 <= Index -> insideArray FD ATy s s1 -> inWalk S simd s1 ->
    exists s2,
      forIndices _ (visitNthArrayElement _ crd cH O FD ET) n Index s1 = Ok s2 /\
      insideArray FD ATy s s2 /\ inWalk S simd s2.
Proof.
  intros HW Helem n. induction n as [|n IH]; intros Index s1 HIdx HI W1.
  - by exists s1.
  - rewrite forIndices_S.
    change (visitNthArrayElement _ crd cH O FD ET Index s1)
      with (visitArrayElementImpl _ crd cH O FD ET Index s1).
    unfold visitArrayElementImpl.
    destruct (array_next S simd FD ATy ET Index s s1)
      as (s2 & E2 & HI2 & W2 & _); [done..|lia|].
    rewrite E2. cbn.
    destruct (Helem s2 W2) as (s3 & E3 & Fr3).
    { destruct HI2 as [_ _ _ _ [E [i ->]] _ _ _ _ _ _]. done. }
    rewrite E3. cbn. apply IH; [lia| |].
    + by eapply insideArray_sameFrame.
    + by eapply inWalk_sameFrame.
Qed.

Lemma complexArray_frame S simd O FD ATy ET n (s : ConstructState) :
  inWalk S simd s ->
  (isArrayElement FD ATy = true -> ArrayInfos (body s) <> []) ->
  n > 0 ->
  (forall s1, inWalk S simd s1 -> ArrayInfos (body s1) <> [] ->
     exists s2, visitField _ crd cH O FD ET s1 = Ok s2 /\ sameFrame s1 s2) ->
  exists s',
    visitComplexArray _ crd cH O FD ATy (Some (ET, n)) s = Ok s' /\ sameFrame s s'.
Proof.
  intros HW HA Hn Helem. unfold visitComplexArray.
  rewrite event_array. cbn [rbind fst snd negb].
  rewrite bool_decide_eq_true_2 by done. cbn [negb].
  destruct (array_first S simd FD ATy ET s HW HA)
    as (s0 & s1 & E0 & E1 & HI1 & W1 & _).
  rewrite E0. cbn [rbind]. unfold visitArrayElementImpl. rewrite E1. cbn [rbind].
  destruct (Helem s1 W1) as (s2 & E2 & Fr2).
  { destruct HI1 as [_ _ _ _ [E [i ->]] _ _ _ _ _ _]. done. }
  rewrite E2. cbn [rbind].
  destruct (forIndices_frame S simd O FD ATy ET s) with
    (n := Z.to_nat (n - 1)) (Index := 1) (s1 := s2) as (s3 & E3 & HI3 & W3);
    [by destruct HW | done | lia | by eapply insideArray_sameFrame
    | by eapply inWalk_sameFrame |].
  fold (visitArrayElementImpl _ crd cH O FD ET) in E3.
  rewrite E3. cbn [rbind].
  destruct (array_leave FD ATy ET s s3) as (s4 & E4 & Fr4 & _);
    [by destruct HW | done |].
  by exists s4.
Qed.


Lemma ignoreResult_Ok {S : Type} (b : bool) (s : S) :
  ignoreResult S (Ok (b, s)) = Ok s.
Proof. reflexivity. Qed.

(** The visit of a field, and of a base, of a shape the builders can walk
    ends, and leaves the stacks, the depths and the offset as they were. *)
Lemma walk_frame S simd (T : QualType) :
  (forall O FD s, inWalk S simd s -> legalField S simd FD T = true ->
     (isArrayElement FD T = true -> ArrayInfos (body s) <> []) ->
     exists s', visitField _ crd cH O FD T s = Ok s' /\ sameFrame s s') /\
  (forall O B s, inWalk S simd s -> legalBase S simd T = true ->
     exists s', visitBase _ crd cH O B T s = Ok s' /\ sameFrame s s').
Proof.
  induction T using QualType_nested_ind; split;
    intros O X s HW HL; try (intros HA); try discriminate HL.
  - (* accessor field *)
    destruct (event_accessor X RD d t l ds s) as (s' & E & Fr);
      [by destruct HW | done | destruct HW as (_ & _ & HS); rewrite HS; exact HL |].
    exists s'. cbn [visitField]. rewrite E. by split.
  - (* accessor base *)
    apply event_accessor_base; [by destruct HW | destruct HW as (_ & _ & HS); rewrite HS; exact HL].
  - (* sampler field *)
    destruct (event_sampler X RD s) as (s' & E & Fr);
      [by destruct HW | done | |].
    + cbn in HL. unfold numParams in HL.
      destruct (getMethodByName RD InitMethodName) as [M|] eqn:HM; [|done].
      apply andb_prop in HL as [Hn Hm]. apply bool_decide_eq_true_1 in Hn.
      destruct (parameters M) as [|A As] eqn:HP; [cbn in Hn; lia|].
      exists M, A, As. repeat split; [done|].
      intros M' HM'. destruct HW as (_ & _ & HS). rewrite HS in HM'. rewrite HM' in Hm.
      apply bool_decide_eq_true_1 in Hm. by rewrite HP.
    + exists s'. cbn [visitField]. rewrite E. by split.
  - (* sampler base *)
    apply (record_frame S simd); [done..|]. intros HAttr. cbn in HL.
    rewrite HAttr in HL. by apply record_parts.
  - (* half field *)
    destruct (event_half X (HalfType RD) s) as (s' & E & Fr); [by destruct HW|done|].
    exists s'. cbn [visitField]. rewrite E. by split.
  - (* half base *)
    apply (record_frame S simd); [done..|]. intros HAttr. cbn in HL.
    rewrite HAttr in HL. by apply record_parts.
  - (* specialization constant field *)
    destruct (event_spec_constant X RD n s) as (s' & E & Fr);
      [by destruct HW | done | |].
    + cbn in HL. apply bool_decide_eq_true_1 in HL. unfold numParams in HL.
      destruct HW as (_ & _ & HS). rewrite HS.
      by destruct (getMethodByName RD (initName simd)).
    + exists s'. cbn [visitField]. rewrite E. by split.
  - (* specialization constant base *)
    rewrite visitBase_spec_constant.
    apply (record_frame S simd); [done..|]. intros HAttr. cbn in HL.
    rewrite HAttr in HL. by apply record_parts.
  - (* stream field *)
    destruct (event_stream X (StreamType RD) s) as (s1 & E1 & Fr1);
      [by destruct HW | done |].
    cbn [visitField]. rewrite E1. cbn [rbind fst snd].
    destruct (stream_frame S simd O X RD s1) as (s2 & E2 & Fr2).
    + by eapply inWalk_sameFrame.
    + intros Harr. rewrite (sf_arrays _ _ Fr1). by apply HA.
    + exact HL.
    + exists s2. split; [done | by eapply sameFrame_trans].
  - (* stream base *)
    exists s. split; [apply event_stream_base | apply sameFrame_refl].
  - (* class field *)
    rewrite visitField_record, event_record. cbn [rbind fst snd].
    apply (record_frame S simd); [done..|]. intros HAttr. cbn in HL.
    rewrite HAttr in HL. by apply record_parts.
  - (* class base *)
    apply (record_frame S simd); [done..|]. intros HAttr. cbn in HL.
    rewrite HAttr in HL. by apply record_parts.
  - (* union field *)
    destruct (event_union X (UnionType RD) s) as (s' & E & Fr); [by destruct HW|done|].
    exists s'. rewrite visitField_union, E. by split.
  - (* union base *)
    apply (record_frame S simd); [done..|]. intros HAttr. cbn in HL.
    rewrite HAttr in HL. by apply record_parts.
  - (* reference *)
    exists s. cbn [visitField]. rewrite event_reference.
    split; [done | apply sameFrame_refl].
  - (* pointer *)
    destruct (event_pointer X (PointerType T AS) s) as (s' & E & Fr & _);
      [by destruct HW | done |].
    exists s'. cbn [visitField]. rewrite E. by split.
  - (* array of constant size *)
    rewrite visitField_constant_array, visitArray_builders, (crd_inWalk S simd) by done.
    cbn in HL. destruct (hasAttr S (fieldKey X)).
    + apply andb_prop in HL as [Hn HLE]. apply bool_decide_eq_true_1 in Hn.
      apply (complexArray_frame S simd); [done..|].
      intros s1 W1 HA1. by apply IHT.
    + destruct (event_simple_array X (ConstantArrayType T n) s) as (s' & E & Fr & _);
        [by destruct HW|]. by exists s'.
  - (* array of variable size *)
    rewrite visitField_variable_array, visitArray_builders, (crd_inWalk S simd) by done.
    cbn in HL. destruct (hasAttr S (fieldKey X)); [done|].
    destruct (event_simple_array X (VariableArrayType T) s) as (s' & E & Fr & _);
      [by destruct HW|]. by exists s'.
  - (* array of unknown size *)
    rewrite visitField_incomplete_array, visitArray_builders, (crd_inWalk S simd) by done.
    cbn in HL. destruct (hasAttr S (fieldKey X)); [done|].
    destruct (event_simple_array X (IncompleteArrayType T) s) as (s' & E & Fr & _);
      [by destruct HW|]. by exists s'.
  - (* scalar *)
    destruct (event_leaf X (ScalarType n sz) s) as (s' & E & Fr & _);
      [by destruct HW | done |].
    exists s'. cbn [visitField]. rewrite E. by split.
  - (* other *)
    exists s. cbn [visitField]. rewrite event_other.
    split; [done | apply sameFrame_refl].
Qed.


(** *** What one callback does to the stack of initializer lists *)

Lemma paramDREs_state (n I : nat) (s s' : ConstructState) l :
  SyclKernelBodyCreator.paramDREs n I s = Ok (l, s') -> s' = s.
Proof.
  revert I l s'. induction n as [|n IH]; intros I l s';
    cbn [SyclKernelBodyCreator.paramDREs].
  - unfold SyclKernelBodyCreator.ret. congruence.
  - unfold SyclKernelBodyCreator.bind at 1.
    unfold SyclKernelBodyCreator.currentParam.
    destruct (_ !! I); [|discriminate]. cbn [rbind fst snd].
    unfold SyclKernelBodyCreator.bind at 1.
    destruct (SyclKernelBodyCreator.paramDREs n (Datatypes.S I) s)
      as [[l' s1]| |] eqn:E; try discriminate.
    apply IH in E. subst s1. cbn. unfold SyclKernelBodyCreator.ret. congruence.
Qed.

Lemma specialMethodCall_state (RD : option CXXRecordDecl) (MethodName : string)
    (toFinalize : bool) (s s' : ConstructState) u :
  SyclKernelBodyCreator.createSpecialMethodCall RD MethodName toFinalize s
  = Ok (u, s') ->
  exists stmts fstmts,
    s' = withBody s
           (mkBodyCreator stmts (CollectionInitExprs (body s))
              (InitLists (body s)) fstmts (ArrayInfos (body s))
              (MemberExprBases (body s)) (BC_StructDepth (body s))).
Proof.
  unfold SyclKernelBodyCreator.createSpecialMethodCall.
  destruct RD as [RD|]; [|discriminate].
  destruct (getMethodByName RD MethodName) as [M|].
  - unfold SyclKernelBodyCreator.bind at 1.
    destruct (SyclKernelBodyCreator.paramDREs _ 0 s) as [[l s1]| |] eqn:E;
      try discriminate.
    apply paramDREs_state in E. subst s1. cbn [rbind fst snd].
    destruct s as [Sm sd d [B C I F A [|m Ms] D] h]; body_unfold; cbn;
      [discriminate|].
    destruct toFinalize; cbn; intros [= <- <-]; by do 2 eexists.
  - destruct s as [Sm sd d [B C I F A Ms D] h].
    unfold SyclKernelBodyCreator.ret. cbn. intros [= <- <-]. by do 2 eexists.
Qed.

Ltac open_any s :=
  destruct s as [Sm sd [P L D] [B C I F A M D'] [KP SC CO AB IHD]].

Ltac stack_cases :=
  repeat (match goal with
    | |- context [isArrayElement ?FD ?Ty] => destruct (isArrayElement FD Ty)
    | |- context [match ?l with [] => _ | _ :: _ => _ end] =>
        is_var l; destruct l as [|? ?]
    | |- context [match ?p with (_, _) => _ end] => is_var p; destruct p
    | |- context [decide ?P] => destruct (decide P)
    | |- context [bool_decide ?P] => destruct (bool_decide P)
    | |- context [(?l !! ?i)] => destruct (l !! i)
    | |- context [SyclKernelBodyCreator.firstField ?T] =>
        destruct (SyclKernelBodyCreator.firstField T)
    end; cbn -[isArrayElement]).

Lemma stack_effect_plain (m : SyclKernelBodyCreator.St ()) (s : ConstructState) b s' :
  SyclKernelBodyCreator.run m s = Ok (b, s') ->
  exists u, m s = Ok (u, s').
Proof.
  unfold SyclKernelBodyCreator.run. destruct (m s) as [[u s1]| |]; cbn; try discriminate.
  intros [= _ <-]. by exists u.
Qed.

Lemma special_stack (FD : FieldDecl) (Ty : QualType) (s : ConstructState) b s' :
  SyclKernelBodyCreator.run (SyclKernelBodyCreator.handleSpecialType FD Ty) s
  = Ok (b, s') ->
  CollectionInitExprs (body s') = CollectionInitExprs (body s).
Proof.
  intros H. apply stack_effect_plain in H as [u H]. revert H.
  unfold SyclKernelBodyCreator.handleSpecialType.
  unfold SyclKernelBodyCreator.bind at 1.
  destruct (SyclKernelBodyCreator.addFieldInit FD Ty [] CreateDefault s)
    as [[u1 s1]| |] eqn:E1; try discriminate. cbn [rbind fst snd].
  unfold SyclKernelBodyCreator.bind at 1.
  destruct (SyclKernelBodyCreator.addFieldMemberExpr FD Ty s1)
    as [[u2 s2]| |] eqn:E2; try discriminate. cbn [rbind fst snd].
  unfold SyclKernelBodyCreator.bind at 1. unfold SyclKernelBodyCreator.initCall at 1.
  destruct (SyclKernelBodyCreator.createSpecialMethodCall _ _ false s2)
    as [[u3 s3]| |] eqn:E3; try discriminate. cbn [rbind fst snd].
  apply specialMethodCall_state in E3 as (stmts & fstmts & ->).
  intros E4.
  assert (H1 : CollectionInitExprs (body s1) = CollectionInitExprs (body s)).
  { revert E1. open_any s. body_unfold. cbn -[isArrayElement]. stack_cases;
      (intros [= <- <-] || intros [= <-] || discriminate); reflexivity. }
  assert (H2 : CollectionInitExprs (body s2) = CollectionInitExprs (body s1)).
  { revert E2. open_any s1. body_unfold. cbn -[isArrayElement]. stack_cases;
      (intros [= <- <-] || intros [= <-] || discriminate); reflexivity. }
  rewrite <- H1, <- H2. revert E4. open_any s2. body_unfold.
  cbn -[isArrayElement]. stack_cases; (intros [= <- <-] || intros [= <-] || discriminate); reflexivity.
Qed.


Ltac plain_event s :=
  let H := fresh "H" in
  let u := fresh "u" in
  intros H; apply stack_effect_plain in H as [u H]; revert H;
  open_any s; body_unfold; cbn -[isArrayElement]; stack_cases;
  (intros [= <- <-] || intros [= <-] || discriminate); cbn; eauto.

Lemma special_base_stack (Ty : QualType) (s : ConstructState) b s' :
  SyclKernelBodyCreator.run (SyclKernelBodyCreator.handleSpecialTypeBase Ty) s
  = Ok (b, s') ->
  CollectionInitExprs (body s') = CollectionInitExprs (body s).
Proof.
  intros H. apply stack_effect_plain in H as [u H]. revert H.
  unfold SyclKernelBodyCreator.handleSpecialTypeBase.
  unfold SyclKernelBodyCreator.bind at 1.
  destruct (SyclKernelBodyCreator.addBaseInit CreateDefault s)
    as [[u1 s1]| |] eqn:E1; try discriminate. cbn [rbind fst snd].
  unfold SyclKernelBodyCreator.initCall at 1.
  intros E3. apply specialMethodCall_state in E3 as (stmts & fstmts & ->).
  cbn. revert E1. open_any s. body_unfold. cbn. stack_cases;
    (intros [= <- <-] || intros [= <-] || discriminate); reflexivity.
Qed.

Lemma leaveStream_stack O (FD : FieldDecl) (Ty : QualType) (s : ConstructState) b s' :
  SyclKernelBodyCreator.handle (leaveStream O FD Ty) s = Ok (b, s') ->
  exists ILE, CollectionInitExprs (body s) = ILE :: CollectionInitExprs (body s').
Proof.
  cbn [SyclKernelBodyCreator.handle].
  intros H. apply stack_effect_plain in H as [u H]. revert H.
  unfold SyclKernelBodyCreator.bind at 1.
  destruct (SyclKernelBodyCreator.addStructDepth (-1) s)
    as [[u1 s1]| |] eqn:E1; try discriminate. cbn [rbind fst snd].
  unfold SyclKernelBodyCreator.bind at 1. unfold SyclKernelBodyCreator.initCall at 1.
  destruct (SyclKernelBodyCreator.createSpecialMethodCall _ _ false s1)
    as [[u2 s2]| |] eqn:E2; try discriminate. cbn [rbind fst snd].
  apply specialMethodCall_state in E2 as (stmts & fstmts & ->).
  unfold SyclKernelBodyCreator.bind at 1.
  destruct (SyclKernelBodyCreator.createSpecialMethodCall _ _ true _)
    as [[u3 s3]| |] eqn:E3; try discriminate. cbn [rbind fst snd].
  apply specialMethodCall_state in E3 as (stmts' & fstmts' & ->).
  assert (H1 : CollectionInitExprs (body s1) = CollectionInitExprs (body s)).
  { revert E1. open_any s. body_unfold. cbn. by intros [= <- <-]. }
  rewrite <- H1. open_any s1. body_unfold. cbn -[isArrayElement].
  stack_cases; (intros [= <- <-] || intros [= <-] || discriminate); cbn; eauto.
Qed.

(** Entering pushes one initializer list, leaving pops one, and no other
    callback changes the stack. *)
Lemma stack_effect (ev : Event) (s : ConstructState) b s' :
  SyclKernelBodyCreator.handle ev s = Ok (b, s') ->
  if entersCollection ev
  then exists ILE, CollectionInitExprs (body s') = ILE :: CollectionInitExprs (body s)
  else if leavesCollection ev
  then exists ILE, CollectionInitExprs (body s) = ILE :: CollectionInitExprs (body s')
  else CollectionInitExprs (body s') = CollectionInitExprs (body s).
Proof.
  destruct ev; try destruct Parent;
    cbn [SyclKernelBodyCreator.handle entersCollection leavesCollection];
    try (intros [= <- <-]; reflexivity);
    try (apply special_stack); try (apply special_base_stack);
    try exact (leaveStream_stack Owner FD Ty s b s');
    plain_event s.
Qed.


(** *** The walk of a whole kernel object *)

Lemma bases_frame S simd (W : CXXRecordDecl) (l : list CXXBaseSpecifier) :
  forallb (fun B => legalBase S simd (getBaseType B)) l = true ->
  Forall (fun B => forall s, inWalk S simd s ->
            exists s', visitBase _ crd cH W B (getBaseType B) s = Ok s' /\
                       sameFrame s s') l.
Proof.
  intros HL. rewrite forallb_forall in HL. apply Forall_forall. intros B HB s HW.
  apply (walk_frame S simd (getBaseType B)); [done|].
  apply HL. by apply list_elem_of_In.
Qed.

Lemma fields_frame S simd (W : CXXRecordDecl) (l : list FieldDecl) :
  forallb (fun F => legalField S simd F (getType F)) l = true ->
  Forall (fun F => forall s, inWalk S simd s ->
            exists s', visitField _ crd cH W F (getType F) s = Ok s' /\
                       sameFrame s s') l.
Proof.
  intros HL. rewrite forallb_forall in HL. apply Forall_forall. intros F HF s HW.
  apply (walk_frame S simd (getType F)); [done| |].
  - apply HL. by apply list_elem_of_In.
  - by rewrite isArrayElement_own_type.
Qed.

Lemma inWalk_initial S simd : inWalk S simd (initialConstructState S simd).
Proof. by repeat split. Qed.

Lemma kernel_object_frame S simd (K : CXXRecordDecl) :
  legalKernelObject S simd K = true ->
  exists s,
    ConstructOpenCLKernel K S simd = Ok s /\
    sameFrame (initialConstructState S simd) s.
Proof.
  intros HL. apply andb_prop in HL as [HB HF].
  unfold ConstructOpenCLKernel, VisitRecordBases, VisitRecordFields.
  destruct (foldM_frame S simd _ _ (bases_frame S simd K _ HB)
              (initialConstructState S simd) (inWalk_initial S simd))
    as (s1 & E1 & Fr1).
  rewrite E1. cbn [rbind].
  destruct (foldM_frame S simd _ _ (fields_frame S simd K _ HF) s1)
    as (s2 & E2 & Fr2);
    [eapply inWalk_sameFrame; [apply inWalk_initial | exact Fr1]|].
  exists s2. split; [done | by eapply sameFrame_trans].
Qed.

(** C6: after the walk of a kernel object of a shape the builders can walk,
    the stack of initializer lists of the body creator holds the one entry
    it started with, the initializer of the kernel object, and the body is
    made; the visit of every field and base leaves the stack as it found
    it; [enterStruct], [enterStream] and [enterArray] push one entry,
    [leaveStruct], [leaveStream] and [leaveArray] pop one, and no other
    callback (so neither [enterUnion] nor [leaveUnion]) changes the stack. *)
Theorem one_initializer_list_left (S : Sema) (simd : bool) (K : CXXRecordDecl) :
  legalKernelObject S simd K = true ->
  (exists s stmts,
     ConstructOpenCLKernel K S simd = Ok s /\
     CollectionInitExprs (body s) = [0%nat] /\
     SyclKernelBodyCreator.createKernelBody s = Ok (0%nat, stmts)) /\
  (forall T O FD s,
     inWalk S simd s -> legalField S simd FD T = true ->
     (isArrayElement FD T = true -> ArrayInfos (body s) <> []) ->
     exists s',
       visitField _ constructRequiresDecomposition constructHandlers O FD T s = Ok s' /\
       CollectionInitExprs (body s') = CollectionInitExprs (body s)) /\
  (forall T O B s,
     inWalk S simd s -> legalBase S simd T = true ->
     exists s',
       visitBase _ constructRequiresDecomposition constructHandlers O B T s = Ok s' /\
       CollectionInitExprs (body s') = CollectionInitExprs (body s)) /\
  (forall ev s b s',
     SyclKernelBodyCreator.handle ev s = Ok (b, s') ->
     if entersCollection ev
     then exists ILE, CollectionInitExprs (body s') = ILE :: CollectionInitExprs (body s)
     else if leavesCollection ev
     then exists ILE, CollectionInitExprs (body s) = ILE :: CollectionInitExprs (body s')
     else CollectionInitExprs (body s') = CollectionInitExprs (body s)).
Proof.
  intros HL. repeat split.
  - destruct (kernel_object_frame S simd K HL) as (s & E & Fr).
    exists s. eexists. split; [exact E|].
    assert (HC : CollectionInitExprs (body s) = [0%nat]) by apply (sf_collections _ _ Fr).
    split; [exact HC|].
    unfold SyclKernelBodyCreator.createKernelBody. rewrite HC. reflexivity.
  - intros T O FD s HW HLF HA.
    destruct (proj1 (walk_frame S simd T) O FD s HW HLF HA) as (s' & E & Fr).
    exists s'. split; [done | apply (sf_collections _ _ Fr)].
  - intros T O B s HW HLB.
    destruct (proj2 (walk_frame S simd T) O B s HW HLB) as (s' & E & Fr).
    exists s'. split; [done | apply (sf_collections _ _ Fr)].
  - apply stack_effect.
Qed.

Lemma one_initializer_list_left_witness :
  legalKernelObject KernelSamples.checkedSema false KernelSamples.kernelObject = true /\
  exists s stmts,
    ConstructOpenCLKernel KernelSamples.kernelObject KernelSamples.checkedSema false
    = Ok s /\
    CollectionInitExprs (body s) = [0%nat] /\
    SyclKernelBodyCreator.createKernelBody s = Ok (0%nat, stmts).
Proof.
  split; [vm_compute; reflexivity|].
  destruct (one_initializer_list_left KernelSamples.checkedSema false
              KernelSamples.kernelObject) as [H _]; [vm_compute; reflexivity|].
  exact H.
Defined.

(** The sample kernel object passes the two legality checkers, which leave
    the marks the witness above walks it with. *)
Example kernelObject_passes_checkers :
  match CheckSYCLKernelCall KernelSamples.kernelObject KernelSamples.noMarks with
  | Ok cs =>
      passedCheckers cs = true /\ chk_Sema cs = KernelSamples.checkedSema /\
      elements (RequiresDecomposition (chk_Sema cs)) = ["K::ptrs"; "Inner"]
  | _ => False
  end.
Proof. vm_compute. repeat split. Qed.

(** ** Propagation of the work-group size attributes *)




(** *** Where [Decl_addAttr] puts an attribute *)

(** The attributes that were there stay, in their order. *)
Lemma insertInherited_sublist (A : Attr) (l : list Attr) :
  l `sublist_of` insertInherited A l.
Proof.
  induction l as [|B l IH]; cbn; [apply sublist_nil_l|].
  destruct (isInherited B); [by apply sublist_skip | by apply sublist_cons].
Qed.

Lemma addAttr_sublist (l : list Attr) (A : Attr) : l `sublist_of` Decl_addAttr l A.
Proof.
  unfold Decl_addAttr. destruct (isInherited A);
    [apply insertInherited_sublist | apply sublist_inserts_r; reflexivity].
Qed.

Lemma insertInherited_Permutation (A : Attr) (l : list Attr) :
  insertInherited A l ≡ₚ A :: l.
Proof.
  induction l as [|B l IH]; cbn; [reflexivity|].
  destruct (isInherited B); [|reflexivity].
  rewrite IH. apply Permutation_swap.
Qed.

Lemma addAttr_Permutation (l : list Attr) (A : Attr) : Decl_addAttr l A ≡ₚ A :: l.
Proof.
  unfold Decl_addAttr. destruct (isInherited A);
    [apply insertInherited_Permutation|].
  symmetry. apply Permutation_cons_append.
Qed.














(** A required size that is not inherited is propagated first, an
    inherited maximum after it: the kernel holds the inherited maximum
    first and the required size last. *)
Example inherited_max_goes_before_reqd :
  exists st',
    propagateAttrs
      [KernelSamples.reqdAttr 8 8 8;
       KernelSamples.inheritedAttr (KernelSamples.maxAttr 8 8 8)]
      KernelSamples.markState = Ok st' /\
    attrs (SYCLKernel st')
    = [KernelSamples.inheritedAttr (KernelSamples.maxAttr 8 8 8);
       KernelSamples.reqdAttr 8 8 8] /\
    MarkDiags st' = [].
Proof. eexists. repeat split. Qed.


(** ** The parameter of a pointer field *)

Lemma foldM_app {S A : Type} (f : A -> S -> Result S) (l1 l2 : list A) (s : S) :
  foldM S f (l1 ++ l2) s = rbind (foldM S f l1 s) (foldM S f l2).
Proof.
  revert s. induction l1 as [|x l1 IH]; intros s; cbn; [done|].
  destruct (f x s); cbn; auto.
Qed.

Lemma foldM_cons {S A : Type} (f : A -> S -> Result S) (x : A) (l : list A) (s : S) :
  foldM S f (x :: l) s = rbind (f x s) (foldM S f l).
Proof. reflexivity. Qed.

Lemma elem_of_prefix {A : Type} (x : A) (l1 l2 : list A) :
  x ∈ l1 -> l1 `prefix_of` l2 -> x ∈ l2.
Proof. intros H [k ->]. apply elem_of_app. by left. Qed.

(** The fields of a class, one of them a pointer: its parameter is among
    the parameters after the walk of the fields. *)
Lemma fields_with_pointer S simd (W : CXXRecordDecl) (pre post : list FieldDecl)
    (PF : FieldDecl) (P : QualType) (AS : LangAS) (s : ConstructState) :
  inWalk S simd s ->
  forallb (fun F => legalField S simd F (getType F)) (pre ++ PF :: post) = true ->
  getType PF = PointerType P AS ->
  exists s',
    foldM _ (fun F s => visitField _ crd cH W F (getType F) s) (pre ++ PF :: post) s
    = Ok s' /\
    sameFrame s s' /\
    SyclKernelDeclCreator.makeParamDesc PF
      (if decide (DC_StructDepth (decl s) <> 0)
       then StructType (SyclKernelDeclCreator.wrapField PF
                          (SyclKernelDeclCreator.globalPointer (PointerType P AS)))
       else SyclKernelDeclCreator.globalPointer (PointerType P AS))
    ∈ Params (decl s').
Proof.
  intros HW HL HT. rewrite forallb_app in HL. apply andb_prop in HL as [Hpre Hpost].
  cbn [forallb] in Hpost. apply andb_prop in Hpost as [_ Hpost].
  rewrite foldM_app.
  destruct (foldM_frame S simd _ _ (fields_frame S simd W _ Hpre) s HW)
    as (s1 & E1 & Fr1).
  rewrite E1. cbn [rbind]. rewrite foldM_cons, HT.
  destruct (event_pointer PF (PointerType P AS) s1) as (s2 & E2 & Fr2 & HP & _).
  { eapply wellStacked_sameFrame; [by destruct HW | done]. }
  { rewrite <- HT. by rewrite isArrayElement_own_type. }
  cbn [visitField]. rewrite E2. cbn [ignoreResult rbind fst snd].
  destruct (foldM_frame S simd _ _ (fields_frame S simd W _ Hpost) s2)
    as (s3 & E3 & Fr3).
  { eapply inWalk_sameFrame; [|exact Fr2]. by eapply inWalk_sameFrame. }
  exists s3. split; [done|]. split.
  - eapply sameFrame_trans; [exact Fr1|]. by eapply sameFrame_trans.
  - eapply elem_of_prefix; [|apply (sf_params _ _ Fr3)].
    rewrite HP, (sf_decl_depth _ _ Fr1). apply elem_of_app. right.
    apply list_elem_of_here.
Qed.

(** A class that is taken apart, with a pointer among its fields. *)
Lemma record_with_pointer S simd O (FD : FieldDecl) (RD : CXXRecordDecl)
    (pre post : list FieldDecl) (PF : FieldDecl) (P : QualType) (AS : LangAS)
    (s : ConstructState) :
  inWalk S simd s ->
  0 <= DC_StructDepth (decl s) ->
  (isArrayElement FD (StructType RD) = true -> ArrayInfos (body s) <> []) ->
  legalField S simd FD (StructType RD) = true ->
  hasAttr S (recordKey RD) = true ->
  fields RD = pre ++ PF :: post ->
  getType PF = PointerType P AS ->
  exists s',
    visitField _ crd cH O FD (StructType RD) s = Ok s' /\
    sameFrame s s' /\
    SyclKernelDeclCreator.makeParamDesc PF
      (StructType (SyclKernelDeclCreator.wrapField PF
                     (SyclKernelDeclCreator.globalPointer (PointerType P AS))))
    ∈ Params (decl s').
Proof.
  intros HW HD HA HL HAttr HF HT.
  rewrite visitField_record, event_record. cbn [rbind fst snd].
  rewrite visitRecord_builders, (crd_inWalk S simd), HAttr by done.
  cbn in HL. rewrite HAttr in HL. apply andb_prop in HL as [HLB HLF].
  unfold visitComplexRecord.
  apply (bracket_record S simd
           (fun Ps _ =>
              SyclKernelDeclCreator.makeParamDesc PF
                (StructType (SyclKernelDeclCreator.wrapField PF
                               (SyclKernelDeclCreator.globalPointer (PointerType P AS))))
              ∈ Ps)); [done..|].
  intros s1 W1 HD1 _ _ _.
  destruct (foldM_frame S simd _ _ (bases_frame S simd RD _ HLB) s1 W1)
    as (sa & Ea & Fra).
  rewrite Ea. cbn [rbind]. rewrite HF in HLF |- *.
  destruct (fields_with_pointer S simd RD pre post PF P AS sa)
    as (sb & Eb & Frb & HIn); [by eapply inWalk_sameFrame | done..|].
  rewrite Eb. cbn [rbind]. exists sb. split; [done|].
  split; [by eapply sameFrame_trans|].
  rewrite (sf_decl_depth _ _ Fra), HD1 in HIn.
  destruct (decide (DC_StructDepth (decl s) + 1 <> 0)) as [_|]; [done | lia].
Qed.

(** C8: the declaration creator gives a pointer field a parameter named
    after the field whose type is the pointer into the global address space
    (an address space [global_device] or [global_host] is kept), inside the
    one-field class [__wrapper_class] exactly when its struct depth is not
    zero.  In the walk of a kernel object, a pointer field of the kernel
    object itself gets the pointer as its parameter, and a pointer field of
    a class that is taken apart gets the wrapper class. *)
Theorem nested_pointer_is_wrapped (S : Sema) (simd : bool) (K : CXXRecordDecl)
    (pre post : list FieldDecl) (FD : FieldDecl) :
  legalKernelObject S simd K = true ->
  fields K = pre ++ FD :: post ->
  (forall PF P AS s,
     let ModTy :=
       PointerType P
         (if bool_decide (AS <> opencl_global_device) &&
             bool_decide (AS <> opencl_global_host)
          then opencl_global else AS) in
     SyclKernelDeclCreator.globalPointer (PointerType P AS) = ModTy /\
     fields (SyclKernelDeclCreator.wrapField PF ModTy)
     = [mkFieldDecl "__wrapper_class" EmptyString ModTy 0] /\
     exists s',
       SyclKernelDeclCreator.handle (handlePointerType PF (PointerType P AS)) s
       = Ok (true, s') /\
       Params (decl s') =
         Params (decl s) ++
           [mkParmVarDecl
              (if decide (DC_StructDepth (decl s) <> 0)
               then StructType (SyclKernelDeclCreator.wrapField PF ModTy)
               else ModTy)
              ("_arg_" +:+ getName PF) []]) /\
  (forall P AS,
     getType FD = PointerType P AS ->
     exists s,
       ConstructOpenCLKernel K S simd = Ok s /\
       mkParmVarDecl (SyclKernelDeclCreator.globalPointer (PointerType P AS))
         ("_arg_" +:+ getName FD) []
       ∈ Params (decl s)) /\
  (forall RD pre' PF post' P AS,
     getType FD = StructType RD ->
     hasAttr S (recordKey RD) = true ->
     fields RD = pre' ++ PF :: post' ->
     getType PF = PointerType P AS ->
     exists s,
       ConstructOpenCLKernel K S simd = Ok s /\
       mkParmVarDecl
         (StructType (SyclKernelDeclCreator.wrapField PF
                        (SyclKernelDeclCreator.globalPointer (PointerType P AS))))
         ("_arg_" +:+ getName PF) []
       ∈ Params (decl s)).
Proof.
  intros HL HF. split; [|split].
  - intros PF P AS s ModTy. repeat split. by eexists.
  - intros P AS HT. apply andb_prop in HL as [HLB HLF].
    unfold ConstructOpenCLKernel, VisitRecordBases, VisitRecordFields.
    destruct (foldM_frame S simd _ _ (bases_frame S simd K _ HLB)
                (initialConstructState S simd) (inWalk_initial S simd))
      as (s1 & E1 & Fr1).
    rewrite E1. cbn [rbind]. rewrite HF in HLF |- *.
    destruct (fields_with_pointer S simd K pre post FD P AS s1)
      as (s2 & E2 & Fr2 & HIn); [|done..|].
    { eapply inWalk_sameFrame; [apply inWalk_initial | exact Fr1]. }
    exists s2. split; [done|].
    rewrite (sf_decl_depth _ _ Fr1) in HIn. exact HIn.
  - intros RD pre' PF post' P AS HT HAttr HFR HTP.
    apply andb_prop in HL as [HLB HLF].
    unfold ConstructOpenCLKernel, VisitRecordBases, VisitRecordFields.
    destruct (foldM_frame S simd _ _ (bases_frame S simd K _ HLB)
                (initialConstructState S simd) (inWalk_initial S simd))
      as (s1 & E1 & Fr1).
    rewrite E1. cbn [rbind]. rewrite HF in HLF |- *.
    rewrite forallb_app in HLF. apply andb_prop in HLF as [Hpre Hpost].
    cbn [forallb] in Hpost. apply andb_prop in Hpost as [HFD Hpost].
    assert (W1 : inWalk S simd s1).
    { eapply inWalk_sameFrame; [apply inWalk_initial | exact Fr1]. }
    rewrite foldM_app.
    destruct (foldM_frame S simd _ _ (fields_frame S simd K _ Hpre) s1 W1)
      as (s2 & E2 & Fr2).
    rewrite E2. cbn [rbind]. rewrite foldM_cons, HT.
    destruct (record_with_pointer S simd K FD RD pre' post' PF P AS s2)
      as (s3 & E3 & Fr3 & HIn); try done.
    + by eapply inWalk_sameFrame.
    + rewrite (sf_decl_depth _ _ Fr2), (sf_decl_depth _ _ Fr1). done.
    + rewrite <- HT. by rewrite isArrayElement_own_type.
    + by rewrite <- HT.
    + rewrite E3. cbn [rbind].
      destruct (foldM_frame S simd _ _ (fields_frame S simd K _ Hpost) s3)
        as (s4 & E4 & Fr4).
      { eapply inWalk_sameFrame; [|exact Fr3]. by eapply inWalk_sameFrame. }
      exists s4. split; [done|].
      eapply elem_of_prefix; [exact HIn | apply (sf_params _ _ Fr4)].
Qed.

Lemma nested_pointer_is_wrapped_witness :
  legalKernelObject KernelSamples.innerMarked false KernelSamples.kernelWithPointers = true /\
  (exists s,
     ConstructOpenCLKernel KernelSamples.kernelWithPointers KernelSamples.innerMarked false
     = Ok s /\
     mkParmVarDecl (PointerType KernelSamples.intTy opencl_global) "_arg_q" []
     ∈ Params (decl s)) /\
  (exists s,
     ConstructOpenCLKernel KernelSamples.kernelWithPointers KernelSamples.innerMarked false
     = Ok s /\
     mkParmVarDecl
       (StructType
          (mkRecordDecl "__wrapper_class" []
             [mkFieldDecl "__wrapper_class" EmptyString
                (PointerType KernelSamples.intTy opencl_global) 0]
             [] 8 true true true))
       "_arg_p" []
     ∈ Params (decl s)).
Proof.
  split; [vm_compute; reflexivity|]. split.
  - destruct (nested_pointer_is_wrapped KernelSamples.innerMarked false
                KernelSamples.kernelWithPointers [] [KernelSamples.innerField]
                KernelSamples.pointerField) as (_ & H & _);
      [vm_compute; reflexivity | reflexivity |].
    exact (H KernelSamples.intTy Default eq_refl).
  - destruct (nested_pointer_is_wrapped KernelSamples.innerMarked false
                KernelSamples.kernelWithPointers [KernelSamples.pointerField] []
                KernelSamples.innerField) as (_ & _ & H);
      [vm_compute; reflexivity | reflexivity |].
    exact (H KernelSamples.Inner [] KernelSamples.innerPointerField
             [mkFieldDecl "Inner" "x" KernelSamples.intTy 64]
             KernelSamples.intTy Default eq_refl eq_refl eq_refl eq_refl).
Defined.


(** ** The offsets of the parameter descriptors *)

Lemma zextBits_idem (w v : Z) : zextBits w (zextBits w v) = zextBits w v.
Proof.
  unfold zextBits. destruct (decide (2 ^ w = 0)) as [->|H].
  - by rewrite !Z.mod_0_r.
  - by rewrite Z.mod_mod.
Qed.









(** Two bases of a kernel object, walked with the marks the legality walk
    leaves: the first, without a pointer, is one descriptor at its offset 0;
    the second, at the byte offset 8, is taken apart, and its fields at the
    byte offsets 0 and 8 have their descriptors at 8 and 16. *)
Example base_class_field_offset :
  match CheckSYCLKernelCall KernelSamples.kernelWithBases KernelSamples.noMarks with
  | Ok cs =>
      passedCheckers cs = true /\
      elements (RequiresDecomposition (chk_Sema cs)) = ["Base"] /\
      match ConstructOpenCLKernel KernelSamples.kernelWithBases (chk_Sema cs) false with
      | Ok s => map PD_Offset (KernelParams (hdr s)) = [0; 8; 16]
      | _ => False
      end
  | _ => False
  end.
Proof. vm_compute. by repeat split. Qed.


(** ** The union checker *)

Local Abbreviation urd := checkRequiresDecomposition.
(** The handlers inside a union, and those for the elements of an array
    after the first. *)
Local Abbreviation uH :=
  (HandlerFilter CheckState (VisitUnionBody CheckState) checkHandlers).
Local Abbreviation nH :=
  (HandlerFilter CheckState (VisitNthArrayElement CheckState) uH).

Lemma unionChecked_refl (s : CheckState) : unionChecked s s.
Proof. by constructor. Qed.

Lemma unionChecked_trans (s1 s2 s3 : CheckState) :
  unionChecked s1 s2 -> unionChecked s2 s3 -> unionChecked s1 s3.
Proof. intros [] []. constructor; [congruence | auto | by etrans]. Qed.

Lemma checkType_checked Loc Ty (s : CheckState) :
  unionChecked s (SyclKernelUnionChecker.checkType Loc Ty s).2.
Proof.
  unfold SyclKernelUnionChecker.checkType. destruct (decide (UnionCount s <> 0)); cbn.
  - constructor; cbn; [done | done | by eexists].
  - apply unionChecked_refl.
Qed.

(** Inside a union, a callback other than [enterUnion] and [leaveUnion]
    keeps the count; accessors, samplers and streams are checked. *)
Lemma union_event (Hs : list (Handler CheckState)) (ev : Event) (s : CheckState) :
  Hs = uH \/ Hs = nH ->
  match ev with enterUnion _ _ | leaveUnion _ _ => False | _ => True end ->
  exists b s', KF_FOR_EACH _ Hs ev s = Ok (b, s') /\ unionChecked s s' /\
               forEach _ Hs ev s = Ok s'.
Proof.
  intros [-> | ->] Hev.
  - destruct ev; try done; cbn -[SyclKernelUnionChecker.checkType];
      try (do 2 eexists; split; [reflexivity|]; split;
           [apply unionChecked_refl | reflexivity]);
      match goal with
      | |- context [SyclKernelUnionChecker.checkType ?L ?T ?s0] =>
          pose proof (checkType_checked L T s0);
          destruct (SyclKernelUnionChecker.checkType L T s0) as [[] s1]; cbn in *;
          (do 2 eexists; split; [reflexivity|]; split; [done | reflexivity])
      end.
  - destruct ev; try done; cbn;
      (do 2 eexists; split; [reflexivity|]; split;
        [apply unionChecked_refl | reflexivity]).
Qed.


Lemma foldM_checked {A : Type} (f : A -> CheckState -> Result CheckState)
    (l : list A) :
  Forall (fun x => forall s, exists s', f x s = Ok s' /\ unionChecked s s') l ->
  forall s, exists s', foldM _ f l s = Ok s' /\ unionChecked s s'.
Proof.
  induction 1 as [|x l Hx Hl IH]; intros s; cbn.
  - exists s. split; [done | apply unionChecked_refl].
  - destruct (Hx s) as (s1 & E1 & R1). rewrite E1. cbn.
    destruct (IH s1) as (s2 & E2 & R2).
    exists s2. split; [done | by eapply unionChecked_trans].
Qed.

Lemma forIndices_checked (f : Z -> CheckState -> Result CheckState) :
  (forall i s, exists s', f i s = Ok s' /\ unionChecked s s') ->
  forall n i s, exists s', forIndices _ f n i s = Ok s' /\ unionChecked s s'.
Proof.
  intros Hf n. induction n as [|n IH]; intros i s.
  - exists s. split; [done | apply unionChecked_refl].
  - rewrite forIndices_S. destruct (Hf i s) as (s1 & E1 & R1). rewrite E1. cbn [rbind].
    destruct (IH (i + 1) s1) as (s2 & E2 & R2).
    exists s2. split; [done | by eapply unionChecked_trans].
Qed.

Lemma union_leaf (Hs : list (Handler CheckState)) (ev : Event) (s : CheckState) :
  Hs = uH \/ Hs = nH ->
  match ev with enterUnion _ _ | leaveUnion _ _ => False | _ => True end ->
  exists s', ignoreResult _ (KF_FOR_EACH _ Hs ev s) = Ok s' /\ unionChecked s s'.
Proof.
  intros HHs Hev. destruct (union_event Hs ev s HHs Hev) as (b & s' & E & R & _).
  exists s'. rewrite E. by split.
Qed.

Lemma union_forEach (Hs : list (Handler CheckState)) (ev : Event) (s : CheckState) :
  Hs = uH \/ Hs = nH ->
  match ev with enterUnion _ _ | leaveUnion _ _ => False | _ => True end ->
  exists s', forEach _ Hs ev s = Ok s' /\ unionChecked s s'.
Proof.
  intros HHs Hev. destruct (union_event Hs ev s HHs Hev) as (b & s' & _ & R & E).
  by exists s'.
Qed.

Lemma visitRecord_in_union (Hs : list (Handler CheckState)) O Parent W T s :
  Hs = uH \/ Hs = nH ->
  visitRecord _ urd Hs O Parent W T s = visitComplexRecord _ urd Hs O Parent W T s.
Proof.
  intros [-> | ->]; unfold visitRecord; destruct (urd s (recordKey W)); reflexivity.
Qed.

Lemma visitArray_in_union (Hs : list (Handler CheckState)) O FD T CAT s :
  Hs = uH \/ Hs = nH ->
  visitArray _ urd Hs O FD T CAT s = visitComplexArray _ urd Hs O FD T CAT s.
Proof.
  intros [-> | ->]; unfold visitArray; destruct (urd s (fieldKey FD)); reflexivity.
Qed.

Lemma visitNth_in_union (Hs : list (Handler CheckState)) O FD ET i s :
  Hs = uH \/ Hs = nH ->
  visitNthArrayElement _ urd Hs O FD ET i s = visitArrayElementImpl _ urd nH O FD ET i s.
Proof. intros [-> | ->]; reflexivity. Qed.

Lemma complexRecord_checked (Hs : list (Handler CheckState)) O Parent W T s :
  Hs = uH \/ Hs = nH ->
  Forall (fun B => forall s, exists s',
            visitBase _ urd Hs W B (getBaseType B) s = Ok s' /\ unionChecked s s')
    (bases W) ->
  Forall (fun F => forall s, exists s',
            visitField _ urd Hs W F (getType F) s = Ok s' /\ unionChecked s s')
    (fields W) ->
  exists s', visitComplexRecord _ urd Hs O Parent W T s = Ok s' /\ unionChecked s s'.
Proof.
  intros HHs HB HF. unfold visitComplexRecord.
  destruct (union_forEach Hs (enterStruct O Parent T) s HHs I) as (s1 & E1 & R1).
  rewrite E1. cbn [rbind].
  destruct (foldM_checked _ _ HB s1) as (s2 & E2 & R2). rewrite E2. cbn [rbind].
  destruct (foldM_checked _ _ HF s2) as (s3 & E3 & R3). rewrite E3. cbn [rbind].
  destruct (union_forEach Hs (leaveStruct O Parent T) s3 HHs I) as (s4 & E4 & R4).
  exists s4. split; [done|].
  eapply unionChecked_trans; [exact R1|]. eapply unionChecked_trans; [exact R2|].
  by eapply unionChecked_trans.
Qed.

Lemma stream_checked (Hs : list (Handler CheckState)) O FD RD T s :
  Hs = uH \/ Hs = nH ->
  exists s', visitStreamRecord _ Hs O FD RD T s = Ok s' /\ unionChecked s s'.
Proof.
  intros HHs. unfold visitStreamRecord.
  destruct (union_forEach Hs (enterStream O FD T) s HHs I) as (s1 & E1 & R1).
  rewrite E1. cbn [rbind].
  destruct (foldM_checked
              (fun Field s =>
                 if isSyclAccessorType (getType Field)
                 then ignoreResult _
                        (KF_FOR_EACH _ Hs (handleSyclAccessorType Field (getType Field)) s)
                 else Ok s) (fields RD)) with (s := s1) as (s2 & E2 & R2).
  - apply Forall_forall. intros F _ s0.
    destruct (isSyclAccessorType (getType F)).
    + by apply union_leaf.
    + exists s0. split; [done | apply unionChecked_refl].
  - rewrite E2. cbn [rbind].
    destruct (union_forEach Hs (leaveStream O FD T) s2 HHs I) as (s3 & E3 & R3).
    exists s3. split; [done|].
    eapply unionChecked_trans; [exact R1|]. by eapply unionChecked_trans.
Qed.

Lemma enterUnion_inside O FD (s : CheckState) :
  forEach _ uH (enterUnion O FD) s
  = Ok (SyclKernelUnionChecker.setUnionCount s (UnionCount s + 1)).
Proof. reflexivity. Qed.

Lemma leaveUnion_inside O FD (s : CheckState) :
  forEach _ uH (leaveUnion O FD) s
  = Ok (SyclKernelUnionChecker.setUnionCount s (UnionCount s - 1)).
Proof. reflexivity. Qed.

Lemma union_body_checked O FD W (s : CheckState) :
  Forall (fun F => forall s, exists s',
            visitField _ urd uH W F (getType F) s = Ok s' /\ unionChecked s s')
    (fields W) ->
  exists s', VisitUnion _ urd uH O FD W s = Ok s' /\ unionChecked s s'.
Proof.
  intros HF. unfold VisitUnion.
  change (AnyTrue CheckState (VisitUnionBody CheckState) uH) with true.
  cbn match.
  change (HandlerFilter CheckState (VisitUnionBody CheckState) uH) with uH.
  cbn zeta. rewrite enterUnion_inside. cbn [rbind].
  destruct (foldM_checked _ _ HF
              (SyclKernelUnionChecker.setUnionCount s (UnionCount s + 1)))
    as (s2 & E2 & [Hc Hi Hd]).
  rewrite E2. cbn [rbind]. rewrite leaveUnion_inside.
  eexists. split; [reflexivity|].
  constructor; cbn in *; [lia | done | done].
Qed.

(** The walk inside a union ends on every field and base the union checker
    can walk, and keeps the count of unions and a rejection once made. *)
Lemma walk_in_union (T : QualType) :
  (forall Hs O FD s, Hs = uH \/ Hs = nH -> walkableInUnion T = true ->
     exists s', visitField _ urd Hs O FD T s = Ok s' /\ unionChecked s s') /\
  (forall Hs O B s, Hs = uH \/ Hs = nH -> walkableBaseInUnion T = true ->
     exists s', visitBase _ urd Hs O B T s = Ok s' /\ unionChecked s s').
Proof.
  assert (Hparts : forall W : CXXRecordDecl,
    PRecord
      (fun T =>
         (forall Hs O FD s, Hs = uH \/ Hs = nH -> walkableInUnion T = true ->
            exists s', visitField _ urd Hs O FD T s = Ok s' /\ unionChecked s s') /\
         (forall Hs O B s, Hs = uH \/ Hs = nH -> walkableBaseInUnion T = true ->
            exists s', visitBase _ urd Hs O B T s = Ok s' /\ unionChecked s s')) W ->
    forall Hs, Hs = uH \/ Hs = nH ->
    (forallb (fun B => walkableBaseInUnion (getBaseType B)) (bases W) = true ->
     Forall (fun B => forall s, exists s',
               visitBase _ urd Hs W B (getBaseType B) s = Ok s' /\ unionChecked s s')
       (bases W)) /\
    (forallb (fun F => walkableInUnion (getType F)) (fields W) = true ->
     Forall (fun F => forall s, exists s',
               visitField _ urd Hs W F (getType F) s = Ok s' /\ unionChecked s s')
       (fields W))).
  { intros W [IHB IHF] Hs HHs. rewrite Forall_forall in IHB.
    rewrite Forall_forall in IHF. split; intros HL; rewrite forallb_forall in HL;
      apply Forall_forall.
    - intros B HB s. apply (IHB B HB); [done|]. apply HL. by apply list_elem_of_In.
    - intros F HF s. apply (IHF F HF); [done|]. apply HL. by apply list_elem_of_In. }
  assert (Hrecord : forall (W : CXXRecordDecl) T0,
    PRecord
      (fun T =>
         (forall Hs O FD s, Hs = uH \/ Hs = nH -> walkableInUnion T = true ->
            exists s', visitField _ urd Hs O FD T s = Ok s' /\ unionChecked s s') /\
         (forall Hs O B s, Hs = uH \/ Hs = nH -> walkableBaseInUnion T = true ->
            exists s', visitBase _ urd Hs O B T s = Ok s' /\ unionChecked s s')) W ->
    forallb (fun B => walkableBaseInUnion (getBaseType B)) (bases W)
    && forallb (fun F => walkableInUnion (getType F)) (fields W) = true ->
    forall Hs O Parent s, Hs = uH \/ Hs = nH ->
      exists s', visitRecord _ urd Hs O Parent W T0 s = Ok s' /\ unionChecked s s').
  { intros W T0 IH HL Hs O Parent s HHs. apply andb_prop in HL as [HLB HLF].
    rewrite visitRecord_in_union by done.
    destruct (Hparts W IH Hs HHs) as [HB HF].
    apply complexRecord_checked; auto. }
  induction T using QualType_nested_ind; split; intros Hs O X s HHs HL;
    try discriminate HL; try (cbn [visitField]; by apply union_leaf);
    try (cbn [visitBase]; by apply union_forEach);
    try (by apply Hrecord).
  - (* stream field *)
    cbn [visitField].
    destruct (union_event Hs (handleSyclStreamType X (StreamType RD)) s HHs I)
      as (b & s1 & E1 & R1 & _).
    rewrite E1. cbn [rbind fst snd].
    destruct (stream_checked Hs O X RD (StreamType RD) s1 HHs) as (s2 & E2 & R2).
    exists s2. split; [done | by eapply unionChecked_trans].
  - (* class field *)
    rewrite visitField_record.
    destruct (union_event Hs (handleStructType X (StructType RD)) s HHs I)
      as (b & s1 & E1 & R1 & _).
    rewrite E1. cbn [rbind fst snd]. destruct b; [|by exists s1].
    destruct (Hrecord RD (StructType RD) H HL Hs O (ParentField X) s1 HHs)
      as (s2 & E2 & R2).
    exists s2. split; [done | by eapply unionChecked_trans].
  - (* union field *)
    rewrite visitField_union.
    destruct (union_event Hs (handleUnionType X (UnionType RD)) s HHs I)
      as (b & s1 & E1 & R1 & _).
    rewrite E1. cbn [rbind fst snd]. destruct b; [|by exists s1].
    destruct HHs as [-> | ->].
    + destruct (union_body_checked O X RD s1) as (s2 & E2 & R2).
      { cbn in HL. by apply (Hparts RD H uH); [left|]. }
      exists s2. split; [done | by eapply unionChecked_trans].
    + exists s1. by split.
  - (* array of constant size *)
    rewrite visitField_constant_array, visitArray_in_union by done.
    unfold visitComplexArray.
    destruct (union_event Hs (handleArrayType X (ConstantArrayType T n)) s HHs I)
      as (b & s1 & E1 & R1 & _).
    rewrite E1. cbn [rbind fst snd]. destruct b; cbn [negb]; [|by exists s1].
    cbn in HL. apply andb_prop in HL as [Hn HLE]. rewrite Hn. cbn [negb].
    destruct (union_forEach Hs (enterArray X (ConstantArrayType T n) T) s1 HHs I)
      as (s2 & E2 & R2).
    rewrite E2. cbn [rbind]. unfold visitArrayElementImpl at 1.
    destruct (union_forEach Hs (nextElement T 0) s2 HHs I) as (s3 & E3 & R3).
    rewrite E3. cbn [rbind].
    destruct (proj1 IHT Hs O X s3 HHs HLE) as (s4 & E4 & R4).
    rewrite E4. cbn [rbind].
    destruct (forIndices_checked (visitNthArrayElement _ urd Hs O X T))
      with (n := Z.to_nat (n - 1)) (i := 1) (s := s4) as (s5 & E5 & R5).
    { intros i s0. rewrite visitNth_in_union by done. unfold visitArrayElementImpl.
      destruct (union_forEach nH (nextElement T i) s0 (or_intror eq_refl) I)
        as (sa & Ea & Ra).
      rewrite Ea. cbn [rbind].
      destruct (proj1 IHT nH O X sa (or_intror eq_refl) HLE) as (sb & Eb & Rb).
      exists sb. split; [done | by eapply unionChecked_trans]. }
    rewrite E5. cbn [rbind].
    destruct (union_forEach Hs (leaveArray X (ConstantArrayType T n) T) s5 HHs I)
      as (s6 & E6 & R6).
    exists s6. split; [done|].
    eapply unionChecked_trans; [exact R1|]. eapply unionChecked_trans; [exact R2|].
    eapply unionChecked_trans; [exact R3|]. eapply unionChecked_trans; [exact R4|].
    by eapply unionChecked_trans.
Qed.


Lemma fields_checked (W : CXXRecordDecl) (l : list FieldDecl) :
  forallb (fun F => walkableInUnion (getType F)) l = true ->
  Forall (fun F => forall s, exists s',
            visitField _ urd uH W F (getType F) s = Ok s' /\ unionChecked s s') l.
Proof.
  intros HL. rewrite forallb_forall in HL. apply Forall_forall. intros F HF s.
  apply (walk_in_union (getType F)); [by left|]. apply HL. by apply list_elem_of_In.
Qed.

Lemma checkType_inside Loc Ty (s : CheckState) :
  UnionCount s <> 0 ->
  SyclKernelUnionChecker.checkType Loc Ty s =
  (false, mkCheckState (Diag (chk_Sema s) Loc err_bad_union_kernel_param_members)
            (FieldChecker_IsInvalid s) (UnionCount s) true (CollectionStack s)).
Proof.
  intros H. unfold SyclKernelUnionChecker.checkType.
  by destruct (decide (UnionCount s <> 0)).
Qed.

Lemma checkType_outside Loc Ty (s : CheckState) :
  UnionCount s = 0 ->
  SyclKernelUnionChecker.checkType Loc Ty s = (negb (UnionChecker_IsInvalid s), s).
Proof.
  intros H. unfold SyclKernelUnionChecker.checkType.
  by destruct (decide (UnionCount s <> 0)).
Qed.

(** A field of a resource type met inside a union is rejected. *)
Lemma resource_field_rejected O (F : FieldDecl) (s : CheckState) :
  isResourceType (getType F) = true ->
  UnionCount s <> 0 ->
  exists s',
    visitField _ urd uH O F (getType F) s = Ok s' /\ unionChecked s s' /\
    UnionChecker_IsInvalid s' = true /\
    (err_bad_union_kernel_param_members, fieldKey F) ∈ Diags (chk_Sema s').
Proof.
  intros HR HC. destruct (getType F) eqn:HT; try discriminate HR.
  - cbn -[SyclKernelUnionChecker.checkType]. rewrite checkType_inside by done.
    eexists. split; [reflexivity|]. split; [|split].
    + constructor; cbn; [done | done | by eexists].
    + reflexivity.
    + cbn. apply elem_of_app. right. apply list_elem_of_here.
  - cbn -[SyclKernelUnionChecker.checkType]. rewrite checkType_inside by done.
    eexists. split; [reflexivity|]. split; [|split].
    + constructor; cbn; [done | done | by eexists].
    + reflexivity.
    + cbn. apply elem_of_app. right. apply list_elem_of_here.
  - cbn -[SyclKernelUnionChecker.checkType visitStreamRecord].
    rewrite checkType_inside by done. cbn [rbind fst snd].
    match goal with
    | |- context [visitStreamRecord _ _ _ _ _ _ ?s1] =>
        destruct (stream_checked uH O F RD (StreamType RD) s1 (or_introl eq_refl))
          as (s2 & E2 & [Hc Hi Hd])
    end.
    exists s2. split; [exact E2|]. cbn in Hc, Hi, Hd. split; [|split].
    + constructor; [done | auto |].
      etrans; [|exact Hd]. by eexists.
    + by apply Hi.
    + eapply elem_of_prefix; [|exact Hd].
      apply elem_of_app. right. apply list_elem_of_here.
Qed.

(** C3, as the code has it: a field of a resource type (accessor, sampler
    or stream) of a union is rejected whatever its siblings are, so also
    when it is the only field of a resource type of the union: the walk of a
    field of the union type ends with the union checker invalid and the
    diagnostic [err_bad_union_kernel_param_members] at the field.  The
    check of a type rejects exactly when it is made inside a union. *)
Theorem resource_in_union_is_rejected (O : CXXRecordDecl) (FD : FieldDecl)
    (U : CXXRecordDecl) (pre post : list FieldDecl) (F : FieldDecl)
    (s : CheckState) :
  0 <= UnionCount s ->
  fields U = pre ++ F :: post ->
  isResourceType (getType F) = true ->
  forallb (fun F' => walkableInUnion (getType F')) (pre ++ post) = true ->
  (exists s',
     visitField _ checkRequiresDecomposition checkHandlers O FD (UnionType U) s = Ok s' /\
     SyclKernelUnionChecker.isValid s' = false /\
     (err_bad_union_kernel_param_members, fieldKey F) ∈ Diags (chk_Sema s')) /\
  (forall Loc Ty s0,
     (UnionCount s0 <> 0 ->
      SyclKernelUnionChecker.checkType Loc Ty s0 =
      (false, mkCheckState (Diag (chk_Sema s0) Loc err_bad_union_kernel_param_members)
                (FieldChecker_IsInvalid s0) (UnionCount s0) true (CollectionStack s0))) /\
     (UnionCount s0 = 0 ->
      SyclKernelUnionChecker.checkType Loc Ty s0
      = (negb (UnionChecker_IsInvalid s0), s0))).
Proof.
  intros HC HF HR HL. split.
  - rewrite forallb_app in HL. apply andb_prop in HL as [Hpre Hpost].
    rewrite visitField_union.
    assert (E0 : KF_FOR_EACH _ checkHandlers (handleUnionType FD (UnionType U)) s
                 = Ok (true, s)) by (by destruct s).
    rewrite E0. cbn [rbind fst snd]. unfold VisitUnion.
    change (AnyTrue CheckState (VisitUnionBody CheckState) checkHandlers) with true.
    cbn match zeta. rewrite enterUnion_inside. cbn [rbind]. rewrite HF, foldM_app.
    destruct (foldM_checked _ _ (fields_checked U pre Hpre)
                (SyclKernelUnionChecker.setUnionCount s (UnionCount s + 1)))
      as (s1 & E1 & [Hc1 Hi1 Hd1]).
    rewrite E1. cbn [rbind]. rewrite foldM_cons.
    destruct (resource_field_rejected U F s1 HR) as (s2 & E2 & R2 & HI2 & HD2).
    { rewrite Hc1. cbn. lia. }
    rewrite E2. cbn [rbind].
    destruct (foldM_checked _ _ (fields_checked U post Hpost) s2)
      as (s3 & E3 & [Hc3 Hi3 Hd3]).
    rewrite E3. cbn [rbind]. rewrite leaveUnion_inside.
    eexists. split; [reflexivity|]. split.
    + unfold SyclKernelUnionChecker.isValid. cbn. by rewrite Hi3.
    + cbn. by eapply elem_of_prefix.
  - intros Loc Ty s0. split.
    + apply checkType_inside.
    + apply checkType_outside.
Qed.

Lemma resource_in_union_is_rejected_witness :
  exists s',
    visitField _ checkRequiresDecomposition checkHandlers KernelSamples.kernelWithUnion
      (mkFieldDecl "K" "u" (UnionType KernelSamples.unionWithAccessor) 0)
      (UnionType KernelSamples.unionWithAccessor)
      (initialCheckState KernelSamples.noMarks) = Ok s' /\
    SyclKernelUnionChecker.isValid s' = false /\
    (err_bad_union_kernel_param_members, "U::acc") ∈ Diags (chk_Sema s').
Proof.
  destruct (resource_in_union_is_rejected KernelSamples.kernelWithUnion
              (mkFieldDecl "K" "u" (UnionType KernelSamples.unionWithAccessor) 0)
              KernelSamples.unionWithAccessor []
              [mkFieldDecl "U" "i" KernelSamples.intTy 0]
              (mkFieldDecl "U" "acc" KernelSamples.accessorTy 0)
              (initialCheckState KernelSamples.noMarks)) as [H _];
    [cbn; lia | reflexivity | reflexivity | reflexivity |].
  exact H.
Defined.

(** C3, as the claim has it, fails: the union of the sample has exactly one
    field of a resource type, and the kernel object that holds it does not
    pass the union checker. *)
Lemma single_resource_in_union_is_rejected :
  match CheckSYCLKernelCall KernelSamples.kernelWithUnion KernelSamples.noMarks with
  | Ok cs =>
      length (filter (fun F => isResourceType (getType F) = true)
                (fields KernelSamples.unionWithAccessor)) = 1%nat /\
      SyclKernelUnionChecker.isValid cs = false /\
      passedCheckers cs = false /\
      Diags (chk_Sema cs) = [(err_bad_union_kernel_param_members, "U::acc")]
  | _ => False
  end.
Proof. vm_compute. repeat split. Qed.

End SemaSYCL_Properties.

(** * Further properties of the lowering pass *)

Module LowerESIMD_Invariants.

Import LowerESIMD.

(** ** The table of rewrite rules *)

Lemma table_entries_valid :
  Forall (fun e : string * ESIMDIntrinDesc => isValid e.2 = true)
    ESIMDIntrinDescTable.entries.
Proof. repeat constructor. Qed.

Lemma getIntrinDesc_valid (SrcSpelling : string) (D : ESIMDIntrinDesc) :
  getIntrinDesc SrcSpelling = Ok D -> isValid D = true.
Proof.
  unfold getIntrinDesc, getIntrinTable, ESIMDIntrinDescTable.Table.
  destruct (list_to_map _ !! _) as [D'|] eqn:E; [|discriminate].
  intros [= <-]. apply elem_of_list_to_map_2 in E.
  pose proof table_entries_valid as H. rewrite Forall_forall in H.
  exact (H _ E).
Qed.

(** X1: a look-up in the table of rewrite rules either ends the compilation
    with the message [unknown ESIMD intrinsic: <name>] or gives a descriptor
    with a target spelling: the descriptor without spelling, for which
    [translateESIMDIntrinsicCall] returns early, is never the answer. *)
Theorem intrinsic_lookup_is_fatal_or_valid (SrcSpelling : string) :
  match getIntrinDesc SrcSpelling with
  | Ok D => isValid D = true
  | FatalError msg => msg = "unknown ESIMD intrinsic: " +:+ SrcSpelling
  | Unreachable _ => False
  end.
Proof.
  unfold getIntrinDesc, getIntrinTable, ESIMDIntrinDescTable.Table.
  destruct (list_to_map _ !! _) as [D|] eqn:E; [|reflexivity].
  apply elem_of_list_to_map_2 in E.
  pose proof table_entries_valid as H. rewrite Forall_forall in H.
  exact (H _ E).
Qed.

(** ** The number of arguments of the target call *)

Lemma bindM_Ok {A B} (m : M A) (k : A -> M B) F r :
  bindM m k F = Ok r -> exists a F1, m F = Ok (a, F1) /\ k a F1 = Ok r.
Proof.
  unfold bindM. destruct (m F) as [[a F1]| |]; cbn; try discriminate.
  intros H. eauto.
Qed.

Lemma retM_Ok {A} (a : A) F r : retM a F = Ok r -> r = (a, F).
Proof. intros [= <-]. reflexivity. Qed.

Lemma assertM_Ok b msg F r : assertM b msg F = Ok r -> b = true /\ r = (tt, F).
Proof. destruct b; cbn; [intros [= <-]; auto | discriminate]. Qed.

(** Inversion of a computation that is known to succeed. *)
Ltac invM :=
  repeat match goal with
  | H : bindM _ _ _ = Ok _ |- _ =>
      apply bindM_Ok in H; destruct H as (? & ? & ? & H)
  | H : retM _ _ = Ok _ |- _ => apply retM_Ok in H; subst
  | H : assertM _ _ _ = Ok _ |- _ => apply assertM_Ok in H; destruct H as [? ?]; subst
  | H : (_, _) = (_, _) |- _ => injection H as ? ?; subst
  end.

Lemma createESIMDIntrinsicArg_one CI FE R Args L F Args' L' F' :
  Kind R <> SRC_CALL_ALL ->
  createESIMDIntrinsicArg CI FE R Args L F = Ok (Args', L', F') ->
  exists v, Args' = Args ++ [v].
Proof.
  intros HK H. unfold createESIMDIntrinsicArg in H.
  destruct (Kind R); try done; invM; try (destruct x; invM); eauto.
Qed.

Lemma createESIMDIntrinsicArg_all CI FE R Args L F Args' L' F' :
  Kind R = SRC_CALL_ALL ->
  createESIMDIntrinsicArg CI FE R Args L F = Ok (Args', L', F') ->
  L < getNumArgOperands CI
  /\ Args' = Args ++ drop (Z.to_nat L) (operands CI) /\ L' = L /\ F' = F.
Proof.
  intros HK H. unfold createESIMDIntrinsicArg in H. rewrite HK in H. invM.
  apply bool_decide_eq_true in H0. auto.
Qed.

Lemma createESIMDIntrinsicArg_last CI FE R Args L F Args' L' F' :
  Kind R <> SRC_CALL_ARG ->
  createESIMDIntrinsicArg CI FE R Args L F = Ok (Args', L', F') -> L' = L.
Proof.
  intros HK H. unfold createESIMDIntrinsicArg in H.
  destruct (Kind R); try done; invM; try (destruct x; invM); eauto.
Qed.

Lemma createESIMDIntrinsicArgsFrom_length CI FE Rules :
  forallb (fun R => negb (bool_decide (Kind R = SRC_CALL_ALL))) Rules = true ->
  forall Args L F Args' F',
    createESIMDIntrinsicArgsFrom CI FE Rules Args L F = Ok (Args', F') ->
    length Args' = (length Args + length Rules)%nat.
Proof.
  induction Rules as [|R Rules IH]; intros HR Args L F Args' F' H; cbn in *.
  - invM. lia.
  - apply andb_prop in HR as [HR1 HR2].
    apply negb_true_iff, bool_decide_eq_false in HR1.
    invM. destruct x as [A1 L1]. cbn in H.
    apply createESIMDIntrinsicArg_one in H0 as [v ->]; [|exact HR1].
    apply (IH HR2) in H. rewrite H, length_app. cbn. lia.
Qed.

Lemma getNumGenXArgs_plain (D : ESIMDIntrinDesc) :
  forallb (fun R => negb (bool_decide (Kind R = SRC_CALL_ALL))) (ArgRules D) = true ->
  getNumGenXArgs D = Z.of_nat (length (ArgRules D)).
Proof.
  intros HR. unfold getNumGenXArgs. cbv zeta.
  case_decide as E0; [lia|].
  destruct (last (ArgRules D)) as [R|] eqn:EL.
  - rewrite decide_False; [reflexivity|].
    rewrite forallb_forall in HR. apply last_Some_elem_of in EL.
    apply list_elem_of_In, HR in EL.
    apply negb_true_iff, bool_decide_eq_false in EL. exact EL.
  - apply last_None in EL. rewrite EL in E0. done.
Qed.

(** X2: for a descriptor without the copy-the-remaining-operands rule, the
    arguments made for a call are as many as [getNumGenXArgs] says (one for
    each rule), whenever making them succeeds. *)
Theorem argument_count_without_shortcut
    (Desc : ESIMDIntrinDesc) (CI : Instruction) (FE : NameNode)
    (F F' : Function) (GenXArgs : list Value) :
  forallb (fun R => negb (bool_decide (Kind R = SRC_CALL_ALL))) (ArgRules Desc) = true ->
  createESIMDIntrinsicArgs Desc [] CI FE F = Ok (GenXArgs, F') ->
  Z.of_nat (length GenXArgs) = getNumGenXArgs Desc.
Proof.
  intros HR H. rewrite getNumGenXArgs_plain by exact HR.
  apply (createESIMDIntrinsicArgsFrom_length _ _ _ HR) in H. rewrite H. reflexivity.
Qed.

Lemma argument_count_without_shortcut_witness :
  getIntrinTable !! "vstore" = Some (ESIMDIntrinDescTable.d "vstore"
                                       [ESIMDIntrinDescTable.a 1; ESIMDIntrinDescTable.a 0])
  /\ Z.of_nat (length [VArgument 1 (FixedVectorTy (IntegerTy 32) 8);
                       VArgument 0 PointerTy])
     = getNumGenXArgs (ESIMDIntrinDescTable.d "vstore"
                         [ESIMDIntrinDescTable.a 1; ESIMDIntrinDescTable.a 0]).
Proof.
  split; [reflexivity|].
  apply (argument_count_without_shortcut
           (ESIMDIntrinDescTable.d "vstore"
              [ESIMDIntrinDescTable.a 1; ESIMDIntrinDescTable.a 0])
           (mkInst 0 EmptyString (Call (Some "_Z14__esimd_vstorePvDv8_i"))
              [VArgument 0 PointerTy; VArgument 1 (FixedVectorTy (IntegerTy 32) 8)]
              VoidTy)
           (NameType "__esimd_vstore")
           (mkFunction true [] 1 None) (mkFunction true [] 1 None));
    reflexivity.
Defined.

Lemma createESIMDIntrinsicArgsFrom_keep CI FE Rules :
  forallb (fun R => negb (bool_decide (Kind R = SRC_CALL_ALL))
                    && negb (bool_decide (Kind R = SRC_CALL_ARG))) Rules = true ->
  forall Tail Args L F Args' F',
    createESIMDIntrinsicArgsFrom CI FE (Rules ++ Tail) Args L F = Ok (Args', F') ->
    exists Args1 F1,
      length Args1 = (length Args + length Rules)%nat
      /\ createESIMDIntrinsicArgsFrom CI FE Tail Args1 L F1 = Ok (Args', F').
Proof.
  induction Rules as [|R Rules IH]; intros HR Tail Args L F Args' F' H; cbn in *.
  - exists Args, F. split; [lia|exact H].
  - apply andb_prop in HR as [HR1 HR2]. apply andb_prop in HR1 as [HA HB].
    apply negb_true_iff, bool_decide_eq_false in HA.
    apply negb_true_iff, bool_decide_eq_false in HB.
    invM. destruct x as [A1 L1]. cbn in H.
    pose proof (createESIMDIntrinsicArg_last _ _ _ _ _ _ _ _ _ HB H0) as ->.
    apply createESIMDIntrinsicArg_one in H0 as [v ->]; [|exact HA].
    apply (IH HR2) in H as (Args1 & F1 & HL & H).
    exists Args1, F1. split; [|exact H]. rewrite HL, length_app. cbn. lia.
Qed.

(** X3: the copy-the-remaining-operands rule, after rules that read no
    operand of the call, copies every operand of the call: the arguments made
    are one for each earlier rule and one for each operand, whatever number
    the rule stores. *)
Theorem shortcut_copies_every_operand
    (Desc : ESIMDIntrinDesc) (Rules : list ArgRule) (R : ArgRule)
    (CI : Instruction) (FE : NameNode) (F F' : Function) (GenXArgs : list Value) :
  ArgRules Desc = Rules ++ [R] ->
  Kind R = SRC_CALL_ALL ->
  forallb (fun R => negb (bool_decide (Kind R = SRC_CALL_ALL))
                    && negb (bool_decide (Kind R = SRC_CALL_ARG))) Rules = true ->
  createESIMDIntrinsicArgs Desc [] CI FE F = Ok (GenXArgs, F') ->
  0 < getNumArgOperands CI
  /\ Z.of_nat (length GenXArgs) = Z.of_nat (length Rules) + getNumArgOperands CI
  /\ drop (length Rules) GenXArgs = operands CI
  /\ getNumGenXArgs Desc = NRemArgs (I R) + Z.of_nat (length Rules).
Proof.
  intros HD HK HR H. unfold createESIMDIntrinsicArgs in H. rewrite HD in H.
  apply (createESIMDIntrinsicArgsFrom_keep _ _ _ HR) in H as (Args1 & F1 & HL & H).
  cbn in H. apply bindM_Ok in H as ([A1 L1] & F2 & H0 & H). cbn in H.
  apply retM_Ok in H. injection H as <- <-.
  apply createESIMDIntrinsicArg_all in H0 as (Hlt & -> & -> & ->); [|exact HK].
  cbn in HL. change (Z.to_nat 0) with 0%nat. rewrite drop_0.
  repeat split.
  - exact Hlt.
  - rewrite length_app. unfold getNumArgOperands. lia.
  - rewrite <- HL. apply drop_app_length.
  - unfold getNumGenXArgs. rewrite HD. cbv zeta. rewrite length_app. cbn [length].
    rewrite decide_False by lia. rewrite last_snoc. rewrite decide_True by exact HK.
    f_equal. lia.
Qed.

Lemma shortcut_copies_every_operand_witness :
  getIntrinTable !! "flat_block_write"
  = Some (ESIMDIntrinDescTable.d "svm.block.st" [ESIMDIntrinDescTable.l 1])
  /\ Z.of_nat (length [VArgument 0 PointerTy;
                       VArgument 1 (FixedVectorTy (IntegerTy 32) 8)]) = 0 + 2
  /\ getNumGenXArgs (ESIMDIntrinDescTable.d "svm.block.st" [ESIMDIntrinDescTable.l 1])
     = 1 + 0.
Proof.
  split; [reflexivity|].
  destruct (shortcut_copies_every_operand
              (ESIMDIntrinDescTable.d "svm.block.st" [ESIMDIntrinDescTable.l 1])
              [] (ESIMDIntrinDescTable.l 1)
              (mkInst 0 EmptyString
                 (Call (Some "_Z24__esimd_flat_block_writeIiLi8EEvPvDv8_i"))
                 [VArgument 0 PointerTy; VArgument 1 (FixedVectorTy (IntegerTy 32) 8)]
                 VoidTy)
              (NameType "__esimd_flat_block_write")
              (mkFunction true [] 1 None) (mkFunction true [] 1 None)
              [VArgument 0 PointerTy; VArgument 1 (FixedVectorTy (IntegerTy 32) 8)])
    as (_ & H1 & _ & H2); try reflexivity.
  split; [exact H1 | exact H2].
Defined.

End LowerESIMD_Invariants.

Module LowerESIMD_WorkItem.

Import LowerESIMD.
Import LowerESIMD_Properties.

(** X4: a call of the work-group-size, local-id, work-group-id or
    number-of-work-groups query of dimension x, y or z is replaced by the
    matching coordinate read from the target intrinsic, brought to the width
    [w] of the result of the call (truncated below 32 bits, zero-extended
    above).  The instructions of the function afterwards are those it had,
    with new instructions in front of the call and with the value of the
    last of them in the place of every use of the call; the new
    instructions call the target intrinsic of the query and no other
    function, and the last of them computes the coordinate in the width
    [w]; the call is queued for erasure, and no instruction uses it
    afterwards. *)
Theorem work_item_query_lowering
    (getDeclarationReturnType : string -> list LType -> LType)
    (CI : Instruction) (F : Function) (E : list nat) (Suff : string) (d : nat)
    (w : Z) (W : WorkItem) (lid wg gid cnt : Z) :
  (forall nm, getDeclarationReturnType nm [FixedVectorTy (IntegerTy 32) 3]
              = FixedVectorTy (IntegerTy 32) 3) ->
  (forall nm, getDeclarationReturnType nm [] = IntegerTy 32) ->
  type CI = IntegerTy w ->
  (uid CI < nextId F)%nat ->
  (Suff, d) ∈ [("x", 0%nat); ("y", 1%nat); ("z", 2%nat)] ->
  local_id W !! d = Some lid ->
  local_size W !! d = Some wg ->
  group_id W !! d = Some gid ->
  group_count W !! d = Some cnt ->
  Forall
    (fun q : string * string * Z =>
       exists (emitted : list Instruction) (I : Instruction) (F' : Function),
         translateSpirvIntrinsic getDeclarationReturnType CI
           (q.1.1 +:+ "_" +:+ Suff +:+ "v") E F = Ok (E ++ [uid CI], F')
         /\ last emitted = Some I
         /\ type I = IntegerTy w
         /\ instructions F'
            = usesReplaced (uid CI) (asValue I)
                (before (uid CI) (instructions F) ++ emitted
                 ++ notBefore (uid CI) (instructions F))
         /\ calledFunctions emitted = [q.1.2]
         /\ (forall env,
               evalInt (exec (genxIntrinsics W) (before (uid CI) (instructions F')) env)
                 (asValue I)
               = Some (if decide (w < 32) then q.2 mod 2 ^ w else q.2))
         /\ Forall (fun i => forall t, VInst (uid CI) t ∉ operands i) (instructions F'))
    [("WorkgroupSize", "llvm.genx.local.size.v3i32", wg);
     ("LocalInvocationId", "llvm.genx.local.id.v3i32", lid);
     ("WorkgroupId", "llvm.genx.group.id." +:+ Suff, gid);
     ("NumWorkgroups", "llvm.genx.group.count.v3i32", cnt)].
Proof.
  intros Hv Hs Hty Hu Hin Hl Hw Hg Hc. destruct F as [simd l n md].
  destruct CI as [u nm op ops ty]. cbn [nextId type uid instructions] in *. subst ty.
  assert (HG : genxIntrinsics W ("llvm.genx.group.id." +:+ Suff) = Some (RInt gid)).
  { apply (group_id_intrinsic W d); [|exact Hg].
    repeat (apply elem_of_cons in Hin as [[= -> ->]|Hin]; [set_solver|]).
    inversion Hin. }
  assert (HS : Suff = "x" /\ d = 0%nat \/ Suff = "y" /\ d = 1%nat \/ Suff = "z" /\ d = 2%nat).
  { repeat (apply elem_of_cons in Hin as [[= -> ->]|Hin]; [tauto|]). inversion Hin. }
  clear Hin.
  destruct HS as [[-> ->]|[[-> ->]|[-> ->]]];
    (repeat apply List.Forall_cons; [..|apply List.Forall_nil];
     cbn [fst snd];
     (destruct (decide (w = 32)) as [->|Hne]; [|destruct (decide (w < 32))];
      [..];
      match goal with
      | |- exists _ _ _, translateSpirvIntrinsic ?g ?c ?s ?e ?f = _ /\ _ =>
          eassert (HT : translateSpirvIntrinsic g c s e f = Ok (e ++ [u], _))
            by (unfold translateSpirvIntrinsic; run_m ltac:(rewrite ?Hv, ?Hs));
          lazymatch type of HT with
          | context [map _ (instructions (mkFunction _ ?t _ _))] =>
              lazymatch t with
              | insert_before _ ?i _ =>
                  let em := emitted_of t (@nil Instruction) in
                  exists em, i
              end
          end
      end;
      eexists; (split; [exact HT|]); clear HT;
      (split; [reflexivity|]);
      (split; [reflexivity|]);
      (split; [emitted_split|]);
      (split; [rewrite ?castOpcode_trunc, ?castOpcode_zext by lia; reflexivity|]);
      (split;
       [ intros env; unfold asValue; cbn [uid type]; eval_operand; reflexivity
       | cbn [instructions]; apply no_use_after_rauw; intros t; injection 1; lia ]))).
Qed.

Lemma work_item_query_lowering_witness :
  Forall
    (fun q : string * string * Z =>
       exists (emitted : list Instruction) (I : Instruction) (F' : Function),
         translateSpirvIntrinsic Samples.declaredReturnType (Samples.callGlobalId "x")
           (q.1.1 +:+ "_" +:+ "x" +:+ "v") [] (Samples.fnGlobalId "x")
         = Ok ([] ++ [uid (Samples.callGlobalId "x")], F')
         /\ last emitted = Some I
         /\ type I = IntegerTy 64
         /\ instructions F'
            = usesReplaced (uid (Samples.callGlobalId "x")) (asValue I)
                (before (uid (Samples.callGlobalId "x"))
                   (instructions (Samples.fnGlobalId "x")) ++ emitted
                 ++ notBefore (uid (Samples.callGlobalId "x"))
                      (instructions (Samples.fnGlobalId "x")))
         /\ calledFunctions emitted = [q.1.2]
         /\ (forall env,
               evalInt (exec (genxIntrinsics Samples.workItem)
                          (before (uid (Samples.callGlobalId "x")) (instructions F')) env)
                 (asValue I)
               = Some (if decide (64 < 32) then q.2 mod 2 ^ 64 else q.2))
         /\ Forall (fun i => forall t, VInst (uid (Samples.callGlobalId "x")) t ∉ operands i)
              (instructions F'))
    [("WorkgroupSize", "llvm.genx.local.size.v3i32", 16);
     ("LocalInvocationId", "llvm.genx.local.id.v3i32", 3);
     ("WorkgroupId", "llvm.genx.group.id." +:+ "x", 7);
     ("NumWorkgroups", "llvm.genx.group.count.v3i32", 100)].
Proof.
  apply (work_item_query_lowering Samples.declaredReturnType
           (Samples.callGlobalId "x") (Samples.fnGlobalId "x") [] "x" 0%nat 64
           Samples.workItem 3 16 7 100).
  - intros nm. reflexivity.
  - intros nm. reflexivity.
  - reflexivity.
  - simpl. lia.
  - apply list_elem_of_here.
  - reflexivity.
  - reflexivity.
  - reflexivity.
  - reflexivity.
Defined.

(** X5: a call of the global-offset query is replaced by the zero of its
    type: no instruction is emitted, every use of the call reads the null
    constant, and the call is queued for erasure. *)
Theorem global_offset_is_zero
    (getDeclarationReturnType : string -> list LType -> LType)
    (CI : Instruction) (F : Function) (E : list nat) (Suff : string) :
  translateSpirvIntrinsic getDeclarationReturnType CI
    ("GlobalOffset_" +:+ Suff +:+ "v") E F
  = Ok (E ++ [uid CI],
        setInstructions F
          (map (fun i => mkInst (uid i) (name i) (opcode i)
                           (map (replaceValue (uid CI) (VNull (type CI))) (operands i))
                           (type i))
             (instructions F))
          (nextId F)).
Proof.
  unfold translateSpirvIntrinsic. destruct F as [simd l n md].
  run_m idtac.
Qed.

End LowerESIMD_WorkItem.

Module LowerESIMD_Pass.

Import LowerESIMD.
Import LowerESIMD_Invariants.

(** ** Instructions the pass leaves alone *)

Lemma startswith_app (s p q : string) :
  startswith s (p +:+ q) = true -> startswith s p = true.
Proof.
  revert s. induction p as [|c p IH]; intros s; [destruct s; reflexivity|].
  change (String c p +:+ q) with (String c (p +:+ q)).
  destruct s as [|e s]; cbn; [discriminate|].
  destruct (Ascii.eqb c e); [apply IH | discriminate].
Qed.

Lemma startswith_longer (s p q : string) :
  startswith s p = false -> startswith s (p +:+ q) = false.
Proof.
  intros H. destruct (startswith s (p +:+ q)) eqn:E; [|reflexivity].
  apply startswith_app in E. congruence.
Qed.

Lemma getInst_elem_of (u : nat) (F : Function) (I : Instruction) :
  getInst u F = Some I -> I ∈ instructions F /\ uid I = u.
Proof.
  unfold getInst. intros H. apply find_some in H as [H1 H2].
  apply bool_decide_eq_true in H2. split; [apply list_elem_of_In, H1 | exact H2].
Qed.

Section Pass.

Variable Parser_parse : string -> option Node.
Variable isOverloadedRet : string -> bool.
Variable isOverloadedArg : string -> nat -> bool.
Variable getDeclarationReturnType : string -> list LType -> LType.

(** What the loop of [run] does not act on: an instruction that is no
    float-to-integer cast and no call of a function whose name, after [_Z]
    and the digits that follow, starts with the prefix of [slm_init], of the
    [__esimd_] intrinsics or of the [__spirv_] queries. *)
Local Abbreviation leftAlone :=
  (fun i : Instruction =>
     opcode i <> FPToUI /\ opcode i <> FPToSI
     /\ forall Callee Name,
          getCalledFunction i = Some Callee ->
          consume_front Callee ESIMD_INTRIN_PREF0 = Some Name ->
          Forall (fun p => startswith (drop_while isdigit Name) p = false)
            ["N2cl4sycl5INTEL3gpu8slm_init"; ESIMD_INTRIN_PREF1; SPIRV_INTRIN_PREF]).

Lemma lowerCast_leftAlone (I : Instruction) (W : Worklists) (F : Function) :
  opcode I <> FPToUI -> opcode I <> FPToSI -> lowerCast I W F = Ok (W, F).
Proof.
  intros H1 H2. unfold lowerCast.
  rewrite !bool_decide_eq_false_2 by tauto. reflexivity.
Qed.

Lemma classifyCall_leftAlone GVTS (I : Instruction) (Callee : string)
    (W : Worklists) (F : Function) :
  leftAlone I -> getCalledFunction I = Some Callee ->
  classifyCall Parser_parse getDeclarationReturnType GVTS I Callee W F = Ok (W, F).
Proof.
  intros (_ & _ & H) HC. unfold classifyCall.
  destruct (consume_front Callee ESIMD_INTRIN_PREF0) as [Name|] eqn:E; [|reflexivity].
  specialize (H _ _ HC E).
  apply Forall_cons in H as [H1 H]. apply Forall_cons in H as [H2 H].
  apply Forall_cons in H as [H3 _].
  rewrite H1.
  assert (P1 : startswith (drop_while isdigit Name) "__esimd_pack_mask" = false)
    by exact (startswith_longer _ ESIMD_INTRIN_PREF1 "pack_mask" H2).
  assert (P2 : startswith (drop_while isdigit Name) "__esimd_unpack_mask" = false)
    by exact (startswith_longer _ ESIMD_INTRIN_PREF1 "unpack_mask" H2).
  assert (P3 : startswith (drop_while isdigit Name) "__esimd_vload" = false)
    by exact (startswith_longer _ ESIMD_INTRIN_PREF1 "vload" H2).
  assert (P4 : startswith (drop_while isdigit Name) "__esimd_vstore" = false)
    by exact (startswith_longer _ ESIMD_INTRIN_PREF1 "vstore" H2).
  assert (P5 : startswith (drop_while isdigit Name) "__esimd_get_value" = false)
    by exact (startswith_longer _ ESIMD_INTRIN_PREF1 "get_value" H2).
  rewrite P1, P2, P3, P4, P5.
  unfold bindM, retM; cbn [rbind].
  unfold consume_front. rewrite H3, H2. rewrite orb_true_r. reflexivity.
Qed.

Lemma visitInstruction_leftAlone GVTS (u : nat) (W : Worklists) (F : Function) :
  Forall leftAlone (instructions F) ->
  visitInstruction Parser_parse getDeclarationReturnType GVTS u W F = Ok (W, F).
Proof.
  intros HF. unfold visitInstruction.
  destruct (getInst u F) as [I|] eqn:E; [|reflexivity].
  pose proof (getInst_elem_of _ _ _ E) as [HI _].
  rewrite Forall_forall in HF. specialize (HF _ HI).
  unfold bindM. rewrite lowerCast_leftAlone by apply HF. cbn [rbind]. rewrite E.
  destruct (getCalledFunction I) as [Callee|] eqn:EC; [|reflexivity].
  apply classifyCall_leftAlone; [|exact EC]. rewrite EC. exact HF.
Qed.

Lemma forEachM_leftAlone GVTS (us : list nat) (W : Worklists) (F : Function) :
  Forall leftAlone (instructions F) ->
  forEachM (visitInstruction Parser_parse getDeclarationReturnType GVTS) us W F = Ok (W, F).
Proof.
  intros HF. induction us as [|u us IH]; cbn; [reflexivity|].
  unfold bindM. rewrite visitInstruction_leftAlone by exact HF. exact IH.
Qed.

(** X6: the pass changes nothing in a function, marked for explicit SIMD or
    not, that has no float-to-integer cast and no call of a function whose
    mangled name is that of [slm_init], of an [__esimd_] intrinsic or of a
    [__spirv_] query: the function comes back as it was, with all analyses
    preserved. *)
Theorem run_leaves_other_code_alone (F : Function) (GVTS : list LType) :
  Forall
    (fun i =>
       opcode i <> FPToUI /\ opcode i <> FPToSI
       /\ forall Callee Name,
            getCalledFunction i = Some Callee ->
            consume_front Callee ESIMD_INTRIN_PREF0 = Some Name ->
            Forall (fun p => startswith (drop_while isdigit Name) p = false)
              ["N2cl4sycl5INTEL3gpu8slm_init"; ESIMD_INTRIN_PREF1; SPIRV_INTRIN_PREF])
    (instructions F) ->
  run Parser_parse isOverloadedRet isOverloadedArg getDeclarationReturnType F GVTS
  = Ok (all, F).
Proof.
  intros HF. unfold run. destruct (negb (sycl_explicit_simd F)); [reflexivity|].
  unfold bindM. rewrite forEachM_leftAlone by exact HF. reflexivity.
Qed.

(** ** The call that a rewrite rule translates *)

Lemma createBefore_Ok CI nm op ops ty F r :
  createBefore CI nm op ops ty F = Ok r ->
  r = (VInst (nextId F) ty,
       setInstructions F
         (insert_before (uid CI) (mkInst (nextId F) nm op ops ty) (instructions F))
         (S (nextId F))).
Proof. intros [= <-]. reflexivity. Qed.

Lemma liftM_Ok {A} (m : Result A) F r :
  liftM m F = Ok r -> exists a, m = Ok a /\ r = (a, F).
Proof. unfold liftM. destruct m; cbn; try discriminate. intros [= <-]. eauto. Qed.

(** Identifiers are handed out in order while arguments are made. *)
Lemma CreateICmpNE_grows CI Arg Zero F r :
  CreateICmpNE CI Arg Zero F = Ok r -> (nextId F <= nextId r.2)%nat.
Proof.
  unfold CreateICmpNE. destruct Arg; intros H;
    try (apply retM_Ok in H; subst; cbn; lia);
    apply createBefore_Ok in H; subst; cbn; lia.
Qed.

Lemma CreateCast_grows CI op V DestTy F r :
  CreateCast CI op V DestTy F = Ok r -> (nextId F <= nextId r.2)%nat.
Proof.
  unfold CreateCast. case_decide; [intros HH; apply retM_Ok in HH; subst; cbn; lia|].
  destruct V; intros HH;
    try (apply retM_Ok in HH; subst; cbn; lia);
    apply createBefore_Ok in HH; subst; cbn; lia.
Qed.

Lemma createESIMDIntrinsicArg_grows CI FE R Args L F r :
  createESIMDIntrinsicArg CI FE R Args L F = Ok r -> (nextId F <= nextId r.2)%nat.
Proof.
  unfold createESIMDIntrinsicArg. intros H.
  destruct (Kind R);
    repeat match goal with
    | H : bindM _ _ _ = Ok _ |- _ =>
        apply bindM_Ok in H; destruct H as (? & ? & ? & ?)
    | H : retM _ _ = Ok _ |- _ => apply retM_Ok in H; subst
    | H : assertM _ _ _ = Ok _ |- _ => apply assertM_Ok in H; destruct H as [? ?]; subst
    | H : liftM _ _ = Ok _ |- _ => apply liftM_Ok in H; destruct H as (? & ? & ?); subst
    | H : (_, _) = (_, _) |- _ => injection H as ? ?; subst
    | H : (let '(_, _) := ?p in _) _ = Ok _ |- _ => destruct p
    | H : (if ?c then _ else _) _ = Ok _ |- _ => destruct c
    | H : CreateICmpNE _ _ _ _ = Ok _ |- _ => apply CreateICmpNE_grows in H; cbn in H
    | H : CreateCast _ _ _ _ _ = Ok _ |- _ => apply CreateCast_grows in H; cbn in H
    end; cbn; try lia; try discriminate.
Qed.

Lemma createESIMDIntrinsicArgsFrom_grows CI FE Rules :
  forall Args L F r,
    createESIMDIntrinsicArgsFrom CI FE Rules Args L F = Ok r ->
    (nextId F <= nextId r.2)%nat.
Proof.
  induction Rules as [|R Rules IH]; intros Args L F r H; cbn in H.
  - apply retM_Ok in H. subst. cbn. lia.
  - apply bindM_Ok in H as (x & F1 & H0 & H).
    apply createESIMDIntrinsicArg_grows in H0. apply IH in H. cbn in H0. lia.
Qed.

Lemma elem_of_insert_before (u : nat) (i j : Instruction) (l : list Instruction) :
  j ∈ insert_before u i l <-> j = i \/ j ∈ l.
Proof.
  induction l as [|k l IH]; cbn.
  - rewrite list_elem_of_singleton. split; [auto|]. intros [H|H]; [exact H|inversion H].
  - case_decide.
    + apply elem_of_cons.
    + rewrite !elem_of_cons, IH. tauto.
Qed.

(** X7: when a rewrite rule translates a call, a call of the target
    intrinsic [llvm.genx.<spelling><suffix>] of the rule is in the function
    afterwards, the translated call is no longer there, and no instruction
    uses it. *)
Theorem translated_call_is_replaced (CI : Instruction) (F F' : Function) :
  (uid CI < nextId F)%nat ->
  translateESIMDIntrinsicCall Parser_parse isOverloadedRet isOverloadedArg
    getDeclarationReturnType CI F = Ok (tt, F') ->
  Forall (fun i => uid i <> uid CI /\ forall t, VInst (uid CI) t ∉ operands i)
    (instructions F')
  /\ exists MnglName FE D Suffix NewCI,
       getCalledFunction CI = Some MnglName
       /\ demangleIntrinsic Parser_parse MnglName = Ok FE
       /\ getIntrinDesc (drop_front (String.length ESIMD_INTRIN_PREF1) (getBaseName FE))
          = Ok D
       /\ getESIMDIntrinSuffix FE (getFunctionType CI) (SuffixRule D) = Ok Suffix
       /\ NewCI ∈ instructions F'
       /\ opcode NewCI
          = Call (Some (getGenXIntrinsicPrefix +:+ GenXSpelling D +:+ Suffix)).
Proof.
  intros Hu H. unfold translateESIMDIntrinsicCall in H.
  destruct (getCalledFunction CI) as [MnglName|] eqn:EC; [|discriminate].
  apply bindM_Ok in H as (FE & Fa & H0 & H).
  apply liftM_Ok in H0 as (? & HFE & [= <- <-]).
  apply bindM_Ok in H as (D & Fb & H0 & H).
  apply liftM_Ok in H0 as (? & HD & [= <- <-]).
  pose proof (getIntrinDesc_valid _ _ HD) as HV.
  rewrite HV in H. cbn [negb] in H.
  apply bindM_Ok in H as (Suffix & Fc & H0 & H).
  apply liftM_Ok in H0 as (? & HS & [= <- <-]).
  apply bindM_Ok in H as (GenXArgs & F1 & HA & H).
  apply createESIMDIntrinsicArgsFrom_grows in HA. cbn [snd] in HA.
  apply bindM_Ok in H as (NewCI & F2 & HN & H).
  apply createBefore_Ok in HN. injection HN as HN1 HN2. subst NewCI F2.
  apply bindM_Ok in H as (NewCI' & F3 & HC & H).
  apply bindM_Ok in H as ([] & F4 & HR & H).
  injection HR as HR. subst F4. injection H as H. subst F'.
  cbn [instructions setInstructions nextId] in *.
  set (new := mkInst (nextId F1) _ _ _ _) in *.
  assert (HN' : exists l3, instructions F3 = l3 /\ new ∈ l3
                           /\ forall t, NewCI' <> VInst (uid CI) t).
  { unfold addCastInstIfNeeded in HC. case_decide.
    - apply retM_Ok in HC. injection HC as -> ->. eexists. split; [reflexivity|].
      split; [apply elem_of_insert_before; auto|]. intros t [= E]. lia.
    - apply createBefore_Ok in HC. injection HC as -> ->.
      eexists. split; [reflexivity|]. cbn [instructions setInstructions nextId].
      split; [apply elem_of_insert_before; right; apply elem_of_insert_before; auto|].
      intros t [= E]. lia. }
  destruct HN' as (l3 & -> & Hin & Hne).
  split.
  - apply Forall_forall. intros i Hi.
    apply list_elem_of_filter in Hi as [Hi1 Hi2]. split; [exact Hi1|].
    pose proof (LowerESIMD_Properties.no_use_after_rauw (uid CI) NewCI' l3 Hne) as HF.
    rewrite Forall_forall in HF. exact (HF _ Hi2).
  - exists MnglName, FE, D, Suffix.
    eexists. repeat split; try eassumption; try reflexivity.
    + apply list_elem_of_filter. split; [|apply list_elem_of_fmap; eexists; split; [reflexivity|exact Hin]].
      subst new; cbn. lia.
    + reflexivity.
Qed.

End Pass.

Lemma run_leaves_other_code_alone_witness :
  run Samples.demangle Samples.notOverloaded Samples.noArgOverloaded
    Samples.declaredReturnType
    (mkFunction true
       [mkInst 0 "r" (Call (Some "_Z3fooi")) [VArgument 0 (IntegerTy 32)] (IntegerTy 32);
        mkInst 1 "s" Add [VInst 0 (IntegerTy 32); VConstantInt (IntegerTy 32) 1]
          (IntegerTy 32)]
       2 None) []
  = Ok (all,
        mkFunction true
          [mkInst 0 "r" (Call (Some "_Z3fooi")) [VArgument 0 (IntegerTy 32)] (IntegerTy 32);
           mkInst 1 "s" Add [VInst 0 (IntegerTy 32); VConstantInt (IntegerTy 32) 1]
             (IntegerTy 32)]
          2 None).
Proof.
  apply (run_leaves_other_code_alone Samples.demangle Samples.notOverloaded
           Samples.noArgOverloaded Samples.declaredReturnType).
  repeat apply List.Forall_cons; [| |apply List.Forall_nil];
    (split; [discriminate|split; [discriminate|]]);
    intros Callee Name; cbn; intros [= <-]; try discriminate;
    vm_compute; intros [= <-]; repeat constructor.
Defined.

Lemma translated_call_is_replaced_witness :
  Forall (fun i => uid i <> 0%nat /\ forall t, VInst 0 t ∉ operands i)
    [mkInst 2 "v.esimd" (Call (Some "llvm.genx.vload")) [VArgument 0 PointerTy]
       Samples.v8i32;
     mkInst 1 EmptyString (OtherOp "ret") [VInst 2 Samples.v8i32] VoidTy]
  /\ exists MnglName FE D Suffix NewCI,
       getCalledFunction Samples.callVLoad = Some MnglName
       /\ demangleIntrinsic Samples.demangle MnglName = Ok FE
       /\ getIntrinDesc (drop_front (String.length ESIMD_INTRIN_PREF1) (getBaseName FE))
          = Ok D
       /\ getESIMDIntrinSuffix FE (getFunctionType Samples.callVLoad) (SuffixRule D)
          = Ok Suffix
       /\ NewCI ∈ [mkInst 2 "v.esimd" (Call (Some "llvm.genx.vload"))
                     [VArgument 0 PointerTy] Samples.v8i32;
                   mkInst 1 EmptyString (OtherOp "ret") [VInst 2 Samples.v8i32] VoidTy]
       /\ opcode NewCI
          = Call (Some (getGenXIntrinsicPrefix +:+ GenXSpelling D +:+ Suffix)).
Proof.
  apply (translated_call_is_replaced Samples.demangle (fun _ => true)
           Samples.noArgOverloaded Samples.declaredReturnType Samples.callVLoad
           (mkFunction true
              [Samples.callVLoad;
               mkInst 1 EmptyString (OtherOp "ret") [VInst 0 Samples.v8i32] VoidTy]
              2 None)
           (mkFunction true
              [mkInst 2 "v.esimd" (Call (Some "llvm.genx.vload")) [VArgument 0 PointerTy]
                 Samples.v8i32;
               mkInst 1 EmptyString (OtherOp "ret") [VInst 2 Samples.v8i32] VoidTy]
              3 None)).
  - simpl. lia.
  - reflexivity.
Defined.

End LowerESIMD_Pass.

Module LowerESIMD_Casts.

Import LowerESIMD.

Lemma getArgOperand_0 (CI : Instruction) (v : Value) :
  operands CI !! 0%nat = Some v -> getArgOperand CI 0 = Ok v.
Proof.
  intros H. unfold getArgOperand. rewrite decide_True by lia.
  change (Z.to_nat 0) with 0%nat. rewrite H. reflexivity.
Qed.

(** X8: a float-to-unsigned cast to a vector of integers of at most 32 bits
    (or a float-to-signed cast to one of fewer than 32 bits) is redone in
    front of itself as a float-to-signed cast to a vector of [i32] followed,
    when the destination is narrower, by a truncation; every use of the cast
    reads the new value and the cast is queued for erasure.  With a scalar
    destination the pass aborts on [cast<FixedVectorType>]. *)
Theorem float_to_int_cast_lowering
    (CastOp : Instruction) (W : Worklists) (F : Function)
    (Src : Value) (b n : Z) :
  (opcode CastOp = FPToUI /\ b <= 32) \/ (opcode CastOp = FPToSI /\ b < 32) ->
  operands CastOp = [Src] ->
  isConstant Src = false ->
  isFloatingPointTy (getScalarType (typeOf Src)) = true ->
  (type CastOp = FixedVectorTy (IntegerTy b) n ->
   let conv := mkInst (nextId F) EmptyString FPToSI [Src]
                 (FixedVectorTy (IntegerTy 32) n) in
   let narrow := mkInst (S (nextId F)) EmptyString Trunc [asValue conv]
                   (FixedVectorTy (IntegerTy b) n) in
   let NewDst := if decide (b = 32) then asValue conv else asValue narrow in
   let emitted :=
     if decide (b = 32) then insert_before (uid CastOp) conv (instructions F)
     else insert_before (uid CastOp) narrow
            (insert_before (uid CastOp) conv (instructions F)) in
   lowerCast CastOp W F
   = Ok (mkWorklists (ESIMDIntrCalls W) (ESIMDToErases W ++ [uid CastOp]),
         setInstructions F
           (map (fun i => mkInst (uid i) (name i) (opcode i)
                            (map (replaceValue (uid CastOp) NewDst) (operands i))
                            (type i))
              emitted)
           (if decide (b = 32) then S (nextId F) else S (S (nextId F)))))
  /\ (type CastOp = IntegerTy b ->
      lowerCast CastOp W F = Unreachable "cast<FixedVectorType>(DstTy)").
Proof.
  intros HK Hops HC HS. split; intros HT; unfold lowerCast; rewrite HT;
    cbn [getScalarType getPrimitiveSizeInBits].
  - assert (HB : bool_decide (opcode CastOp = FPToUI /\ b <= 32)
                 || bool_decide (opcode CastOp = FPToSI /\ b < 32) = true).
    { destruct HK as [HK|HK]; [rewrite (bool_decide_eq_true_2 _ HK); reflexivity|].
      rewrite (bool_decide_eq_true_2 (_ /\ b < 32) HK). apply orb_true_r. }
    rewrite HB. rewrite (getArgOperand_0 CastOp Src) by (rewrite Hops; reflexivity).
    unfold bindM, liftM; cbn [rbind].
    assert (HSrc : typeOf Src <> FixedVectorTy (IntegerTy 32) n).
    { intros E. rewrite E in HS. discriminate. }
    unfold CreateCast at 1. rewrite decide_False by exact HSrc.
    destruct Src as [u t|k t|t v|t|t]; try discriminate; cbn [rbind createBefore];
      (destruct (decide (b = 32)) as [->|Hb];
       [ unfold CreateCast; cbn [typeOf asValue type]; rewrite decide_True by reflexivity;
         cbn; reflexivity
       | unfold CreateCast; cbn [typeOf asValue type];
         rewrite decide_False by congruence; cbn; reflexivity ]).
  - assert (HB : bool_decide (opcode CastOp = FPToUI /\ b <= 32)
                 || bool_decide (opcode CastOp = FPToSI /\ b < 32) = true).
    { destruct HK as [HK|HK]; [rewrite (bool_decide_eq_true_2 _ HK); reflexivity|].
      rewrite (bool_decide_eq_true_2 (_ /\ b < 32) HK). apply orb_true_r. }
    rewrite HB. rewrite (getArgOperand_0 CastOp Src) by (rewrite Hops; reflexivity).
    reflexivity.
Qed.

Lemma float_to_int_cast_lowering_witness :
  lowerCast
    (mkInst 1 "c" FPToUI [VArgument 0 (FixedVectorTy FloatTy 8)]
       (FixedVectorTy (IntegerTy 8) 8))
    (mkWorklists [] [])
    (mkFunction true
       [mkInst 1 "c" FPToUI [VArgument 0 (FixedVectorTy FloatTy 8)]
          (FixedVectorTy (IntegerTy 8) 8);
        mkInst 2 EmptyString (OtherOp "ret") [VInst 1 (FixedVectorTy (IntegerTy 8) 8)]
          VoidTy]
       3 None)
  = Ok (mkWorklists [] [1%nat],
        mkFunction true
          [mkInst 3 EmptyString FPToSI [VArgument 0 (FixedVectorTy FloatTy 8)]
             (FixedVectorTy (IntegerTy 32) 8);
           mkInst 4 EmptyString Trunc [VInst 3 (FixedVectorTy (IntegerTy 32) 8)]
             (FixedVectorTy (IntegerTy 8) 8);
           mkInst 1 "c" FPToUI [VArgument 0 (FixedVectorTy FloatTy 8)]
             (FixedVectorTy (IntegerTy 8) 8);
           mkInst 2 EmptyString (OtherOp "ret")
             [VInst 4 (FixedVectorTy (IntegerTy 8) 8)] VoidTy]
          5 None).
Proof.
  destruct (float_to_int_cast_lowering
              (mkInst 1 "c" FPToUI [VArgument 0 (FixedVectorTy FloatTy 8)]
                 (FixedVectorTy (IntegerTy 8) 8))
              (mkWorklists [] [])
              (mkFunction true
                 [mkInst 1 "c" FPToUI [VArgument 0 (FixedVectorTy FloatTy 8)]
                    (FixedVectorTy (IntegerTy 8) 8);
                  mkInst 2 EmptyString (OtherOp "ret")
                    [VInst 1 (FixedVectorTy (IntegerTy 8) 8)] VoidTy]
                 3 None)
              (VArgument 0 (FixedVectorTy FloatTy 8)) 8 8) as [H _].
  - left. split; [reflexivity|lia].
  - reflexivity.
  - reflexivity.
  - reflexivity.
  - exact (H eq_refl).
Defined.

(** ** Loads through [__esimd_vload] *)

(** X9: a call of [__esimd_vload] whose result has one of the vector types
    of the [genx_volatile] globals is not rewritten in the loop: it is
    recorded for the translation through the table of rewrite rules, and the
    function is unchanged.  With any other result type, a load from the
    first operand is put in front of the call, every use of the call reads
    the load, and the call is queued for erasure. *)
Theorem vload_by_volatile_type
    (Parser_parse : string -> option Node)
    (getDeclarationReturnType : string -> list LType -> LType)
    (GVTS : list LType) (CI : Instruction) (Callee Name Rest : string)
    (W : Worklists) (F : Function) (Ptr : Value) :
  consume_front Callee ESIMD_INTRIN_PREF0 = Some Name ->
  drop_while isdigit Name = "__esimd_vload" +:+ Rest ->
  operands CI !! 0%nat = Some Ptr ->
  classifyCall Parser_parse getDeclarationReturnType GVTS CI Callee W F
  = if bool_decide (type CI ∈ GVTS) then
      Ok (mkWorklists (ESIMDIntrCalls W ++ [uid CI]) (ESIMDToErases W), F)
    else
      let LI := mkInst (nextId F) (name CI) Load [Ptr] (type CI) in
      Ok (mkWorklists (ESIMDIntrCalls W) (ESIMDToErases W ++ [uid CI]),
          setInstructions F
            (map (fun i => mkInst (uid i) (name i) (opcode i)
                             (map (replaceValue (uid CI) (asValue LI)) (operands i))
                             (type i))
               (insert_before (uid CI) LI (instructions F)))
            (S (nextId F))).
Proof.
  intros HC HN HP. unfold classifyCall. rewrite HC, HN.
  change (startswith ("__esimd_vload" +:+ Rest) "N2cl4sycl5INTEL3gpu8slm_init") with false.
  change (startswith ("__esimd_vload" +:+ Rest) "__esimd_pack_mask") with false.
  change (startswith ("__esimd_vload" +:+ Rest) "__esimd_unpack_mask") with false.
  change (startswith ("__esimd_vload" +:+ Rest) "__esimd_vload")
    with (startswith Rest EmptyString).
  assert (HE : startswith Rest EmptyString = true) by (destruct Rest; reflexivity).
  rewrite HE. cbv iota.
  unfold translateVLoad. destruct (bool_decide (type CI ∈ GVTS)) eqn:EG.
  - unfold bindM, retM; cbn [rbind].
    change (startswith ("__esimd_vload" +:+ Rest) "__esimd_vstore") with false.
    change (startswith ("__esimd_vload" +:+ Rest) "__esimd_get_value") with false.
    cbv iota. reflexivity.
  - rewrite (getArgOperand_0 CI Ptr HP). reflexivity.
Qed.

Lemma vload_by_volatile_type_witness :
  classifyCall Samples.demangle Samples.declaredReturnType [Samples.v8i32]
    Samples.callVLoad "_Z13__esimd_vloadIiLi8EEvPv" (mkWorklists [] []) Samples.fnVLoad
  = Ok (mkWorklists [0%nat] [], Samples.fnVLoad).
Proof.
  apply (vload_by_volatile_type Samples.demangle Samples.declaredReturnType
           [Samples.v8i32] Samples.callVLoad "_Z13__esimd_vloadIiLi8EEvPv"
           "13__esimd_vloadIiLi8EEvPv" "IiLi8EEvPv" (mkWorklists [] [])
           Samples.fnVLoad (VArgument 0 PointerTy));
    reflexivity.
Defined.

End LowerESIMD_Casts.

(** * Further properties of the kernel construction *)

Module SemaSYCL_Builders.

Import SemaSYCL.
Import SemaSYCL_Properties.

Local Abbreviation cH := constructHandlers.
Local Abbreviation crd := constructRequiresDecomposition.

(** ** The stacks and counters of the builders *)

(** X10: the walk of a kernel object of a shape the builders can walk ends
    with every counter and stack of the three builders as it started: the
    three struct depths are zero, the current offset of the header builder
    is zero, no array is open in the body builder or in the header builder,
    and the only base of member expressions is the kernel object; the walk
    marks nothing for decomposition. *)
Theorem construction_is_balanced (S : Sema) (simd : bool) (K : CXXRecordDecl) :
  legalKernelObject S simd K = true ->
  exists s,
    ConstructOpenCLKernel K S simd = Ok s
    /\ DC_StructDepth (decl s) = 0
    /\ BC_StructDepth (body s) = 0
    /\ IH_StructDepth (hdr s) = 0
    /\ CurOffset (hdr s) = 0
    /\ ArrayBaseOffsets (hdr s) = []
    /\ ArrayInfos (body s) = []
    /\ MemberExprBases (body s) = MemberExprBases SyclKernelBodyCreator.initial
    /\ RequiresDecomposition (cs_Sema s) = RequiresDecomposition S.
Proof.
  intros HL. destruct (kernel_object_frame S simd K HL) as (s & E & []).
  exists s. repeat split; assumption.
Qed.

Lemma construction_is_balanced_witness :
  exists s,
    ConstructOpenCLKernel KernelSamples.kernelObject KernelSamples.checkedSema false = Ok s
    /\ DC_StructDepth (decl s) = 0
    /\ BC_StructDepth (body s) = 0
    /\ IH_StructDepth (hdr s) = 0
    /\ CurOffset (hdr s) = 0
    /\ ArrayBaseOffsets (hdr s) = []
    /\ ArrayInfos (body s) = []
    /\ MemberExprBases (body s) = MemberExprBases SyclKernelBodyCreator.initial
    /\ RequiresDecomposition (cs_Sema s)
       = RequiresDecomposition KernelSamples.checkedSema.
Proof.
  apply (construction_is_balanced KernelSamples.checkedSema false
           KernelSamples.kernelObject).
  vm_compute. reflexivity.
Defined.

(** ** Kernel objects of plain fields *)

Lemma leaf_step S simd O (F : FieldDecl) (s : ConstructState) :
  isLeafType (getType F) = true ->
  inWalk S simd s ->
  DC_StructDepth (decl s) = 0 -> IH_StructDepth (hdr s) = 0 -> CurOffset (hdr s) = 0 ->
  exists s',
    visitField _ crd cH O F (getType F) s = Ok s' /\ sameFrame s s' /\
    Params (decl s')
    = Params (decl s)
      ++ [SyclKernelDeclCreator.makeParamDesc F
            (SyclKernelDeclCreator.globalPointer (getType F))] /\
    KernelParams (hdr s')
    = KernelParams (hdr s)
      ++ [mkKernelParamDesc
            (if isPointerType (getType F) then kind_pointer else kind_std_layout)
            (sextBits 32 (zextBits 32 (getTypeSizeInChars (getType F))))
            (zextBits 32 (getFieldOffset F `div` 8))].
Proof.
  intros HT HW HD HI HO.
  assert (HA : isArrayElement F (getType F) = true -> ArrayInfos (body s) <> [])
    by (rewrite isArrayElement_own_type; discriminate).
  assert (HOff : zextBits 32 (zextBits 32
                   (CurOffset (hdr s) + SyclKernelIntHeaderCreator.offsetOf F (getType F)))
                 = zextBits 32 (getFieldOffset F `div` 8)).
  { rewrite zextBits_idem, HO. unfold SyclKernelIntHeaderCreator.offsetOf.
    rewrite isArrayElement_own_type. reflexivity. }
  destruct HW as (W & HW'). destruct (getType F) as [| | | | | | | | | | | | |] eqn:ET;
    try discriminate HT.
  - destruct (event_leaf F (HalfType RD) s W HA) as (s' & E & Fr & HP & HK).
    exists s'. cbn [visitField].
    change (KF_FOR_EACH _ cH (handleSyclHalfType F (HalfType RD)) s)
      with (KF_FOR_EACH _ cH (handleScalarType F (HalfType RD)) s).
    rewrite E. rewrite HOff in HK.
    split; [reflexivity|]. split; [exact Fr|]. split; [exact HP | exact HK].
  - destruct (event_leaf F (UnionType RD) s W HA) as (s' & E & Fr & HP & HK).
    exists s'. rewrite visitField_union.
    change (KF_FOR_EACH _ cH (handleUnionType F (UnionType RD)) s)
      with (KF_FOR_EACH _ cH (handleScalarType F (UnionType RD)) s).
    rewrite E. rewrite HOff in HK.
    split; [reflexivity|]. split; [exact Fr|]. split; [exact HP | exact HK].
  - destruct (event_pointer F (PointerType q AS) s W HA) as (s' & E & Fr & HP & HK).
    exists s'. cbn [visitField]. rewrite E.
    rewrite HD in HP. rewrite HI in HK. rewrite HOff in HK.
    rewrite decide_False in HP by (intros X; apply X; reflexivity).
    rewrite decide_False in HK by (intros X; apply X; reflexivity).
    split; [reflexivity|]. split; [exact Fr|]. split; [exact HP | exact HK].
  - destruct (event_leaf F (ScalarType Name SizeInChars) s W HA)
      as (s' & E & Fr & HP & HK).
    exists s'. cbn [visitField]. rewrite E. rewrite HOff in HK.
    split; [reflexivity|]. split; [exact Fr|]. split; [exact HP | exact HK].
Qed.

Lemma leaf_fields S simd O (l : list FieldDecl) :
  forallb (fun F => isLeafType (getType F)) l = true ->
  forall s,
    inWalk S simd s ->
    DC_StructDepth (decl s) = 0 -> IH_StructDepth (hdr s) = 0 -> CurOffset (hdr s) = 0 ->
    exists s',
      foldM _ (fun F s => visitField _ crd cH O F (getType F) s) l s = Ok s' /\
      Params (decl s')
      = Params (decl s)
        ++ map (fun F => SyclKernelDeclCreator.makeParamDesc F
                           (SyclKernelDeclCreator.globalPointer (getType F))) l /\
      KernelParams (hdr s')
      = KernelParams (hdr s)
        ++ map (fun F => mkKernelParamDesc
                           (if isPointerType (getType F) then kind_pointer
                            else kind_std_layout)
                           (sextBits 32 (zextBits 32 (getTypeSizeInChars (getType F))))
                           (zextBits 32 (getFieldOffset F `div` 8))) l.
Proof.
  induction l as [|F l IH]; intros HL s HW HD HI HO.
  - exists s. cbn. rewrite !app_nil_r. auto.
  - cbn in HL. apply andb_prop in HL as [HF HL].
    destruct (leaf_step S simd O F s HF HW HD HI HO) as (s1 & E1 & Fr & HP & HK).
    destruct (IH HL s1) as (s2 & E2 & HP2 & HK2).
    + eapply inWalk_sameFrame; eassumption.
    + destruct Fr. congruence.
    + destruct Fr. congruence.
    + destruct Fr. congruence.
    + exists s2. cbn. rewrite E1. cbn [rbind]. split; [exact E2|].
      rewrite HP2, HK2, HP, HK. rewrite <- !app_assoc. auto.
Qed.

(** X11: for a kernel object without bases whose fields are scalars,
    pointers, unions and halves, the kernel gets one parameter for each
    field, in the order of the fields, named [_arg_<field>] and of the type
    of the field (a pointer with its pointee moved to the global address
    space), and the integration header one descriptor for each field, with
    the size and the byte offset of the field and the kind [kind_pointer] for
    a pointer, [kind_std_layout] otherwise. *)
Theorem plain_kernel_parameters (S : Sema) (simd : bool) (K : CXXRecordDecl) :
  bases K = [] ->
  forallb (fun F => isLeafType (getType F)) (fields K) = true ->
  exists s,
    ConstructOpenCLKernel K S simd = Ok s
    /\ Params (decl s)
       = map (fun F => mkParmVarDecl
                         (SyclKernelDeclCreator.globalPointer (getType F))
                         ("_arg_" +:+ getName F) [])
           (fields K)
    /\ KernelParams (hdr s)
       = map (fun F => mkKernelParamDesc
                         (if isPointerType (getType F) then kind_pointer
                          else kind_std_layout)
                         (sextBits 32 (zextBits 32 (getTypeSizeInChars (getType F))))
                         (zextBits 32 (getFieldOffset F `div` 8)))
           (fields K).
Proof.
  intros HB HF. unfold ConstructOpenCLKernel, VisitRecordBases, VisitRecordFields.
  rewrite HB. cbn [foldM rbind].
  destruct (leaf_fields S simd K (fields K) HF (initialConstructState S simd))
    as (s & E & HP & HK); try reflexivity.
  - apply inWalk_initial.
  - exists s. split; [exact E|]. split; [exact HP | exact HK].
Qed.

Lemma plain_kernel_parameters_witness :
  exists s,
    ConstructOpenCLKernel
      (mkRecordDecl "K" []
         [mkFieldDecl "K" "n" KernelSamples.intTy 0;
          mkFieldDecl "K" "p" KernelSamples.intPtrTy 64]
         [] 16 true true true)
      KernelSamples.noMarks false = Ok s
    /\ Params (decl s)
       = [mkParmVarDecl KernelSamples.intTy "_arg_n" [];
          mkParmVarDecl (PointerType KernelSamples.intTy opencl_global) "_arg_p" []]
    /\ KernelParams (hdr s)
       = [mkKernelParamDesc kind_std_layout 4 0; mkKernelParamDesc kind_pointer 8 8].
Proof.
  apply (plain_kernel_parameters KernelSamples.noMarks false
           (mkRecordDecl "K" []
              [mkFieldDecl "K" "n" KernelSamples.intTy 0;
               mkFieldDecl "K" "p" KernelSamples.intPtrTy 64]
              [] 16 true true true));
    reflexivity.
Defined.

(** ** The descriptor of an accessor *)

Lemma lor_shiftl_low (T D : Z) :
  0 <= T < 2 ^ 11 -> 0 <= D ->
  Z.land (Z.lor T (Z.shiftl D 11)) (Z.ones 11) = T.
Proof.
  intros HT HD. rewrite Z.land_ones by lia.
  rewrite <- Z.land_ones by lia. apply Z.bits_inj'. intros n Hn.
  rewrite Z.land_spec, Z.lor_spec, Z.shiftl_spec by lia.
  destruct (decide (n < 11)) as [Hlt|Hge].
  - rewrite (Z.testbit_neg_r D) by lia. rewrite orb_false_r.
    rewrite Z.ones_spec_low by lia. apply andb_true_r.
  - rewrite Z.ones_spec_high by lia. rewrite andb_false_r.
    symmetry. apply Z.bits_above_log2; [lia|].
    destruct (decide (T = 0)) as [->|HT0]; [cbn; lia|].
    assert (Z.log2 T < 11) by (apply Z.log2_lt_pow2; lia). lia.
Qed.

Lemma lor_shiftl_high (T D : Z) :
  0 <= T < 2 ^ 11 -> 0 <= D ->
  Z.shiftr (Z.lor T (Z.shiftl D 11)) 11 = D.
Proof.
  intros HT HD. rewrite Z.shiftr_lor, Z.shiftr_shiftl_l by lia.
  rewrite Z.sub_diag, Z.shiftl_0_r.
  rewrite Z.shiftr_div_pow2 by lia. rewrite Z.div_small by lia. reflexivity.
Qed.

Lemma lor_shiftl_bound (T D : Z) :
  0 <= T < 2 ^ 11 -> 0 <= D < 2 ^ 20 ->
  0 <= Z.lor T (Z.shiftl D 11) < 2 ^ 31.
Proof.
  intros HT HD. split.
  - apply Z.lor_nonneg. split; [lia|]. apply Z.shiftl_nonneg. lia.
  - destruct (decide (Z.lor T (Z.shiftl D 11) = 0)) as [->|Hne]; [lia|].
    apply Z.log2_lt_pow2.
    + assert (0 <= Z.lor T (Z.shiftl D 11)); [|lia].
      apply Z.lor_nonneg. split; [lia|]. apply Z.shiftl_nonneg. lia.
    + rewrite Z.log2_lor by (try lia; apply Z.shiftl_nonneg; lia).
      apply Z.max_lub_lt.
      * destruct (decide (T = 0)) as [->|HT0]; [change (Z.log2 0) with 0; lia|].
        assert (Z.log2 T < 11) by (apply Z.log2_lt_pow2; lia). lia.
      * destruct (decide (D = 0)) as [->|HD0];
          [rewrite Z.shiftl_0_l; change (Z.log2 0) with 0; lia|].
        rewrite Z.log2_shiftl by lia.
        assert (Z.log2 D < 20) by (apply Z.log2_lt_pow2; lia). lia.
Qed.

Lemma sextBits_small (w v : Z) : 0 < w -> 0 <= v < 2 ^ (w - 1) -> sextBits w v = v.
Proof.
  intros Hw Hv. unfold sextBits. cbv zeta.
  assert (2 ^ (w - 1) < 2 ^ w) by (apply Z.pow_lt_mono_r; lia).
  rewrite Z.mod_small by lia. rewrite decide_True by lia. reflexivity.
Qed.

(** X12: the descriptor that the header builder records for an accessor
    field packs the access target into the low eleven bits of its info word
    and the number of dimensions above them: with a target below 2048 and a
    number of dimensions below 2^20, masking gives the target back and
    shifting gives the dimensions back. *)
Theorem accessor_info_round_trip
    (FD : FieldDecl) (RD : CXXRecordDecl) (Dims AccessTarget : Z)
    (locs : list Z) (ds : list DiagID) (s : ConstructState) :
  0 <= AccessTarget < 2 ^ 11 ->
  0 <= Dims < 2 ^ 20 ->
  exists d,
    SyclKernelIntHeaderCreator.handle
      (handleSyclAccessorType FD (AccessorType RD Dims AccessTarget locs ds)) s
    = Ok (true,
          withHdr s
            (mkIntHeader (KernelParams (hdr s) ++ [d]) (SpecConsts (hdr s))
               (CurOffset (hdr s)) (ArrayBaseOffsets (hdr s)) (IH_StructDepth (hdr s))))
    /\ PD_Kind d = kind_accessor
    /\ Z.land (PD_Info d) (Z.ones 11) = AccessTarget
    /\ Z.shiftr (PD_Info d) 11 = Dims.
Proof.
  intros HT HD. eexists. split; [reflexivity|]. cbn [PD_Kind PD_Info].
  rewrite (sextBits_small 32 AccessTarget) by lia.
  rewrite (sextBits_small 32 Dims) by lia.
  rewrite (sextBits_small 32 (Z.lor _ _)) by (try lia; apply lor_shiftl_bound; lia).
  split; [reflexivity|]. split.
  - apply lor_shiftl_low; lia.
  - apply lor_shiftl_high; lia.
Qed.

Lemma accessor_info_round_trip_witness :
  exists d,
    SyclKernelIntHeaderCreator.handle
      (handleSyclAccessorType (mkFieldDecl "K" "acc" KernelSamples.accessorTy 0)
         (AccessorType KernelSamples.accessorDecl 1 2014 [] []))
      (initialConstructState KernelSamples.noMarks false)
    = Ok (true,
          withHdr (initialConstructState KernelSamples.noMarks false)
            (mkIntHeader
               (KernelParams (hdr (initialConstructState KernelSamples.noMarks false))
                  ++ [d])
               (SpecConsts (hdr (initialConstructState KernelSamples.noMarks false)))
               (CurOffset (hdr (initialConstructState KernelSamples.noMarks false)))
               (ArrayBaseOffsets (hdr (initialConstructState KernelSamples.noMarks false)))
               (IH_StructDepth (hdr (initialConstructState KernelSamples.noMarks false)))))
    /\ PD_Kind d = kind_accessor
    /\ Z.land (PD_Info d) (Z.ones 11) = 2014
    /\ Z.shiftr (PD_Info d) 11 = 1.
Proof.
  apply (accessor_info_round_trip (mkFieldDecl "K" "acc" KernelSamples.accessorTy 0)
           KernelSamples.accessorDecl 1 2014 [] []
           (initialConstructState KernelSamples.noMarks false)); lia.
Defined.

End SemaSYCL_Builders.

Module SemaSYCL_Attributes.

Import SemaSYCL.

(** ** Attributes propagated to the kernel *)

Lemma getReqdWorkGroupSizeAttr_Some (l : list Attr) (E : Attr) (D : WorkGroupSize) :
  getReqdWorkGroupSizeAttr l = Some (E, D) ->
  E ∈ l /\ getKind E = ReqdWorkGroupSize D.
Proof.
  induction l as [|A l IH]; cbn; [discriminate|].
  destruct (getKind A) eqn:EK;
    try (intros H; destruct (IH H); split; [by apply list_elem_of_further | done]).
  intros [= <- <-]. split; [apply list_elem_of_here | exact EK].
Qed.

Lemma getIntelReqdSubGroupSizeAttr_Some (l : list Attr) (E : Attr) (V : Z) :
  getIntelReqdSubGroupSizeAttr l = Some (E, V) ->
  E ∈ l /\ getKind E = IntelReqdSubGroupSize V.
Proof.
  induction l as [|A l IH]; cbn; [discriminate|].
  destruct (getKind A) eqn:EK;
    try (intros H; destruct (IH H); split; [by apply list_elem_of_further | done]).
  intros [= <- <-]. split; [apply list_elem_of_here | exact EK].
Qed.

Lemma getReqdWorkGroupSizeAttr_None (l : list Attr) :
  getReqdWorkGroupSizeAttr l = None ->
  List.filter (fun A => match getKind A with ReqdWorkGroupSize _ => true | _ => false end) l
  = [].
Proof.
  induction l as [|A l IH]; cbn; [reflexivity|].
  destruct (getKind A); try discriminate; exact IH.
Qed.

Lemma getIntelReqdSubGroupSizeAttr_None (l : list Attr) :
  getIntelReqdSubGroupSizeAttr l = None ->
  List.filter (fun A => match getKind A with IntelReqdSubGroupSize _ => true | _ => false end)
    l = [].
Proof.
  induction l as [|A l IH]; cbn; [reflexivity|].
  destruct (getKind A); try discriminate; exact IH.
Qed.

Lemma addAttr_length (l : list Attr) (A : Attr) :
  length (Decl_addAttr l A) = S (length l).
Proof.
  unfold Decl_addAttr. destruct (isInherited A).
  - induction l as [|B l IH]; cbn [insertInherited]; [reflexivity|].
    destruct (isInherited B); cbn [length]; [by rewrite IH | reflexivity].
  - rewrite length_app. cbn. lia.
Qed.

(** [Decl_addAttr] adds one attribute, wherever it puts it. *)
Lemma filter_addAttr_length (p : Attr -> bool) (l : list Attr) (A : Attr) :
  length (List.filter p (Decl_addAttr l A))
  = (length (List.filter p l) + (if p A then 1 else 0))%nat.
Proof.
  unfold Decl_addAttr. destruct (isInherited A).
  - induction l as [|B l IH]; cbn [insertInherited List.filter].
    + destruct (p A); reflexivity.
    + destruct (isInherited B); cbn [List.filter].
      * destruct (p B); cbn [length]; rewrite IH; reflexivity.
      * destruct (p A), (p B); cbn [length]; lia.
  - rewrite List.filter_app, length_app. cbn. destruct (p A); reflexivity.
Qed.

Lemma propagateAttr_attrs (st st' : MarkState) (A : Attr) :
  propagateAttr st A = Ok st' ->
  attrs (SYCLKernel st') = attrs (SYCLKernel st)
  \/ attrs (SYCLKernel st') = Decl_addAttr (attrs (SYCLKernel st)) A.
Proof.
  unfold propagateAttr.
  destruct (getKind A); try discriminate;
    repeat match goal with
           | |- context [match ?x with _ => _ end] => destruct x
           | |- context [if ?x then _ else _] => destruct x
           end;
    intros [= <-]; cbn; auto.
Qed.

(** X13: one round of the propagation does one of three things with the
    attribute: it adds it to the kernel and reports nothing; or it leaves
    everything as it is, which happens only when the kernel already has an
    attribute of the same kind with the same value; or it reports an error
    with its notes and marks the kernel or the kernel body invalid, and then
    the attribute is not added. *)
Theorem attribute_is_added_dropped_or_rejected (st st' : MarkState) (A : Attr) :
  propagateAttr st A = Ok st' ->
  st' = kernelAddAttr st A
  \/ (st' = st /\ exists E, E ∈ attrs (SYCLKernel st) /\ getKind E = getKind A)
  \/ (attrs (SYCLKernel st') = attrs (SYCLKernel st)
      /\ (exists e ds, MarkDiags st' = MarkDiags st ++ e :: ds
                       /\ e.1 ∈ [err_conflicting_sycl_kernel_attributes;
                                 err_sycl_function_attribute_mismatch])
      /\ (isInvalidDecl (SYCLKernel st') = true
          \/ exists KB, KernelBody st' = Some KB /\ isInvalidDecl KB = true)).
Proof.
  unfold propagateAttr. destruct (getKind A) as [V|D|D| | | | | | | | |n] eqn:EK;
    try (intros [= <-]; left; reflexivity); try discriminate.
  - (* sub-group size *)
    destruct (getIntelReqdSubGroupSizeAttr _) as [[E EV]|] eqn:EG.
    + apply getIntelReqdSubGroupSizeAttr_Some in EG as [HE HK].
      case_decide as HV; intros [= <-].
      * right; right. split; [reflexivity|]. split; [|left; reflexivity].
        do 2 eexists. split; [reflexivity|]. cbn. set_solver.
      * right; left. split; [reflexivity|]. exists E. split; [exact HE|].
        rewrite HK. f_equal. destruct (decide (EV = V)); [done|]. by destruct HV.
    + destruct (KernelBody st) as [KB|] eqn:EB; [|intros [= <-]; by left].
      destruct (getSYCLSimdAttr (attrs KB)) as [KBA|]; [|intros [= <-]; by left].
      case_decide as HV; intros [= <-]; [|by left].
      right; right. split; [reflexivity|]. split.
      * do 2 eexists. split; [reflexivity|]. cbn. set_solver.
      * right. eexists. split; reflexivity.
  - (* required work-group size *)
    destruct (getReqdWorkGroupSizeAttr _) as [[E ED]|] eqn:EG.
    + apply getReqdWorkGroupSizeAttr_Some in EG as [HE HK].
      destruct (_ || _) eqn:EC; intros [= <-].
      * right; right. split; [reflexivity|]. split; [|left; reflexivity].
        do 2 eexists. split; [reflexivity|]. cbn. set_solver.
      * right; left. split; [reflexivity|]. exists E. split; [exact HE|].
        rewrite HK. f_equal.
        apply orb_false_elim in EC as [EC HZ]. apply orb_false_elim in EC as [HX HY].
        apply bool_decide_eq_false in HX, HY, HZ.
        destruct ED, D; cbn in *. f_equal; lia.
    + destruct (getSYCLIntelMaxWorkGroupSizeAttr _) as [[E ED]|];
        [|intros [= <-]; by left].
      destruct (_ || _); intros [= <-]; [|by left].
      right; right. split; [reflexivity|]. split; [|left; reflexivity].
      do 2 eexists. split; [reflexivity|]. cbn. set_solver.
  - (* maximal work-group size *)
    destruct (getReqdWorkGroupSizeAttr _) as [[E ED]|]; [|intros [= <-]; by left].
    destruct (_ || _); intros [= <-]; [|by left].
    right; right. split; [reflexivity|]. split; [|left; reflexivity].
    do 2 eexists. split; [reflexivity|]. cbn. set_solver.
  - (* explicit SIMD *)
    destruct (KernelBody st) as [KB|] eqn:EB; [|intros [= <-]; by left].
    destruct (getSYCLSimdAttr (attrs KB)); intros [= <-]; [by left|].
    right; right. split; [reflexivity|]. split.
    + do 2 eexists. split; [reflexivity|]. cbn. set_solver.
    + right. eexists. split; reflexivity.
Qed.

Lemma attribute_is_added_dropped_or_rejected_witness :
  mkMarkState
    (mkFunctionDecl "kernel" [KernelSamples.reqdAttr 8 8 8] false) None []
  = kernelAddAttr
      (mkMarkState (mkFunctionDecl "kernel" [KernelSamples.reqdAttr 8 8 8] false) None [])
      (KernelSamples.reqdAttr 8 8 8)
  \/ (mkMarkState
        (mkFunctionDecl "kernel" [KernelSamples.reqdAttr 8 8 8] false) None []
      = mkMarkState (mkFunctionDecl "kernel" [KernelSamples.reqdAttr 8 8 8] false) None []
      /\ exists E, E ∈ [KernelSamples.reqdAttr 8 8 8]
                   /\ getKind E = getKind (KernelSamples.reqdAttr 8 8 8))
  \/ ([KernelSamples.reqdAttr 8 8 8] = [KernelSamples.reqdAttr 8 8 8]
      /\ (exists e ds, @nil (DiagID * string) = [] ++ e :: ds
                       /\ e.1 ∈ [err_conflicting_sycl_kernel_attributes;
                                 err_sycl_function_attribute_mismatch])
      /\ (false = true
          \/ exists KB, @None FunctionDecl = Some KB /\ isInvalidDecl KB = true)).
Proof.
  apply (attribute_is_added_dropped_or_rejected
           (mkMarkState (mkFunctionDecl "kernel" [KernelSamples.reqdAttr 8 8 8] false)
              None [])
           (mkMarkState (mkFunctionDecl "kernel" [KernelSamples.reqdAttr 8 8 8] false)
              None [])
           (KernelSamples.reqdAttr 8 8 8)).
  reflexivity.
Defined.

(** X14: the propagation never gives the kernel a second required
    work-group size or a second required sub-group size: a kernel with at
    most one attribute of the kind has at most one after any list of
    attributes is propagated. *)
Theorem at_most_one_required_size (l : list Attr) (st st' : MarkState) :
  propagateAttrs l st = Ok st' ->
  ((length (List.filter (fun A => match getKind A with
                             | ReqdWorkGroupSize _ => true | _ => false end)
              (attrs (SYCLKernel st))) <= 1)%nat ->
   (length (List.filter (fun A => match getKind A with
                             | ReqdWorkGroupSize _ => true | _ => false end)
              (attrs (SYCLKernel st'))) <= 1)%nat)
  /\ ((length (List.filter (fun A => match getKind A with
                                | IntelReqdSubGroupSize _ => true | _ => false end)
                 (attrs (SYCLKernel st))) <= 1)%nat ->
      (length (List.filter (fun A => match getKind A with
                                | IntelReqdSubGroupSize _ => true | _ => false end)
                 (attrs (SYCLKernel st'))) <= 1)%nat).
Proof.
  revert st. induction l as [|A l IH]; intros st; cbn.
  - intros [= <-]. auto.
  - destruct (propagateAttr st A) as [st1| |] eqn:E1; cbn; try discriminate.
    intros H. specialize (IH _ H). destruct IH as [IH1 IH2].
    assert (H1 : attrs (SYCLKernel st1) = attrs (SYCLKernel st)
                 \/ attrs (SYCLKernel st1) = Decl_addAttr (attrs (SYCLKernel st)) A).
    { exact (propagateAttr_attrs _ _ _ E1). }
    split; intros Hc.
    + apply IH1. destruct H1 as [H1|H1]; rewrite H1; [exact Hc|].
      rewrite filter_addAttr_length.
      destruct (getKind A) eqn:EK; cbn; try lia.
      unfold propagateAttr in E1. rewrite EK in E1.
      destruct (getReqdWorkGroupSizeAttr _) as [[E ED]|] eqn:EG.
      * exfalso. apply (f_equal (fun l => length l)) in H1.
        rewrite addAttr_length in H1.
        destruct (_ || _); injection E1 as <-; cbn in H1; lia.
      * rewrite (getReqdWorkGroupSizeAttr_None _ EG). cbn. lia.
    + apply IH2. destruct H1 as [H1|H1]; rewrite H1; [exact Hc|].
      rewrite filter_addAttr_length.
      destruct (getKind A) eqn:EK; cbn; try lia.
      unfold propagateAttr in E1. rewrite EK in E1.
      destruct (getIntelReqdSubGroupSizeAttr _) as [[E EV]|] eqn:EG.
      * exfalso. apply (f_equal (fun l => length l)) in H1.
        rewrite addAttr_length in H1.
        case_decide; injection E1 as <-; cbn in H1; lia.
      * rewrite (getIntelReqdSubGroupSizeAttr_None _ EG). cbn. lia.
Qed.

Lemma at_most_one_required_size_witness :
  ((length (List.filter (fun A => match getKind A with
                             | ReqdWorkGroupSize _ => true | _ => false end)
              (attrs (SYCLKernel KernelSamples.markState))) <= 1)%nat ->
   (length (List.filter (fun A => match getKind A with
                             | ReqdWorkGroupSize _ => true | _ => false end)
              [KernelSamples.reqdAttr 8 8 8]) <= 1)%nat)
  /\ ((length (List.filter (fun A => match getKind A with
                                | IntelReqdSubGroupSize _ => true | _ => false end)
                 (attrs (SYCLKernel KernelSamples.markState))) <= 1)%nat ->
      (length (List.filter (fun A => match getKind A with
                                | IntelReqdSubGroupSize _ => true | _ => false end)
                 [KernelSamples.reqdAttr 8 8 8]) <= 1)%nat).
Proof.
  apply (at_most_one_required_size
           [KernelSamples.reqdAttr 8 8 8; KernelSamples.reqdAttr 8 8 8]
           KernelSamples.markState
           (mkMarkState (mkFunctionDecl "kernel" [KernelSamples.reqdAttr 8 8 8] false)
              None [])).
  reflexivity.
Defined.

(** X15: the propagation of attributes of the kinds that are collected ends
    without an abort; the attributes the kernel had are still there, in
    their order, among those it has afterwards, wherever the new ones were
    put; diagnostics are only added at the end of the report, and a kernel
    that is invalid stays invalid. *)
Theorem propagation_only_adds (l : list Attr) (st : MarkState) :
  forallb (fun A => match getKind A with OtherAttrKind _ => false | _ => true end) l
  = true ->
  exists st',
    propagateAttrs l st = Ok st'
    /\ attrs (SYCLKernel st) `sublist_of` attrs (SYCLKernel st')
    /\ MarkDiags st `prefix_of` MarkDiags st'
    /\ (isInvalidDecl (SYCLKernel st) = true -> isInvalidDecl (SYCLKernel st') = true)
    /\ getFunctionLocation (SYCLKernel st') = getFunctionLocation (SYCLKernel st).
Proof.
  revert st. induction l as [|A l IH]; intros st HL; cbn.
  - exists st. repeat split; auto.
  - cbn in HL. apply andb_prop in HL as [HA HL].
    assert (H1 : exists st1,
               propagateAttr st A = Ok st1
               /\ attrs (SYCLKernel st) `sublist_of` attrs (SYCLKernel st1)
               /\ MarkDiags st `prefix_of` MarkDiags st1
               /\ (isInvalidDecl (SYCLKernel st) = true ->
                   isInvalidDecl (SYCLKernel st1) = true)
               /\ getFunctionLocation (SYCLKernel st1)
                  = getFunctionLocation (SYCLKernel st)).
    { unfold propagateAttr. destruct (getKind A); try discriminate HA;
        repeat match goal with
        | |- context [match ?x with _ => _ end] =>
            lazymatch x with
            | context [match _ with _ => _ end] => fail
            | _ => destruct x
            end
        end;
        eexists; (split; [reflexivity|]); cbn;
        (split; [try done; apply SemaSYCL_Properties.addAttr_sublist|]);
        (split; [try done; by apply prefix_app_r|]); auto. }
    destruct H1 as (st1 & E1 & P1 & P2 & P3 & P4).
    destruct (IH st1 HL) as (st' & E & Q1 & Q2 & Q3 & Q4).
    exists st'. rewrite E1. cbn [rbind]. split; [exact E|].
    split; [by etrans|]. split; [by etrans|]. split; [auto | congruence].
Qed.

Lemma propagation_only_adds_witness :
  exists st',
    propagateAttrs
      [KernelSamples.reqdAttr 8 8 8;
       KernelSamples.inheritedAttr (KernelSamples.maxAttr 8 8 8)]
      (mkMarkState
         (mkFunctionDecl "kernel"
            [mkAttr SYCLIntelNoGlobalWorkOffset "no_global_work_offset" false] false)
         None []) = Ok st'
    /\ [mkAttr SYCLIntelNoGlobalWorkOffset "no_global_work_offset" false]
       `sublist_of` attrs (SYCLKernel st')
    /\ @nil (DiagID * string) `prefix_of` MarkDiags st'
    /\ (false = true -> isInvalidDecl (SYCLKernel st') = true)
    /\ getFunctionLocation (SYCLKernel st') = "kernel".
Proof.
  apply (propagation_only_adds
           [KernelSamples.reqdAttr 8 8 8;
            KernelSamples.inheritedAttr (KernelSamples.maxAttr 8 8 8)]
           (mkMarkState
              (mkFunctionDecl "kernel"
                 [mkAttr SYCLIntelNoGlobalWorkOffset "no_global_work_offset" false] false)
              None [])).
  reflexivity.
Defined.

(** In that propagation the inherited maximum goes in front of the attribute
    the kernel had: what the kernel had is not a prefix of what it has. *)
Example propagation_does_not_append :
  exists st',
    propagateAttrs
      [KernelSamples.reqdAttr 8 8 8;
       KernelSamples.inheritedAttr (KernelSamples.maxAttr 8 8 8)]
      (mkMarkState
         (mkFunctionDecl "kernel"
            [mkAttr SYCLIntelNoGlobalWorkOffset "no_global_work_offset" false] false)
         None []) = Ok st'
    /\ attrs (SYCLKernel st')
       = [KernelSamples.inheritedAttr (KernelSamples.maxAttr 8 8 8);
          mkAttr SYCLIntelNoGlobalWorkOffset "no_global_work_offset" false;
          KernelSamples.reqdAttr 8 8 8].
Proof. eexists. split; reflexivity. Qed.

End SemaSYCL_Attributes.

Module SemaSYCL_Visitor.

Import SemaSYCL.
Import SemaSYCL_Properties.

(** ** What the visitor does to the state of the handlers *)

Lemma rbind_Ok {A B : Type} (m : Result A) (k : A -> Result B) (r : B) :
  rbind m k = Ok r -> exists a, m = Ok a /\ k a = Ok r.
Proof. destruct m; cbn; try discriminate. eauto. Qed.

Section VisitorInvariant.

Context {S : Type} (rd : S -> string -> bool) (R : S -> S -> Prop).

Hypothesis R_refl : forall s, R s s.
Hypothesis R_trans : forall s1 s2 s3, R s1 s2 -> R s2 s3 -> R s1 s3.

(** Every callback of the handler takes a state to a related one. *)
Local Abbreviation respects :=
  (fun H : Handler S => forall ev s b s', handle S H ev s = Ok (b, s') -> R s s').

Lemma respects_filter (Keep : Handler S -> bool) (Hs : list (Handler S)) :
  Forall respects Hs -> Forall respects (HandlerFilter S Keep Hs).
Proof.
  intros H. unfold HandlerFilter. apply Forall_map.
  eapply Forall_impl; [exact H|]. intros X HX. cbn beta.
  destruct (Keep X); [exact HX|].
  intros ev s b s' [= _ <-]. apply R_refl.
Qed.

Lemma forEach_respects (Hs : list (Handler S)) ev s s' :
  Forall respects Hs -> forEach S Hs ev s = Ok s' -> R s s'.
Proof.
  intros HF. revert s. induction HF as [|H Hs HH HF IH]; intros s; cbn.
  - intros [= <-]. apply R_refl.
  - intros E. apply rbind_Ok in E as ([b s1] & E1 & E2).
    eapply R_trans; [eapply HH; exact E1 | apply IH; exact E2].
Qed.

Lemma KF_FOR_EACH_respects (Hs : list (Handler S)) ev s b s' :
  Forall respects Hs -> KF_FOR_EACH S Hs ev s = Ok (b, s') -> R s s'.
Proof.
  intros HF. revert s. induction HF as [|H Hs HH HF IH]; intros s; cbn.
  - intros [= _ <-]. apply R_refl.
  - intros E. apply rbind_Ok in E as ([b1 s1] & E1 & E2). cbn in E2.
    destruct b1.
    + eapply R_trans; [eapply HH; exact E1 | apply IH; exact E2].
    + injection E2 as _ <-. eapply HH; exact E1.
Qed.

Lemma ignoreResult_respects (Hs : list (Handler S)) ev s s' :
  Forall respects Hs -> ignoreResult S (KF_FOR_EACH S Hs ev s) = Ok s' -> R s s'.
Proof.
  intros HF E. unfold ignoreResult in E. apply rbind_Ok in E as ([b s1] & E1 & E2).
  injection E2 as <-. eapply KF_FOR_EACH_respects; eassumption.
Qed.

Lemma foldM_respects {A : Type} (f : A -> S -> Result S) (l : list A) :
  Forall (fun x => forall s s', f x s = Ok s' -> R s s') l ->
  forall s s', foldM S f l s = Ok s' -> R s s'.
Proof.
  intros HF. induction HF as [|x l Hx HF IH]; intros s s'; cbn.
  - intros [= <-]. apply R_refl.
  - intros E. apply rbind_Ok in E as (s1 & E1 & E2).
    eapply R_trans; [eapply Hx; exact E1 | eapply IH; exact E2].
Qed.

Lemma forIndices_respects (f : Z -> S -> Result S) :
  (forall i s s', f i s = Ok s' -> R s s') ->
  forall n i s s', forIndices S f n i s = Ok s' -> R s s'.
Proof.
  intros Hf. induction n as [|n IH]; intros i s s'; cbn.
  - intros [= <-]. apply R_refl.
  - intros E. apply rbind_Ok in E as (s1 & E1 & E2).
    eapply R_trans; [eapply Hf; exact E1 | eapply IH; exact E2].
Qed.

Local Abbreviation fieldOk :=
  (fun T : QualType =>
     forall Hs O F s s', Forall respects Hs ->
       visitField S rd Hs O F T s = Ok s' -> R s s').
Local Abbreviation baseOk :=
  (fun T : QualType =>
     forall Hs O B s s', Forall respects Hs ->
       visitBase S rd Hs O B T s = Ok s' -> R s s').

Lemma complexRecord_respects (RD : CXXRecordDecl) Hs O P T s s' :
  PRecord (fun T => fieldOk T /\ baseOk T) RD ->
  Forall respects Hs ->
  visitComplexRecord S rd Hs O P RD T s = Ok s' -> R s s'.
Proof.
  intros [HB HF] HH E. unfold visitComplexRecord in E.
  apply rbind_Ok in E as (s1 & E1 & E). apply rbind_Ok in E as (s2 & E2 & E).
  apply rbind_Ok in E as (s3 & E3 & E4).
  eapply R_trans; [eapply forEach_respects; eassumption|].
  eapply R_trans.
  { eapply foldM_respects; [|exact E2]. eapply Forall_impl; [exact HB|].
    intros B [_ HBase] x y. apply HBase. exact HH. }
  eapply R_trans.
  { eapply foldM_respects; [|exact E3]. eapply Forall_impl; [exact HF|].
    intros F [HField _] x y. apply HField. exact HH. }
  eapply forEach_respects; eassumption.
Qed.

Lemma record_respects (RD : CXXRecordDecl) Hs O P T s s' :
  PRecord (fun T => fieldOk T /\ baseOk T) RD ->
  Forall respects Hs ->
  visitRecord S rd Hs O P RD T s = Ok s' -> R s s'.
Proof.
  intros HR HH E. unfold visitRecord in E.
  destruct (rd s (recordKey RD)).
  - eapply complexRecord_respects; eassumption.
  - apply rbind_Ok in E as (s1 & E1 & E2).
    eapply R_trans.
    + destruct (negb _).
      * eapply forEach_respects; [|exact E1]. by apply respects_filter.
      * injection E1 as <-. apply R_refl.
    + destruct (AnyTrue _ _ _).
      * eapply complexRecord_respects; [exact HR| |exact E2]. by apply respects_filter.
      * injection E2 as <-. apply R_refl.
Qed.

Lemma complexArray_respects Hs O F T (CAT : option (QualType * Z)) s s' :
  (forall ET n, CAT = Some (ET, n) -> fieldOk ET) ->
  Forall respects Hs ->
  visitComplexArray S rd Hs O F T CAT s = Ok s' -> R s s'.
Proof.
  intros HE HH E. unfold visitComplexArray in E.
  apply rbind_Ok in E as ([b s1] & E1 & E). cbn in E.
  eapply R_trans; [eapply KF_FOR_EACH_respects; eassumption|].
  destruct b; cbn in E; [|injection E as <-; apply R_refl].
  destruct CAT as [[ET n]|]; [|discriminate].
  destruct (negb _); [discriminate|].
  specialize (HE ET n eq_refl).
  apply rbind_Ok in E as (s2 & E2 & E). apply rbind_Ok in E as (s3 & E3 & E).
  apply rbind_Ok in E as (s4 & E4 & E5).
  eapply R_trans; [eapply forEach_respects; eassumption|].
  eapply R_trans.
  { unfold visitArrayElementImpl in E3. apply rbind_Ok in E3 as (s5 & E31 & E32).
    eapply R_trans; [eapply forEach_respects; eassumption|].
    eapply HE; eassumption. }
  eapply R_trans.
  { eapply forIndices_respects; [|exact E4]. intros i x y Ei.
    unfold visitNthArrayElement in Ei.
    destruct (AnyTrue _ _ _); [|injection Ei as <-; apply R_refl].
    unfold visitArrayElementImpl in Ei. apply rbind_Ok in Ei as (s5 & E31 & E32).
    eapply R_trans;
      [eapply forEach_respects; [|exact E31]; by apply respects_filter|].
    eapply HE; [|exact E32]. by apply respects_filter. }
  eapply forEach_respects; eassumption.
Qed.

Lemma array_respects Hs O F T (CAT : option (QualType * Z)) s s' :
  (forall ET n, CAT = Some (ET, n) -> fieldOk ET) ->
  Forall respects Hs ->
  visitArray S rd Hs O F T CAT s = Ok s' -> R s s'.
Proof.
  intros HE HH E. unfold visitArray in E.
  destruct (rd s (fieldKey F)).
  - eapply complexArray_respects; eassumption.
  - apply rbind_Ok in E as (s1 & E1 & E2).
    eapply R_trans.
    + destruct (negb _).
      * eapply forEach_respects; [|exact E1]. by apply respects_filter.
      * injection E1 as <-. apply R_refl.
    + destruct (AnyTrue _ _ _).
      * eapply complexArray_respects; [exact HE| |exact E2]. by apply respects_filter.
      * injection E2 as <-. apply R_refl.
Qed.

Lemma visit_respects (T : QualType) : fieldOk T /\ baseOk T.
Proof.
  induction T using QualType_nested_ind; split; intros Hs O X s s' HH E;
    try (cbn in E; discriminate E);
    try (eapply ignoreResult_respects; [exact HH | exact E]);
    try (eapply forEach_respects; [exact HH | exact E]);
    try (eapply record_respects; [eassumption | exact HH | exact E]).
  - (* stream field *)
    cbn [visitField] in E. apply rbind_Ok in E as ([b s1] & E1 & E).
    eapply R_trans; [eapply KF_FOR_EACH_respects; eassumption|].
    unfold visitStreamRecord in E. cbn in E.
    apply rbind_Ok in E as (s2 & E2 & E). apply rbind_Ok in E as (s3 & E3 & E4).
    eapply R_trans; [eapply forEach_respects; eassumption|].
    eapply R_trans; [|eapply forEach_respects; eassumption].
    eapply foldM_respects; [|exact E3]. apply Forall_forall. intros F _ x y.
    destruct (isSyclAccessorType _); [|intros [= <-]; apply R_refl].
    apply ignoreResult_respects. exact HH.
  - (* class field *)
    rewrite visitField_record in E. apply rbind_Ok in E as ([b s1] & E1 & E).
    eapply R_trans; [eapply KF_FOR_EACH_respects; eassumption|]. cbn in E.
    destruct b; [|injection E as <-; apply R_refl].
    eapply record_respects; eassumption.
  - (* union field *)
    rewrite visitField_union in E. apply rbind_Ok in E as ([b s1] & E1 & E).
    eapply R_trans; [eapply KF_FOR_EACH_respects; eassumption|]. cbn in E.
    destruct b; [|injection E as <-; apply R_refl].
    unfold VisitUnion in E. destruct (AnyTrue _ _ _); [|injection E as <-; apply R_refl].
    apply rbind_Ok in E as (s2 & E2 & E). apply rbind_Ok in E as (s3 & E3 & E4).
    assert (HH' := respects_filter (VisitUnionBody S) Hs HH).
    eapply R_trans; [eapply forEach_respects; eassumption|].
    eapply R_trans; [|eapply forEach_respects; eassumption].
    eapply foldM_respects; [|exact E3]. destruct H as [_ HF].
    eapply Forall_impl; [exact HF|]. intros F [HField _] x y. apply HField. exact HH'.
  - (* array of constant size *)
    rewrite visitField_constant_array in E.
    eapply array_respects; [|exact HH|exact E]. intros ET' n' [= <- <-]. apply IHT.
  - (* array of variable size *)
    rewrite visitField_variable_array in E.
    eapply array_respects; [|exact HH|exact E]. discriminate.
  - (* incomplete array *)
    rewrite visitField_incomplete_array in E.
    eapply array_respects; [|exact HH|exact E]. discriminate.
Qed.

(** The visitor changes the state of the handlers only through their
    callbacks: a relation between states that is reflexive and transitive
    and that every callback of every handler keeps, holds between the state
    before and the state after the visit of any field, of any base, and of
    all bases and all fields of a kernel object. *)
Lemma visit_keeps (Hs : list (Handler S)) :
  Forall (fun H => forall ev s b s', handle S H ev s = Ok (b, s') -> R s s') Hs ->
  (forall O F T s s', visitField S rd Hs O F T s = Ok s' -> R s s')
  /\ (forall O B T s s', visitBase S rd Hs O B T s = Ok s' -> R s s')
  /\ (forall K s s', VisitRecordBases S rd K Hs s = Ok s' -> R s s')
  /\ (forall K s s', VisitRecordFields S rd K Hs s = Ok s' -> R s s').
Proof.
  intros HH. repeat split.
  - intros O F T s s'. apply (visit_respects T). exact HH.
  - intros O B T s s'. apply (visit_respects T). exact HH.
  - intros K s s'. unfold VisitRecordBases. apply foldM_respects.
    apply Forall_forall. intros B _ x y. apply (visit_respects (getBaseType B)). exact HH.
  - intros K s s'. unfold VisitRecordFields. apply foldM_respects.
    apply Forall_forall. intros F _ x y. apply (visit_respects (getType F)). exact HH.
Qed.

End VisitorInvariant.

End SemaSYCL_Visitor.

Module SemaSYCL_Legality.

Import SemaSYCL.
Import SemaSYCL_Checks.
Import SemaSYCL_Visitor.

(** ** What the legality walk adds *)

Ltac in_list :=
  unfold fieldErrors; cbn;
  first [apply list_elem_of_here | apply list_elem_of_further; in_list].

Lemma onlyAdds_refl (s : CheckState) : onlyAdds s s.
Proof.
  split; try done. exists []. rewrite app_nil_r. repeat split; auto.
Qed.

Lemma onlyAdds_trans (s1 s2 s3 : CheckState) :
  onlyAdds s1 s2 -> onlyAdds s2 s3 -> onlyAdds s1 s3.
Proof.
  intros [(ds1 & D1 & F1 & U1) M1 O1 If1 Iu1] [(ds2 & D2 & F2 & U2) M2 O2 If2 Iu2].
  split.
  - exists (ds1 ++ ds2). rewrite D2, D1, app_assoc. split; [reflexivity|]. split.
    + intros H3. destruct (F2 H3) as [H2|(d & Hd & He)].
      * destruct (F1 H2) as [H1|(d & Hd & He)]; [by left|].
        right. exists d. split; [|done]. apply elem_of_app. by left.
      * right. exists d. split; [|done]. apply elem_of_app. by right.
    + intros H3. destruct (U2 H3) as [H2|(L & Hd)].
      * destruct (U1 H2) as [H1|(L & Hd)]; [by left|].
        right. exists L. apply elem_of_app. by left.
      * right. exists L. apply elem_of_app. by right.
  - etrans; eassumption.
  - congruence.
  - auto.
  - auto.
Qed.

Lemma checkNotCopyableToKernel_cases (S : Sema) (FD : FieldDecl) (Ty : QualType) :
  checkNotCopyableToKernel S FD Ty = (false, S)
  \/ exists e, e ∈ fieldErrors /\
       checkNotCopyableToKernel S FD Ty = (true, Diag S (fieldKey FD) e).
Proof.
  induction Ty; cbn [checkNotCopyableToKernel];
    try exact IHTy;
    try (right; eexists; split; [|reflexivity]; in_list);
    repeat match goal with
           | |- context [if ?b then _ else _] => destruct b
           | |- context [match ?b with _ => _ end] => destruct b
           end;
    try (by left);
    right; eexists; (split; [|reflexivity]); in_list.
Qed.

Lemma checkAccessorType_spec (S : Sema) (Ty : QualType) (Loc : string) :
  exists ds,
    Diags (checkAccessorType S Ty Loc) = Diags S ++ map (fun d => (d, Loc)) ds /\
    RequiresDecomposition (checkAccessorType S Ty Loc) = RequiresDecomposition S /\
    SYCLStdLayoutKernelParams (checkAccessorType S Ty Loc)
    = SYCLStdLayoutKernelParams S /\
    match Ty with AccessorType _ _ _ _ l => ds = l | _ => ds = [] end.
Proof.
  destruct Ty; try (exists []; cbn; rewrite app_nil_r; done).
  exists TemplateArgDiags. cbn. revert S.
  induction TemplateArgDiags as [|d l IH]; intros S; cbn.
  - by rewrite app_nil_r.
  - destruct (IH (Diag S Loc d)) as (H1 & H2 & H3 & _).
    rewrite H1, H2, H3. cbn. rewrite <- app_assoc. done.
Qed.

Lemma fieldChecker_onlyAdds ev s b s' :
  SyclKernelFieldChecker.handle ev s = Ok (b, s') -> onlyAdds s s'.
Proof.
  destruct s as [S fi uc ui st].
  destruct ev; cbn; intros [= <- <-]; try apply onlyAdds_refl.
  - (* accessor base *)
    destruct (checkAccessorType_spec S Ty "base") as (ds & H1 & H2 & H3 & _).
    split; cbn; rewrite ?H2, ?H3; try done.
    eexists. split; [exact H1|]. split; auto.
  - (* accessor field *)
    destruct (checkAccessorType_spec S Ty (fieldKey FD)) as (ds & H1 & H2 & H3 & _).
    split; cbn; rewrite ?H2, ?H3; try done.
    eexists. split; [exact H1|]. split; auto.
  - (* class *)
    destruct (checkNotCopyableToKernel_cases S FD Ty) as [->|(e & He & ->)]; cbn.
    + rewrite orb_false_r. apply onlyAdds_refl.
    + split; cbn; try done; [|by rewrite orb_true_r].
      eexists. split; [reflexivity|]. split; [|auto].
      intros _. right. eexists. split; [apply list_elem_of_here|exact He].
  - (* reference *)
    split; cbn; try done.
    eexists. split; [reflexivity|]. split; [|auto].
    intros _. right. eexists. split; [apply list_elem_of_here|].
    in_list.
  - (* pointer *)
    destruct (pointsToVLA Ty); [|apply onlyAdds_refl].
    split; cbn; try done.
    eexists. split; [reflexivity|]. split; [|auto].
    intros _. right. eexists. split; [apply list_elem_of_here|].
    in_list.
  - (* array *)
    destruct (checkNotCopyableToKernel_cases S FD Ty) as [->|(e & He & ->)]; cbn.
    + rewrite orb_false_r. apply onlyAdds_refl.
    + split; cbn; try done; [|by rewrite orb_true_r].
      eexists. split; [reflexivity|]. split; [|auto].
      intros _. right. eexists. split; [apply list_elem_of_here|exact He].
  - (* other *)
    split; cbn; try done.
    eexists. split; [reflexivity|]. split; [|auto].
    intros _. right. eexists. split; [apply list_elem_of_here|].
    in_list.
Qed.

Lemma checkType_onlyAdds Loc Ty s :
  onlyAdds s (SyclKernelUnionChecker.checkType Loc Ty s).2.
Proof.
  unfold SyclKernelUnionChecker.checkType. cbn.
  case_decide; [|apply onlyAdds_refl].
  split; cbn; try done.
  eexists. split; [reflexivity|]. split; [auto|].
  intros _. right. exists Loc. apply list_elem_of_here.
Qed.

Lemma unionChecker_onlyAdds ev s b s' :
  SyclKernelUnionChecker.handle ev s = Ok (b, s') -> onlyAdds s s'.
Proof.
  destruct ev; cbn -[SyclKernelUnionChecker.checkType]; intros E;
    try (injection E as <- <-;
         first [apply onlyAdds_refl
               | split; cbn; try done; exists []; rewrite app_nil_r;
                 repeat split; auto]);
    injection E as _ <-;
    match goal with
    | |- context [Diag _ ?L _] =>
        exact (checkType_onlyAdds L (ScalarType EmptyString 0) s)
    end.
Qed.

Lemma setStack_onlyAdds s st : onlyAdds s (SyclKernelDecompMarker.setStack s st (chk_Sema s)).
Proof.
  split; cbn; try done. exists []. rewrite app_nil_r. repeat split; auto.
Qed.

Lemma markBack_onlyAdds s b s' :
  SyclKernelDecompMarker.markBack s = Ok (b, s') -> onlyAdds s s'.
Proof.
  unfold SyclKernelDecompMarker.markBack. destruct (CollectionStack s); [discriminate|].
  intros [= _ <-]. apply setStack_onlyAdds.
Qed.

Lemma popAndMark_onlyAdds key s b s' :
  SyclKernelDecompMarker.popAndMark key s = Ok (b, s') -> onlyAdds s s'.
Proof.
  unfold SyclKernelDecompMarker.popAndMark.
  destruct (CollectionStack s) as [|[] st]; [discriminate| |].
  - intros H. apply markBack_onlyAdds in H.
    eapply onlyAdds_trans; [|exact H].
    split; cbn; try done.
    + exists []. rewrite app_nil_r. split; [by destruct (hasAttr _ _)|]. split; auto.
    + destruct (hasAttr _ _); cbn; set_solver.
    + by destruct (hasAttr _ _).
  - intros [= _ <-]. apply setStack_onlyAdds.
Qed.

Lemma decompMarker_onlyAdds ev s b s' :
  SyclKernelDecompMarker.handle ev s = Ok (b, s') -> onlyAdds s s'.
Proof.
  destruct ev; cbn;
    try (intros [= _ <-]; first [apply onlyAdds_refl | apply setStack_onlyAdds]);
    try apply markBack_onlyAdds; try apply popAndMark_onlyAdds.
  - destruct (getAsCXXRecordDecl Ty); [apply popAndMark_onlyAdds|].
    destruct (CollectionStack s) as [|[] st]; try discriminate.
    intros [= _ <-]. apply setStack_onlyAdds.
  - destruct (CollectionStack s) as [|? st]; try discriminate.
    intros [= _ <-]. apply setStack_onlyAdds.
Qed.

Lemma checkHandlers_onlyAdds :
  Forall (fun H => forall ev s b s', handle _ H ev s = Ok (b, s') -> onlyAdds s s')
    checkHandlers.
Proof.
  unfold checkHandlers. repeat apply Forall_cons_2; [| | |apply Forall_nil_2]; cbn.
  - apply fieldChecker_onlyAdds.
  - apply unionChecker_onlyAdds.
  - apply decompMarker_onlyAdds.
Qed.

Lemma check_onlyAdds (KernelObj : CXXRecordDecl) (S : Sema) (s : CheckState) :
  CheckSYCLKernelCall KernelObj S = Ok s -> onlyAdds (initialCheckState S) s.
Proof.
  unfold CheckSYCLKernelCall. intros E. apply rbind_Ok in E as (s1 & E1 & E2).
  destruct (visit_keeps checkRequiresDecomposition onlyAdds onlyAdds_refl
              onlyAdds_trans checkHandlers checkHandlers_onlyAdds)
    as (_ & _ & HB & HF).
  eapply onlyAdds_trans; [eapply HB|eapply HF]; eassumption.
Qed.

(** X16: the legality walk of [CheckSYCLKernelCall] takes nothing back: the
    diagnostics reported before it are a prefix of those after it, every
    declaration marked as requiring decomposition is still marked, and the
    language option is as it was. *)
Theorem legality_walk_only_adds (KernelObj : CXXRecordDecl) (S : Sema)
    (s : CheckState) :
  CheckSYCLKernelCall KernelObj S = Ok s ->
  Diags S `prefix_of` Diags (chk_Sema s)
  /\ RequiresDecomposition S ⊆ RequiresDecomposition (chk_Sema s)
  /\ SYCLStdLayoutKernelParams (chk_Sema s) = SYCLStdLayoutKernelParams S.
Proof.
  intros E. apply check_onlyAdds in E as [(ds & D & _) M O _ _]. cbn in *.
  split; [|by split]. exists ds. exact D.
Qed.

Lemma legality_walk_only_adds_witness :
  Diags KernelSamples.noMarks
    `prefix_of` Diags (chk_Sema (CheckSamples.checked KernelSamples.kernelObject
                                   KernelSamples.noMarks))
  /\ RequiresDecomposition KernelSamples.noMarks
     ⊆ RequiresDecomposition
         (chk_Sema (CheckSamples.checked KernelSamples.kernelObject
                      KernelSamples.noMarks))
  /\ SYCLStdLayoutKernelParams
       (chk_Sema (CheckSamples.checked KernelSamples.kernelObject
                    KernelSamples.noMarks))
     = SYCLStdLayoutKernelParams KernelSamples.noMarks.
Proof.
  apply (legality_walk_only_adds KernelSamples.kernelObject KernelSamples.noMarks
           (CheckSamples.checked KernelSamples.kernelObject KernelSamples.noMarks)).
  vm_compute. reflexivity.
Defined.

(** X17: a kernel object is never rejected in silence.  When the field
    checker is invalid after the walk, the walk reported one of
    [err_bad_kernel_param_type], [err_sycl_non_constant_array_type],
    [err_sycl_non_std_layout_type],
    [err_sycl_non_trivially_copy_ctor_dtor_type] and [err_vla_unsupported];
    when the union checker is invalid, it reported
    [err_bad_union_kernel_param_members]. *)
Theorem rejection_is_reported (KernelObj : CXXRecordDecl) (S : Sema)
    (s : CheckState) :
  CheckSYCLKernelCall KernelObj S = Ok s ->
  exists ds,
    Diags (chk_Sema s) = Diags S ++ ds
    /\ (SyclKernelFieldChecker.isValid s = false ->
        exists d, d ∈ ds /\ d.1 ∈ fieldErrors)
    /\ (SyclKernelUnionChecker.isValid s = false ->
        exists Loc, (err_bad_union_kernel_param_members, Loc) ∈ ds).
Proof.
  intros E. apply check_onlyAdds in E as [(ds & D & HF & HU) _ _ _ _]. cbn in *.
  exists ds. split; [exact D|].
  unfold SyclKernelFieldChecker.isValid, SyclKernelUnionChecker.isValid.
  split; intros H; apply negb_false_iff in H.
  - destruct (HF H) as [|]; [discriminate|done].
  - destruct (HU H) as [|]; [discriminate|done].
Qed.

Lemma rejection_is_reported_witness :
  exists ds,
    Diags (chk_Sema (CheckSamples.checked KernelSamples.kernelWithUnion
                       KernelSamples.noMarks))
    = Diags KernelSamples.noMarks ++ ds
    /\ (SyclKernelFieldChecker.isValid
          (CheckSamples.checked KernelSamples.kernelWithUnion KernelSamples.noMarks)
        = false ->
        exists d, d ∈ ds /\ d.1 ∈ fieldErrors)
    /\ (SyclKernelUnionChecker.isValid
          (CheckSamples.checked KernelSamples.kernelWithUnion KernelSamples.noMarks)
        = false ->
        exists Loc, (err_bad_union_kernel_param_members, Loc) ∈ ds).
Proof.
  apply (rejection_is_reported KernelSamples.kernelWithUnion KernelSamples.noMarks
           (CheckSamples.checked KernelSamples.kernelWithUnion KernelSamples.noMarks)).
  vm_compute. reflexivity.
Defined.

Lemma foldM_onlyAdds (Owner : CXXRecordDecl) (l : list FieldDecl) (s s' : CheckState) :
  foldM _ (fun F s => visitField _ checkRequiresDecomposition checkHandlers Owner F
                        (getType F) s) l s = Ok s' ->
  onlyAdds s s'.
Proof.
  apply (foldM_respects onlyAdds onlyAdds_refl onlyAdds_trans).
  apply Forall_forall. intros F _ x y.
  destruct (visit_keeps checkRequiresDecomposition onlyAdds onlyAdds_refl
              onlyAdds_trans checkHandlers checkHandlers_onlyAdds)
    as (HV & _). apply HV.
Qed.

(** X18: a field of the kernel object of a reference type, or of a type
    that is none of the types the visitor knows, is always rejected: where
    the walk ends, the field checker is invalid and
    [err_bad_kernel_param_type] is reported at the field, whatever the other
    bases and fields are. *)
Theorem reference_field_is_rejected (KernelObj : CXXRecordDecl) (S : Sema)
    (s : CheckState) (FD : FieldDecl) :
  CheckSYCLKernelCall KernelObj S = Ok s ->
  FD ∈ fields KernelObj ->
  match getType FD with ReferenceType _ | OtherType _ _ => True | _ => False end ->
  SyclKernelFieldChecker.isValid s = false
  /\ (err_bad_kernel_param_type, fieldKey FD) ∈ Diags (chk_Sema s).
Proof.
  intros E HIn HT. unfold CheckSYCLKernelCall in E.
  apply rbind_Ok in E as (s0 & _ & E). unfold VisitRecordFields in E.
  apply list_elem_of_split in HIn as (pre & post & HF). rewrite HF in E.
  rewrite SemaSYCL_Properties.foldM_app in E.
  apply rbind_Ok in E as (s1 & _ & E).
  rewrite SemaSYCL_Properties.foldM_cons in E.
  apply rbind_Ok in E as (s2 & E2 & E3).
  apply foldM_onlyAdds in E3 as [(ds & D & _) _ _ If _].
  assert (H2 : FieldChecker_IsInvalid s2 = true
               /\ (err_bad_kernel_param_type, fieldKey FD) ∈ Diags (chk_Sema s2)).
  { destruct s1 as [S1 fi uc ui st].
    destruct (getType FD); try done; cbn in E2; injection E2 as <-; cbn;
      (split; [reflexivity|]); apply elem_of_app; right; apply list_elem_of_here. }
  destruct H2 as [Hi Hd]. split.
  - unfold SyclKernelFieldChecker.isValid. by rewrite (If Hi).
  - rewrite D. apply elem_of_app. by left.
Qed.

Lemma reference_field_is_rejected_witness :
  SyclKernelFieldChecker.isValid
    (CheckSamples.checked CheckSamples.kernelWithReference KernelSamples.noMarks)
  = false
  /\ (err_bad_kernel_param_type, fieldKey CheckSamples.referenceField)
     ∈ Diags (chk_Sema (CheckSamples.checked CheckSamples.kernelWithReference
                          KernelSamples.noMarks)).
Proof.
  apply (reference_field_is_rejected CheckSamples.kernelWithReference
           KernelSamples.noMarks
           (CheckSamples.checked CheckSamples.kernelWithReference KernelSamples.noMarks)
           CheckSamples.referenceField).
  - vm_compute. reflexivity.
  - apply list_elem_of_here.
  - exact I.
Defined.

End SemaSYCL_Legality.

Module SemaSYCL_Marks.

Import SemaSYCL.
Import SemaSYCL_Checks.
Import SemaSYCL_Visitor.
Import SemaSYCL_Legality.

(** ** The declarations the marker marks *)

Local Abbreviation ckH := checkHandlers.
Local Abbreviation ckrd := checkRequiresDecomposition.
Local Abbreviation marks := (fun s : CheckState => RequiresDecomposition (chk_Sema s)).

Lemma passed_before (s s' : CheckState) :
  onlyAdds s s' -> passedCheckers s' = true -> passedCheckers s = true.
Proof.
  intros [_ _ _ Hf Hu]. unfold passedCheckers, SyclKernelFieldChecker.isValid,
    SyclKernelUnionChecker.isValid.
  destruct (FieldChecker_IsInvalid s); [rewrite Hf by done; done|].
  destruct (UnionChecker_IsInvalid s); [rewrite Hu by done|done].
  by rewrite andb_false_r.
Qed.

Lemma visit_onlyAdds :
  (forall O F T s s', visitField _ ckrd ckH O F T s = Ok s' -> onlyAdds s s')
  /\ (forall O B T s s', visitBase _ ckrd ckH O B T s = Ok s' -> onlyAdds s s').
Proof.
  destruct (visit_keeps ckrd onlyAdds onlyAdds_refl onlyAdds_trans ckH
              checkHandlers_onlyAdds) as (HF & HB & _).
  by split.
Qed.

Lemma forEach_onlyAdds ev s s' : forEach _ ckH ev s = Ok s' -> onlyAdds s s'.
Proof.
  apply (forEach_respects onlyAdds onlyAdds_refl onlyAdds_trans).
  apply checkHandlers_onlyAdds.
Qed.

Lemma visitRecord_check O P RD T s :
  visitRecord _ ckrd ckH O P RD T s = visitComplexRecord _ ckrd ckH O P RD T s.
Proof. unfold visitRecord. destruct (ckrd s _); reflexivity. Qed.

Lemma visitArray_check O F T CAT s :
  visitArray _ ckrd ckH O F T CAT s = visitComplexArray _ ckrd ckH O F T CAT s.
Proof. unfold visitArray. destruct (ckrd s _); reflexivity. Qed.

Lemma checkNotCopyableToKernel_valid S FD Ty S' :
  checkNotCopyableToKernel S FD Ty = (false, S') -> S' = S.
Proof.
  destruct (checkNotCopyableToKernel_cases S FD Ty) as [->|(e & _ & ->)]; congruence.
Qed.

(** A callback that asks the field checker about a class or an array: the
    walk goes on only when the checker is valid, and nothing has changed
    then. *)
Lemma container_event ev s b s' :
  (exists FD Ty, ev = handleStructType FD Ty \/ ev = handleArrayType FD Ty) ->
  KF_FOR_EACH _ ckH ev s = Ok (b, s') ->
  b = true /\ s' = s \/ b = false /\ passedCheckers s' = false.
Proof.
  intros (FD & Ty & [-> | ->]) E; destruct s as [S fi uc ui st]; cbn in E;
    destruct (checkNotCopyableToKernel S FD Ty) as [[] S'] eqn:EC; cbn in E;
      rewrite ?orb_true_r, ?orb_false_r in E; cbn in E;
      try (injection E as <- <-; right; done);
      destruct fi; cbn in E; try (injection E as <- <-; right; done);
      injection E as <- <-; apply checkNotCopyableToKernel_valid in EC as ->;
      left; done.
Qed.

(** A callback for a field of a special type or a pointer: when the two
    checkers are valid after it, the marker has set the back of its
    stack. *)
Lemma marking_event ev s b s' h st :
  (exists FD Ty,
     ev ∈ [handleSyclAccessorType FD Ty; handleSyclSamplerType FD Ty;
           handleSyclSpecConstantType FD Ty; handleSyclStreamType FD Ty;
           handleSyclHalfType FD Ty; handlePointerType FD Ty]) ->
  KF_FOR_EACH _ ckH ev s = Ok (b, s') ->
  passedCheckers s' = true ->
  CollectionStack s = h :: st ->
  CollectionStack s' = true :: st /\ marks s' = marks s.
Proof.
  intros (FD & Ty & Hev) E HP HS. destruct s as [S fi uc ui st0]. cbn in HS. subst st0.
  repeat (apply elem_of_cons in Hev as [->|Hev]); [| | | | | |by apply elem_of_nil in Hev];
    destruct fi, ui; cbn in E;
    unfold SyclKernelUnionChecker.checkType, SyclKernelUnionChecker.isValid,
      SyclKernelFieldChecker.isValid, SyclKernelFieldChecker.setInvalid in E;
    cbn in E;
    repeat match type of E with
           | context [decide ?P] => destruct (decide P); cbn in E
           | context [pointsToVLA ?T] => destruct (pointsToVLA T); cbn in E
           end;
    injection E as <- <-; try discriminate HP; cbn; (split; [reflexivity|]);
    try reflexivity.
  by destruct (checkAccessorType_spec S Ty (fieldKey FD)) as (_ & _ & -> & _).
Qed.

(** A callback of a field the marker has nothing to do with. *)
Lemma plain_event ev s b s' :
  (exists FD Ty, ev = handleScalarType FD Ty \/ ev = handleUnionType FD Ty) ->
  KF_FOR_EACH _ ckH ev s = Ok (b, s') -> b = true /\ s' = s.
Proof. intros (FD & Ty & [-> | ->]) [= <- <-]; done. Qed.

Lemma rejecting_event ev s b s' :
  (exists FD Ty, ev = handleReferenceType FD Ty \/ ev = handleOtherType FD Ty) ->
  KF_FOR_EACH _ ckH ev s = Ok (b, s') -> passedCheckers s' = false.
Proof. intros (FD & Ty & [-> | ->]) [= <- <-]; done. Qed.

(** The callbacks that go to every handler. *)
Lemma enter_event ev s s' :
  (exists O P Ty FD ET, ev ∈ [enterStruct O P Ty; enterStream O FD Ty; enterArray FD Ty ET]) ->
  forEach _ ckH ev s = Ok s' ->
  s' = SyclKernelDecompMarker.setStack s (false :: CollectionStack s) (chk_Sema s).
Proof.
  intros (O & P & Ty & FD & ET & Hev).
  repeat (apply elem_of_cons in Hev as [->|Hev]); [| | |by apply elem_of_nil in Hev];
    intros [= <-]; reflexivity.
Qed.

Lemma leave_event ev key s s' h b st :
  (exists O P Ty RD FD ET,
     ev = leaveStruct O P Ty /\ getAsCXXRecordDecl Ty = Some RD /\ key = recordKey RD
     \/ ev = leaveArray FD Ty ET /\ key = fieldKey FD) ->
  forEach _ ckH ev s = Ok s' ->
  CollectionStack s = h :: b :: st ->
  CollectionStack s' = (b || h) :: st
  /\ marks s' = marks s ∪ (if h then {[key]} else ∅).
Proof.
  intros (O & P & Ty & RD & FD & ET & [(-> & HRD & ->)|(-> & ->)]) E HS;
    destruct s as [S fi uc ui st0]; cbn in HS; subst st0; cbn in E;
    rewrite ?HRD in E; cbn in E; destruct h; cbn in E.
  all: try (injection E as <-; cbn; rewrite ?orb_true_r, ?orb_false_r;
            split; [reflexivity|]; cbn; by rewrite (right_id_L ∅ (∪))).
  all: unfold hasAttr in E; case_bool_decide as HK; cbn in E; injection E as <-; cbn;
       rewrite ?orb_true_r; (split; [reflexivity|]);
       first [apply (comm_L (∪))
             | symmetry; rewrite (comm_L (∪)); apply subseteq_union_1_L;
               by apply singleton_subseteq_l].
Qed.

Lemma nextElement_event ET i s s' :
  forEach _ ckH (nextElement ET i) s = Ok s' -> s' = s.
Proof. by intros [= <-]. Qed.

Lemma leaveStream_event O FD Ty s s' h st :
  forEach _ ckH (leaveStream O FD Ty) s = Ok s' ->
  CollectionStack s = h :: st ->
  CollectionStack s' = st /\ marks s' = marks s.
Proof.
  intros E HS. destruct s as [S fi uc ui st0]. cbn in HS. subst st0.
  injection E as <-. done.
Qed.

(** The callbacks for a base of a special type go to every handler. *)
Lemma base_event ev s s' h st :
  (exists O B Ty, ev = handleSyclAccessorTypeBase O B Ty
                  \/ ev = handleSyclStreamTypeBase O B Ty) ->
  forEach _ ckH ev s = Ok s' ->
  CollectionStack s = h :: st ->
  CollectionStack s' = true :: st /\ marks s' = marks s.
Proof.
  intros (O & B & Ty & [-> | ->]) E HS; destruct s as [S fi uc ui st0];
    cbn in HS; subst st0; cbn in E;
    unfold SyclKernelUnionChecker.checkType in E; cbn in E;
    destruct (decide (uc <> 0)); cbn in E; injection E as <-; cbn;
    (split; [reflexivity|]); try reflexivity;
    by destruct (checkAccessorType_spec S Ty "base") as (_ & _ & -> & _).
Qed.

(** Inside a union the marker is not called. *)
Lemma union_body_marks O FD RD s s' :
  VisitUnion _ ckrd ckH O FD RD s = Ok s' ->
  CollectionStack s' = CollectionStack s /\ marks s' = marks s.
Proof.
  pose (R := fun s s' : CheckState =>
               CollectionStack s' = CollectionStack s /\ marks s' = marks s).
  assert (Rr : forall s, R s s) by done.
  assert (Rt : forall s1 s2 s3, R s1 s2 -> R s2 s3 -> R s1 s3).
  { intros s1 s2 s3 [H1 H2] [H3 H4]. split; congruence. }
  assert (HH : Forall (fun H => forall ev s b s', handle _ H ev s = Ok (b, s') -> R s s')
                 (HandlerFilter _ (VisitUnionBody _) ckH)).
  { cbn. repeat apply Forall_cons_2; [| | |apply Forall_nil_2]; cbn.
    - by intros ev x b y [= _ <-].
    - intros ev x b y. destruct x as [S fi uc ui st].
      destruct ev; cbn; unfold SyclKernelUnionChecker.checkType; cbn;
        try case_decide; by intros [= _ <-].
    - by intros ev x b y [= _ <-]. }
  unfold VisitUnion. cbn [AnyTrue existsb ckH checkHandlers VisitUnionBody
    SyclKernelFieldChecker.handler SyclKernelUnionChecker.handler orb].
  intros E. apply rbind_Ok in E as (s1 & E1 & E). apply rbind_Ok in E as (s2 & E2 & E3).
  apply (forEach_respects R Rr Rt _ _ _ _ HH) in E1, E3.
  assert (R s1 s2).
  { eapply (foldM_respects R Rr Rt); [|exact E2].
    apply Forall_forall. intros F _ x y.
    by apply (visit_keeps ckrd R Rr Rt _ HH). }
  eapply Rt; [exact E1|]. eapply Rt; eassumption.
Qed.

Lemma streamRecord_onlyAdds O FD RD T s s' :
  visitStreamRecord _ ckH O FD RD T s = Ok s' -> onlyAdds s s'.
Proof.
  unfold visitStreamRecord. intros E.
  apply rbind_Ok in E as (s1 & E1 & E). apply rbind_Ok in E as (s2 & E2 & E3).
  apply forEach_onlyAdds in E1, E3.
  eapply onlyAdds_trans; [exact E1|]. eapply onlyAdds_trans; [|exact E3].
  eapply (foldM_respects onlyAdds onlyAdds_refl onlyAdds_trans); [|exact E2].
  apply Forall_forall. intros F _ x y.
  destruct (isSyclAccessorType _); [|intros [= <-]; apply onlyAdds_refl].
  apply (ignoreResult_respects onlyAdds onlyAdds_refl onlyAdds_trans).
  apply checkHandlers_onlyAdds.
Qed.

(** The accessors of a stream set the entry of the stream, which is
    dropped when the stream is left. *)
Lemma stream_fields_marks (l : list FieldDecl) s s' h st :
  foldM _ (fun Field s =>
             if isSyclAccessorType (getType Field)
             then ignoreResult _
                    (KF_FOR_EACH _ ckH (handleSyclAccessorType Field (getType Field)) s)
             else Ok s) l s = Ok s' ->
  passedCheckers s' = true ->
  CollectionStack s = h :: st ->
  exists h', CollectionStack s' = h' :: st /\ marks s' = marks s.
Proof.
  revert s h. induction l as [|F l IH]; intros s h E HP HS.
  - injection E as <-. by exists h.
  - rewrite SemaSYCL_Properties.foldM_cons in E.
    apply rbind_Ok in E as (s1 & E1 & E2).
    assert (HP1 : passedCheckers s1 = true).
    { eapply passed_before; [|exact HP].
      eapply (foldM_respects onlyAdds onlyAdds_refl onlyAdds_trans); [|exact E2].
      apply Forall_forall. intros F' _ x y.
      destruct (isSyclAccessorType (getType F'));
        [|intros Exy; injection Exy as <-; apply onlyAdds_refl].
      apply (ignoreResult_respects onlyAdds onlyAdds_refl onlyAdds_trans).
      apply checkHandlers_onlyAdds. }
    destruct (isSyclAccessorType (getType F)).
    + apply rbind_Ok in E1 as ([b x] & E1 & [= ->]).
      eapply marking_event in E1 as [H1 H2]; [| |exact HP1|exact HS].
      * destruct (IH _ _ E2 HP H1) as (h' & H3 & H4). exists h'. split; congruence.
      * exists F, (getType F). apply list_elem_of_here.
    + injection E1 as <-. eapply IH; eassumption.
Qed.

Local Abbreviation fieldP :=
  (fun T : QualType =>
     forall O F s s' h st,
       CollectionStack s = h :: st ->
       visitField _ ckrd ckH O F T s = Ok s' ->
       passedCheckers s' = true ->
       CollectionStack s' = (h || needsDecomposition T) :: st
       /\ marks s' = marks s ∪ fieldMarks F T).

Local Abbreviation baseP :=
  (fun T : QualType =>
     forall O B s s' h st,
       CollectionStack s = h :: st ->
       visitBase _ ckrd ckH O B T s = Ok s' ->
       passedCheckers s' = true ->
       CollectionStack s' = (h || baseNeedsDecomposition T) :: st
       /\ marks s' = marks s ∪ baseMarks T).

Lemma fields_marks O (l : list FieldDecl) :
  Forall (fun F => fieldP (getType F)) l ->
  forall s s' h st,
    CollectionStack s = h :: st ->
    foldM _ (fun F s => visitField _ ckrd ckH O F (getType F) s) l s = Ok s' ->
    passedCheckers s' = true ->
    CollectionStack s' = (h || existsb (fun F => needsDecomposition (getType F)) l) :: st
    /\ marks s' = marks s ∪ ⋃ map (fun F => fieldMarks F (getType F)) l.
Proof.
  induction 1 as [|F l HF _ IH]; intros s s' h st HS E HP.
  - injection E as <-. cbn. rewrite orb_false_r, (right_id_L ∅ (∪)). done.
  - rewrite SemaSYCL_Properties.foldM_cons in E.
    apply rbind_Ok in E as (s1 & E1 & E2).
    assert (HP1 : passedCheckers s1 = true).
    { eapply passed_before; [|exact HP].
      eapply (foldM_respects onlyAdds onlyAdds_refl onlyAdds_trans); [|exact E2].
      apply Forall_forall. intros F' _ x y. apply visit_onlyAdds. }
    destruct (HF _ _ _ _ _ _ HS E1 HP1) as [H1 H2].
    destruct (IH _ _ _ _ H1 E2 HP) as [H3 H4].
    cbn [existsb map]. rewrite union_list_cons.
    rewrite H3, H4, H2, orb_assoc, (assoc_L (∪)). done.
Qed.

Lemma bases_marks O (l : list CXXBaseSpecifier) :
  Forall (fun B => baseP (getBaseType B)) l ->
  forall s s' h st,
    CollectionStack s = h :: st ->
    foldM _ (fun B s => visitBase _ ckrd ckH O B (getBaseType B) s) l s = Ok s' ->
    passedCheckers s' = true ->
    CollectionStack s'
    = (h || existsb (fun B => baseNeedsDecomposition (getBaseType B)) l) :: st
    /\ marks s' = marks s ∪ ⋃ map (fun B => baseMarks (getBaseType B)) l.
Proof.
  induction 1 as [|B l HB _ IH]; intros s s' h st HS E HP.
  - injection E as <-. cbn. rewrite orb_false_r, (right_id_L ∅ (∪)). done.
  - rewrite SemaSYCL_Properties.foldM_cons in E.
    apply rbind_Ok in E as (s1 & E1 & E2).
    assert (HP1 : passedCheckers s1 = true).
    { eapply passed_before; [|exact HP].
      eapply (foldM_respects onlyAdds onlyAdds_refl onlyAdds_trans); [|exact E2].
      apply Forall_forall. intros B' _ x y. apply visit_onlyAdds. }
    destruct (HB _ _ _ _ _ _ HS E1 HP1) as [H1 H2].
    destruct (IH _ _ _ _ H1 E2 HP) as [H3 H4].
    cbn [existsb map]. rewrite union_list_cons.
    rewrite H3, H4, H2, orb_assoc, (assoc_L (∪)). done.
Qed.

(** The visit of a class: its entry collects what its bases and fields
    need, and passes it on to the class and to the enclosing collection. *)
Lemma complexRecord_marks O P RD T s s' h st :
  PRecord (fun T => fieldP T /\ baseP T) RD ->
  getAsCXXRecordDecl T = Some RD ->
  CollectionStack s = h :: st ->
  visitComplexRecord _ ckrd ckH O P RD T s = Ok s' ->
  passedCheckers s' = true ->
  CollectionStack s'
  = (h || (existsb (fun B => baseNeedsDecomposition (getBaseType B)) (bases RD)
           || existsb (fun F => needsDecomposition (getType F)) (fields RD))) :: st
  /\ marks s'
     = marks s ∪
       ((if existsb (fun B => baseNeedsDecomposition (getBaseType B)) (bases RD)
            || existsb (fun F => needsDecomposition (getType F)) (fields RD)
         then {[recordKey RD]} else ∅)
        ∪ (⋃ map (fun B => baseMarks (getBaseType B)) (bases RD))
        ∪ (⋃ map (fun F => fieldMarks F (getType F)) (fields RD))).
Proof.
  intros [HB HF] HRD HS E HP. unfold visitComplexRecord in E.
  apply rbind_Ok in E as (s1 & E1 & E). apply rbind_Ok in E as (s2 & E2 & E).
  apply rbind_Ok in E as (s3 & E3 & E4).
  assert (HP3 : passedCheckers s3 = true).
  { eapply passed_before; [|exact HP]. eapply forEach_onlyAdds; exact E4. }
  assert (HP2 : passedCheckers s2 = true).
  { eapply passed_before; [|exact HP3].
    eapply (foldM_respects onlyAdds onlyAdds_refl onlyAdds_trans); [|exact E3].
    apply Forall_forall. intros F' _ x y. apply visit_onlyAdds. }
  apply enter_event in E1; [|exists O, P, T, (mkFieldDecl "" "" T 0), T; apply list_elem_of_here].
  assert (HS1 : CollectionStack s1 = false :: h :: st) by (subst s1; cbn; by rewrite HS).
  assert (HM1 : marks s1 = marks s) by (by subst s1).
  eapply bases_marks in E2 as [HS2 HM2]; [| |exact HS1|exact HP2].
  2:{ eapply Forall_impl; [exact HB|]. by intros B [_ H]. }
  eapply fields_marks in E3 as [HS3 HM3]; [| |exact HS2|exact HP3].
  2:{ eapply Forall_impl; [exact HF|]. by intros F [H _]. }
  eapply leave_event in E4 as [HS4 HM4]; [| |exact HS3].
  2:{ exists O, P, T, RD, (mkFieldDecl "" "" T 0), T. left. done. }
  cbn [orb] in HS4, HM4. split; [exact HS4|].
  rewrite HM4, HM3, HM2, HM1.
  generalize (marks s) (⋃ map (fun B => baseMarks (getBaseType B)) (bases RD))
    (⋃ map (fun F => fieldMarks F (getType F)) (fields RD)).
  intros X Y Z.
  match goal with
  | |- context [if ?c then _ else _] =>
      generalize (if c then {[recordKey RD]} else ∅ : gset string)
  end.
  intros W. rewrite <- !(assoc_L (∪)). f_equal.
  rewrite (comm_L (∪) W). by rewrite <- !(assoc_L (∪)).
Qed.

Lemma complexArray_marks O F T ET n s s' h st :
  fieldP ET ->
  CollectionStack s = h :: st ->
  visitComplexArray _ ckrd ckH O F T (Some (ET, n)) s = Ok s' ->
  passedCheckers s' = true ->
  CollectionStack s' = (h || needsDecomposition ET) :: st
  /\ marks s'
     = marks s ∪ ((if needsDecomposition ET then {[fieldKey F]} else ∅) ∪ fieldMarks F ET).
Proof.
  intros HE HS E HP. unfold visitComplexArray in E.
  apply rbind_Ok in E as ([b s0] & E0 & E).
  apply container_event in E0 as [[-> ->]|[-> HN]]; [| |by exists F, T; right].
  2:{ injection E as <-. congruence. }
  cbn [negb fst snd] in E. destruct (negb _); [discriminate|].
  apply rbind_Ok in E as (s1 & E1 & E). apply rbind_Ok in E as (s2 & E2 & E).
  apply rbind_Ok in E as (s3 & E3 & E4).
  assert (s3 = s2) as ->.
  { symmetry. revert E3. apply (forIndices_respects eq); [done|congruence|].
    by intros i x y [= <-]. }
  clear E3.
  assert (HP2 : passedCheckers s2 = true).
  { eapply passed_before; [|exact HP]. eapply forEach_onlyAdds; exact E4. }
  apply enter_event in E1;
    [|exists O, (ParentField F), T, F, ET; do 2 apply list_elem_of_further;
      apply list_elem_of_here].
  unfold visitArrayElementImpl in E2. apply rbind_Ok in E2 as (s1' & E2' & E2).
  apply nextElement_event in E2' as ->.
  eapply HE in E2 as [HS2 HM2]; [| |exact HP2].
  2:{ subst s1. cbn. rewrite HS. reflexivity. }
  eapply leave_event in E4 as [HS4 HM4]; [| |exact HS2].
  2:{ exists O, (ParentField F), T, O, F, ET. right. done. }
  cbn [orb] in HS4, HM4. split; [exact HS4|].
  rewrite HM4, HM2. subst s1. cbn.
  rewrite <- !(assoc_L (∪)). f_equal. apply (comm_L (∪)).
Qed.

Lemma base_record_marks O B T RD s s' h st :
  PRecord (fun T => fieldP T /\ baseP T) RD ->
  (T = SamplerType RD \/ T = HalfType RD \/ (exists n, T = SpecConstantType RD n)
   \/ T = StructType RD \/ T = UnionType RD) ->
  CollectionStack s = h :: st ->
  visitBase _ ckrd ckH O B T s = Ok s' ->
  passedCheckers s' = true ->
  CollectionStack s' = (h || baseNeedsDecomposition T) :: st
  /\ marks s' = marks s ∪ baseMarks T.
Proof.
  intros HR HT HS E HP.
  assert (E' : visitComplexRecord _ ckrd ckH O (ParentBase B) RD T s = Ok s').
  { rewrite <- visitRecord_check.
    destruct HT as [->|[->|[(n & ->)|[->| ->]]]]; exact E. }
  assert (HD : getAsCXXRecordDecl T = Some RD).
  { by destruct HT as [->|[->|[(n & ->)|[->| ->]]]]. }
  destruct (complexRecord_marks _ _ _ _ _ _ _ _ HR HD HS E' HP) as [H1 H2].
  destruct HT as [->|[->|[(n & ->)|[->| ->]]]]; split; assumption.
Qed.

(** What the marker has done when a field, or a base, has been visited
    and the two checkers are valid: the entry of the collection the field
    is in is set when the field needs it, and the classes and arrays in the
    field that need it are marked. *)
Lemma visit_marks (T : QualType) : fieldP T /\ baseP T.
Proof.
  induction T using QualType_nested_ind; split; intros O X s s' h st HS E HP;
    try (eapply base_record_marks;
         [exact H|by eauto 6|exact HS|exact E|exact HP]);
    cbn [needsDecomposition baseNeedsDecomposition fieldMarks baseMarks];
    rewrite ?orb_true_r, ?orb_false_r, ?(right_id_L ∅ (∪));
    try discriminate E;
    try (by eapply base_event; [do 3 eexists; left; reflexivity|exact E|exact HS]);
    try (by eapply base_event; [do 3 eexists; right; reflexivity|exact E|exact HS]);
    idtac.
  - (* accessor *)
    cbn [visitField] in E. apply rbind_Ok in E as ([b x] & E & [= ->]).
    eapply marking_event; [|exact E|exact HP|exact HS].
    do 2 eexists. apply list_elem_of_here.
  - (* sampler *)
    cbn [visitField] in E. apply rbind_Ok in E as ([b x] & E & [= ->]).
    eapply marking_event; [|exact E|exact HP|exact HS].
    do 2 eexists. apply list_elem_of_further, list_elem_of_here.
  - (* half *)
    cbn [visitField] in E. apply rbind_Ok in E as ([b x] & E & [= ->]).
    eapply marking_event; [|exact E|exact HP|exact HS].
    do 2 eexists. do 4 apply list_elem_of_further. apply list_elem_of_here.
  - (* specialization constant *)
    cbn [visitField] in E. apply rbind_Ok in E as ([b x] & E & [= ->]).
    eapply marking_event; [|exact E|exact HP|exact HS].
    do 2 eexists. do 2 apply list_elem_of_further. apply list_elem_of_here.
  - (* stream *)
    cbn [visitField] in E. apply rbind_Ok in E as ([b s1] & E1 & E). cbn [snd] in E.
    assert (HP1 : passedCheckers s1 = true).
    { eapply passed_before; [|exact HP]. eapply streamRecord_onlyAdds; exact E. }
    eapply marking_event in E1 as [HS1 HM1]; [| |exact HP1|exact HS].
    2:{ do 2 eexists. do 3 apply list_elem_of_further. apply list_elem_of_here. }
    unfold visitStreamRecord in E.
    apply rbind_Ok in E as (s2 & E2 & E). apply rbind_Ok in E as (s3 & E3 & E4).
    assert (HP3 : passedCheckers s3 = true).
    { eapply passed_before; [|exact HP]. eapply forEach_onlyAdds; exact E4. }
    apply enter_event in E2;
      [|exists O, (ParentField X), (StreamType RD), X, (StreamType RD);
        apply list_elem_of_further, list_elem_of_here].
    eapply stream_fields_marks in E3 as (h' & HS3 & HM3); [|exact HP3|].
    2:{ subst s2. cbn. reflexivity. }
    eapply leaveStream_event in E4 as [HS4 HM4]; [|exact HS3].
    rewrite HS4, HM4, HM3. subst s2. cbn. by rewrite HS1, HM1.
  - (* class *)
    rewrite SemaSYCL_Properties.visitField_record in E.
    apply rbind_Ok in E as ([b s1] & E1 & E).
    apply container_event in E1 as [[-> ->]|[-> HN]];
      [| |by exists X, (StructType RD); left].
    2:{ injection E as <-. congruence. }
    cbn [fst snd] in E. rewrite visitRecord_check in E.
    exact (complexRecord_marks _ _ _ (StructType RD) _ _ _ _ H eq_refl HS E HP).
  - (* union *)
    rewrite SemaSYCL_Properties.visitField_union in E.
    apply rbind_Ok in E as ([b s1] & E1 & E).
    apply plain_event in E1 as [-> ->]; [|by exists X, (UnionType RD); right].
    cbn [fst snd] in E. apply union_body_marks in E as [-> ->]. by rewrite HS.
  - (* reference *)
    cbn [visitField] in E. apply rbind_Ok in E as ([b x] & E & [= ->]).
    apply rejecting_event in E; [congruence|by exists X, (ReferenceType T); left].
  - (* pointer *)
    cbn [visitField] in E. apply rbind_Ok in E as ([b x] & E & [= ->]).
    eapply marking_event; [|exact E|exact HP|exact HS].
    do 2 eexists. do 5 apply list_elem_of_further. apply list_elem_of_here.
  - (* array of constant size *)
    rewrite SemaSYCL_Properties.visitField_constant_array, visitArray_check in E.
    eapply complexArray_marks; [apply IHT|exact HS|exact E|exact HP].
  - (* array of variable size *)
    rewrite SemaSYCL_Properties.visitField_variable_array, visitArray_check in E.
    unfold visitComplexArray in E. apply rbind_Ok in E as ([b s0] & E0 & E).
    apply container_event in E0 as [[-> ->]|[-> HN]];
      [discriminate E|injection E as <-; congruence|by exists X, (VariableArrayType T); right].
  - (* incomplete array *)
    rewrite SemaSYCL_Properties.visitField_incomplete_array, visitArray_check in E.
    unfold visitComplexArray in E. apply rbind_Ok in E as ([b s0] & E0 & E).
    apply container_event in E0 as [[-> ->]|[-> HN]];
      [discriminate E|injection E as <-; congruence|by exists X, (IncompleteArrayType T); right].
  - (* scalar *)
    cbn [visitField] in E. apply rbind_Ok in E as ([b x] & E & [= ->]).
    apply plain_event in E as [_ ->]; [by rewrite HS|by exists X, (ScalarType n sz); left].
  - (* other *)
    cbn [visitField] in E. apply rbind_Ok in E as ([b x] & E & [= ->]).
    apply rejecting_event in E; [congruence|by exists X, (OtherType n sz); right].
Qed.

Lemma accepted_marks (KernelObj : CXXRecordDecl) (S : Sema) (s : CheckState) :
  CheckSYCLKernelCall KernelObj S = Ok s ->
  passedCheckers s = true ->
  RequiresDecomposition (chk_Sema s) = RequiresDecomposition S ∪ kernelObjectMarks KernelObj
  /\ CollectionStack s = [true].
Proof.
  intros E HP. unfold CheckSYCLKernelCall in E. apply rbind_Ok in E as (s1 & E1 & E2).
  unfold VisitRecordBases in E1. unfold VisitRecordFields in E2.
  assert (HP1 : passedCheckers s1 = true).
  { eapply passed_before; [|exact HP].
    eapply (foldM_respects onlyAdds onlyAdds_refl onlyAdds_trans); [|exact E2].
    apply Forall_forall. intros F _ x y. apply visit_onlyAdds. }
  eapply bases_marks in E1 as [HS1 HM1]; [| |reflexivity|exact HP1].
  2:{ apply Forall_forall. intros B _. apply visit_marks. }
  eapply fields_marks in E2 as [HS2 HM2]; [| |exact HS1|exact HP].
  2:{ apply Forall_forall. intros F _. apply visit_marks. }
  split; [|exact HS2].
  rewrite HM2, HM1. unfold kernelObjectMarks. cbn. by rewrite (assoc_L (∪)).
Qed.

(** X19: what the marker has marked when the walk of a kernel object ends
    with both legality checkers valid.  The declarations marked as
    requiring decomposition are those marked before and, of the classes and
    the array fields found through the bases and fields of the kernel
    object (through classes and arrays of constant size, not through
    unions), exactly those that hold an accessor, a sampler, a
    specialization constant, a stream, a half or a pointer, directly or in
    a class or array they hold.  The stack of the marker is back at its
    dummy entry. *)
Theorem marks_of_accepted_kernel (KernelObj : CXXRecordDecl) (S : Sema)
    (s : CheckState) :
  CheckSYCLKernelCall KernelObj S = Ok s ->
  passedCheckers s = true ->
  (forall key,
     key ∈ RequiresDecomposition (chk_Sema s)
     <-> key ∈ RequiresDecomposition S \/ key ∈ kernelObjectMarks KernelObj)
  /\ CollectionStack s = [true].
Proof.
  intros E HP. destruct (accepted_marks _ _ _ E HP) as [HM HS].
  split; [|exact HS]. intros key. rewrite HM. apply elem_of_union.
Qed.

Lemma marks_of_accepted_kernel_witness :
  (forall key,
     key ∈ RequiresDecomposition
             (chk_Sema (CheckSamples.checked KernelSamples.kernelObject
                          KernelSamples.noMarks))
     <-> key ∈ RequiresDecomposition KernelSamples.noMarks
         \/ key ∈ kernelObjectMarks KernelSamples.kernelObject)
  /\ CollectionStack
       (CheckSamples.checked KernelSamples.kernelObject KernelSamples.noMarks)
     = [true].
Proof.
  apply (marks_of_accepted_kernel KernelSamples.kernelObject KernelSamples.noMarks
           (CheckSamples.checked KernelSamples.kernelObject KernelSamples.noMarks)).
  - vm_compute. reflexivity.
  - vm_compute. reflexivity.
Defined.

End SemaSYCL_Marks.

Module SemaSYCL_ArgsSize.

Import SemaSYCL.
Import SemaSYCL_Checks.
Import SemaSYCL_Visitor.
Import SemaSYCL_Legality.
Import SemaSYCL_Marks.

(** ** The size of the kernel arguments *)

Local Abbreviation azH := (fun simd => [SyclKernelArgsSizeChecker.handler simd]).
Local Abbreviation azrd := argsRequiresDecomposition.

Lemma zextBits_add_l (a b : Z) : zextBits 32 (zextBits 32 a + b) = zextBits 32 (a + b).
Proof. unfold zextBits. apply Z.add_mod_idemp_l. lia. Qed.

Lemma zextBits_zextBits (a : Z) : zextBits 32 (zextBits 32 a) = zextBits 32 a.
Proof. unfold zextBits. apply Z.mod_mod. lia. Qed.

(** A field that is not decomposed is measured as a whole. *)
Lemma whole_field simd O (F : FieldDecl) (a : ArgsSizeState) :
  measuredWhole (as_Sema a) F = true ->
  visitField _ azrd (azH simd) O F (getType F) a
  = Ok (SyclKernelArgsSizeChecker.addParam (getType F) a).
Proof.
  unfold measuredWhole. destruct (getType F) eqn:ET; try discriminate; intros H;
    try reflexivity.
  - (* class *)
    apply negb_true_iff in H. rewrite SemaSYCL_Properties.visitField_record.
    cbn. unfold visitRecord, azrd. rewrite H. reflexivity.
  - (* array of constant size *)
    apply negb_true_iff in H. rewrite SemaSYCL_Properties.visitField_constant_array.
    unfold visitArray, azrd. rewrite H. reflexivity.
  - (* array of variable size *)
    apply negb_true_iff in H. rewrite SemaSYCL_Properties.visitField_variable_array.
    unfold visitArray, azrd. rewrite H. reflexivity.
  - (* incomplete array *)
    apply negb_true_iff in H. rewrite SemaSYCL_Properties.visitField_incomplete_array.
    unfold visitArray, azrd. rewrite H. reflexivity.
Qed.

Lemma whole_base simd O (B : CXXBaseSpecifier) (a : ArgsSizeState) :
  baseMeasuredWhole (as_Sema a) B = true ->
  visitBase _ azrd (azH simd) O B (getBaseType B) a
  = Ok (SyclKernelArgsSizeChecker.addParam (getBaseType B) a).
Proof.
  unfold baseMeasuredWhole. destruct (getBaseType B) eqn:ET; try discriminate; intros H;
    try reflexivity; apply negb_true_iff in H;
    first [rewrite SemaSYCL_Properties.visitBase_spec_constant
          | rewrite (SemaSYCL_Properties.visitBase_record azrd (azH simd) O B _ RD)
              by (repeat first [apply list_elem_of_here | apply list_elem_of_further])];
    unfold visitRecord, azrd; rewrite H; reflexivity.
Qed.

Lemma whole_fields simd O (l : list FieldDecl) (a : ArgsSizeState) :
  forallb (measuredWhole (as_Sema a)) l = true ->
  zextBits 32 (SizeOfParams a) = SizeOfParams a ->
  foldM _ (fun F s => visitField _ azrd (azH simd) O F (getType F) s) l a
  = Ok (mkArgsSize (as_Sema a)
          (zextBits 32 (SizeOfParams a
                        + foldr Z.add 0 (map (fun F => getTypeSizeInChars (getType F)) l)))).
Proof.
  revert a. induction l as [|F l IH]; intros a H Hn.
  - cbn. rewrite Z.add_0_r, Hn. by destruct a.
  - cbn [forallb] in H. apply andb_prop in H as [HF Hl].
    rewrite SemaSYCL_Properties.foldM_cons, whole_field by exact HF. cbn [rbind].
    rewrite IH; [|exact Hl|].
    + cbn. f_equal. f_equal. rewrite zextBits_add_l. f_equal. lia.
    + cbn. apply zextBits_zextBits.
Qed.

Lemma whole_bases simd O (l : list CXXBaseSpecifier) (a : ArgsSizeState) :
  forallb (baseMeasuredWhole (as_Sema a)) l = true ->
  zextBits 32 (SizeOfParams a) = SizeOfParams a ->
  foldM _ (fun B s => visitBase _ azrd (azH simd) O B (getBaseType B) s) l a
  = Ok (mkArgsSize (as_Sema a)
          (zextBits 32 (SizeOfParams a
                        + foldr Z.add 0
                            (map (fun B => getTypeSizeInChars (getBaseType B)) l)))).
Proof.
  revert a. induction l as [|B l IH]; intros a H Hn.
  - cbn. rewrite Z.add_0_r, Hn. by destruct a.
  - cbn [forallb] in H. apply andb_prop in H as [HB Hl].
    rewrite SemaSYCL_Properties.foldM_cons, whole_base by exact HB. cbn [rbind].
    rewrite IH; [|exact Hl|].
    + cbn. f_equal. f_equal. rewrite zextBits_add_l. f_equal. lia.
    + cbn. apply zextBits_zextBits.
Qed.

Lemma whole_kernel (KernelObj : CXXRecordDecl) (KernelLoc : string)
    (IsSIMDKernel : bool) (s : CheckState) :
  passedCheckers s = true ->
  forallb (baseMeasuredWhole (chk_Sema s)) (bases KernelObj) = true ->
  forallb (measuredWhole (chk_Sema s)) (fields KernelObj) = true ->
  checkArgsSize KernelObj KernelLoc IsSIMDKernel s
  = Ok (if decide
             (zextBits 32
                (foldr Z.add 0
                   (map (fun B => getTypeSizeInChars (getBaseType B)) (bases KernelObj))
                 + foldr Z.add 0
                     (map (fun F => getTypeSizeInChars (getType F)) (fields KernelObj)))
              > MaxKernelArgsSize)
        then Diag (chk_Sema s) KernelLoc warn_sycl_kernel_too_big_args
        else chk_Sema s).
Proof.
  intros HP HB HF. unfold checkArgsSize, argsSizeWalk. rewrite HP.
  unfold VisitRecordBases, VisitRecordFields.
  rewrite whole_bases; [|exact HB|reflexivity]. cbn [rbind].
  rewrite whole_fields; [|exact HF|cbn; apply zextBits_zextBits].
  cbn [rbind]. unfold SyclKernelArgsSizeChecker.destroy. cbn [SizeOfParams as_Sema].
  rewrite zextBits_add_l, Z.add_0_l. reflexivity.
Qed.

(** X20: the size check of a kernel object that passed the legality
    checkers and of which no base and no field is decomposed (each is a
    scalar, a pointer, a union, a half, or a class or an array without the
    mark) measures the kernel arguments at the sum of the sizes of the types
    of the bases and of the fields, as a 32-bit unsigned number, and reports
    [warn_sycl_kernel_too_big_args] at the kernel exactly when that is more
    than 2048. *)
Theorem size_of_undecomposed_kernel (KernelObj : CXXRecordDecl) (KernelLoc : string)
    (IsSIMDKernel : bool) (s : CheckState) :
  passedCheckers s = true ->
  forallb (baseMeasuredWhole (chk_Sema s)) (bases KernelObj) = true ->
  forallb (measuredWhole (chk_Sema s)) (fields KernelObj) = true ->
  checkArgsSize KernelObj KernelLoc IsSIMDKernel s
  = Ok (if decide
             (zextBits 32
                (foldr Z.add 0
                   (map (fun B => getTypeSizeInChars (getBaseType B)) (bases KernelObj))
                 + foldr Z.add 0
                     (map (fun F => getTypeSizeInChars (getType F)) (fields KernelObj)))
              > MaxKernelArgsSize)
        then Diag (chk_Sema s) KernelLoc warn_sycl_kernel_too_big_args
        else chk_Sema s).
Proof.
  intros HP HB HF. rewrite (whole_kernel _ KernelLoc IsSIMDKernel _ HP HB HF).
  reflexivity.
Qed.

Lemma size_of_undecomposed_kernel_witness :
  checkArgsSize CheckSamples.kernelWithBig "kernel call" false
    (CheckSamples.checked CheckSamples.kernelWithBig KernelSamples.noMarks)
  = Ok (if decide
             (zextBits 32
                (foldr Z.add 0
                   (map (fun B => getTypeSizeInChars (getBaseType B))
                      (bases CheckSamples.kernelWithBig))
                 + foldr Z.add 0
                     (map (fun F => getTypeSizeInChars (getType F))
                        (fields CheckSamples.kernelWithBig)))
              > MaxKernelArgsSize)
        then Diag (chk_Sema (CheckSamples.checked CheckSamples.kernelWithBig
                               KernelSamples.noMarks))
               "kernel call" warn_sycl_kernel_too_big_args
        else chk_Sema (CheckSamples.checked CheckSamples.kernelWithBig
                         KernelSamples.noMarks)).
Proof.
  apply (size_of_undecomposed_kernel CheckSamples.kernelWithBig "kernel call" false
           (CheckSamples.checked CheckSamples.kernelWithBig KernelSamples.noMarks)).
  - vm_compute. reflexivity.
  - vm_compute. reflexivity.
  - vm_compute. reflexivity.
Defined.

Lemma forallb_eq {A : Type} (f g : A -> bool) (l : list A) :
  (forall x, f x = g x) -> forallb f l = forallb g l.
Proof. intros H. induction l as [|x l IH]; cbn; [done|]. by rewrite H, IH. Qed.

Lemma measuredWhole_marks (S S' : Sema) (F : FieldDecl) :
  RequiresDecomposition S' = RequiresDecomposition S ->
  measuredWhole S' F = measuredWhole S F.
Proof. intros H. unfold measuredWhole, hasAttr. by rewrite H. Qed.

Lemma baseMeasuredWhole_marks (S S' : Sema) (B : CXXBaseSpecifier) :
  RequiresDecomposition S' = RequiresDecomposition S ->
  baseMeasuredWhole S' B = baseMeasuredWhole S B.
Proof. intros H. unfold baseMeasuredWhole, hasAttr. by rewrite H. Qed.

(** X21: the checks of [CheckSYCLKernelCall] together, for a kernel object
    that captures plain data.  When no base and no field of the kernel
    object is of a special type, a reference or a type the visitor does not
    know, or marked before the walk, when no class and no array in it holds
    a field that needs decomposition, and when the legality checkers accept
    it, the walk marks nothing and the size check measures the kernel object
    at the sum of the sizes of its bases and fields: the warning
    [warn_sycl_kernel_too_big_args] is reported exactly when this sum, as a
    32-bit unsigned number, is more than 2048. *)
Theorem warning_for_plain_kernel (KernelObj : CXXRecordDecl) (S : Sema)
    (KernelLoc : string) (IsSIMDKernel : bool) (s : CheckState) :
  CheckSYCLKernelCall KernelObj S = Ok s ->
  passedCheckers s = true ->
  kernelObjectMarks KernelObj = ∅ ->
  forallb (baseMeasuredWhole S) (bases KernelObj) = true ->
  forallb (measuredWhole S) (fields KernelObj) = true ->
  RequiresDecomposition (chk_Sema s) = RequiresDecomposition S
  /\ checkArgsSize KernelObj KernelLoc IsSIMDKernel s
     = Ok (if decide
                (zextBits 32
                   (foldr Z.add 0
                      (map (fun B => getTypeSizeInChars (getBaseType B))
                         (bases KernelObj))
                    + foldr Z.add 0
                        (map (fun F => getTypeSizeInChars (getType F))
                           (fields KernelObj)))
                 > MaxKernelArgsSize)
           then Diag (chk_Sema s) KernelLoc warn_sycl_kernel_too_big_args
           else chk_Sema s).
Proof.
  intros E HP HM HB HF.
  destruct (accepted_marks _ _ _ E HP) as [HM' _].
  rewrite HM, (right_id_L ∅ (∪)) in HM'. split; [exact HM'|].
  apply whole_kernel; [exact HP| |].
  - rewrite <- HB. apply forallb_eq. intros B. by apply baseMeasuredWhole_marks.
  - rewrite <- HF. apply forallb_eq. intros F. by apply measuredWhole_marks.
Qed.

Lemma warning_for_plain_kernel_witness :
  RequiresDecomposition
    (chk_Sema (CheckSamples.checked KernelSamples.kernelWithArray KernelSamples.noMarks))
  = RequiresDecomposition KernelSamples.noMarks
  /\ checkArgsSize KernelSamples.kernelWithArray "kernel call" true
       (CheckSamples.checked KernelSamples.kernelWithArray KernelSamples.noMarks)
     = Ok (if decide
                (zextBits 32
                   (foldr Z.add 0
                      (map (fun B => getTypeSizeInChars (getBaseType B))
                         (bases KernelSamples.kernelWithArray))
                    + foldr Z.add 0
                        (map (fun F => getTypeSizeInChars (getType F))
                           (fields KernelSamples.kernelWithArray)))
                 > MaxKernelArgsSize)
           then Diag (chk_Sema (CheckSamples.checked KernelSamples.kernelWithArray
                                  KernelSamples.noMarks))
                  "kernel call" warn_sycl_kernel_too_big_args
           else chk_Sema (CheckSamples.checked KernelSamples.kernelWithArray
                            KernelSamples.noMarks)).
Proof.
  apply (warning_for_plain_kernel KernelSamples.kernelWithArray KernelSamples.noMarks
           "kernel call" true
           (CheckSamples.checked KernelSamples.kernelWithArray KernelSamples.noMarks)).
  - vm_compute. reflexivity.
  - vm_compute. reflexivity.
  - vm_compute. reflexivity.
  - vm_compute. reflexivity.
  - vm_compute. reflexivity.
Defined.

End SemaSYCL_ArgsSize.

Module SemaSYCL_Names.

Import SemaSYCL.
Import SemaSYCL_Util.

(** ** Recognising the SYCL library types *)

Lemma string_eqb_decide (a b : string) : String.eqb a b = bool_decide (a = b).
Proof.
  destruct (String.eqb_spec a b) as [->|H].
  - by rewrite bool_decide_eq_true_2.
  - by rewrite bool_decide_eq_false_2.
Qed.

Lemma forallb_reverse {A : Type} (f : A -> bool) (l : list A) :
  forallb f (reverse l) = forallb f l.
Proof.
  induction l as [|x l IH]; [done|].
  rewrite reverse_cons, List.forallb_app, IH. cbn. rewrite andb_true_r. apply andb_comm.
Qed.

Lemma matchContextFrom_spec (Ctx : DeclContext) (Reversed : list DeclContextDesc) :
  wellFormed Ctx = true ->
  forallb (fun Scope => isSupportedKind Scope.1) Reversed = true ->
  matchContextFrom Ctx Reversed
  = Ok (bool_decide (reverse (qualifiedName Ctx) = Reversed)).
Proof.
  revert Ctx. induction Reversed as [|[K N] Rest IH]; intros Ctx HW HS.
  - cbn [matchContextFrom]. f_equal. destruct Ctx as [|K N P]; [done|].
    cbn in HW. apply andb_prop in HW as [HK _]. apply negb_true_iff in HK.
    unfold isTranslationUnit. cbn [getDeclKind qualifiedName].
    rewrite HK, reverse_snoc. symmetry. apply bool_decide_eq_false_2. discriminate.
  - cbn [forallb fst] in HS. apply andb_prop in HS as [HK HS].
    cbn [matchContextFrom fst snd]. destruct Ctx as [|K' N' P].
    + cbn [getDeclKind qualifiedName]. case_decide as HD.
      * reflexivity.
      * subst K. discriminate HK.
    + cbn [getDeclKind getContextName getParent qualifiedName].
      rewrite reverse_snoc. cbn in HW. apply andb_prop in HW as [_ HW].
      case_decide as HD.
      * f_equal. symmetry. apply bool_decide_eq_false_2. congruence.
      * subst K'.
        rewrite string_eqb_decide.
        destruct K; try discriminate HK; case_bool_decide as HN; cbn [negb];
          try (f_equal; symmetry; apply bool_decide_eq_false_2; congruence);
          subst N'; rewrite (IH P HW HS); f_equal; apply bool_decide_ext;
          split; congruence.
Qed.

(** X22: [Util::matchContext] accepts a declaration context exactly when
    its qualified name is the list of scopes.  For scopes that are
    namespaces, classes and class template specializations, the function
    returns without reaching [llvm_unreachable] or the parent of the
    translation unit, and returns true if and only if the contexts from the
    outermost one down to the context itself have, one by one, the kinds
    and the names of the scopes: no context may be missing, and none may
    come in between or around them. *)
Theorem matchContext_is_exact (Ctx : DeclContext) (Scopes : list DeclContextDesc) :
  wellFormed Ctx = true ->
  forallb (fun Scope => isSupportedKind Scope.1) Scopes = true ->
  matchContext Ctx Scopes = Ok (bool_decide (qualifiedName Ctx = Scopes)).
Proof.
  intros HW HS. unfold matchContext. rewrite matchContextFrom_spec; [|exact HW|].
  - f_equal. apply bool_decide_ext. split; [|congruence].
    intros H. apply (f_equal reverse) in H. by rewrite !reverse_involutive in H.
  - by rewrite forallb_reverse.
Qed.

Lemma matchContext_is_exact_witness :
  matchContext userAccessor
    [(Namespace, "cl"); (Namespace, "sycl"); (ClassTemplateSpecialization, "accessor")]
  = Ok (bool_decide
          (qualifiedName userAccessor
           = [(Namespace, "cl"); (Namespace, "sycl");
              (ClassTemplateSpecialization, "accessor")])).
Proof.
  apply (matchContext_is_exact userAccessor
           [(Namespace, "cl"); (Namespace, "sycl");
            (ClassTemplateSpecialization, "accessor")]).
  - reflexivity.
  - reflexivity.
Defined.

End SemaSYCL_Names.

Module SYCLIntegrationHeader_Properties.

Import SemaSYCL.
Import SYCLIntegrationHeader.

(** ** The tables of the integration header *)

Lemma emitKernelInfos_lookup (Ks : list KernelDesc) (CurStart : Z) (k : nat)
    (K : KernelDesc) :
  0 <= CurStart ->
  CurStart + Z.of_nat (length (concat (map KD_Params Ks))) < 2 ^ 32 ->
  Ks !! k = Some K ->
  exists I,
    emitKernelInfos Ks CurStart !! k = Some I
    /\ getName I = Name K
    /\ getNumParams I = Z.of_nat (length (KD_Params K))
    /\ isESIMD I = IsESIMDKernel K
    /\ callsThisItem I = CallsThisItem K
    /\ CurStart <= getParamDescStart I
    /\ forall (i : nat) (P : KernelParamDesc),
         KD_Params K !! i = Some P ->
         concat (map KD_Params Ks) !! Z.to_nat (Z.of_nat i + getParamDescStart I - CurStart)
         = Some P.
Proof.
  revert CurStart k. induction Ks as [|K0 Ks IH]; intros CurStart k H0 HB Hk.
  - discriminate Hk.
  - cbn [map concat] in HB. rewrite length_app in HB.
    destruct k as [|k]; cbn in Hk.
    + injection Hk as ->. eexists. split; [reflexivity|]. cbn.
      repeat split; [lia|]. intros i P Hi.
      replace (Z.to_nat (Z.of_nat i + CurStart - CurStart)) with i by lia.
      by apply lookup_app_l_Some.
    + assert (HZ : zextBits 32 (CurStart + Z.of_nat (length (KD_Params K0)))
                   = CurStart + Z.of_nat (length (KD_Params K0))).
      { unfold zextBits. apply Z.mod_small. lia. }
      destruct (IH (zextBits 32 (CurStart + Z.of_nat (length (KD_Params K0)))) k)
        as (I & HI & Hn & HN & HE & HC & HS & HP); [lia|lia|exact Hk|].
      exists I. split; [exact HI|]. repeat split; try assumption; [lia|].
      intros i P Hi. specialize (HP i P Hi). rewrite HZ in HP, HS.
      cbn [map concat]. rewrite lookup_app_r by lia.
      rewrite <- HP. f_equal. lia.
Qed.

(** X23: the tables of the integration header agree.  For every kernel,
    the specialization of [KernelInfo] that [emit] writes returns the name
    and the number of parameters of the kernel, and its [getParamDesc(i)],
    which reads [kernel_signatures] from the start the loop has counted,
    is the [i]-th parameter descriptor of that same kernel (as long as the
    descriptors of all kernels together are fewer than 2^32). *)
Theorem param_desc_of_own_kernel (KernelDescs : list KernelDesc) (k : nat)
    (K : KernelDesc) :
  Z.of_nat (length (kernel_signatures (emit KernelDescs))) < 2 ^ 32 ->
  KernelDescs !! k = Some K ->
  exists I,
    kernel_infos (emit KernelDescs) !! k = Some I
    /\ kernel_names (emit KernelDescs) !! k = Some (getName I)
    /\ getNumParams I = Z.of_nat (length (KD_Params K))
    /\ forall (i : nat) (P : KernelParamDesc),
         KD_Params K !! i = Some P ->
         getParamDesc (emit KernelDescs) I (Z.of_nat i) = Some P.
Proof.
  intros HB Hk. cbn in HB.
  destruct (emitKernelInfos_lookup KernelDescs 0 k K) as
    (I & HI & Hn & HN & _ & _ & HS & HP); [lia|lia|exact Hk|].
  exists I. split; [exact HI|]. split.
  - cbn. rewrite list_lookup_fmap, Hk, Hn. reflexivity.
  - split; [exact HN|]. intros i P Hi. unfold getParamDesc. cbn.
    rewrite <- (HP i P Hi). f_equal. lia.
Qed.

Lemma param_desc_of_own_kernel_witness :
  exists I,
    kernel_infos (emit sampleKernels) !! 1%nat = Some I
    /\ kernel_names (emit sampleKernels) !! 1%nat = Some (getName I)
    /\ getNumParams I
       = Z.of_nat (length (KD_Params
                             (mkKernelDesc "second" "_ZTS6second"
                                [mkKernelParamDesc kind_accessor 4062 0] false true)))
    /\ forall (i : nat) (P : KernelParamDesc),
         KD_Params (mkKernelDesc "second" "_ZTS6second"
                      [mkKernelParamDesc kind_accessor 4062 0] false true) !! i
         = Some P ->
         getParamDesc (emit sampleKernels) I (Z.of_nat i) = Some P.
Proof.
  apply (param_desc_of_own_kernel sampleKernels 1
           (mkKernelDesc "second" "_ZTS6second"
              [mkKernelParamDesc kind_accessor 4062 0] false true)).
  - vm_compute. reflexivity.
  - reflexivity.
Defined.

End SYCLIntegrationHeader_Properties.

Module SemaSYCL_SizeAgreement.

Import SemaSYCL.
Import SemaSYCL_Checks.
Import SemaSYCL_Sizes.
Import SemaSYCL_Visitor.
Import SemaSYCL_ArgsSize.

(** ** The size that is checked is the size of the parameters *)

Local Abbreviation cH := constructHandlers.
Local Abbreviation crd := constructRequiresDecomposition.
Local Abbreviation azH simd := ([SyclKernelArgsSizeChecker.handler simd]).
Local Abbreviation azrd := argsRequiresDecomposition.

(** *** The body creator and the header creator leave the parameters alone *)

Lemma keepsDecl_refl (s : ConstructState) : keepsDecl s s.
Proof. by split. Qed.

Lemma keepsDecl_trans (s1 s2 s3 : ConstructState) :
  keepsDecl s1 s2 -> keepsDecl s2 s3 -> keepsDecl s1 s3.
Proof. intros [] []. split; congruence. Qed.

Import SyclKernelBodyCreator.

Lemma keeps_ret {A} (a : A) : stKeepsDecl (ret a).
Proof. intros s x s' [= _ <-]. apply keepsDecl_refl. Qed.

Lemma keeps_fail {A} (msg : string) : stKeepsDecl (@fail A msg).
Proof. intros s x s' H. discriminate H. Qed.

Lemma keeps_bind {A B} (m : St A) (k : A -> St B) :
  stKeepsDecl m -> (forall a, stKeepsDecl (k a)) -> stKeepsDecl (bind m k).
Proof.
  intros Hm Hk s x s' H. unfold bind in H.
  apply rbind_Ok in H as ([a s1] & H1 & H2). cbn in H2.
  eapply keepsDecl_trans; [eapply Hm; exact H1 | eapply Hk; exact H2].
Qed.

Lemma keeps_getBody : stKeepsDecl getBody.
Proof. intros s x s' [= _ <-]. apply keepsDecl_refl. Qed.

Lemma keeps_putBody (b : BodyCreatorState) : stKeepsDecl (putBody b).
Proof. intros s x s' [= _ <-]. by split. Qed.

Lemma keeps_currentParam (I : nat) : stKeepsDecl (currentParam I).
Proof.
  intros s x s'. unfold currentParam. destruct (_ !! _); [|discriminate].
  intros [= _ <-]. apply keepsDecl_refl.
Qed.

Lemma keeps_lift {A B} (r : Result A) (f : A -> B) :
  stKeepsDecl (fun s => rbind r (fun x => Ok (f x, s))).
Proof.
  intros s x s' H. destruct r; cbn in H; try discriminate.
  injection H as _ <-. apply keepsDecl_refl.
Qed.

Ltac keeps_step :=
  first
    [ apply keeps_ret | apply keeps_fail | apply keeps_getBody | apply keeps_putBody
    | apply keeps_currentParam | apply keeps_lift
    | apply keeps_bind; [|intros ?]
    | match goal with
      | |- stKeepsDecl (match ?x with _ => _ end) => destruct x
      end ].

Ltac keeps := repeat keeps_step.

Lemma keeps_updateParentInit Init : stKeepsDecl (updateParentInit Init).
Proof. unfold updateParentInit. keeps. Qed.

Lemma keeps_getFieldEntity FD Ty : stKeepsDecl (getFieldEntity FD Ty).
Proof. unfold getFieldEntity. keeps. Qed.

Lemma keeps_addFieldInit FD Ty PR K : stKeepsDecl (addFieldInit FD Ty PR K).
Proof.
  unfold addFieldInit, addFieldInitWith. keeps;
    try first [apply keeps_getFieldEntity | apply keeps_updateParentInit].
Qed.

Lemma keeps_backMemberExprBase : stKeepsDecl backMemberExprBase.
Proof. unfold backMemberExprBase. keeps. Qed.

Lemma keeps_pushMemberExprBase E : stKeepsDecl (pushMemberExprBase E).
Proof. unfold pushMemberExprBase. keeps. Qed.

Lemma keeps_popMemberExprBase : stKeepsDecl popMemberExprBase.
Proof. unfold popMemberExprBase. keeps. Qed.

Lemma keeps_addFieldMemberExpr FD Ty : stKeepsDecl (addFieldMemberExpr FD Ty).
Proof.
  unfold addFieldMemberExpr. keeps;
    try first [apply keeps_backMemberExprBase | apply keeps_pushMemberExprBase].
Qed.

Lemma keeps_removeFieldMemberExpr FD Ty : stKeepsDecl (removeFieldMemberExpr FD Ty).
Proof. unfold removeFieldMemberExpr. keeps; try apply keeps_popMemberExprBase. Qed.

Lemma keeps_paramDREs n : forall I, stKeepsDecl (paramDREs n I).
Proof. induction n as [|n IH]; intros I; cbn [paramDREs]; keeps; try apply IH. Qed.

Lemma keeps_createSpecialMethodCall RD Name fin :
  stKeepsDecl (createSpecialMethodCall RD Name fin).
Proof.
  unfold createSpecialMethodCall. keeps;
    try first [apply keeps_paramDREs | apply keeps_backMemberExprBase].
Qed.

Lemma keeps_initCall RD : stKeepsDecl (initCall RD).
Proof. intros s x s' H. unfold initCall in H. by apply keeps_createSpecialMethodCall in H. Qed.

Lemma keeps_addStructDepth n : stKeepsDecl (addStructDepth n).
Proof. unfold addStructDepth. keeps. Qed.

Lemma keeps_createInitListExpr : stKeepsDecl createInitListExpr.
Proof. unfold createInitListExpr. keeps. Qed.

Lemma keeps_pushCollectionInitExpr I : stKeepsDecl (pushCollectionInitExpr I).
Proof. unfold pushCollectionInitExpr. keeps. Qed.

Lemma keeps_popCollectionInitExpr : stKeepsDecl popCollectionInitExpr.
Proof. unfold popCollectionInitExpr. keeps. Qed.

Lemma keeps_addCollectionInitListExpr : stKeepsDecl addCollectionInitListExpr.
Proof.
  unfold addCollectionInitListExpr. keeps;
    try first [apply keeps_createInitListExpr | apply keeps_updateParentInit
          | apply keeps_pushCollectionInitExpr].
Qed.

Lemma keeps_createParamReferenceExpr : stKeepsDecl createParamReferenceExpr.
Proof. unfold createParamReferenceExpr. keeps. Qed.

Lemma keeps_createPointerParamReferenceExpr Ty W :
  stKeepsDecl (createPointerParamReferenceExpr Ty W).
Proof. unfold createPointerParamReferenceExpr. keeps. Qed.

Lemma keeps_createSimpleArrayParamReferenceExpr :
  stKeepsDecl createSimpleArrayParamReferenceExpr.
Proof. unfold createSimpleArrayParamReferenceExpr. keeps. Qed.

Lemma keeps_nextElementImpl Index : stKeepsDecl (nextElementImpl Index).
Proof.
  unfold nextElementImpl. keeps;
    try first [apply keeps_popMemberExprBase | apply keeps_backMemberExprBase
          | apply keeps_pushMemberExprBase].
Qed.

Lemma keeps_popArrayInfo : stKeepsDecl popArrayInfo.
Proof. unfold popArrayInfo. keeps. Qed.

Ltac keeps_all :=
  keeps;
  repeat first
    [ apply keeps_updateParentInit | apply keeps_getFieldEntity | apply keeps_addFieldInit
    | apply keeps_backMemberExprBase | apply keeps_pushMemberExprBase
    | apply keeps_popMemberExprBase | apply keeps_addFieldMemberExpr
    | apply keeps_removeFieldMemberExpr | apply keeps_createSpecialMethodCall
    | apply keeps_initCall | apply keeps_addStructDepth | apply keeps_createInitListExpr
    | apply keeps_pushCollectionInitExpr | apply keeps_popCollectionInitExpr
    | apply keeps_addCollectionInitListExpr | apply keeps_createParamReferenceExpr
    | apply keeps_createPointerParamReferenceExpr
    | apply keeps_createSimpleArrayParamReferenceExpr | apply keeps_nextElementImpl
    | apply keeps_popArrayInfo | keeps_step ].

Lemma keeps_run (m : St unit) s b s' :
  stKeepsDecl m -> run m s = Ok (b, s') -> b = true /\ keepsDecl s s'.
Proof.
  intros Hm H. unfold run in H. apply rbind_Ok in H as (r & H1 & H2).
  destruct r as [u s1]. cbn in H2. injection H2 as <- <-. split; [reflexivity|]. eapply Hm. exact H1.
Qed.

Lemma body_keepsDecl ev s b s' :
  SyclKernelBodyCreator.handle ev s = Ok (b, s') -> b = true /\ keepsDecl s s'.
Proof.
  destruct ev; cbn [SyclKernelBodyCreator.handle];
    try (intros [= <- <-]; split; [reflexivity|apply keepsDecl_refl]);
    try (destruct Parent);
    try (apply keeps_run;
         unfold handleSpecialType, handleSpecialTypeBase, addSimpleFieldInit,
           addSimpleBaseInit, addFieldInitWith;
         keeps_all).
Qed.

Lemma header_keepsDecl ev s b s' :
  SyclKernelIntHeaderCreator.handle ev s = Ok (b, s') -> b = true /\ keepsDecl s s'.
Proof.
  unfold SyclKernelIntHeaderCreator.handle, SyclKernelIntHeaderCreator.ok.
  intros H. destruct ev; try (destruct Parent);
    repeat match type of H with
           | context [rbind ?x _] => destruct x; cbn [rbind] in H
           | context [match ?x with _ => _ end] => destruct x
           end;
    try discriminate H; injection H as <- <-; (split; [reflexivity|]); by split.
Qed.

(** *** The declaration creator and the size checker, callback by callback *)

Lemma paramsSize_app (l1 l2 : list ParmVarDecl) :
  paramsSize (l1 ++ l2) = paramsSize l1 + paramsSize l2.
Proof.
  unfold paramsSize. induction l1 as [|P l1 IH]; cbn; [reflexivity|].
  cbn in IH. rewrite IH. lia.
Qed.

Lemma updateBack_size (f : ParmVarDecl -> ParmVarDecl) (d : DeclCreatorState) :
  (forall P, getOriginalType (f P) = getOriginalType P) ->
  paramsSize (Params (SyclKernelDeclCreator.updateBack f d)) = paramsSize (Params d).
Proof.
  intros Hf. unfold SyclKernelDeclCreator.updateBack.
  destruct (reverse (Params d)) as [|P rest] eqn:E; [reflexivity|].
  apply (f_equal reverse) in E. rewrite reverse_involutive in E.
  rewrite E. cbn [Params]. rewrite !reverse_cons, !paramsSize_app.
  unfold paramsSize. cbn. by rewrite Hf.
Qed.

(** The declaration creator went from [s] to [s'] and made parameters of
    size [n]. *)
Local Abbreviation declAdds :=
  (fun (n : Z) (s s' : ConstructState) =>
     RequiresDecomposition (cs_Sema s') = RequiresDecomposition (cs_Sema s)
     /\ IsSIMDKernel s' = IsSIMDKernel s
     /\ paramsSize (Params (decl s')) = paramsSize (Params (decl s)) + n).

Lemma addParam_adds (P : ParmVarDecl) (s : ConstructState) :
  declAdds (getTypeSizeInChars (getOriginalType P)) s
    (withDecl s (SyclKernelDeclCreator.addParam P (decl s))).
Proof.
  split; [reflexivity|]. split; [reflexivity|].
  unfold SyclKernelDeclCreator.addParam. cbn [decl withDecl Params].
  rewrite paramsSize_app. unfold paramsSize. cbn. lia.
Qed.

Lemma bufferLocation_adds Loc l (s : ConstructState) :
  declAdds 0 s (SyclKernelDeclCreator.handleBufferLocationProperty Loc l s).
Proof.
  unfold SyclKernelDeclCreator.handleBufferLocationProperty.
  destruct (last _); [|repeat split; lia].
  destruct (SyclKernelDeclCreator.hasBufferLocation _); [repeat split; cbn; lia|].
  repeat split. cbn. rewrite updateBack_size by done. lia.
Qed.

Lemma propertyList_adds Ty Loc (s : ConstructState) :
  declAdds 0 s (SyclKernelDeclCreator.handleAccessorPropertyList Ty Loc s).
Proof.
  unfold SyclKernelDeclCreator.handleAccessorPropertyList.
  destruct Ty; try (repeat split; lia).
  revert s. induction BufferLocations as [|l ls IH]; intros s; cbn [fold_left].
  - repeat split; lia.
  - destruct (IH (SyclKernelDeclCreator.handleBufferLocationProperty Loc l s))
      as (H1 & H2 & H3).
    destruct (bufferLocation_adds Loc l s) as (H4 & H5 & H6).
    repeat split; [congruence|congruence|lia].
Qed.

Lemma special_fold_adds (step : ConstructState -> QualType -> ConstructState) :
  (forall s ty, declAdds (getTypeSizeInChars ty) s (step s ty)) ->
  forall tys s,
    declAdds (foldr Z.add 0 (map getTypeSizeInChars tys)) s (fold_left step tys s).
Proof.
  intros Hstep tys. induction tys as [|ty tys IH]; intros s; cbn [fold_left map foldr].
  - repeat split; lia.
  - destruct (IH (step s ty)) as (H1 & H2 & H3).
    destruct (Hstep s ty) as (H4 & H5 & H6).
    repeat split; [congruence|congruence|lia].
Qed.

Lemma decl_special_adds FD Ty isAcc (s : ConstructState) b s' :
  SyclKernelDeclCreator.handleSpecialType FD Ty isAcc s = Ok (b, s') ->
  exists M,
    SyclKernelDeclCreator.initMethod Ty
      (if IsSIMDKernel s && isAcc then InitESIMDMethodName else InitMethodName) = Ok M
    /\ b = true
    /\ declAdds (foldr Z.add 0 (map getTypeSizeInChars (parameters M))) s s'.
Proof.
  unfold SyclKernelDeclCreator.handleSpecialType. intros H.
  apply rbind_Ok in H as (M & HM & H). exists M. split; [exact HM|].
  injection H as <- <-. split; [reflexivity|]. cbn [decl withDecl cs_Sema IsSIMDKernel Params].
  match goal with
  | |- context [fold_left ?f ?l ?s0] =>
      destruct (special_fold_adds f) with (tys := l) (s := s0) as (H1 & H2 & H3)
  end; [|by repeat split].
  intros s0 ty. cbn zeta.
  pose proof (addParam_adds (SyclKernelDeclCreator.makeParamDesc FD ty) s0)
    as (H1 & H2 & H3).
  destruct (isPointerType ty && isAcc); [|by repeat split].
  match goal with
  | |- context [SyclKernelDeclCreator.handleAccessorPropertyList ?T ?L ?x] =>
      pose proof (propertyList_adds T L x) as (H4 & H5 & H6);
      destruct (IsSIMDKernel (SyclKernelDeclCreator.handleAccessorPropertyList T L x))
        eqn:ES
  end.
  - cbn [decl withDecl cs_Sema IsSIMDKernel Params]. rewrite updateBack_size by done.
    cbn in *. repeat split; [congruence|congruence|lia].
  - cbn in *. repeat split; [congruence|congruence|lia].
Qed.

Lemma decl_special_base_adds Ty (s : ConstructState) b s' :
  SyclKernelDeclCreator.handleSyclAccessorTypeBaseImpl Ty s = Ok (b, s') ->
  exists M,
    SyclKernelDeclCreator.initMethod Ty
      (if IsSIMDKernel s then InitESIMDMethodName else InitMethodName) = Ok M
    /\ b = true
    /\ declAdds (foldr Z.add 0 (map getTypeSizeInChars (parameters M))) s s'.
Proof.
  unfold SyclKernelDeclCreator.handleSyclAccessorTypeBaseImpl. intros H.
  apply rbind_Ok in H as (M & HM & H). exists M. split; [exact HM|].
  injection H as <- <-. split; [reflexivity|]. cbn [decl withDecl cs_Sema IsSIMDKernel Params].
  match goal with
  | |- context [fold_left ?f ?l ?s0] =>
      destruct (special_fold_adds f) with (tys := l) (s := s0) as (H1 & H2 & H3)
  end; [|by repeat split].
  intros s0 ty. cbn zeta.
  pose proof (addParam_adds (SyclKernelDeclCreator.makeParamDescBase ty) s0)
    as (H1 & H2 & H3).
  destruct (isPointerType ty); [|by repeat split].
  match goal with
  | |- context [SyclKernelDeclCreator.handleAccessorPropertyList ?T ?L ?x] =>
      pose proof (propertyList_adds T L x) as (H4 & H5 & H6)
  end.
  cbn in *. repeat split; [congruence|congruence|lia].
Qed.

Lemma args_fold_adds (tys : list QualType) (a : ArgsSizeState) (x : Z) :
  SizeOfParams a = zextBits 32 x ->
  as_Sema (fold_left (fun s ParamTy => SyclKernelArgsSizeChecker.addParam ParamTy s) tys a)
  = as_Sema a
  /\ SizeOfParams
       (fold_left (fun s ParamTy => SyclKernelArgsSizeChecker.addParam ParamTy s) tys a)
     = zextBits 32 (x + foldr Z.add 0 (map getTypeSizeInChars tys)).
Proof.
  revert a x. induction tys as [|ty tys IH]; intros a x Ha; cbn [fold_left map foldr].
  - rewrite Z.add_0_r. by split.
  - destruct (IH (SyclKernelArgsSizeChecker.addParam ty a) (x + getTypeSizeInChars ty))
      as [H1 H2].
    + cbn. by rewrite Ha, zextBits_add_l.
    + split; [exact H1|]. rewrite H2. f_equal. lia.
Qed.

(** The callbacks at which the two handlers agree: all but the one for a
    base that is a stream, and the one for a sampler in an ESIMD kernel. *)
Local Abbreviation okEvent :=
  (fun (simd : bool) (ev : Event) =>
     match ev with
     | handleSyclStreamTypeBase _ _ _ => False
     | handleSyclSamplerType _ _ => simd = false
     | handlePointerType _ Ty => isPointerType Ty = true
     | _ => True
     end).

Lemma sameSize_adds simd (n : Z) (s s1 : ConstructState) (a a1 : ArgsSizeState) :
  sameSize simd s a ->
  declAdds n s s1 ->
  as_Sema a1 = as_Sema a ->
  SizeOfParams a1 = zextBits 32 (paramsSize (Params (decl s)) + n) ->
  sameSize simd s1 a1.
Proof.
  intros [Hm Hs Hz] (H1 & H2 & H3) Ha Hn. split.
  - rewrite H1, Ha. exact Hm.
  - congruence.
  - rewrite Hn, H3. reflexivity.
Qed.

Lemma sameSize_one simd (P : ParmVarDecl) (Ty : QualType)
    (s : ConstructState) (a : ArgsSizeState) :
  sameSize simd s a ->
  getTypeSizeInChars (getOriginalType P) = getTypeSizeInChars Ty ->
  sameSize simd (withDecl s (SyclKernelDeclCreator.addParam P (decl s)))
    (SyclKernelArgsSizeChecker.addParam Ty a).
Proof.
  intros HR HP. eapply sameSize_adds; [exact HR|apply addParam_adds|reflexivity|].
  cbn. destruct HR as [_ _ ->]. rewrite zextBits_add_l. by rewrite HP.
Qed.

Lemma sameSize_depth simd n (s : ConstructState) (a : ArgsSizeState) :
  sameSize simd s a ->
  sameSize simd (withDecl s (SyclKernelDeclCreator.setDepth (decl s) n)) a.
Proof. intros [Hm Hs Hz]. by split. Qed.

Lemma args_special simd Ty (a : ArgsSizeState) b a1 (x : Z) :
  SyclKernelArgsSizeChecker.handleSpecialType simd Ty a = Ok (b, a1) ->
  SizeOfParams a = zextBits 32 x ->
  exists M,
    SyclKernelDeclCreator.initMethod Ty
      (if simd then InitESIMDMethodName else InitMethodName) = Ok M
    /\ b = true /\ as_Sema a1 = as_Sema a
    /\ SizeOfParams a1
       = zextBits 32 (x + foldr Z.add 0 (map getTypeSizeInChars (parameters M))).
Proof.
  unfold SyclKernelArgsSizeChecker.handleSpecialType. intros H Hx.
  apply rbind_Ok in H as (M & HM & H). exists M. split; [exact HM|].
  injection H as <- <-. split; [reflexivity|]. by apply args_fold_adds.
Qed.

Lemma decl_args_event simd ev (s s1 : ConstructState) (a a1 : ArgsSizeState) b b' :
  okEvent simd ev ->
  sameSize simd s a ->
  SyclKernelDeclCreator.handle ev s = Ok (b, s1) ->
  SyclKernelArgsSizeChecker.handle simd ev a = Ok (b', a1) ->
  b = true /\ b' = true /\ sameSize simd s1 a1.
Proof.
  intros Hok HR Hd Ha.
  destruct ev; cbn [SyclKernelDeclCreator.handle SyclKernelArgsSizeChecker.handle] in Hd, Ha;
    try destruct Parent;
    try (injection Hd as <- <-; injection Ha as <- <-;
         split; [reflexivity|]; split; [reflexivity|];
         first [exact HR | apply sameSize_depth; exact HR
               | apply sameSize_one; [exact HR|reflexivity]]).
  - (* accessor base *)
    apply decl_special_base_adds in Hd as (M & HM & -> & HD).
    eapply args_special in Ha as (M' & HM' & -> & HS & HZ); [|apply (ss_size _ _ _ HR)].
    rewrite (ss_simd _ _ _ HR) in HM. rewrite HM in HM'. injection HM' as <-.
    split; [reflexivity|]. split; [reflexivity|]. eapply sameSize_adds; eassumption.
  - (* accessor field *)
    apply decl_special_adds in Hd as (M & HM & -> & HD).
    eapply args_special in Ha as (M' & HM' & -> & HS & HZ); [|apply (ss_size _ _ _ HR)].
    rewrite (ss_simd _ _ _ HR), andb_true_r in HM. rewrite HM in HM'. injection HM' as <-.
    split; [reflexivity|]. split; [reflexivity|]. eapply sameSize_adds; eassumption.
  - (* sampler *)
    cbn in Hok. subst simd.
    apply decl_special_adds in Hd as (M & HM & -> & HD).
    eapply args_special in Ha as (M' & HM' & -> & HS & HZ); [|apply (ss_size _ _ _ HR)].
    rewrite andb_false_r in HM. rewrite HM in HM'. injection HM' as <-.
    split; [reflexivity|]. split; [reflexivity|]. eapply sameSize_adds; eassumption.
  - (* stream base *)
    destruct Hok.
  - (* pointer *)
    cbn in Hok. unfold SyclKernelDeclCreator.handlePointerTypeImpl in Hd.
    injection Hd as <- <-; injection Ha as <- <-.
    split; [reflexivity|]. split; [reflexivity|].
    apply sameSize_one; [exact HR|]. destruct Ty; try discriminate Hok.
    cbn. by case_decide.
Qed.

Lemma sameSize_keeps simd (s s' : ConstructState) (a : ArgsSizeState) :
  sameSize simd s a -> keepsDecl s s' -> sameSize simd s' a.
Proof. intros [Hm Hs Hz] [Hd Hc Hi]. split; congruence. Qed.

(** The three builders and the size checker at one callback. *)
Lemma KF_related simd ev (s s' : ConstructState) (a a' : ArgsSizeState) b b' :
  okEvent simd ev ->
  sameSize simd s a ->
  KF_FOR_EACH _ cH ev s = Ok (b, s') ->
  KF_FOR_EACH _ (azH simd) ev a = Ok (b', a') ->
  b = true /\ b' = true /\ sameSize simd s' a'.
Proof.
  intros Hok HR Hc Ha. unfold constructHandlers in Hc.
  cbn [KF_FOR_EACH SemaSYCL.handle SyclKernelDeclCreator.handler SyclKernelBodyCreator.handler
         SyclKernelIntHeaderCreator.handler SyclKernelArgsSizeChecker.handler] in Hc, Ha.
  apply rbind_Ok in Hc as ([b1 s1] & H1 & Hc).
  apply rbind_Ok in Ha as ([b0 a1] & H0 & Ha).
  destruct (decl_args_event _ _ _ _ _ _ _ _ Hok HR H1 H0) as (-> & -> & HR1).
  cbn [fst snd] in Hc, Ha. injection Ha as <- <-.
  apply rbind_Ok in Hc as ([b2 s2] & H2 & Hc).
  apply body_keepsDecl in H2 as [-> K2]. cbn [fst snd] in Hc.
  apply rbind_Ok in Hc as ([b3 s3] & H3 & Hc).
  apply header_keepsDecl in H3 as [-> K3]. cbn [fst snd] in Hc. injection Hc as <- <-.
  split; [reflexivity|]. split; [reflexivity|].
  eapply sameSize_keeps; [|exact K3]. eapply sameSize_keeps; [|exact K2]. exact HR1.
Qed.

Lemma forEach_related simd ev (s s' : ConstructState) (a a' : ArgsSizeState) :
  okEvent simd ev ->
  sameSize simd s a ->
  forEach _ cH ev s = Ok s' ->
  forEach _ (azH simd) ev a = Ok a' ->
  sameSize simd s' a'.
Proof.
  intros Hok HR Hc Ha. unfold constructHandlers in Hc.
  cbn [forEach SemaSYCL.handle SyclKernelDeclCreator.handler SyclKernelBodyCreator.handler
         SyclKernelIntHeaderCreator.handler SyclKernelArgsSizeChecker.handler] in Hc, Ha.
  apply rbind_Ok in Hc as ([b1 s1] & H1 & Hc).
  apply rbind_Ok in Ha as ([b0 a1] & H0 & Ha).
  destruct (decl_args_event _ _ _ _ _ _ _ _ Hok HR H1 H0) as (-> & -> & HR1).
  cbn [fst snd] in Hc, Ha. injection Ha as <-.
  apply rbind_Ok in Hc as ([b2 s2] & H2 & Hc).
  apply body_keepsDecl in H2 as [-> K2]. cbn [fst snd] in Hc.
  apply rbind_Ok in Hc as ([b3 s3] & H3 & Hc).
  apply header_keepsDecl in H3 as [-> K3]. cbn [fst snd] in Hc. injection Hc as <-.
  eapply sameSize_keeps; [|exact K3]. eapply sameSize_keeps; [|exact K2]. exact HR1.
Qed.

Lemma ignore_related simd ev (s s' : ConstructState) (a a' : ArgsSizeState) :
  okEvent simd ev ->
  sameSize simd s a ->
  ignoreResult _ (KF_FOR_EACH _ cH ev s) = Ok s' ->
  ignoreResult _ (KF_FOR_EACH _ (azH simd) ev a) = Ok a' ->
  sameSize simd s' a'.
Proof.
  intros Hok HR Hc Ha. unfold ignoreResult in Hc, Ha.
  apply rbind_Ok in Hc as ([b1 s1] & H1 & [= <-]).
  apply rbind_Ok in Ha as ([b0 a1] & H0 & [= <-]).
  by destruct (KF_related _ _ _ _ _ _ _ _ Hok HR H1 H0) as (_ & _ & H).
Qed.

Lemma rd_related simd (s : ConstructState) (a : ArgsSizeState) key :
  sameSize simd s a -> azrd a key = crd s key.
Proof.
  intros [Hm _ _]. unfold argsRequiresDecomposition, constructRequiresDecomposition,
    hasAttr. by rewrite Hm.
Qed.

Lemma visitRecord_args simd O Parent W Ty (a : ArgsSizeState) :
  visitRecord _ azrd (azH simd) O Parent W Ty a =
  if azrd a (recordKey W) then visitComplexRecord _ azrd (azH simd) O Parent W Ty a
  else visitSimpleRecord _ (azH simd) O Parent Ty a.
Proof.
  unfold visitRecord. destruct (azrd a (recordKey W)); [done|].
  rewrite <- (SemaSYCL_Properties.rbind_Ok_r (visitSimpleRecord _ (azH simd) O Parent Ty a)).
  reflexivity.
Qed.

Lemma visitArray_args simd O FD Ty CAT (a : ArgsSizeState) :
  visitArray _ azrd (azH simd) O FD Ty CAT a =
  if azrd a (fieldKey FD) then visitComplexArray _ azrd (azH simd) O FD Ty CAT a
  else visitSimpleArray _ (azH simd) FD Ty a.
Proof.
  unfold visitArray. destruct (azrd a (fieldKey FD)); [done|].
  rewrite <- (SemaSYCL_Properties.rbind_Ok_r (visitSimpleArray _ (azH simd) FD Ty a)).
  reflexivity.
Qed.

(** *** The two walks, side by side *)

Local Abbreviation sameSema := (fun a a' : ArgsSizeState => as_Sema a' = as_Sema a).

Lemma args_fold_sema (tys : list QualType) (a : ArgsSizeState) :
  as_Sema (fold_left (fun s ParamTy => SyclKernelArgsSizeChecker.addParam ParamTy s) tys a)
  = as_Sema a.
Proof.
  revert a. induction tys as [|ty tys IH]; intros a; cbn [fold_left]; [reflexivity|].
  by rewrite IH.
Qed.

Lemma args_handler_sema simd :
  Forall (fun H => forall ev a b a', SemaSYCL.handle _ H ev a = Ok (b, a') -> sameSema a a')
    (azH simd).
Proof.
  apply Forall_cons_2; [|apply Forall_nil_2]. intros ev a b a' H.
  cbn [SemaSYCL.handle SyclKernelArgsSizeChecker.handler] in H.
  destruct ev; cbn [SyclKernelArgsSizeChecker.handle] in H;
    try (by injection H as _ <-);
    unfold SyclKernelArgsSizeChecker.handleSpecialType in H;
    apply rbind_Ok in H as (M & _ & H); injection H as _ <-; apply args_fold_sema.
Qed.

Lemma args_visit_sema simd :
  (forall O F T a a', visitField _ azrd (azH simd) O F T a = Ok a' -> sameSema a a')
  /\ (forall O B T a a', visitBase _ azrd (azH simd) O B T a = Ok a' -> sameSema a a').
Proof.
  destruct (visit_keeps azrd sameSema (fun a => eq_refl)
              (fun a1 a2 a3 H1 H2 => eq_trans H2 H1) (azH simd) (args_handler_sema simd))
    as (HF & HB & _).
  by split.
Qed.

Lemma args_forEach_sema simd ev a a' :
  forEach _ (azH simd) ev a = Ok a' -> sameSema a a'.
Proof.
  apply (forEach_respects sameSema (fun a => eq_refl)
           (fun a1 a2 a3 H1 H2 => eq_trans H2 H1)).
  apply args_handler_sema.
Qed.

Section SideBySide.

Variable S : Sema.
Variable simd : bool.

Local Abbreviation related s a :=
  (sameSize simd s a /\ RequiresDecomposition (as_Sema a) = RequiresDecomposition S).

Local Abbreviation fieldQ :=
  (fun T : QualType =>
     forall O F s s' a a',
       related s a ->
       comparableField S simd F T = true ->
       visitField _ crd cH O F T s = Ok s' ->
       visitField _ azrd (azH simd) O F T a = Ok a' ->
       related s' a').

Local Abbreviation baseQ :=
  (fun T : QualType =>
     forall O B s s' a a',
       related s a ->
       comparableBase S simd T = true ->
       visitBase _ crd cH O B T s = Ok s' ->
       visitBase _ azrd (azH simd) O B T a = Ok a' ->
       related s' a').

Lemma related_rd (s : ConstructState) (a : ArgsSizeState) key :
  related s a -> crd s key = hasAttr S key /\ azrd a key = hasAttr S key.
Proof.
  intros [[Hm _ _] HS].
  unfold argsRequiresDecomposition, constructRequiresDecomposition, hasAttr.
  by rewrite Hm, HS.
Qed.

Lemma forEach_rel ev (s s' : ConstructState) (a a' : ArgsSizeState) :
  okEvent simd ev ->
  related s a ->
  forEach _ cH ev s = Ok s' ->
  forEach _ (azH simd) ev a = Ok a' ->
  related s' a'.
Proof.
  intros Hok [HR HS] Hc Ha. split.
  - exact (forEach_related _ _ _ _ _ _ Hok HR Hc Ha).
  - apply args_forEach_sema in Ha. by rewrite Ha.
Qed.

Lemma KF_rel ev (s s' : ConstructState) (a a' : ArgsSizeState) b b' :
  okEvent simd ev ->
  related s a ->
  KF_FOR_EACH _ cH ev s = Ok (b, s') ->
  KF_FOR_EACH _ (azH simd) ev a = Ok (b', a') ->
  b = true /\ b' = true /\ related s' a'.
Proof.
  intros Hok [HR HS] Hc Ha.
  destruct (KF_related _ _ _ _ _ _ _ _ Hok HR Hc Ha) as (-> & -> & HR').
  split; [reflexivity|]. split; [reflexivity|]. split; [exact HR'|].
  apply (KF_FOR_EACH_respects sameSema (fun a => eq_refl)
           (fun a1 a2 a3 H1 H2 => eq_trans H2 H1) _ _ _ _ _ (args_handler_sema simd))
    in Ha.
  by rewrite Ha.
Qed.

Lemma fields_rel O (l : list FieldDecl) :
  Forall (fun F => fieldQ (getType F)) l ->
  forallb (fun F => comparableField S simd F (getType F)) l = true ->
  forall s s' a a',
    related s a ->
    foldM _ (fun F s => visitField _ crd cH O F (getType F) s) l s = Ok s' ->
    foldM _ (fun F a => visitField _ azrd (azH simd) O F (getType F) a) l a = Ok a' ->
    related s' a'.
Proof.
  induction 1 as [|F l HF _ IH]; intros HC s s' a a' HR Hc Ha.
  - injection Hc as <-. injection Ha as <-. exact HR.
  - cbn [forallb] in HC. apply andb_prop in HC as [HC1 HC2].
    rewrite SemaSYCL_Properties.foldM_cons in Hc. rewrite SemaSYCL_Properties.foldM_cons in Ha.
    apply rbind_Ok in Hc as (s1 & Hc1 & Hc2). apply rbind_Ok in Ha as (a1 & Ha1 & Ha2).
    eapply IH; [exact HC2| |exact Hc2|exact Ha2].
    eapply HF; eassumption.
Qed.

Lemma bases_rel O (l : list CXXBaseSpecifier) :
  Forall (fun B => baseQ (getBaseType B)) l ->
  forallb (fun B => comparableBase S simd (getBaseType B)) l = true ->
  forall s s' a a',
    related s a ->
    foldM _ (fun B s => visitBase _ crd cH O B (getBaseType B) s) l s = Ok s' ->
    foldM _ (fun B a => visitBase _ azrd (azH simd) O B (getBaseType B) a) l a = Ok a' ->
    related s' a'.
Proof.
  induction 1 as [|B l HB _ IH]; intros HC s s' a a' HR Hc Ha.
  - injection Hc as <-. injection Ha as <-. exact HR.
  - cbn [forallb] in HC. apply andb_prop in HC as [HC1 HC2].
    rewrite SemaSYCL_Properties.foldM_cons in Hc. rewrite SemaSYCL_Properties.foldM_cons in Ha.
    apply rbind_Ok in Hc as (s1 & Hc1 & Hc2). apply rbind_Ok in Ha as (a1 & Ha1 & Ha2).
    eapply IH; [exact HC2| |exact Hc2|exact Ha2].
    eapply HB; eassumption.
Qed.

Lemma complexRecord_rel O P RD T s s' a a' :
  PRecord (fun T => fieldQ T /\ baseQ T) RD ->
  forallb (fun B => comparableBase S simd (getBaseType B)) (bases RD) = true ->
  forallb (fun F => comparableField S simd F (getType F)) (fields RD) = true ->
  related s a ->
  visitComplexRecord _ crd cH O P RD T s = Ok s' ->
  visitComplexRecord _ azrd (azH simd) O P RD T a = Ok a' ->
  related s' a'.
Proof.
  intros [HB HF] HCB HCF HR Hc Ha. unfold visitComplexRecord in Hc, Ha.
  apply rbind_Ok in Hc as (s1 & Hc1 & Hc). apply rbind_Ok in Hc as (s2 & Hc2 & Hc).
  apply rbind_Ok in Hc as (s3 & Hc3 & Hc4).
  apply rbind_Ok in Ha as (a1 & Ha1 & Ha). apply rbind_Ok in Ha as (a2 & Ha2 & Ha).
  apply rbind_Ok in Ha as (a3 & Ha3 & Ha4).
  eapply forEach_rel; [| |exact Hc4|exact Ha4]; [exact I|].
  eapply fields_rel; [|exact HCF| |exact Hc3|exact Ha3].
  { eapply Forall_impl; [exact HF|]. by intros F [H _]. }
  eapply bases_rel; [|exact HCB| |exact Hc2|exact Ha2].
  { eapply Forall_impl; [exact HB|]. by intros B [_ H]. }
  eapply forEach_rel; [|exact HR|exact Hc1|exact Ha1]; exact I.
Qed.

Lemma record_rel O P RD T s s' a a' :
  PRecord (fun T => fieldQ T /\ baseQ T) RD ->
  (if hasAttr S (recordKey RD) then
     forallb (fun B => comparableBase S simd (getBaseType B)) (bases RD)
     && forallb (fun F => comparableField S simd F (getType F)) (fields RD)
   else true) = true ->
  related s a ->
  visitRecord _ crd cH O P RD T s = Ok s' ->
  visitRecord _ azrd (azH simd) O P RD T a = Ok a' ->
  related s' a'.
Proof.
  intros HP HC HR Hc Ha.
  rewrite SemaSYCL_Properties.visitRecord_builders in Hc. rewrite visitRecord_args in Ha.
  destruct (related_rd s a (recordKey RD) HR) as [E1 E2]. rewrite E1 in Hc. rewrite E2 in Ha.
  destruct (hasAttr S (recordKey RD)).
  - apply andb_prop in HC as [HCB HCF]. eapply complexRecord_rel; eassumption.
  - unfold visitSimpleRecord in Hc, Ha. eapply forEach_rel; [|exact HR|exact Hc|exact Ha]; exact I.
Qed.

Lemma forIndices_rel O F ET :
  fieldQ ET ->
  comparableField S simd F ET = true ->
  forall n i s s' a a',
    related s a ->
    forIndices _ (visitNthArrayElement _ crd cH O F ET) n i s = Ok s' ->
    forIndices _ (visitNthArrayElement _ azrd (azH simd) O F ET) n i a = Ok a' ->
    related s' a'.
Proof.
  intros HE HC. induction n as [|n IH]; intros i s s' a a' HR Hc Ha.
  - injection Hc as <-. injection Ha as <-. exact HR.
  - rewrite SemaSYCL_Properties.forIndices_S in Hc. rewrite SemaSYCL_Properties.forIndices_S in Ha.
    apply rbind_Ok in Hc as (s1 & Hc1 & Hc2). apply rbind_Ok in Ha as (a1 & Ha1 & Ha2).
    eapply IH; [|exact Hc2|exact Ha2].
    change (visitNthArrayElement _ crd cH O F ET i s)
      with (visitArrayElementImpl _ crd cH O F ET i s) in Hc1.
    change (visitNthArrayElement _ azrd (azH simd) O F ET i a)
      with (visitArrayElementImpl _ azrd (azH simd) O F ET i a) in Ha1.
    unfold visitArrayElementImpl in Hc1, Ha1.
    apply rbind_Ok in Hc1 as (s0 & Hc0 & Hc1). apply rbind_Ok in Ha1 as (a0 & Ha0 & Ha1).
    eapply HE; [|exact HC|exact Hc1|exact Ha1].
    eapply forEach_rel; [|exact HR|exact Hc0|exact Ha0]; exact I.
Qed.

Lemma array_rel O F T (CAT : option (QualType * Z)) s s' a a' :
  (forall ET n, CAT = Some (ET, n) -> fieldQ ET) ->
  (if hasAttr S (fieldKey F) then
     match CAT with Some (ET, _) => comparableField S simd F ET | None => true end
   else true) = true ->
  related s a ->
  visitArray _ crd cH O F T CAT s = Ok s' ->
  visitArray _ azrd (azH simd) O F T CAT a = Ok a' ->
  related s' a'.
Proof.
  intros HE HC HR Hc Ha.
  rewrite SemaSYCL_Properties.visitArray_builders in Hc. rewrite visitArray_args in Ha.
  destruct (related_rd s a (fieldKey F) HR) as [E1 E2]. rewrite E1 in Hc. rewrite E2 in Ha.
  destruct (hasAttr S (fieldKey F)).
  - unfold visitComplexArray in Hc, Ha.
    apply rbind_Ok in Hc as ([b s0] & Hc0 & Hc). apply rbind_Ok in Ha as ([b' a0] & Ha0 & Ha).
    destruct ((fun Hok => KF_rel _ _ _ _ _ _ _ Hok HR Hc0 Ha0) I) as (-> & -> & HR0).
    cbn [negb fst snd] in Hc, Ha. destruct CAT as [[ET n]|]; [|discriminate Hc].
    destruct (negb _); [discriminate Hc|].
    apply rbind_Ok in Hc as (s1 & Hc1 & Hc). apply rbind_Ok in Hc as (s2 & Hc2 & Hc).
    apply rbind_Ok in Hc as (s3 & Hc3 & Hc4).
    apply rbind_Ok in Ha as (a1 & Ha1 & Ha). apply rbind_Ok in Ha as (a2 & Ha2 & Ha).
    apply rbind_Ok in Ha as (a3 & Ha3 & Ha4).
    eapply forEach_rel; [| |exact Hc4|exact Ha4]; [exact I|].
    eapply forIndices_rel; [by eapply HE|exact HC| |exact Hc3|exact Ha3].
    unfold visitArrayElementImpl in Hc2, Ha2.
    apply rbind_Ok in Hc2 as (s1' & Hc2' & Hc2). apply rbind_Ok in Ha2 as (a1' & Ha2' & Ha2).
    eapply (HE ET n eq_refl); [|exact HC|exact Hc2|exact Ha2].
    eapply forEach_rel; [| |exact Hc2'|exact Ha2']; [exact I|].
    eapply forEach_rel; [|exact HR0|exact Hc1|exact Ha1]; exact I.
  - unfold visitSimpleArray in Hc, Ha. eapply forEach_rel; [|exact HR|exact Hc|exact Ha]; exact I.
Qed.

Lemma stream_fields_rel (l : list FieldDecl) :
  forall s s' a a',
    related s a ->
    foldM _ (fun Field s =>
               if isSyclAccessorType (getType Field)
               then ignoreResult _
                      (KF_FOR_EACH _ cH (handleSyclAccessorType Field (getType Field)) s)
               else Ok s) l s = Ok s' ->
    foldM _ (fun Field a =>
               if isSyclAccessorType (getType Field)
               then ignoreResult _
                      (KF_FOR_EACH _ (azH simd)
                         (handleSyclAccessorType Field (getType Field)) a)
               else Ok a) l a = Ok a' ->
    related s' a'.
Proof.
  induction l as [|F l IH]; intros s s' a a' HR Hc Ha.
  - injection Hc as <-. injection Ha as <-. exact HR.
  - rewrite SemaSYCL_Properties.foldM_cons in Hc. rewrite SemaSYCL_Properties.foldM_cons in Ha.
    apply rbind_Ok in Hc as (s1 & Hc1 & Hc2). apply rbind_Ok in Ha as (a1 & Ha1 & Ha2).
    eapply IH; [|exact Hc2|exact Ha2].
    destruct (isSyclAccessorType (getType F)).
    + unfold ignoreResult in Hc1, Ha1.
      apply rbind_Ok in Hc1 as ([b x] & Hc1 & [= <-]).
      apply rbind_Ok in Ha1 as ([b' y] & Ha1 & [= <-]).
      by destruct ((fun Hok => KF_rel _ _ _ _ _ _ _ Hok HR Hc1 Ha1) I) as (_ & _ & H).
    + injection Hc1 as <-. injection Ha1 as <-. exact HR.
Qed.

Lemma leaf_rel ev s s' a a' :
  okEvent simd ev ->
  related s a ->
  ignoreResult _ (KF_FOR_EACH _ cH ev s) = Ok s' ->
  ignoreResult _ (KF_FOR_EACH _ (azH simd) ev a) = Ok a' ->
  related s' a'.
Proof.
  intros Hok HR Hc Ha. unfold ignoreResult in Hc, Ha.
  apply rbind_Ok in Hc as ([b x] & Hc & [= <-]).
  apply rbind_Ok in Ha as ([b' y] & Ha & [= <-]).
  by destruct (KF_rel _ _ _ _ _ _ _ Hok HR Hc Ha) as (_ & _ & H).
Qed.

Lemma walks_related (T : QualType) : fieldQ T /\ baseQ T.
Proof.
  induction T using QualType_nested_ind; split; intros O X s s' a a' HR HC Hc Ha;
    try discriminate Hc; try discriminate HC;
    try (by eapply leaf_rel; [|exact HR|exact Hc|exact Ha]);
    try (by eapply forEach_rel; [|exact HR|exact Hc|exact Ha]);
    try (eapply record_rel; [exact H|exact HC|exact HR|exact Hc|exact Ha]).
  - (* sampler *)
    eapply leaf_rel; [|exact HR|exact Hc|exact Ha]. cbn in HC. by destruct simd.
  - (* stream *)
    cbn [visitField] in Hc, Ha.
    apply rbind_Ok in Hc as ([b s1] & Hc1 & Hc). apply rbind_Ok in Ha as ([b' a1] & Ha1 & Ha).
    destruct ((fun Hok => KF_rel _ _ _ _ _ _ _ Hok HR Hc1 Ha1) I) as (_ & _ & HR1).
    cbn [snd] in Hc, Ha. unfold visitStreamRecord in Hc, Ha.
    apply rbind_Ok in Hc as (s2 & Hc2 & Hc). apply rbind_Ok in Hc as (s3 & Hc3 & Hc4).
    apply rbind_Ok in Ha as (a2 & Ha2 & Ha). apply rbind_Ok in Ha as (a3 & Ha3 & Ha4).
    eapply forEach_rel; [| |exact Hc4|exact Ha4]; [exact I|].
    eapply stream_fields_rel; [|exact Hc3|exact Ha3].
    eapply forEach_rel; [|exact HR1|exact Hc2|exact Ha2]; exact I.
  - (* union *)
    rewrite SemaSYCL_Properties.visitField_union in Hc. rewrite SemaSYCL_Properties.visitField_union in Ha.
    apply rbind_Ok in Hc as ([b s1] & Hc1 & Hc). apply rbind_Ok in Ha as ([b' a1] & Ha1 & Ha).
    destruct ((fun Hok => KF_rel _ _ _ _ _ _ _ Hok HR Hc1 Ha1) I) as (-> & -> & HR1).
    cbn [fst snd] in Hc, Ha. injection Hc as <-. injection Ha as <-. exact HR1.
  - (* array of constant size *)
    rewrite SemaSYCL_Properties.visitField_constant_array in Hc. rewrite SemaSYCL_Properties.visitField_constant_array in Ha.
    refine (array_rel O X _ (Some (T, n)) _ _ _ _ _ HC HR Hc Ha).
    intros ET' n' [= <- <-]. apply IHT.
  - (* array of variable size *)
    rewrite SemaSYCL_Properties.visitField_variable_array in Hc. rewrite SemaSYCL_Properties.visitField_variable_array in Ha.
    refine (array_rel O X _ None _ _ _ _ _ _ HR Hc Ha); [discriminate|].
    by destruct (hasAttr _ _).
  - (* incomplete array *)
    rewrite SemaSYCL_Properties.visitField_incomplete_array in Hc. rewrite SemaSYCL_Properties.visitField_incomplete_array in Ha.
    refine (array_rel O X _ None _ _ _ _ _ _ HR Hc Ha); [discriminate|].
    by destruct (hasAttr _ _).
Qed.

End SideBySide.

Lemma walks_agree (KernelObj : CXXRecordDecl) (S : Sema) (IsSIMDKernel : bool)
    (cs : ConstructState) (a : ArgsSizeState) :
  comparableKernelObject S IsSIMDKernel KernelObj = true ->
  ConstructOpenCLKernel KernelObj S IsSIMDKernel = Ok cs ->
  argsSizeWalk KernelObj S IsSIMDKernel = Ok a ->
  sameSize IsSIMDKernel cs a.
Proof.
  intros HC Hc Ha. unfold comparableKernelObject in HC.
  apply andb_prop in HC as [HCB HCF].
  unfold ConstructOpenCLKernel, VisitRecordBases, VisitRecordFields in Hc.
  unfold argsSizeWalk, VisitRecordBases, VisitRecordFields in Ha.
  apply rbind_Ok in Hc as (s1 & Hc1 & Hc2). apply rbind_Ok in Ha as (a1 & Ha1 & Ha2).
  eapply (fields_rel S IsSIMDKernel); [|exact HCF| |exact Hc2|exact Ha2].
  { apply Forall_forall. intros F _. apply walks_related. }
  eapply (bases_rel S IsSIMDKernel); [|exact HCB| |exact Hc1|exact Ha1].
  { apply Forall_forall. intros B _. apply walks_related. }
  split; [|reflexivity]. by split.
Qed.

(** X24: the size that [CheckSYCLKernelCall] checks is the size of the
    parameters that [ConstructOpenCLKernel] makes.  When both walks of a
    kernel object end, with the same marks and for the same kind of kernel,
    the size the size checker has counted is the sum of the sizes of the
    types of the kernel parameters the declaration creator has made, as a
    32-bit unsigned number, provided that no base that is walked is a
    stream (the declaration creator makes no parameter for it, the size
    checker counts it) and that the kernel is no ESIMD kernel or no field
    that is walked is a sampler (the two read the parameters of a sampler
    off different initializers then). *)
Theorem checked_size_is_parameter_size (KernelObj : CXXRecordDecl) (S : Sema)
    (IsSIMDKernel : bool) (cs : ConstructState) (a : ArgsSizeState) :
  comparableKernelObject S IsSIMDKernel KernelObj = true ->
  ConstructOpenCLKernel KernelObj S IsSIMDKernel = Ok cs ->
  argsSizeWalk KernelObj S IsSIMDKernel = Ok a ->
  SizeOfParams a = zextBits 32 (paramsSize (Params (decl cs))).
Proof.
  intros HC Hc Ha. by destruct (walks_agree _ _ _ _ _ HC Hc Ha) as [_ _ H].
Qed.

Lemma checked_size_is_parameter_size_witness :
  SizeOfParams
    (SizeSamples.measured KernelSamples.kernelObject KernelSamples.checkedSema false)
  = zextBits 32
      (paramsSize
         (Params (decl (SizeSamples.built KernelSamples.kernelObject
                          KernelSamples.checkedSema false)))).
Proof.
  apply (checked_size_is_parameter_size KernelSamples.kernelObject
           KernelSamples.checkedSema false
           (SizeSamples.built KernelSamples.kernelObject KernelSamples.checkedSema false)
           (SizeSamples.measured KernelSamples.kernelObject KernelSamples.checkedSema
              false)).
  - vm_compute. reflexivity.
  - vm_compute. reflexivity.
  - vm_compute. reflexivity.
Defined.

End SemaSYCL_SizeAgreement.
